(** * JSC: a baseline JPEG codec for constrained environments

    A shallow embedding of the parts of the JSC library (a cut-down
    Independent JPEG Group codec) that its specification makes claims
    about, and the proofs that settle those claims.

    C integers are modelled as [Z] with the wrap-around of their type
    written out ([JINT], [JLONG], [INT32] are 32-bit signed, [JUINT],
    [JSIZE], [JDIMENSION] are 32-bit unsigned in every shipped
    configuration).  A failed [JSC_ASSERT] is an explicit outcome. *)

From Stdlib Require Import ZArith List Bool Lia.
From Equations Require Import Equations.
Import ListNotations.
Open Scope Z_scope.

(** ** C integer types (jsc_conf_global_types.h) *)

Module Ctypes.

Definition wrap_u (w : Z) (z : Z) : Z := z mod 2 ^ w.

Definition wrap_s (w : Z) (z : Z) : Z :=
  (z + 2 ^ (w - 1)) mod 2 ^ w - 2 ^ (w - 1).

(* typedef I32 JINT; typedef U32 JUINT; typedef I32 JLONG; typedef U32 JSIZE; *)
Definition to_JINT := wrap_s 32.
Definition to_JLONG := wrap_s 32.
Definition to_INT32 := wrap_s 32.
Definition to_JUINT := wrap_u 32.
Definition to_JSIZE := wrap_u 32.
Definition to_JDIMENSION := wrap_u 32.
Definition to_UINT16 := wrap_u 16.
Definition to_JCOEF := wrap_s 16.
Definition to_JOCTET := wrap_u 8.

(* The C type long, which the constants written with an L suffix have:
   64 bits on the LP64 platform the test build runs on. *)
Definition to_long := wrap_s 64.

Definition JINT_MIN : Z := - 2 ^ 31.
Definition JINT_MAX : Z := 2 ^ 31 - 1.
Definition JSIZE_MAX : Z := 4294967295.

(* C's / truncates toward zero. *)
Definition cdiv (a b : Z) : Z := Z.quot a b.

End Ctypes.
Import Ctypes.

(** ** Outcomes of library calls

    [JSC_ASSERT*] is a C [assert] in the shipped test configuration: a
    failed assertion stops the process.  [Asserted] records that; it is
    distinct from every value a function can return to its caller. *)

Inductive outcome (A : Type) : Type :=
| Returned (a : A)
| Asserted
| Diverged.     (* a C loop whose condition can never become false *)
Arguments Returned {A} a.
Arguments Asserted {A}.
Arguments Diverged {A}.

Definition bind_outcome {A B : Type} (o : outcome A) (k : A -> outcome B)
  : outcome B :=
  match o with
  | Returned a => k a
  | Asserted => Asserted
  | Diverged => Diverged
  end.

Definition JSC_ASSERT {A : Type} (test : bool) (k : outcome A) : outcome A :=
  if test then k else Asserted.

Notation "x <- c1 ;; c2" := (bind_outcome c1 (fun x => c2))
  (at level 61, c1 at next level, right associativity).

(** ** Constants (jpeglib.h, jpegint.h) *)

Definition DCTSIZE : Z := 8.
Definition DCTSIZE2 : Z := 64.
Definition NUM_QUANT_TBLS : Z := 4.
Definition NUM_HUFF_TBLS : Z := 2.
Definition MAX_COMPS_IN_SCAN : Z := 4.
Definition MAX_SAMP_FACTOR : Z := 4.
Definition MAX_COMPONENTS : Z := 10.
Definition CSTATE_START : Z := 100.
Definition JPEG_MAX_DIMENSION : Z := 65500.
Definition BITS_IN_JSAMPLE : Z := 8.

Definition JSC_MAX (a b : Z) : Z := if a >? b then a else b.
Definition JSC_MIN (a b : Z) : Z := if a <? b then a else b.

(** ** jutils.c *)

Definition jpeg_natural_order : list Z :=
  [ 0;  1;  8; 16;  9;  2;  3; 10;
   17; 24; 32; 25; 18; 11;  4;  5;
   12; 19; 26; 33; 40; 48; 41; 34;
   27; 20; 13;  6;  7; 14; 21; 28;
   35; 42; 49; 56; 57; 50; 43; 36;
   29; 22; 15; 23; 30; 37; 44; 51;
   58; 59; 52; 45; 38; 31; 39; 46;
   53; 60; 61; 54; 47; 55; 62; 63;
   63; 63; 63; 63; 63; 63; 63; 63;
   63; 63; 63; 63; 63; 63; 63; 63].

(* JLONG jdiv_round_up (JLONG a, JLONG b) *)
Definition jdiv_round_up (a b : Z) : outcome Z :=
  JSC_ASSERT (a >=? 0) (
  JSC_ASSERT (b >? 0) (
  Returned (cdiv (to_JLONG (to_JLONG (a + b) - 1)) b))).

(** ** jcparam.c *)

Record JQUANT_TBL : Type := mkJQUANT_TBL {
  quantval : list Z;      (* UINT16 quantval[DCTSIZE2] *)
  sent_table : bool
}.

(* The part of [struct jpeg_compress_struct] that parameter setup and the
   restart-section computation read or write. *)
Record jpeg_component_info : Type := mkComp {
  component_id : Z;
  h_samp_factor : Z;
  v_samp_factor : Z;
  quant_tbl_no : Z;
  dc_tbl_no : Z;
  ac_tbl_no : Z
}.

Record jpeg_compress_struct : Type := mkCinfo {
  global_state : Z;
  image_width : Z;                  (* JDIMENSION *)
  image_height : Z;                 (* JDIMENSION *)
  num_components : Z;               (* JINT *)
  comp_info : list jpeg_component_info;
  block_size : Z;                   (* JINT *)
  quant_tbl_ptrs : list (option JQUANT_TBL);   (* NUM_QUANT_TBLS slots *)
  restart_interval : Z;             (* JUINT *)
  restart_in_rows : Z               (* JINT *)
}.

Definition set_quant_tbl_ptrs (c : jpeg_compress_struct)
    (q : list (option JQUANT_TBL)) : jpeg_compress_struct :=
  mkCinfo (global_state c) (image_width c) (image_height c)
          (num_components c) (comp_info c) (block_size c) q
          (restart_interval c) (restart_in_rows c).

Definition set_restart_in_rows (c : jpeg_compress_struct) (r : Z)
  : jpeg_compress_struct :=
  mkCinfo (global_state c) (image_width c) (image_height c)
          (num_components c) (comp_info c) (block_size c) (quant_tbl_ptrs c)
          (restart_interval c) r.

Fixpoint list_set {A : Type} (l : list A) (n : nat) (x : A) : list A :=
  match l, n with
  | [], _ => []
  | _ :: t, O => x :: t
  | h :: t, S n' => h :: list_set t n' x
  end.

(* The two "safety limit" statements that open jpeg_quality_scaling. *)
Definition quality_safety_limit (quality : Z) : Z :=
  let quality := if quality <=? 0 then 1 else quality in
  if quality >? 100 then 100 else quality.

(* JINT jpeg_quality_scaling (JINT quality) *)
Definition jpeg_quality_scaling (quality : Z) : Z :=
  let quality := quality_safety_limit quality in
  if quality <? 50
  then to_JINT (cdiv 5000 quality)
  else to_JINT (200 - to_JINT (quality * 2)).

(* One pass of the body of the [for (i = 0; i < DCTSIZE2; i++)] loop of
   jpeg_add_quant_table: the value stored in quantval[i].  In
     temp = ((JLONG) basic_table[i] * scale_factor + 50L) / 100L;
   the product of the JLONG and the JINT is taken in 32 bits, the long
   constants make the sum and the quotient long, and the quotient goes
   back into the JLONG temp.  A product that does not fit 32 bits is
   undefined in C; it wraps here, and the theorems on the table entries
   assume products that fit. *)
Definition quant_entry (basic : Z) (scale_factor : Z) (force_baseline : bool)
  : Z :=
  let temp :=
    to_JLONG
      (cdiv (to_long (to_JLONG (to_JLONG basic * scale_factor) + 50)) 100) in
  let temp := if temp <=? 0 then 1 else temp in
  let temp := if temp >? 32767 then 32767 else temp in
  let temp := if force_baseline && (temp >? 255) then 255 else temp in
  to_UINT16 temp.

(* jpeg_get_mem_quant_table hands out a fresh table; its contents are
   overwritten entry by entry below. *)
Definition fresh_quant_table : JQUANT_TBL :=
  mkJQUANT_TBL (repeat 0 (Z.to_nat DCTSIZE2)) false.

Fixpoint fill_quantval (n : nat) (i : nat) (basic_table : list Z)
    (scale_factor : Z) (force_baseline : bool) (qv : list Z) : list Z :=
  match n with
  | O => qv
  | S n' =>
      fill_quantval n' (S i) basic_table scale_factor force_baseline
        (list_set qv i
           (quant_entry (nth i basic_table 0) scale_factor force_baseline))
  end.

(* void jpeg_add_quant_table (cinfo, which_tbl, basic_table, scale_factor,
                              force_baseline) *)
Definition jpeg_add_quant_table (cinfo : jpeg_compress_struct)
    (which_tbl : Z) (basic_table : list Z) (scale_factor : Z)
    (force_baseline : bool) : outcome jpeg_compress_struct :=
  JSC_ASSERT (global_state cinfo =? CSTATE_START) (
  JSC_ASSERT (which_tbl >=? 0) (
  JSC_ASSERT (which_tbl <? NUM_QUANT_TBLS) (
    let slot := Z.to_nat which_tbl in
    let qtbl :=
      match nth slot (quant_tbl_ptrs cinfo) None with
      | Some t => t
      | None => fresh_quant_table
      end in
    let qv := fill_quantval (Z.to_nat DCTSIZE2) 0 basic_table scale_factor
                force_baseline (quantval qtbl) in
    Returned (set_quant_tbl_ptrs cinfo
      (list_set (quant_tbl_ptrs cinfo) slot
         (Some (mkJQUANT_TBL qv false))))))).

Definition std_luminance_quant_tbl : list Z :=
  [16; 11; 10; 16; 24; 40; 51; 61;
   12; 12; 14; 19; 26; 58; 60; 55;
   14; 13; 16; 24; 40; 57; 69; 56;
   14; 17; 22; 29; 51; 87; 80; 62;
   18; 22; 37; 56; 68; 109; 103; 77;
   24; 35; 55; 64; 81; 104; 113; 92;
   49; 64; 78; 87; 103; 121; 120; 101;
   72; 92; 95; 98; 112; 100; 103; 99].

Definition std_chrominance_quant_tbl : list Z :=
  [17; 18; 24; 47; 99; 99; 99; 99;
   18; 21; 26; 66; 99; 99; 99; 99;
   24; 26; 56; 99; 99; 99; 99; 99;
   47; 66; 99; 99; 99; 99; 99; 99;
   99; 99; 99; 99; 99; 99; 99; 99;
   99; 99; 99; 99; 99; 99; 99; 99;
   99; 99; 99; 99; 99; 99; 99; 99;
   99; 99; 99; 99; 99; 99; 99; 99].

(* void jpeg_set_linear_quality (cinfo, scale_factor, force_baseline) *)
Definition jpeg_set_linear_quality (cinfo : jpeg_compress_struct)
    (scale_factor : Z) (force_baseline : bool) : outcome jpeg_compress_struct :=
  c1 <- jpeg_add_quant_table cinfo 0 std_luminance_quant_tbl
          scale_factor force_baseline ;;
  jpeg_add_quant_table c1 1 std_chrominance_quant_tbl
    scale_factor force_baseline.

(* void jpeg_set_quality (cinfo, quality, force_baseline) *)
Definition jpeg_set_quality (cinfo : jpeg_compress_struct) (quality : Z)
    (force_baseline : bool) : outcome jpeg_compress_struct :=
  let quality := jpeg_quality_scaling quality in
  jpeg_set_linear_quality cinfo quality force_baseline.

(** ** jsc_compress.c *)

(* The [for (ci ...)] loop of set_restart_sections: the largest vertical
   sampling factor, with the loop's two assertions. *)
Fixpoint max_v_samp_loop (comps : list jpeg_component_info) (n : nat)
    (max_v_samp_factor : Z) : outcome Z :=
  match n with
  | O => Returned max_v_samp_factor
  | S n' =>
      match comps with
      | [] => Asserted   (* comp_info has num_components entries *)
      | compptr :: rest =>
          JSC_ASSERT (v_samp_factor compptr >? 0) (
          JSC_ASSERT (v_samp_factor compptr <=? MAX_SAMP_FACTOR) (
          max_v_samp_loop rest n'
            (JSC_MAX max_v_samp_factor (v_samp_factor compptr))))
      end
  end.

(* static void set_restart_sections (cinfo, n_restart_sections) *)
Definition set_restart_sections (cinfo : jpeg_compress_struct)
    (n_restart_sections : Z) : outcome jpeg_compress_struct :=
  if n_restart_sections >? 1 then
    JSC_ASSERT (num_components cinfo >? 0) (
    JSC_ASSERT (num_components cinfo <=? MAX_COMPS_IN_SCAN) (
      max_v_samp_factor <-
        max_v_samp_loop (comp_info cinfo) (Z.to_nat (num_components cinfo)) 1 ;;
      r <- jdiv_round_up (to_JLONG (image_width cinfo))
             (to_JLONG (to_JINT (max_v_samp_factor * block_size cinfo))) ;;
      let MCU_rows_in_scan := to_JDIMENSION r in
      r2 <- jdiv_round_up (to_JLONG MCU_rows_in_scan)
              (to_JLONG n_restart_sections) ;;
      let cinfo' := set_restart_in_rows cinfo (to_JINT (to_JUINT r2)) in
      JSC_ASSERT (restart_in_rows cinfo' >? 0) (Returned cinfo')))
  else Returned cinfo.

(* jsc_types_pub.h *)
Record JscImage : Type := mkJscImage {
  height : Z;                 (* JDIMENSION *)
  width : Z;                  (* JDIMENSION *)
  n_components : Z;           (* JINT *)
  data : list Z               (* JSAMPLE *)
}.

Record JscBuf : Type := mkJscBuf {
  size_bytes : Z;
  n_bytes_used : Z;
  buf_data : list Z
}.

(* JINT jsc_compress (image, output_mem, working_mem, quality).
   It computes the number of restart sections and tail-calls
   jsc_compress_rst, which is passed here as [jsc_compress_rst]. *)
Definition jsc_compress {R : Type}
    (jsc_compress_rst : JscImage -> JscBuf -> JscBuf -> Z -> Z -> R)
    (image : JscImage) (output_mem working_mem : JscBuf) (quality : Z) : R :=
  let n_restart_sections :=
    to_JINT (to_JDIMENSION (cdiv (height image) DCTSIZE2)) in
  jsc_compress_rst image output_mem working_mem quality n_restart_sections.

(* A value brought into the range lo..hi, as the specification words it. *)
Definition clamp (lo hi x : Z) : Z := Z.max lo (Z.min hi x).
(** ** jpeglib.h: the destination manager *)

Module jpeglib.

(* struct jpeg_destination_mgr.  [out_mem] is the caller's output array
   that [next_output_byte] points into; the pointer itself is kept as an
   offset into that array. *)
Record jpeg_destination_mgr : Type := mk_dest {
  out_mem : list Z;
  next_output_byte : Z;
  free_in_buffer : Z             (* JSIZE *)
}.

End jpeglib.

(** ** jchuff.c: Huffman entropy encoding *)

Module jchuff.

Definition MAX_COEF_BITS : Z := 10.
Definition JPEG_RST0 : Z := 0xD0.

(* typedef struct { JUINT ehufco[256]; U8 ehufsi[256]; } c_derived_tbl; *)
Record c_derived_tbl : Type := mk_c_derived_tbl {
  ehufco : list Z;
  ehufsi : list Z
}.

(* typedef struct { INT32 put_buffer; JINT put_bits;
                    JINT last_dc_val[MAX_COMPS_IN_SCAN]; } savable_state; *)
Record savable_state : Type := mk_savable {
  put_buffer : Z;
  put_bits : Z;
  last_dc_val : list Z
}.

(* The fields of [struct jpeg_compress_struct] that the entropy encoder
   reads through its [cinfo] link; none of them changes during a scan. *)
Record scan_params : Type := mk_scan {
  restart_interval : Z;          (* JUINT *)
  comps_in_scan : Z;
  blocks_in_MCU : Z;
  MCU_membership : list Z;       (* block number -> component in scan *)
  cur_comp_dc_tbl_no : list Z;   (* cur_comp_info[ci]->dc_tbl_no *)
  cur_comp_ac_tbl_no : list Z;   (* cur_comp_info[ci]->ac_tbl_no *)
  lim_Se : Z;
  natural_order : list Z
}.

(* working_state.  The output array is shared: the destination manager
   and the working state both point into it, so the memory [out_mem]
   travels with whoever writes, while each keeps its own
   [next_output_byte] and [free_in_buffer]. *)
Record working_state : Type := mk_working {
  out_mem : list Z;
  next_output_byte : Z;
  free_in_buffer : Z;            (* JSIZE *)
  cur : savable_state;
  cinfo : scan_params
}.

Definition set_cur (st : working_state) (c : savable_state) : working_state :=
  mk_working (out_mem st) (next_output_byte st) (free_in_buffer st) c (cinfo st).

(* A store through a pointer; outside the array the model leaves the
   memory as it is (in C the behaviour is undefined there). *)
Definition store (mem : list Z) (p : Z) (v : Z) : list Z :=
  if p <? 0 then mem else list_set mem (Z.to_nat p) v.

(* #define emit_byte_s(state,val,action): the second component tells
   whether [action] is taken. *)
Definition emit_byte_s (state : working_state) (val : Z)
  : working_state * bool :=
  let mem := store (out_mem state) (next_output_byte state) (to_JOCTET val) in
  let next := next_output_byte state + 1 in
  let free := to_JSIZE (free_in_buffer state - 1) in
  (mk_working mem next free (cur state) (cinfo state), free =? 0).

(* What a routine that "returns FALSE if must suspend" hands back: TRUE
   with its results, or FALSE with the working state as it left it. *)
Inductive attempt (A : Type) : Type :=
| Done (a : A)
| Suspend (state : working_state).
Arguments Done {A} a.
Arguments Suspend {A} state.

Definition suspendable (A : Type) : Type := outcome (attempt A).

Definition and_then {A B : Type} (r : suspendable A)
    (k : A -> suspendable B) : suspendable B :=
  match r with
  | Returned (Done a) => k a
  | Returned (Suspend st) => Returned (Suspend st)
  | Asserted => Asserted
  | Diverged => Diverged
  end.

Notation "r 'THEN' k" := (and_then r k) (at level 62, left associativity).

(* One pass of the body of the [while (put_bits >= 8)] loop of
   emit_bits_s, up to the two shifts: the top byte goes out and, when it
   is 0xFF, a zero byte after it. *)
Definition spill_byte (state : working_state) (put_buffer : Z)
  : attempt working_state :=
  let c := to_JINT (Z.land (Z.shiftr put_buffer 16) 0xFF) in
  let '(state1, suspend1) := emit_byte_s state c in
  if suspend1 then Suspend state1
  else if c =? 0xFF then
    let '(state2, suspend2) := emit_byte_s state1 0 in
    if suspend2 then Suspend state2 else Done state2
  else Done state1.

(* The [while (put_bits >= 8)] loop of emit_bits_s together with the two
   assignments that follow it. *)
Equations? emit_bits_loop (state : working_state) (put_buffer put_bits : Z)
  : attempt working_state by wf (Z.to_nat put_bits) lt :=
  emit_bits_loop state pb bits with Z_lt_ge_dec bits 8 := {
    | left _ =>
        Done (set_cur state (mk_savable pb bits (last_dc_val (cur state))))
    | right _ with spill_byte state pb := {
        | Suspend st => Suspend st
        | Done st =>
            emit_bits_loop st (to_INT32 (Z.shiftl pb 8)) (bits - 8) } }.
Proof. lia. Qed.

(* static boolean emit_bits_s (working_state * state, JUINT code, JINT size) *)
Definition emit_bits_s (state : working_state) (code : Z) (size : Z)
  : suspendable working_state :=
  JSC_ASSERT (negb (size =? 0)) (
    let put_buffer :=
      Z.land (to_INT32 code) (to_INT32 (to_INT32 (Z.shiftl 1 size) - 1)) in
    let put_bits := to_JINT (size + jchuff.put_bits (cur state)) in
    let put_buffer := to_INT32 (Z.shiftl put_buffer (24 - put_bits)) in
    let put_buffer := Z.lor put_buffer (jchuff.put_buffer (cur state)) in
    Returned (emit_bits_loop state put_buffer put_bits)).

(* static boolean flush_bits_s (working_state * state) *)
Definition flush_bits_s (state : working_state) : suspendable working_state :=
  emit_bits_s state 0x7F 7 THEN fun state =>
  Returned (Done (set_cur state (mk_savable 0 0 (last_dc_val (cur state))))).

(* The loop [for (ci = 0; ci < comps_in_scan; ci++) last_dc_val[ci] = 0;] *)
Fixpoint reset_last_dc (n : nat) (ci : nat) (dc : list Z) : list Z :=
  match n with
  | O => dc
  | S n' => reset_last_dc n' (S ci) (list_set dc ci 0)
  end.

(* static boolean emit_restart_s (working_state * state, JINT restart_num) *)
Definition emit_restart_s (state : working_state) (restart_num : Z)
  : suspendable working_state :=
  flush_bits_s state THEN fun state =>
  let '(state, suspend) := emit_byte_s state 0xFF in
  if suspend then Returned (Suspend state) else
  let '(state, suspend) :=
    emit_byte_s state (to_JINT (JPEG_RST0 + restart_num)) in
  if suspend then Returned (Suspend state) else
  Returned (Done
    (set_cur state
      (mk_savable (put_buffer (cur state)) (put_bits (cur state))
         (reset_last_dc (Z.to_nat (comps_in_scan (cinfo state))) 0
            (last_dc_val (cur state)))))).

(* nbits = 0; while (temp) { nbits++; temp >>= 1; }
   A negative [temp] stays negative under [>>=], so the C loop never
   ends on it. *)
Equations? count_bits (temp nbits : Z) : outcome Z
  by wf (Z.to_nat temp) lt :=
  count_bits temp nbits with Ztrichotomy_inf temp 0 := {
    | inleft (left _) => Diverged
    | inleft (right _) => Returned nbits
    | inright _ => count_bits (Z.shiftr temp 1) (nbits + 1) }.
Proof.
  rewrite Z.shiftr_div_pow2 by lia. change (2 ^ 1) with 2.
  assert (temp / 2 < temp) by (apply Z.div_lt; lia).
  assert (0 <= temp / 2) by (apply Z.div_pos; lia). lia.
Qed.

(* nbits = 1; while ((temp >>= 1)) nbits++; *)
Equations? count_bits_ac (temp nbits : Z) : outcome Z
  by wf (Z.to_nat temp) lt :=
  count_bits_ac temp nbits with Ztrichotomy_inf (Z.shiftr temp 1) 0 := {
    | inleft (left _) => Diverged
    | inleft (right _) => Returned nbits
    | inright _ => count_bits_ac (Z.shiftr temp 1) (nbits + 1) }.
Proof.
  rewrite Z.shiftr_div_pow2 in * by lia. change (2 ^ 1) with 2 in *.
  assert (0 < temp).
  { destruct (Z_lt_le_dec 0 temp); auto.
    assert (temp / 2 <= 0) by (apply Z.div_le_upper_bound; lia). lia. }
  assert (temp / 2 < temp) by (apply Z.div_lt; lia). lia.
Qed.

Definition ehufco_at (tbl : c_derived_tbl) (sym : Z) : Z :=
  nth (Z.to_nat sym) (ehufco tbl) 0.
Definition ehufsi_at (tbl : c_derived_tbl) (sym : Z) : Z :=
  nth (Z.to_nat sym) (ehufsi tbl) 0.

(* while (r > 15) { emit_bits_s(actbl->ehufco[0xF0], ...); r -= 16; } *)
Equations? emit_zrl_loop (state : working_state) (actbl : c_derived_tbl)
    (r : Z) : suspendable (working_state * Z) by wf (Z.to_nat r) lt :=
  emit_zrl_loop state actbl r with Z_gt_le_dec r 15 := {
    | left _
        with emit_bits_s state (ehufco_at actbl 0xF0) (ehufsi_at actbl 0xF0) := {
        | Returned (Done st) => emit_zrl_loop st actbl (r - 16)
        | Returned (Suspend st) => Returned (Suspend st)
        | Asserted => Asserted
        | Diverged => Diverged }
    | right _ => Returned (Done (state, r)) }.
Proof. lia. Qed.

Definition block_at (block : list Z) (i : Z) : Z := nth (Z.to_nat i) block 0.

(* The body of [for (k = 1; k <= Se; k++)] in encode_one_block, run
   for the [n] values of k that remain; it hands back the run length r. *)
Fixpoint encode_ac_loop (n : nat) (k : Z) (r : Z) (state : working_state)
    (block : list Z) (actbl : c_derived_tbl)
  : suspendable (working_state * Z) :=
  match n with
  | O => Returned (Done (state, r))
  | S n' =>
      let temp2 :=
        block_at block (nth (Z.to_nat k) (natural_order (cinfo state)) 0) in
      if temp2 =? 0 then
        encode_ac_loop n' (k + 1) (r + 1) state block actbl
      else
        emit_zrl_loop state actbl r THEN fun '(state, r) =>
        let temp := temp2 in
        let '(temp, temp2) :=
          if temp <? 0 then (to_JINT (- temp), to_JINT (temp2 - 1))
          else (temp, temp2) in
        nbits <- count_bits_ac temp 1 ;;
        JSC_ASSERT (nbits <=? MAX_COEF_BITS) (
          let temp := Z.shiftl r 4 + nbits in
          emit_bits_s state (ehufco_at actbl temp) (ehufsi_at actbl temp)
          THEN fun state =>
          emit_bits_s state (to_JUINT temp2) nbits THEN fun state =>
          encode_ac_loop n' (k + 1) 0 state block actbl)
  end.

(* static boolean encode_one_block (working_state * state, JCOEFPTR block,
     JINT last_dc_val, c_derived_tbl *dctbl, c_derived_tbl *actbl) *)
Definition encode_one_block (state : working_state) (block : list Z)
    (last_dc_val : Z) (dctbl actbl : c_derived_tbl)
  : suspendable working_state :=
  let Se := lim_Se (cinfo state) in
  let temp := to_JINT (block_at block 0 - last_dc_val) in
  let temp2 := temp in
  let '(temp, temp2) :=
    if temp <? 0 then (to_JINT (- temp), to_JINT (temp2 - 1))
    else (temp, temp2) in
  nbits <- count_bits temp 0 ;;
  JSC_ASSERT (nbits <=? MAX_COEF_BITS + 1) (
    emit_bits_s state (ehufco_at dctbl nbits) (ehufsi_at dctbl nbits)
    THEN fun state =>
    (if negb (nbits =? 0) then emit_bits_s state (to_JUINT temp2) nbits
     else Returned (Done state)) THEN fun state =>
    encode_ac_loop (Z.to_nat Se) 1 0 state block actbl THEN fun '(state, r) =>
    if r >? 0 then emit_bits_s state (ehufco_at actbl 0) (ehufsi_at actbl 0)
    else Returned (Done state)).

(* The entropy encoder object, less its method pointers. *)
Record huff_entropy_encoder : Type := mk_entropy {
  saved : savable_state;
  restarts_to_go : Z;            (* JUINT *)
  next_restart_num : Z;          (* JINT *)
  dc_derived_tbls : list c_derived_tbl;
  ac_derived_tbls : list c_derived_tbl
}.

(* What encode_mcu_huff reaches through its [cinfo] argument. *)
Record compress_struct : Type := mk_cinfo {
  scan : scan_params;
  dest : jpeglib.jpeg_destination_mgr;
  entropy : huff_entropy_encoder
}.

Definition empty_tbl : c_derived_tbl := mk_c_derived_tbl [] [].

Definition set_last_dc (state : working_state) (ci : Z) (v : Z)
  : working_state :=
  set_cur state
    (mk_savable (put_buffer (cur state)) (put_bits (cur state))
       (list_set (last_dc_val (cur state)) (Z.to_nat ci) v)).

(* for (blkn = 0; blkn < cinfo->blocks_in_MCU; blkn++) { ... } *)
Fixpoint encode_blocks (n : nat) (blkn : nat) (state : working_state)
    (ent : huff_entropy_encoder) (MCU_data : list (list Z))
  : suspendable working_state :=
  match n with
  | O => Returned (Done state)
  | S n' =>
      let ci := nth blkn (MCU_membership (cinfo state)) 0 in
      let dc_no := nth (Z.to_nat ci) (cur_comp_dc_tbl_no (cinfo state)) 0 in
      let ac_no := nth (Z.to_nat ci) (cur_comp_ac_tbl_no (cinfo state)) 0 in
      let block := nth blkn MCU_data [] in
      encode_one_block state block
        (nth (Z.to_nat ci) (last_dc_val (cur state)) 0)
        (nth (Z.to_nat dc_no) (dc_derived_tbls ent) empty_tbl)
        (nth (Z.to_nat ac_no) (ac_derived_tbls ent) empty_tbl)
      THEN fun state =>
      encode_blocks n' (S blkn) (set_last_dc state ci (block_at block 0))
        ent MCU_data
  end.

(* The working state's view of the output array handed back to the
   destination manager whose pointer and count are left alone. *)
Definition uncommitted (c : compress_struct) (st : working_state)
  : compress_struct :=
  mk_cinfo (scan c)
    (jpeglib.mk_dest (out_mem st)
       (jpeglib.next_output_byte (dest c)) (jpeglib.free_in_buffer (dest c)))
    (entropy c).

(* The "Update restart-interval state too" statements that close
   encode_mcu_huff: the new restarts_to_go and next_restart_num. *)
Definition update_restart_state (c : compress_struct) : Z * Z :=
  let ent := entropy c in
  if negb (restart_interval (scan c) =? 0) then
    let '(togo, num) :=
      if restarts_to_go ent =? 0
      then (restart_interval (scan c),
            Z.land (to_JINT (next_restart_num ent + 1)) 7)
      else (restarts_to_go ent, next_restart_num ent) in
    (to_JUINT (togo - 1), num)
  else (restarts_to_go ent, next_restart_num ent).

(* static boolean encode_mcu_huff (j_compress_ptr cinfo, JBLOCKROW *MCU_data) *)
Definition encode_mcu_huff (c : compress_struct) (MCU_data : list (list Z))
  : outcome (bool * compress_struct) :=
  let ent := entropy c in
  let state :=
    mk_working (jpeglib.out_mem (dest c)) (jpeglib.next_output_byte (dest c))
      (jpeglib.free_in_buffer (dest c)) (saved ent) (scan c) in
  let attempt_mcu :=
    (if negb (restart_interval (scan c) =? 0) && (restarts_to_go ent =? 0)
     then emit_restart_s state (next_restart_num ent)
     else Returned (Done state)) THEN fun state =>
    encode_blocks (Z.to_nat (blocks_in_MCU (scan c))) 0 state ent MCU_data in
  match attempt_mcu with
  | Asserted => Asserted
  | Diverged => Diverged
  | Returned (Suspend st) => Returned (false, uncommitted c st)
  | Returned (Done state) =>
      let dest' :=
        jpeglib.mk_dest (out_mem state) (next_output_byte state)
          (free_in_buffer state) in
      let '(togo, num) := update_restart_state c in
      Returned (true,
        mk_cinfo (scan c) dest'
          (mk_entropy (cur state) togo num
             (dc_derived_tbls ent) (ac_derived_tbls ent)))
  end.

(* static void finish_pass_huff (j_compress_ptr cinfo) *)
Definition finish_pass_huff (c : compress_struct) : outcome compress_struct :=
  let ent := entropy c in
  let state :=
    mk_working (jpeglib.out_mem (dest c)) (jpeglib.next_output_byte (dest c))
      (jpeglib.free_in_buffer (dest c)) (saved ent) (scan c) in
  match flush_bits_s state with
  | Asserted => Asserted
  | Diverged => Diverged
  | Returned (Suspend _) => Asserted          (* JSC_ASSERT(flushed) *)
  | Returned (Done state) =>
      Returned
        (mk_cinfo (scan c)
           (jpeglib.mk_dest (out_mem state) (next_output_byte state)
              (free_in_buffer state))
           (mk_entropy (cur state) (restarts_to_go ent) (next_restart_num ent)
              (dc_derived_tbls ent) (ac_derived_tbls ent)))
  end.

(* static void start_pass_huff: the part that resets the encoder's own
   state (the derived tables are built by jpeg_make_c_derived_tbl and are
   taken as given). *)
Definition start_pass_huff (c : compress_struct) : compress_struct :=
  let ent := entropy c in
  mk_cinfo (scan c) (dest c)
    (mk_entropy
       (mk_savable 0 0
          (reset_last_dc (Z.to_nat (comps_in_scan (scan c))) 0
             (last_dc_val (saved ent))))
       (restart_interval (scan c)) 0
       (dc_derived_tbls ent) (ac_derived_tbls ent)).

End jchuff.
(** ** jdmarker.c: finding markers and resynchronizing on restarts *)

Module jdmarker.

Definition M_SOF0 : Z := 0xC0.
Definition M_RST0 : Z := 0xD0.
Definition M_RST7 : Z := 0xD7.

(* What JSC_WARN reports; the decoder keeps going after each. *)
Inductive warning : Type :=
| JWRN_MUST_RESYNC (marker desired : Z)
| JWRN_EXTRANEOUS_DATA (discarded c : Z)
| JWRN_HIT_MARKER
| JWRN_HUFF_BAD_CODE.

(* The fields of [struct jpeg_decompress_struct] and of the objects it
   points to that the marker reader and the entropy decoder touch.  The
   memory source is the list of bytes from [src->next_input_byte] on;
   [src->bytes_in_buffer] is its length, and fill_mem_input_buffer,
   which always returns FALSE, is what an empty list meets. *)
Record jpeg_decompress_struct : Type := mk_dinfo {
  next_input_byte : list Z;
  unread_marker : Z;
  discarded_bytes : Z;           (* marker->discarded_bytes, JUINT *)
  next_restart_num : Z;          (* marker->next_restart_num *)
  insufficient_data : bool;      (* entropy->insufficient_data *)
  warnings : list warning        (* most recent first *)
}.

Definition bytes_in_buffer (cinfo : jpeg_decompress_struct) : Z :=
  Z.of_nat (length (next_input_byte cinfo)).

Definition set_unread_marker (c : jpeg_decompress_struct) (m : Z) :=
  mk_dinfo (next_input_byte c) m (discarded_bytes c) (next_restart_num c)
    (insufficient_data c) (warnings c).

Definition set_next_restart_num (c : jpeg_decompress_struct) (n : Z) :=
  mk_dinfo (next_input_byte c) (unread_marker c) (discarded_bytes c) n
    (insufficient_data c) (warnings c).

Definition warn (c : jpeg_decompress_struct) (w : warning) :=
  mk_dinfo (next_input_byte c) (unread_marker c) (discarded_bytes c)
    (next_restart_num c) (insufficient_data c) (w :: warnings c).

(* discarded_bytes += n; INPUT_SYNC(cinfo); with the read pointer at [inp] *)
Definition discard_and_sync (c : jpeg_decompress_struct) (n : Z)
    (inp : list Z) :=
  mk_dinfo inp (unread_marker c) (to_JUINT (discarded_bytes c + n))
    (next_restart_num c) (insufficient_data c) (warnings c).

(* The statements of next_marker that follow its [for (;;)] loop, with
   the marker byte [c] found and the read pointer at [inp]. *)
Definition next_marker_found (cinfo : jpeg_decompress_struct) (c : Z)
    (inp : list Z) : bool * jpeg_decompress_struct :=
  if negb (discarded_bytes cinfo =? 0) then
    let cinfo := warn cinfo (JWRN_EXTRANEOUS_DATA (discarded_bytes cinfo) c) in
    (false,
     mk_dinfo (next_input_byte cinfo) (unread_marker cinfo) 0
       (next_restart_num cinfo) (insufficient_data cinfo) (warnings cinfo))
  else
    (true,
     mk_dinfo inp c (discarded_bytes cinfo) (next_restart_num cinfo)
       (insufficient_data cinfo) (warnings cinfo)).

(* The [for (;;)] loop of next_marker over the input [inp] read through
   the local copy of the read pointer.  [in_ff] tells whether the scan is
   in the do-while that swallows 0xFF bytes (an 0xFF has been seen) or
   in the while that skips other bytes.  INPUT_BYTE on an empty input
   takes its action, [return FALSE]. *)
Fixpoint next_marker_scan (inp : list Z) (in_ff : bool)
    (cinfo : jpeg_decompress_struct) : bool * jpeg_decompress_struct :=
  match inp with
  | [] => (false, cinfo)
  | c :: rest =>
      if in_ff then
        if c =? 0xFF then next_marker_scan rest true cinfo
        else if negb (c =? 0) then next_marker_found cinfo c rest
        else next_marker_scan rest false (discard_and_sync cinfo 2 rest)
      else
        if c =? 0xFF then next_marker_scan rest true cinfo
        else next_marker_scan rest false (discard_and_sync cinfo 1 rest)
  end.

(* static boolean next_marker (j_decompress_ptr cinfo) *)
Definition next_marker (cinfo : jpeg_decompress_struct)
  : bool * jpeg_decompress_struct :=
  next_marker_scan (next_input_byte cinfo) false cinfo.

(* The if-chain that opens the loop of jpeg_resync_to_restart. *)
Definition recovery_action (marker desired : Z) : Z :=
  if marker <? M_SOF0 then 2
  else if (marker <? M_RST0) || (marker >? M_RST7) then 3
  else
    if (marker =? M_RST0 + Z.land (desired + 1) 7)
       || (marker =? M_RST0 + Z.land (desired + 2) 7) then 3
    else if (marker =? M_RST0 + Z.land (desired - 1) 7)
            || (marker =? M_RST0 + Z.land (desired - 2) 7) then 2
    else 1.

(* One pass of the body of that loop: the routine returns, or goes
   round again with the marker that next_marker found. *)
Inductive resync_pass : Type :=
| Return (r : outcome (bool * jpeg_decompress_struct))
| Again (cinfo : jpeg_decompress_struct).

Definition resync_body (cinfo : jpeg_decompress_struct) (desired marker : Z)
  : resync_pass :=
  let action := recovery_action marker desired in
  if action =? 1 then Return (Returned (true, set_unread_marker cinfo 0))
  else if action =? 2 then
    match next_marker cinfo with
    | (false, cinfo') => Return (Returned (false, cinfo'))
    | (true, cinfo') => Again cinfo'
    end
  else if action =? 3 then Return (Returned (true, cinfo))
  else Return Asserted.

Definition inspect {A : Type} (a : A) : {b : A | a = b} :=
  exist _ a eq_refl.

Equations? resync_loop (cinfo : jpeg_decompress_struct) (desired marker : Z)
  : outcome (bool * jpeg_decompress_struct)
  by wf (length (next_input_byte cinfo)) lt :=
  resync_loop cinfo desired marker
    with inspect (resync_body cinfo desired marker) := {
    | exist _ (Return r) _ => r
    | exist _ (Again cinfo') _ =>
        resync_loop cinfo' desired (unread_marker cinfo') }.
Proof.
  assert (scan_shortens : forall inp in_ff c c',
    next_marker_scan inp in_ff c = (true, c') ->
    (length (next_input_byte c') < length inp)%nat).
  { induction inp as [|x rest IH]; intros in_ff c c' H; simpl in H.
    - discriminate.
    - destruct in_ff.
      + destruct (x =? 255).
        * apply IH in H. simpl. lia.
        * destruct (negb (x =? 0)).
          -- unfold next_marker_found in H.
             destruct (negb (discarded_bytes c =? 0)); [discriminate|].
             injection H as <-. simpl. lia.
          -- apply IH in H. simpl. lia.
      + destruct (x =? 255); apply IH in H; simpl; lia. }
  unfold resync_body in e.
  destruct (recovery_action marker desired =? 1); [discriminate|].
  destruct (recovery_action marker desired =? 2).
  - unfold next_marker in e.
    destruct (next_marker_scan (next_input_byte cinfo) false cinfo)
      as [[|] c1] eqn:E; [|discriminate].
    injection e as <-. eapply scan_shortens; eauto.
  - destruct (recovery_action marker desired =? 3); discriminate.
Qed.

(* boolean jpeg_resync_to_restart (j_decompress_ptr cinfo, JINT desired) *)
Definition jpeg_resync_to_restart (cinfo : jpeg_decompress_struct)
    (desired : Z) : outcome (bool * jpeg_decompress_struct) :=
  let marker := unread_marker cinfo in
  let cinfo := warn cinfo (JWRN_MUST_RESYNC marker desired) in
  resync_loop cinfo desired marker.

(* static boolean read_restart_marker (j_decompress_ptr cinfo) *)
Definition read_restart_marker (cinfo : jpeg_decompress_struct)
  : outcome (bool * jpeg_decompress_struct) :=
  let obtained :=
    if unread_marker cinfo =? 0 then next_marker cinfo else (true, cinfo) in
  match obtained with
  | (false, cinfo) => Returned (false, cinfo)
  | (true, cinfo) =>
      let resynced :=
        if unread_marker cinfo =? M_RST0 + next_restart_num cinfo
        then Returned (true, set_unread_marker cinfo 0)
        else jpeg_resync_to_restart cinfo (next_restart_num cinfo) in
      match resynced with
      | Returned (true, cinfo) =>
          Returned (true,
            set_next_restart_num cinfo
              (Z.land (to_JINT (next_restart_num cinfo + 1)) 7))
      | other => other
      end
  end.

End jdmarker.
(** ** jdhuff.c: Huffman entropy decoding *)

Module jdhuff.

Definition HUFF_LOOKAHEAD : Z := 8.
Definition BIT_BUF_SIZE : Z := 32.
Definition MIN_GET_BITS : Z := BIT_BUF_SIZE - 7.

(* JHUFF_TBL: UINT8 bits[17]; UINT8 huffval[256]; *)
Record JHUFF_TBL : Type := mk_JHUFF_TBL {
  bits : list Z;
  huffval : list Z
}.

(* d_derived_tbl: INT32 maxcode[18]; INT32 valoffset[17]; JHUFF_TBL *pub;
   JINT look_nbits[256]; UINT8 look_sym[256]; *)
Record d_derived_tbl : Type := mk_d_derived_tbl {
  maxcode : list Z;
  valoffset : list Z;
  pub : JHUFF_TBL;
  look_nbits : list Z;
  look_sym : list Z
}.

(* bitread_working_state; [bytes_in_buffer] is the length of
   [next_input_byte]. *)
Record bitread_working_state : Type := mk_bitread {
  next_input_byte : list Z;
  get_buffer : Z;                (* INT32 *)
  bits_left : Z;
  cinfo : jdmarker.jpeg_decompress_struct
}.

(** *** jpeg_make_d_derived_tbl *)

(* Figure C.1: for (l = 1; l <= 16; l++) { i = bits[l]; ...
   while (i) { i--; huffsize[p++] = l; } }   with p = length huffsize *)
Fixpoint make_huffsize (n : nat) (l : Z) (htbl : JHUFF_TBL)
    (huffsize : list Z) : outcome (list Z) :=
  match n with
  | O => Returned huffsize
  | S n' =>
      let i := nth (Z.to_nat l) (bits htbl) 0 in
      JSC_ASSERT (i >=? 0) (
      JSC_ASSERT (Z.of_nat (length huffsize) + i <=? 256) (
        make_huffsize n' (l + 1) htbl (huffsize ++ repeat l (Z.to_nat i))))
  end.

(* Figure C.2, inner loop:
   while (huffsize[p] == si) { huffcode[p++] = code; code++; }
   over [rest], the sizes from huffsize[p] on. *)
Fixpoint assign_run (rest : list Z) (code si : Z) (huffcode : list Z)
  : list Z * Z * list Z :=
  match rest with
  | s :: r =>
      if s =? si
      then assign_run r (to_JUINT (code + 1)) si (huffcode ++ [code])
      else (rest, code, huffcode)
  | [] => ([], code, huffcode)
  end.

Inductive codes_pass : Type :=
| CodesDone (huffcode : list Z)
| CodesAsserted
| CodesNext (rest : list Z) (code si : Z) (huffcode : list Z).

(* One pass of the outer loop [while (huffsize[p])].  Figure C.1 emits
   the sizes in increasing order; were a size below [si] to follow, no
   code would ever be assigned again and the loop would run until its
   assertion fails. *)
Definition codes_body (rest : list Z) (code si : Z) (huffcode : list Z)
  : codes_pass :=
  match rest with
  | [] => CodesDone huffcode
  | s :: _ =>
      if s =? 0 then CodesDone huffcode
      else if s <? si then CodesAsserted
      else
        let '(rest', code', huffcode') := assign_run rest code si huffcode in
        if to_INT32 code' >=? to_INT32 (Z.shiftl 1 si) then CodesAsserted
        else CodesNext rest' (to_JUINT (Z.shiftl code' 1)) (si + 1) huffcode'
  end.

Definition codes_measure (rest : list Z) (si : Z) : nat :=
  fold_right (fun x acc => (Z.to_nat (x - si) + 1 + acc)%nat) O rest.

Equations? generate_codes (rest : list Z) (code si : Z) (huffcode : list Z)
  : outcome (list Z) by wf (codes_measure rest si) lt :=
  generate_codes rest code si huffcode
    with jdmarker.inspect (codes_body rest code si huffcode) := {
    | exist _ (CodesDone hc) _ => Returned hc
    | exist _ CodesAsserted _ => Asserted
    | exist _ (CodesNext rest' code' si' hc') _ =>
        generate_codes rest' code' si' hc' }.
Proof.
  assert (mono : forall l, (codes_measure l (si + 1) <= codes_measure l si)%nat).
  { induction l as [|x l IH]; simpl; lia. }
  assert (run : forall l c h l2 c2 h2,
    assign_run l c si h = (l2, c2, h2) ->
    (codes_measure l2 (si + 1) <= codes_measure l si)%nat /\
    (forall x t, l = x :: t -> x = si ->
       (codes_measure l2 (si + 1) < codes_measure l si)%nat)).
  { induction l as [|x l IH]; intros c h l2 c2 h2 H; simpl in H.
    - injection H as <- _ _. split; [simpl; lia|discriminate].
    - destruct (x =? si) eqn:Ex.
      + apply IH in H. destruct H as [H _]. split.
        * simpl. lia.
        * intros x0 t _ _. simpl. lia.
      + injection H as <- _ _. split; [apply mono|].
        intros x0 t E1 E2. injection E1 as -> _. lia. }
  unfold codes_body in e. destruct rest as [|s r]; [discriminate|].
  destruct (s =? 0); [discriminate|].
  destruct (s <? si) eqn:Es; [discriminate|].
  destruct (assign_run (s :: r) code si huffcode) as [[l1 c1] h1] eqn:Er.
  destruct (to_INT32 c1 >=? to_INT32 (Z.shiftl 1 si)); [discriminate|].
  injection e as <- _ <- _.
  destruct (run _ _ _ _ _ _ Er) as [Hle Hlt].
  destruct (Z.eq_dec s si) as [->|Hne].
  - eapply Hlt; reflexivity.
  - simpl in Er. destruct (s =? si) eqn:Ex; [lia|].
    injection Er as <- _ _. simpl.
    pose proof (mono r). lia.
Qed.

(* Figure F.15: for (l = 1; l <= 16; l++) { if (bits[l]) {...} else {...} } *)
Fixpoint decoding_tables (n : nat) (l : Z) (p : Z) (htbl : JHUFF_TBL)
    (huffcode : list Z) (maxcode valoffset : list Z) : list Z * list Z :=
  match n with
  | O => (maxcode, valoffset)
  | S n' =>
      let b := nth (Z.to_nat l) (bits htbl) 0 in
      if negb (b =? 0) then
        let valoffset :=
          list_set valoffset (Z.to_nat l)
            (to_INT32 (p - to_INT32 (nth (Z.to_nat p) huffcode 0))) in
        let p := p + b in
        let maxcode :=
          list_set maxcode (Z.to_nat l)
            (to_INT32 (nth (Z.to_nat (p - 1)) huffcode 0)) in
        decoding_tables n' (l + 1) p htbl huffcode maxcode valoffset
      else
        decoding_tables n' (l + 1) p htbl huffcode
          (list_set maxcode (Z.to_nat l) (-1)) valoffset
  end.

(* for (ctr = 1 << (HUFF_LOOKAHEAD-l); ctr > 0; ctr--) { ...; lookbits++; } *)
Fixpoint fill_lookahead (ctr : nat) (lookbits : Z) (l sym : Z)
    (nb sy : list Z) : list Z * list Z :=
  match ctr with
  | O => (nb, sy)
  | S ctr' =>
      fill_lookahead ctr' (lookbits + 1) l sym
        (list_set nb (Z.to_nat lookbits) l)
        (list_set sy (Z.to_nat lookbits) sym)
  end.

(* for (i = 1; i <= bits[l]; i++, p++) { ... } *)
Fixpoint lookahead_codes (n : nat) (p : Z) (l : Z) (htbl : JHUFF_TBL)
    (huffcode : list Z) (nb sy : list Z) : Z * list Z * list Z :=
  match n with
  | O => (p, nb, sy)
  | S n' =>
      let lookbits :=
        to_JINT (Z.shiftl (nth (Z.to_nat p) huffcode 0) (HUFF_LOOKAHEAD - l)) in
      let '(nb, sy) :=
        fill_lookahead (Z.to_nat (Z.shiftl 1 (HUFF_LOOKAHEAD - l))) lookbits l
          (nth (Z.to_nat p) (huffval htbl) 0) nb sy in
      lookahead_codes n' (p + 1) l htbl huffcode nb sy
  end.

(* for (l = 1; l <= HUFF_LOOKAHEAD; l++) ... *)
Fixpoint lookahead_tables (n : nat) (l : Z) (p : Z) (htbl : JHUFF_TBL)
    (huffcode : list Z) (nb sy : list Z) : list Z * list Z :=
  match n with
  | O => (nb, sy)
  | S n' =>
      let '(p, nb, sy) :=
        lookahead_codes (Z.to_nat (nth (Z.to_nat l) (bits htbl) 0)) p l htbl
          huffcode nb sy in
      lookahead_tables n' (l + 1) p htbl huffcode nb sy
  end.

(* if (isDC) for (i = 0; i < numsymbols; i++) { assert 0 <= sym <= 15 } *)
Fixpoint dc_symbols_ok (n : nat) (i : nat) (htbl : JHUFF_TBL) : bool :=
  match n with
  | O => true
  | S n' =>
      let sym := nth i (huffval htbl) 0 in
      (sym >=? 0) && (sym <=? 15) && dc_symbols_ok n' (S i) htbl
  end.

(* static void jpeg_make_d_derived_tbl (cinfo, isDC, tblno, pdtbl), for
   the Huffman table [htbl] found in slot [tblno]; a workspace that
   exists already is passed as [old] and overwritten. *)
Definition jpeg_make_d_derived_tbl (htbl : JHUFF_TBL) (isDC : bool)
    (tblno : Z) (old : d_derived_tbl) : outcome d_derived_tbl :=
  JSC_ASSERT (tblno >=? 0) (
  JSC_ASSERT (tblno <? NUM_HUFF_TBLS) (
    huffsize <- make_huffsize 16 1 htbl [] ;;
    let numsymbols := length huffsize in
    let huffsize := huffsize ++ [0] in
    huffcode <- generate_codes huffsize 0 (nth 0 huffsize 0) [] ;;
    let '(maxcode, valoffset) :=
      decoding_tables 16 1 0 htbl huffcode (maxcode old) (valoffset old) in
    let maxcode := list_set maxcode 17 0xFFFFF in
    let '(nb, sy) :=
      lookahead_tables 8 1 0 htbl huffcode (repeat 0 256) (look_sym old) in
    JSC_ASSERT (negb isDC || dc_symbols_ok numsymbols 0 htbl) (
      Returned (mk_d_derived_tbl maxcode valoffset htbl nb sy)))).

(* What the allocator hands out for a workspace not made yet. *)
Definition blank_d_derived_tbl : d_derived_tbl :=
  mk_d_derived_tbl (repeat 0 18) (repeat 0 17) (mk_JHUFF_TBL [] [])
    (repeat 0 256) (repeat 0 256).

(** *** jpeg_fill_bit_buffer *)

(* The do-while of jpeg_fill_bit_buffer that discards 0xFF bytes: the
   first byte that is not 0xFF and the input after it, or nothing when
   the input runs out (fill_mem_input_buffer returns FALSE). *)
Fixpoint skip_ff (inp : list Z) : option (Z * list Z) :=
  match inp with
  | [] => None
  | c :: rest => if c =? 0xFF then skip_ff rest else Some (c, rest)
  end.

(* What one pass of the [while (bits_left < MIN_GET_BITS)] loop reads. *)
Inductive fill_pass : Type :=
| NoBytes                                 (* return FALSE *)
| DataByte (c : Z) (rest : list Z)        (* load c into get_buffer *)
| Marker (c : Z) (rest : list Z).         (* goto no_more_bytes *)

Definition fill_body (inp : list Z) : fill_pass :=
  match inp with
  | [] => NoBytes
  | c :: rest =>
      if c =? 0xFF then
        match skip_ff rest with
        | None => NoBytes
        | Some (c, rest) =>
            if c =? 0 then DataByte 0xFF rest else Marker c rest
        end
      else DataByte c rest
  end.

(* How the [while] loop is left. *)
Inductive fill_exit : Type :=
| Suspended
| Filled (inp : list Z) (get_buffer bits_left : Z)
| HitMarker (c : Z) (inp : list Z) (get_buffer bits_left : Z).

Equations? fill_loop (inp : list Z) (get_buffer bits_left : Z) : fill_exit
  by wf (length inp) lt :=
  fill_loop inp gb bl with Z_lt_ge_dec bl MIN_GET_BITS := {
    | right _ => Filled inp gb bl
    | left _ with jdmarker.inspect (fill_body inp) := {
      | exist _ NoBytes _ => Suspended
      | exist _ (Marker c rest) _ => HitMarker c rest gb bl
      | exist _ (DataByte c rest) _ =>
          fill_loop rest (to_INT32 (Z.lor (to_INT32 (Z.shiftl gb 8)) c))
            (bl + 8) } }.
Proof.
  assert (skip : forall xs c0 r0, skip_ff xs = Some (c0, r0) ->
                                  (length r0 < length xs)%nat).
  { induction xs as [|x xs IH]; intros c0 r0 H; simpl in H; [discriminate|].
    destruct (x =? 255).
    - apply IH in H. simpl. lia.
    - injection H as _ <-. simpl. lia. }
  unfold fill_body in e. destruct inp as [|x xs]; [discriminate|].
  destruct (x =? 255).
  - destruct (skip_ff xs) as [[c1 r1]|] eqn:Es; [|discriminate].
    apply skip in Es. destruct (c1 =? 0); [|discriminate].
    injection e as _ <-. simpl. lia.
  - injection e as _ <-. simpl. lia.
Qed.

(* The code after the label no_more_bytes. *)
Definition no_more_bytes (cinfo : jdmarker.jpeg_decompress_struct)
    (get_buffer bits_left nbits : Z)
  : jdmarker.jpeg_decompress_struct * Z * Z :=
  if nbits >? bits_left then
    let cinfo :=
      if negb (jdmarker.insufficient_data cinfo) then
        let cinfo := jdmarker.warn cinfo jdmarker.JWRN_HIT_MARKER in
        jdmarker.mk_dinfo (jdmarker.next_input_byte cinfo)
          (jdmarker.unread_marker cinfo) (jdmarker.discarded_bytes cinfo)
          (jdmarker.next_restart_num cinfo) true (jdmarker.warnings cinfo)
      else cinfo in
    (cinfo, to_INT32 (Z.shiftl get_buffer (MIN_GET_BITS - bits_left)),
     MIN_GET_BITS)
  else (cinfo, get_buffer, bits_left).

(* static boolean jpeg_fill_bit_buffer (bitread_working_state * state,
     bit_buf_type get_buffer, JINT bits_left, JINT nbits) *)
Definition jpeg_fill_bit_buffer (state : bitread_working_state)
    (get_buffer bits_left nbits : Z) : bool * bitread_working_state :=
  if jdmarker.unread_marker (cinfo state) =? 0 then
    match fill_loop (next_input_byte state) get_buffer bits_left with
    | Suspended => (false, state)
    | Filled inp gb bl => (true, mk_bitread inp gb bl (cinfo state))
    | HitMarker c inp gb bl =>
        let cinfo := jdmarker.set_unread_marker (cinfo state) c in
        let '(cinfo, gb, bl) := no_more_bytes cinfo gb bl nbits in
        (true, mk_bitread inp gb bl cinfo)
    end
  else
    let '(cinfo, gb, bl) :=
      no_more_bytes (cinfo state) get_buffer bits_left nbits in
    (true, mk_bitread (next_input_byte state) gb bl cinfo).

(** *** jpeg_huff_decode *)

Definition bmask : list Z :=
  [0; 0x0001; 0x0003; 0x0007; 0x000F; 0x001F; 0x003F; 0x007F; 0x00FF;
   0x01FF; 0x03FF; 0x07FF; 0x0FFF; 0x1FFF; 0x3FFF; 0x7FFF].

Definition BIT_MASK (nbits : Z) : Z := nth (Z.to_nat nbits) bmask 0.

(* CHECK_BIT_BUFFER(state,nbits,action): nothing when [action] is taken *)
Definition CHECK_BIT_BUFFER (state : bitread_working_state)
    (get_buffer bits_left nbits : Z)
  : option (bitread_working_state * Z * Z) :=
  if bits_left <? nbits then
    match jpeg_fill_bit_buffer state get_buffer bits_left nbits with
    | (false, _) => None
    | (true, state) => Some (state, jdhuff.get_buffer state, jdhuff.bits_left state)
    end
  else Some (state, get_buffer, bits_left).

(* GET_BITS(nbits): the bits fetched and the new bits_left *)
Definition GET_BITS (get_buffer bits_left nbits : Z) : Z * Z :=
  let bits_left := to_JINT (bits_left - nbits) in
  (Z.land (to_JINT (Z.shiftr get_buffer bits_left)) (BIT_MASK nbits),
   bits_left).

(* An element of maxcode[], when the index is one. *)
Definition maxcode_at (htbl : d_derived_tbl) (l : Z) : option Z :=
  if l <? 0 then None else nth_error (maxcode htbl) (Z.to_nat l).

(* One pass of [while (code > htbl->maxcode[l])]. *)
Inductive lengthen_pass : Type :=
| CodeComplete
| OutsideTable                   (* maxcode[l] read beyond the array *)
| MustSuspend                    (* return -1 *)
| OneMoreBit (state : bitread_working_state) (get_buffer bits_left : Z)
             (code : Z).

Definition lengthen_body (state : bitread_working_state)
    (get_buffer bits_left : Z) (htbl : d_derived_tbl) (code l : Z)
  : lengthen_pass :=
  match maxcode_at htbl l with
  | None => OutsideTable
  | Some m =>
      if code >? m then
        let code := to_INT32 (Z.shiftl code 1) in
        match CHECK_BIT_BUFFER state get_buffer bits_left 1 with
        | None => MustSuspend
        | Some (state, get_buffer, bits_left) =>
            let '(b, bits_left) := GET_BITS get_buffer bits_left 1 in
            OneMoreBit state get_buffer bits_left (Z.lor code b)
        end
      else CodeComplete
  end.

(* How that loop is left. *)
Inductive lengthen_exit : Type :=
| Lengthened (state : bitread_working_state) (get_buffer bits_left : Z)
             (code l : Z)
| LengthenSuspended
| LengthenOutside.

Equations? lengthen_loop (state : bitread_working_state)
    (get_buffer bits_left : Z) (htbl : d_derived_tbl) (code l : Z)
  : lengthen_exit by wf (length (maxcode htbl) - Z.to_nat l)%nat lt :=
  lengthen_loop state gb bl htbl code l
    with jdmarker.inspect (lengthen_body state gb bl htbl code l) := {
    | exist _ CodeComplete _ => Lengthened state gb bl code l
    | exist _ OutsideTable _ => LengthenOutside
    | exist _ MustSuspend _ => LengthenSuspended
    | exist _ (OneMoreBit state' gb' bl' code') _ =>
        lengthen_loop state' gb' bl' htbl code' (l + 1) }.
Proof.
  unfold lengthen_body, maxcode_at in e.
  destruct (l <? 0) eqn:El; [discriminate|].
  destruct (nth_error (maxcode htbl) (Z.to_nat l)) eqn:En; [|discriminate].
  assert (Z.to_nat l < length (maxcode htbl))%nat.
  { apply nth_error_Some. rewrite En. discriminate. }
  lia.
Qed.

(* What jpeg_huff_decode hands back. *)
Inductive decoded : Type :=
| Symbol (s : Z) (state : bitread_working_state)
| DecodeSuspended                (* return -1 *)
| DecodeOutside.                 (* maxcode[] read beyond the array *)

Definition warn_state (state : bitread_working_state)
    (w : jdmarker.warning) : bitread_working_state :=
  mk_bitread (next_input_byte state) (get_buffer state) (bits_left state)
    (jdmarker.warn (cinfo state) w).

(* static JINT jpeg_huff_decode (bitread_working_state * state,
     bit_buf_type get_buffer, JINT bits_left, d_derived_tbl * htbl,
     JINT min_bits) *)
Definition jpeg_huff_decode (state : bitread_working_state)
    (get_buffer bits_left : Z) (htbl : d_derived_tbl) (min_bits : Z)
  : decoded :=
  let l := min_bits in
  match CHECK_BIT_BUFFER state get_buffer bits_left l with
  | None => DecodeSuspended
  | Some (state, get_buffer, bits_left) =>
      let '(code, bits_left) := GET_BITS get_buffer bits_left l in
      match lengthen_loop state get_buffer bits_left htbl code l with
      | LengthenSuspended => DecodeSuspended
      | LengthenOutside => DecodeOutside
      | Lengthened state get_buffer bits_left code l =>
          let state :=
            mk_bitread (next_input_byte state) get_buffer bits_left
              (cinfo state) in
          if l >? 16 then
            Symbol 0 (warn_state state jdmarker.JWRN_HUFF_BAD_CODE)
          else
            Symbol
              (nth (Z.to_nat
                      (to_JINT (code + nth (Z.to_nat l) (valoffset htbl) 0)))
                 (huffval (pub htbl)) 0)
              state
      end
  end.

End jdhuff.
(** ** The compressor's controllers and the scanline loop
       (jcprepct.c, jccoefct.c, jcmainct.c, jcapistd.c, jsc_compress.c)

    Only the counters and flags that steer the control flow are kept;
    the sample and coefficient arrays are not.  What the forward DCT
    leaves in [MCU_buffer] for the MCU at a given place of the image is
    read through [MCU_buffer_at]. *)

Module controllers.
Import jchuff.

Definition CSTATE_SCANNING : Z := 101.

(* my_prep_controller (jcprepct.c) *)
Record my_prep_controller : Type := mk_prep {
  rows_to_go : Z;                (* JDIMENSION *)
  next_buf_row : Z               (* JINT *)
}.

(* my_coef_controller (jccoefct.c) *)
Record my_coef_controller : Type := mk_coef {
  iMCU_row_num : Z;              (* JDIMENSION *)
  mcu_ctr : Z;                   (* JDIMENSION *)
  MCU_vert_offset : Z;           (* JINT *)
  MCU_rows_per_iMCU_row : Z      (* JINT *)
}.

(* my_main_controller (jcmainct.c) *)
Record my_main_controller : Type := mk_main {
  cur_iMCU_row : Z;              (* JDIMENSION *)
  rowgroup_ctr : Z;              (* JDIMENSION *)
  suspended : bool
}.

(* struct jpeg_compress_struct, as these modules see it.
   [write_headers] stands for the marker writer's write_frame_header
   followed by write_scan_header, [huff] for the destination manager and
   the entropy encoder. *)
Record j_compress : Type := mk_compress {
  global_state : Z;
  image_height : Z;              (* JDIMENSION *)
  next_scanline : Z;             (* JDIMENSION *)
  total_iMCU_rows : Z;           (* JDIMENSION *)
  MCUs_per_row : Z;              (* JDIMENSION *)
  max_v_samp_factor : Z;
  min_DCT_v_scaled_size : Z;
  v_samp_factor0 : Z;            (* cur_comp_info[0]->v_samp_factor *)
  last_row_height0 : Z;          (* cur_comp_info[0]->last_row_height *)
  call_pass_startup : bool;      (* master->call_pass_startup *)
  write_headers : compress_struct -> outcome compress_struct;
  MCU_buffer_at : Z -> Z -> Z -> list (list Z);
                                 (* iMCU row, yoffset, MCU column *)
  prep : my_prep_controller;
  coef : my_coef_controller;
  mainp : my_main_controller;
  huff : compress_struct
}.

Definition set_prep (d : j_compress) (p : my_prep_controller) : j_compress :=
  mk_compress (global_state d) (image_height d) (next_scanline d)
    (total_iMCU_rows d) (MCUs_per_row d) (max_v_samp_factor d)
    (min_DCT_v_scaled_size d) (v_samp_factor0 d) (last_row_height0 d)
    (call_pass_startup d) (write_headers d) (MCU_buffer_at d)
    p (coef d) (mainp d) (huff d).

Definition set_coef (d : j_compress) (c : my_coef_controller) : j_compress :=
  mk_compress (global_state d) (image_height d) (next_scanline d)
    (total_iMCU_rows d) (MCUs_per_row d) (max_v_samp_factor d)
    (min_DCT_v_scaled_size d) (v_samp_factor0 d) (last_row_height0 d)
    (call_pass_startup d) (write_headers d) (MCU_buffer_at d)
    (prep d) c (mainp d) (huff d).

Definition set_mainp (d : j_compress) (m : my_main_controller) : j_compress :=
  mk_compress (global_state d) (image_height d) (next_scanline d)
    (total_iMCU_rows d) (MCUs_per_row d) (max_v_samp_factor d)
    (min_DCT_v_scaled_size d) (v_samp_factor0 d) (last_row_height0 d)
    (call_pass_startup d) (write_headers d) (MCU_buffer_at d)
    (prep d) (coef d) m (huff d).

Definition set_huff (d : j_compress) (h : compress_struct) : j_compress :=
  mk_compress (global_state d) (image_height d) (next_scanline d)
    (total_iMCU_rows d) (MCUs_per_row d) (max_v_samp_factor d)
    (min_DCT_v_scaled_size d) (v_samp_factor0 d) (last_row_height0 d)
    (call_pass_startup d) (write_headers d) (MCU_buffer_at d)
    (prep d) (coef d) (mainp d) h.

Definition set_next_scanline (d : j_compress) (n : Z) : j_compress :=
  mk_compress (global_state d) (image_height d) n
    (total_iMCU_rows d) (MCUs_per_row d) (max_v_samp_factor d)
    (min_DCT_v_scaled_size d) (v_samp_factor0 d) (last_row_height0 d)
    (call_pass_startup d) (write_headers d) (MCU_buffer_at d)
    (prep d) (coef d) (mainp d) (huff d).

Definition set_call_pass_startup (d : j_compress) (b : bool) : j_compress :=
  mk_compress (global_state d) (image_height d) (next_scanline d)
    (total_iMCU_rows d) (MCUs_per_row d) (max_v_samp_factor d)
    (min_DCT_v_scaled_size d) (v_samp_factor0 d) (last_row_height0 d)
    b (write_headers d) (MCU_buffer_at d)
    (prep d) (coef d) (mainp d) (huff d).

(** *** jcprepct.c *)

(* One pass of the body of the while loop of pre_process_data: the
   counters after it, and whether it left through [break]. *)
Definition prep_pass (max_v : Z) (p : my_prep_controller)
    (in_row_ctr in_rows_avail out_row_group_ctr out_row_groups_avail : Z)
  : my_prep_controller * Z * Z * bool :=
  let inrows := to_JDIMENSION (in_rows_avail - in_row_ctr) in
  let numrows := to_JINT (max_v - next_buf_row p) in
  let numrows := to_JINT (JSC_MIN (to_JDIMENSION numrows) inrows) in
  let in_row_ctr := to_JDIMENSION (in_row_ctr + numrows) in
  let nbr := to_JINT (next_buf_row p + numrows) in
  let rtg := to_JDIMENSION (rows_to_go p - numrows) in
  let nbr := if (rtg =? 0) && (nbr <? max_v) then max_v else nbr in
  let '(nbr, out_ctr) :=
    if nbr =? max_v then (0, to_JDIMENSION (out_row_group_ctr + 1))
    else (nbr, out_row_group_ctr) in
  if (rtg =? 0) && (out_ctr <? out_row_groups_avail)
  then (mk_prep rtg nbr, in_row_ctr, out_row_groups_avail, true)
  else (mk_prep rtg nbr, in_row_ctr, out_ctr, false).

(* The loop of pre_process_data, which runs while in_row_ctr is below
   in_rows_avail and out_row_group_ctr below out_row_groups_avail. *)
Fixpoint pre_process_loop (fuel : nat) (max_v : Z) (p : my_prep_controller)
    (in_row_ctr in_rows_avail out_row_group_ctr out_row_groups_avail : Z)
  : outcome (my_prep_controller * Z * Z) :=
  match fuel with
  | O => Diverged
  | S fuel' =>
      if (in_row_ctr <? in_rows_avail) &&
         (out_row_group_ctr <? out_row_groups_avail)
      then
        let '(p', in', out', broke) :=
          prep_pass max_v p in_row_ctr in_rows_avail
            out_row_group_ctr out_row_groups_avail in
        if broke then Returned (p', in', out')
        else pre_process_loop fuel' max_v p' in' in_rows_avail
               out' out_row_groups_avail
      else Returned (p, in_row_ctr, out_row_group_ctr)
  end.

(* pre_process_data (cinfo, input_buf, in_row_ctr, in_rows_avail,
                     output_buf, out_row_group_ctr, out_row_groups_avail).
   Every pass of its loop consumes an input row or completes a row
   group, which bounds the number of passes. *)
Definition pre_process_data (d : j_compress)
    (in_row_ctr in_rows_avail out_row_group_ctr out_row_groups_avail : Z)
  : outcome (j_compress * Z * Z) :=
  let fuel :=
    S (Z.to_nat (in_rows_avail - in_row_ctr) +
       Z.to_nat (out_row_groups_avail - out_row_group_ctr)) in
  r <- pre_process_loop fuel (max_v_samp_factor d) (prep d)
         in_row_ctr in_rows_avail out_row_group_ctr out_row_groups_avail ;;
  let '(p, in', out') := r in
  Returned (set_prep d p, in', out').

(** *** jccoefct.c *)

(* start_iMCU_row (cinfo) *)
Definition start_iMCU_row (d : j_compress) : j_compress :=
  let c := coef d in
  let rows :=
    if comps_in_scan (scan (huff d)) >? 1 then 1
    else if iMCU_row_num c <? to_JDIMENSION (total_iMCU_rows d - 1)
         then v_samp_factor0 d
         else last_row_height0 d in
  set_coef d (mk_coef (iMCU_row_num c) 0 0 rows).

(* for (MCU_col_num = coef->mcu_ctr; MCU_col_num <= last_MCU_col;
        MCU_col_num++) { ... }   for the [n] columns that remain. *)
Fixpoint compress_cols (n : nat) (d : j_compress) (yoffset MCU_col_num : Z)
  : outcome (bool * j_compress) :=
  match n with
  | O => Returned (true, d)
  | S n' =>
      let MCU_data :=
        MCU_buffer_at d (iMCU_row_num (coef d)) yoffset MCU_col_num in
      r <- encode_mcu_huff (huff d) MCU_data ;;
      let '(ok, h) := r in
      if negb ok then
        (* Suspension forced; update state counters and exit *)
        Returned (false,
          set_coef (set_huff d h)
            (mk_coef (iMCU_row_num (coef d)) MCU_col_num yoffset
               (MCU_rows_per_iMCU_row (coef d))))
      else compress_cols n' (set_huff d h) yoffset (MCU_col_num + 1)
  end.

(* for (yoffset = coef->MCU_vert_offset;
        yoffset < coef->MCU_rows_per_iMCU_row; yoffset++) { ... }
   for the [n] MCU rows that remain. *)
Fixpoint compress_rows (n : nat) (d : j_compress) (yoffset : Z)
  : outcome (bool * j_compress) :=
  match n with
  | O => Returned (true, d)
  | S n' =>
      let last_MCU_col := to_JDIMENSION (MCUs_per_row d - 1) in
      r <- compress_cols (Z.to_nat (last_MCU_col + 1 - mcu_ctr (coef d)))
             d yoffset (mcu_ctr (coef d)) ;;
      let '(ok, d) := r in
      if negb ok then Returned (false, d)
      else
        (* Completed an MCU row, but perhaps not an iMCU row *)
        compress_rows n'
          (set_coef d
             (mk_coef (iMCU_row_num (coef d)) 0 (MCU_vert_offset (coef d))
                (MCU_rows_per_iMCU_row (coef d))))
          (yoffset + 1)
  end.

(* compress_data (cinfo, input_buf) *)
Definition compress_data (d : j_compress) : outcome (bool * j_compress) :=
  let c := coef d in
  r <- compress_rows
         (Z.to_nat (MCU_rows_per_iMCU_row c - MCU_vert_offset c))
         d (MCU_vert_offset c) ;;
  let '(ok, d) := r in
  if negb ok then Returned (false, d)
  else
    let c := coef d in
    Returned (true,
      start_iMCU_row
        (set_coef d
           (mk_coef (to_JDIMENSION (iMCU_row_num c + 1)) (mcu_ctr c)
              (MCU_vert_offset c) (MCU_rows_per_iMCU_row c)))).

(** *** jcmainct.c *)

(* "Read input data if we haven't filled the main buffer yet" *)
Definition read_input_data (d : j_compress) (in_row_ctr in_rows_avail : Z)
  : outcome (Z * j_compress) :=
  let m := mainp d in
  if rowgroup_ctr m <? to_JDIMENSION (min_DCT_v_scaled_size d) then
    r <- pre_process_data d in_row_ctr in_rows_avail (rowgroup_ctr m)
           (to_JDIMENSION (min_DCT_v_scaled_size d)) ;;
    let '(d, in', out') := r in
    Returned (in',
      set_mainp d (mk_main (cur_iMCU_row m) out' (suspended m)))
  else Returned (in_row_ctr, d).

(* "If compressor did not consume the whole row": what
   process_data_simple_main does before it returns on a FALSE from
   compress_data. *)
Definition suspend_main (d : j_compress) (in_row_ctr : Z) : Z * j_compress :=
  let m := mainp d in
  if negb (suspended m) then
    (to_JDIMENSION (in_row_ctr - 1),
     set_mainp d (mk_main (cur_iMCU_row m) (rowgroup_ctr m) true))
  else (in_row_ctr, d).

(* while (mainp->cur_iMCU_row < cinfo->total_iMCU_rows) { ... }
   Every pass that does not return advances cur_iMCU_row. *)
Fixpoint process_data_loop (fuel : nat) (d : j_compress)
    (in_row_ctr in_rows_avail : Z) : outcome (Z * j_compress) :=
  match fuel with
  | O => Diverged
  | S fuel' =>
      if cur_iMCU_row (mainp d) <? total_iMCU_rows d then
        r <- read_input_data d in_row_ctr in_rows_avail ;;
        let '(in_row_ctr, d) := r in
        if negb (rowgroup_ctr (mainp d)
                   =? to_JDIMENSION (min_DCT_v_scaled_size d))
        then Returned (in_row_ctr, d)
        else
          r <- compress_data d ;;
          let '(ok, d) := r in
          if negb ok then Returned (suspend_main d in_row_ctr)
          else
            JSC_ASSERT (negb (suspended (mainp d))) (
              let m := mainp d in
              process_data_loop fuel'
                (set_mainp d
                   (mk_main (to_JDIMENSION (cur_iMCU_row m + 1)) 0
                      (suspended m)))
                in_row_ctr in_rows_avail)
      else Returned (in_row_ctr, d)
  end.

(* process_data_simple_main (cinfo, input_buf, in_row_ctr, in_rows_avail) *)
Definition process_data_simple_main (d : j_compress)
    (in_row_ctr in_rows_avail : Z) : outcome (Z * j_compress) :=
  process_data_loop
    (S (Z.to_nat (total_iMCU_rows d - cur_iMCU_row (mainp d))))
    d in_row_ctr in_rows_avail.

(** *** jcmaster.c, jcapistd.c *)

(* pass_startup_std (cinfo) *)
Definition pass_startup_std (d : j_compress) : outcome j_compress :=
  let d := set_call_pass_startup d false in
  h <- write_headers d (huff d) ;;
  Returned (set_huff d h).

(* The start of jpeg_write_scanlines, up to the call of process_data.
   (The warning for excess scanlines only logs; JSC installs no
   progress monitor.) *)
Definition write_scanlines_startup (d : j_compress) : outcome j_compress :=
  JSC_ASSERT (global_state d =? CSTATE_SCANNING) (
    if call_pass_startup d then pass_startup_std d else Returned d).

(* JDIMENSION jpeg_write_scanlines (cinfo, scanlines, num_lines) *)
Definition jpeg_write_scanlines (d : j_compress) (num_lines : Z)
  : outcome (Z * j_compress) :=
  d <- write_scanlines_startup d ;;
  let rows_left := to_JDIMENSION (image_height d - next_scanline d) in
  let num_lines := if num_lines >? rows_left then rows_left else num_lines in
  r <- process_data_simple_main d 0 num_lines ;;
  let '(row_ctr, d) := r in
  Returned (row_ctr,
    set_next_scanline d (to_JDIMENSION (next_scanline d + row_ctr))).

(** *** jsc_compress.c *)

(* Step 5 of jsc_compress_rst, the loop
     while (cinfo.next_scanline < cinfo.image_height) { ... }
   It hands back the value the function returns from inside the loop,
   or None when the loop ends and step 6 follows. *)
Fixpoint write_rows (fuel : nat) (d : j_compress)
  : outcome (option Z * j_compress) :=
  match fuel with
  | O => Diverged
  | S fuel' =>
      if next_scanline d <? image_height d then
        r <- jpeg_write_scanlines d 1 ;;
        let '(rows_written, d) := r in
        if negb (rows_written =? 1) then Returned (Some (-1), d)
        else write_rows fuel' d
      else Returned (None, d)
  end.

Definition jsc_write_rows (d : j_compress) : outcome (option Z * j_compress) :=
  write_rows (S (Z.to_nat (image_height d - next_scanline d))) d.

End controllers.
(** ** jcinit.c, jcmaster.c: parameter validation of the compressor *)

Module jcmaster.

(* jpeg_component_info, as initial_setup reads and fills it. *)
Record component : Type := mk_component {
  h_samp_factor : Z;
  v_samp_factor : Z;
  component_index : Z;
  DCT_h_scaled_size : Z;
  DCT_v_scaled_size : Z;
  width_in_blocks : Z;           (* JDIMENSION *)
  height_in_blocks : Z;          (* JDIMENSION *)
  downsampled_width : Z;         (* JDIMENSION *)
  downsampled_height : Z;        (* JDIMENSION *)
  component_needed : bool
}.

Record j_compress : Type := mk_compress {
  image_width : Z;               (* JDIMENSION *)
  image_height : Z;              (* JDIMENSION *)
  jpeg_width : Z;                (* JDIMENSION *)
  jpeg_height : Z;               (* JDIMENSION *)
  data_precision : Z;
  num_components : Z;
  comp_info : list component;
  block_size : Z;
  min_DCT_h_scaled_size : Z;
  min_DCT_v_scaled_size : Z;
  max_h_samp_factor : Z;
  max_v_samp_factor : Z;
  natural_order : list Z;
  lim_Se : Z;
  total_iMCU_rows : Z            (* JDIMENSION *)
}.

(* void jpeg_calc_jpeg_dimensions (j_compress_ptr cinfo)   (jcinit.c) *)
Definition jpeg_calc_jpeg_dimensions (cinfo : j_compress) : outcome j_compress :=
  JSC_ASSERT (Z.shiftr (to_JLONG (image_width cinfo)) 24 =? 0) (
  JSC_ASSERT (Z.shiftr (to_JLONG (image_height cinfo)) 24 =? 0) (
  Returned
    (mk_compress (image_width cinfo) (image_height cinfo)
       (image_width cinfo) (image_height cinfo)
       (data_precision cinfo) (num_components cinfo) (comp_info cinfo)
       (block_size cinfo) DCTSIZE DCTSIZE
       (max_h_samp_factor cinfo) (max_v_samp_factor cinfo)
       (natural_order cinfo) (lim_Se cinfo) (total_iMCU_rows cinfo)))).

(* "Compute maximum sampling factors; check factor validity": the first
   loop over the components, for [n] of them. *)
Fixpoint max_samp_loop (comps : list component) (n : nat) (max_h max_v : Z)
    {struct n} : outcome (Z * Z) :=
  match n with
  | O => Returned (max_h, max_v)
  | S n' =>
      match comps with
      | [] => Asserted            (* comp_info has num_components entries *)
      | compptr :: rest =>
          JSC_ASSERT (h_samp_factor compptr >? 0) (
          JSC_ASSERT (v_samp_factor compptr >? 0) (
          JSC_ASSERT (h_samp_factor compptr <=? MAX_SAMP_FACTOR) (
          JSC_ASSERT (v_samp_factor compptr <=? MAX_SAMP_FACTOR) (
          max_samp_loop rest n'
            (JSC_MAX max_h (h_samp_factor compptr))
            (JSC_MAX max_v (v_samp_factor compptr))))))
      end
  end.

(* The body of the loop "Compute dimensions of components". *)
Definition component_dimensions (cinfo : j_compress) (max_h max_v : Z)
    (ci : Z) (compptr : component) : outcome component :=
  let ssize := 1 in
  let h_size := to_JINT (min_DCT_h_scaled_size cinfo * ssize) in
  let v_size := to_JINT (min_DCT_v_scaled_size cinfo * ssize) in
  let '(h_size, v_size) :=
    if h_size >? to_JINT (v_size * 2) then (to_JINT (v_size * 2), v_size)
    else if v_size >? to_JINT (h_size * 2) then (h_size, to_JINT (h_size * 2))
    else (h_size, v_size) in
  let h_blocks := to_JLONG (to_JINT (max_h * block_size cinfo)) in
  let v_blocks := to_JLONG (to_JINT (max_v * block_size cinfo)) in
  wb <- jdiv_round_up
          (to_JLONG (to_JLONG (jpeg_width cinfo)
                     * to_JLONG (h_samp_factor compptr))) h_blocks ;;
  hb <- jdiv_round_up
          (to_JLONG (to_JLONG (jpeg_height cinfo)
                     * to_JLONG (v_samp_factor compptr))) v_blocks ;;
  dw <- jdiv_round_up
          (to_JLONG (to_JLONG (jpeg_width cinfo)
                     * to_JLONG (to_JINT (h_samp_factor compptr * h_size))))
          h_blocks ;;
  dh <- jdiv_round_up
          (to_JLONG (to_JLONG (jpeg_height cinfo)
                     * to_JLONG (to_JINT (v_samp_factor compptr * v_size))))
          v_blocks ;;
  Returned
    (mk_component (h_samp_factor compptr) (v_samp_factor compptr) ci
       h_size v_size (to_JDIMENSION wb) (to_JDIMENSION hb)
       (to_JDIMENSION dw) (to_JDIMENSION dh) false).

(* The loop itself, for [n] components from index [ci] on; it hands
   back the components it has filled in. *)
Fixpoint dimensions_loop (cinfo : j_compress) (max_h max_v : Z)
    (comps : list component) (n : nat) (ci : Z) {struct n}
  : outcome (list component) :=
  match n with
  | O => Returned comps
  | S n' =>
      match comps with
      | [] => Asserted
      | compptr :: rest =>
          c <- component_dimensions cinfo max_h max_v ci compptr ;;
          cs <- dimensions_loop cinfo max_h max_v rest n' (ci + 1) ;;
          Returned (c :: cs)
      end
  end.

(* static void initial_setup (j_compress_ptr cinfo) *)
Definition initial_setup (cinfo : j_compress) : outcome j_compress :=
  JSC_ASSERT (block_size cinfo >=? 1) (
  JSC_ASSERT (block_size cinfo <=? 16) (
  JSC_ASSERT (block_size cinfo =? DCTSIZE) (
  let order := jpeg_natural_order in
  let Se :=
    if block_size cinfo <? DCTSIZE
    then to_JINT (to_JINT (block_size cinfo * block_size cinfo) - 1)
    else DCTSIZE2 - 1 in
  (* Sanity check on image dimensions *)
  JSC_ASSERT (jpeg_height cinfo >? 0) (
  JSC_ASSERT (jpeg_width cinfo >? 0) (
  JSC_ASSERT (num_components cinfo >? 0) (
  (* Make sure image isn't bigger than I can handle *)
  JSC_ASSERT (jpeg_height cinfo <=? JPEG_MAX_DIMENSION) (
  JSC_ASSERT (jpeg_width cinfo <=? JPEG_MAX_DIMENSION) (
  JSC_ASSERT (data_precision cinfo >=? 8) (
  JSC_ASSERT (data_precision cinfo <=? 12) (
  JSC_ASSERT (num_components cinfo <=? MAX_COMPONENTS) (
    m <- max_samp_loop (comp_info cinfo)
           (Z.to_nat (num_components cinfo)) 1 1 ;;
    let '(max_h, max_v) := m in
    comps <- dimensions_loop cinfo max_h max_v (comp_info cinfo)
               (Z.to_nat (num_components cinfo)) 0 ;;
    rows <- jdiv_round_up (to_JLONG (jpeg_height cinfo))
              (to_JLONG (to_JINT (max_v * block_size cinfo))) ;;
    Returned
      (mk_compress (image_width cinfo) (image_height cinfo)
         (jpeg_width cinfo) (jpeg_height cinfo)
         (data_precision cinfo) (num_components cinfo) comps
         (block_size cinfo)
         (min_DCT_h_scaled_size cinfo) (min_DCT_v_scaled_size cinfo)
         max_h max_v order Se (to_JDIMENSION rows))))))))))))).

End jcmaster.

(** ** jdinput.c: parameter validation of the decompressor *)

Module jdinput.

Record component : Type := mk_component {
  h_samp_factor : Z;
  v_samp_factor : Z;
  DCT_h_scaled_size : Z;
  DCT_v_scaled_size : Z;
  width_in_blocks : Z;           (* JDIMENSION *)
  height_in_blocks : Z;          (* JDIMENSION *)
  downsampled_width : Z;         (* JDIMENSION *)
  downsampled_height : Z;        (* JDIMENSION *)
  component_needed : bool;
  quant_table : option (list Z)
}.

Record j_decompress : Type := mk_decompress {
  image_width : Z;               (* JDIMENSION, from the SOF marker *)
  image_height : Z;              (* JDIMENSION *)
  data_precision : Z;
  num_components : Z;
  comps_in_scan : Z;
  comp_info : list component;
  is_baseline : bool;
  block_size : Z;
  min_DCT_h_scaled_size : Z;
  min_DCT_v_scaled_size : Z;
  max_h_samp_factor : Z;
  max_v_samp_factor : Z;
  natural_order : list Z;
  lim_Se : Z;
  total_iMCU_rows : Z;           (* JDIMENSION *)
  has_multiple_scans : bool      (* inputctl->has_multiple_scans *)
}.

Fixpoint max_samp_loop (comps : list component) (n : nat) (max_h max_v : Z)
    {struct n} : outcome (Z * Z) :=
  match n with
  | O => Returned (max_h, max_v)
  | S n' =>
      match comps with
      | [] => Asserted            (* comp_info has num_components entries *)
      | compptr :: rest =>
          JSC_ASSERT (h_samp_factor compptr >? 0) (
          JSC_ASSERT (h_samp_factor compptr <=? MAX_SAMP_FACTOR) (
          JSC_ASSERT (v_samp_factor compptr >? 0) (
          JSC_ASSERT (v_samp_factor compptr <=? MAX_SAMP_FACTOR) (
          max_samp_loop rest n'
            (JSC_MAX max_h (h_samp_factor compptr))
            (JSC_MAX max_v (v_samp_factor compptr))))))
      end
  end.

(* The body of the loop "Compute dimensions of components". *)
Definition component_dimensions (cinfo : j_decompress) (max_h max_v : Z)
    (compptr : component) : outcome component :=
  let bs := DCTSIZE in
  wb <- jdiv_round_up
          (to_JLONG (to_JLONG (image_width cinfo)
                     * to_JLONG (h_samp_factor compptr)))
          (to_JLONG (to_JINT (max_h * bs))) ;;
  hb <- jdiv_round_up
          (to_JLONG (to_JLONG (image_height cinfo)
                     * to_JLONG (v_samp_factor compptr)))
          (to_JLONG (to_JINT (max_v * bs))) ;;
  dw <- jdiv_round_up
          (to_JLONG (to_JLONG (image_width cinfo)
                     * to_JLONG (h_samp_factor compptr)))
          (to_JLONG max_h) ;;
  dh <- jdiv_round_up
          (to_JLONG (to_JLONG (image_height cinfo)
                     * to_JLONG (v_samp_factor compptr)))
          (to_JLONG max_v) ;;
  Returned
    (mk_component (h_samp_factor compptr) (v_samp_factor compptr) bs bs
       (to_JDIMENSION wb) (to_JDIMENSION hb)
       (to_JDIMENSION dw) (to_JDIMENSION dh) true None).

Fixpoint dimensions_loop (cinfo : j_decompress) (max_h max_v : Z)
    (comps : list component) (n : nat) {struct n}
  : outcome (list component) :=
  match n with
  | O => Returned comps
  | S n' =>
      match comps with
      | [] => Asserted
      | compptr :: rest =>
          c <- component_dimensions cinfo max_h max_v compptr ;;
          cs <- dimensions_loop cinfo max_h max_v rest n' ;;
          Returned (c :: cs)
      end
  end.

(* static void initial_setup (j_decompress_ptr cinfo) *)
Definition initial_setup (cinfo : j_decompress) : outcome j_decompress :=
  (* Make sure image isn't bigger than I can handle *)
  JSC_ASSERT (to_JLONG (image_height cinfo) <=? to_JLONG JPEG_MAX_DIMENSION) (
  JSC_ASSERT (to_JLONG (image_width cinfo) <=? to_JLONG JPEG_MAX_DIMENSION) (
  JSC_ASSERT (data_precision cinfo >=? 8) (
  JSC_ASSERT (data_precision cinfo <=? 12) (
  JSC_ASSERT (num_components cinfo <=? MAX_COMPONENTS) (
    m <- max_samp_loop (comp_info cinfo)
           (Z.to_nat (num_components cinfo)) 1 1 ;;
    let '(max_h, max_v) := m in
    JSC_ASSERT (is_baseline cinfo) (
      comps <- dimensions_loop cinfo max_h max_v (comp_info cinfo)
                 (Z.to_nat (num_components cinfo)) ;;
      rows <- jdiv_round_up (to_JLONG (image_height cinfo))
                (to_JLONG (to_JINT (max_v * DCTSIZE))) ;;
      Returned
        (mk_decompress (image_width cinfo) (image_height cinfo)
           (data_precision cinfo) (num_components cinfo)
           (comps_in_scan cinfo) comps (is_baseline cinfo)
           DCTSIZE DCTSIZE DCTSIZE max_h max_v
           jpeg_natural_order (DCTSIZE2 - 1) (to_JDIMENSION rows)
           (comps_in_scan cinfo <? num_components cinfo)))))))).

End jdinput.
(** ** jutils.c: the other arithmetic utility *)

(* JLONG jround_up (JLONG a, JLONG b) *)
Definition jround_up (a b : Z) : outcome Z :=
  JSC_ASSERT (a >=? 0) (
  JSC_ASSERT (b >? 0) (
    let a := to_JLONG (a + (b - 1)) in
    Returned (to_JLONG (a - Z.rem a b)))).
(** ** jdhuff.c: restarts and the value bits of a coefficient *)

Module jdhuff_mcu.

(* #define HUFF_EXTEND(x,s)  ((x) <= bmask[(s) - 1] ? (x) - bmask[(s)] : (x))
   decode_mcu uses it with s in 1..15 only. *)
Definition HUFF_EXTEND (x s : Z) : Z :=
  if x <=? nth (Z.to_nat (s - 1)) jdhuff.bmask 0
  then to_JINT (x - nth (Z.to_nat s) jdhuff.bmask 0)
  else x.

(* The pair CHECK_BIT_BUFFER(br_state, s, return FALSE); r = GET_BITS(s);
   of decode_mcu: the bits fetched with the registers after them, or
   nothing when the routine returns FALSE. *)
Definition fetch_bits (state : jdhuff.bitread_working_state)
    (get_buffer bits_left s : Z)
  : option (Z * jdhuff.bitread_working_state * Z * Z) :=
  match jdhuff.CHECK_BIT_BUFFER state get_buffer bits_left s with
  | None => None
  | Some (state, get_buffer, bits_left) =>
      let '(r, bits_left) := jdhuff.GET_BITS get_buffer bits_left s in
      Some (r, state, get_buffer, bits_left)
  end.

(* The decoder's entropy object: the bit buffer saved between MCUs, the
   DC predictions and the restart counter.  Its insufficient_data flag
   is the field of that name in [jdmarker.jpeg_decompress_struct]. *)
Record huff_entropy_decoder : Type := mk_entropy {
  get_buffer : Z;                (* bitstate.get_buffer *)
  bits_left : Z;                 (* bitstate.bits_left *)
  last_dc_val : list Z;          (* saved.last_dc_val[MAX_COMPS_IN_SCAN] *)
  restarts_to_go : Z             (* JUINT *)
}.

(* The decompression object as the entropy decoder sees it. *)
Record decompress_struct : Type := mk_decompress {
  reader : jdmarker.jpeg_decompress_struct;
  comps_in_scan : Z;
  restart_interval : Z;          (* JUINT *)
  entropy : huff_entropy_decoder
}.

Definition set_discarded_bytes (c : jdmarker.jpeg_decompress_struct) (n : Z) :=
  jdmarker.mk_dinfo (jdmarker.next_input_byte c) (jdmarker.unread_marker c) n
    (jdmarker.next_restart_num c) (jdmarker.insufficient_data c)
    (jdmarker.warnings c).

Definition set_insufficient_data (c : jdmarker.jpeg_decompress_struct)
    (b : bool) :=
  jdmarker.mk_dinfo (jdmarker.next_input_byte c) (jdmarker.unread_marker c)
    (jdmarker.discarded_bytes c) (jdmarker.next_restart_num c) b
    (jdmarker.warnings c).

(* static void finish_pass_huff (j_decompress_ptr cinfo) *)
Definition finish_pass_huff (cinfo : decompress_struct) : decompress_struct :=
  let ent := entropy cinfo in
  mk_decompress
    (set_discarded_bytes (reader cinfo)
       (to_JUINT (jdmarker.discarded_bytes (reader cinfo)
                  + cdiv (bits_left ent) 8)))
    (comps_in_scan cinfo) (restart_interval cinfo)
    (mk_entropy (get_buffer ent) 0 (last_dc_val ent) (restarts_to_go ent)).

(* static boolean process_restart (j_decompress_ptr cinfo) *)
Definition process_restart (cinfo : decompress_struct)
  : outcome (bool * decompress_struct) :=
  let cinfo := finish_pass_huff cinfo in
  r <- jdmarker.read_restart_marker (reader cinfo) ;;
  let '(ok, rd) := r in
  let ent := entropy cinfo in
  if negb ok then
    Returned (false,
      mk_decompress rd (comps_in_scan cinfo) (restart_interval cinfo) ent)
  else
    let dc :=
      jchuff.reset_last_dc (Z.to_nat (comps_in_scan cinfo)) 0
        (last_dc_val ent) in
    let ent :=
      mk_entropy (get_buffer ent) (bits_left ent) dc (restart_interval cinfo) in
    let rd :=
      if jdmarker.unread_marker rd =? 0 then set_insufficient_data rd false
      else rd in
    Returned (true,
      mk_decompress rd (comps_in_scan cinfo) (restart_interval cinfo) ent).

End jdhuff_mcu.
(** ** jdatasrc.c: the memory source *)

Module jdatasrc.

(* fill_mem_input_buffer returns FALSE and changes nothing, so the loop
     while (nbytes > src->bytes_in_buffer) {
       nbytes -= src->bytes_in_buffer;
       call src->fill_input_buffer;
     }
   of skip_input_data_std sees the same bytes_in_buffer on every pass;
   with an empty buffer nbytes never changes. *)
Equations? skip_loop (nbytes bytes_in_buffer : Z) : outcome Z
  by wf (Z.to_nat nbytes) lt :=
  skip_loop nbytes b with Z_gt_le_dec nbytes b := {
    | right _ => Returned nbytes
    | left _ with Z_le_gt_dec b 0 := {
      | left _ => Diverged
      | right _ => skip_loop (to_JSIZE (nbytes - b)) b } }.
Proof.
  unfold to_JSIZE, wrap_u.
  pose proof (Z.mod_le (nbytes - b) (2 ^ 32) ltac:(lia) eq_refl).
  pose proof (Z.mod_pos_bound (nbytes - b) (2 ^ 32) eq_refl). lia.
Qed.

(* static void skip_input_data_std (j_decompress_ptr cinfo, JLONG num_bytes)
   on the input from next_input_byte on. *)
Definition skip_input_data_std (inp : list Z) (num_bytes : Z)
  : outcome (list Z) :=
  if num_bytes >? 0 then
    nbytes <- skip_loop (to_JSIZE num_bytes) (Z.of_nat (length inp)) ;;
    Returned (skipn (Z.to_nat nbytes) inp)
  else Returned inp.

End jdatasrc.

(** ** jdmarker.c: reading marker segments *)

Module jdmarker_segments.

(* INPUT_BYTE(cinfo,V,action): the byte and the input after it; nothing
   when [action] is taken. *)
Definition INPUT_BYTE (inp : list Z) : option (Z * list Z) :=
  match inp with
  | [] => None
  | b :: rest => Some (b, rest)
  end.

(* INPUT_2BYTES(cinfo,V,action) *)
Definition INPUT_2BYTES (inp : list Z) : option (Z * list Z) :=
  match inp with
  | b1 :: b2 :: rest => Some (to_JUINT (to_JUINT (Z.shiftl b1 8) + b2), rest)
  | _ => None
  end.

(* A loop  for (i = 0; i < n; i++) INPUT_BYTE(cinfo, a[i], return FALSE);
   the bytes read, and the input after them unless the input ran out. *)
Fixpoint read_bytes (n : nat) (inp : list Z) : list Z * option (list Z) :=
  match n with
  | O => ([], Some inp)
  | S n' =>
      match INPUT_BYTE inp with
      | None => ([], None)
      | Some (b, rest) =>
          let '(bs, r) := read_bytes n' rest in (b :: bs, r)
      end
  end.

(* What JSC_WARN reports from the segment readers. *)
Inductive warning : Type :=
| JERR_BAD_LENGTH
| JERR_DQT_INDEX (n : Z)
| JERR_JSC_DUPLICATE_QUANT_TBL (n : Z)
| JERR_JSC_NOSUPPORT
| JERR_BAD_HUFF_TABLE
| JERR_JSC_BAD_HUFFVALS
| JERR_DHT_INDEX (index : Z).

(* The fields of the decompression object that these readers touch. *)
Record decompress_struct : Type := mk_dinfo {
  next_input_byte : list Z;      (* src->next_input_byte, bytes_in_buffer *)
  restart_interval : Z;          (* JUINT *)
  quant_tbl_ptrs : list (option JQUANT_TBL);
  dc_huff_tbl_ptrs : list (option jdhuff.JHUFF_TBL);
  ac_huff_tbl_ptrs : list (option jdhuff.JHUFF_TBL);
  warnings : list warning        (* most recent first *)
}.

Definition warn (c : decompress_struct) (w : warning) : decompress_struct :=
  mk_dinfo (next_input_byte c) (restart_interval c) (quant_tbl_ptrs c)
    (dc_huff_tbl_ptrs c) (ac_huff_tbl_ptrs c) (w :: warnings c).

(* INPUT_SYNC(cinfo) with the local read pointer at [inp] *)
Definition INPUT_SYNC (c : decompress_struct) (inp : list Z)
  : decompress_struct :=
  mk_dinfo inp (restart_interval c) (quant_tbl_ptrs c) (dc_huff_tbl_ptrs c)
    (ac_huff_tbl_ptrs c) (warnings c).

Definition set_restart_interval (c : decompress_struct) (v : Z) :=
  mk_dinfo (next_input_byte c) v (quant_tbl_ptrs c) (dc_huff_tbl_ptrs c)
    (ac_huff_tbl_ptrs c) (warnings c).

Definition set_quant_tbl (c : decompress_struct) (n : Z) (t : JQUANT_TBL) :=
  mk_dinfo (next_input_byte c) (restart_interval c)
    (list_set (quant_tbl_ptrs c) (Z.to_nat n) (Some t))
    (dc_huff_tbl_ptrs c) (ac_huff_tbl_ptrs c) (warnings c).

Definition set_dc_huff_tbl (c : decompress_struct) (n : Z)
    (t : jdhuff.JHUFF_TBL) :=
  mk_dinfo (next_input_byte c) (restart_interval c) (quant_tbl_ptrs c)
    (list_set (dc_huff_tbl_ptrs c) (Z.to_nat n) (Some t))
    (ac_huff_tbl_ptrs c) (warnings c).

Definition set_ac_huff_tbl (c : decompress_struct) (n : Z)
    (t : jdhuff.JHUFF_TBL) :=
  mk_dinfo (next_input_byte c) (restart_interval c) (quant_tbl_ptrs c)
    (dc_huff_tbl_ptrs c)
    (list_set (ac_huff_tbl_ptrs c) (Z.to_nat n) (Some t)) (warnings c).

(* static boolean skip_variable (j_decompress_ptr cinfo) *)
Definition skip_variable (cinfo : decompress_struct)
  : outcome (bool * decompress_struct) :=
  match INPUT_2BYTES (next_input_byte cinfo) with
  | None => Returned (false, cinfo)
  | Some (length, inp) =>
      let length := to_INT32 (to_INT32 length - 2) in
      let cinfo := INPUT_SYNC cinfo inp in
      if length >? 0 then
        inp <- jdatasrc.skip_input_data_std inp (to_JLONG length) ;;
        Returned (true, INPUT_SYNC cinfo inp)
      else Returned (true, cinfo)
  end.

(* static boolean get_dri (j_decompress_ptr cinfo) *)
Definition get_dri (cinfo : decompress_struct) : bool * decompress_struct :=
  match INPUT_2BYTES (next_input_byte cinfo) with
  | None => (false, cinfo)
  | Some (length, inp) =>
      let length := to_INT32 length in
      if negb (length =? 4) then (false, warn cinfo JERR_BAD_LENGTH)
      else
        match INPUT_2BYTES inp with
        | None => (false, cinfo)
        | Some (tmp, inp) =>
            (true, INPUT_SYNC (set_restart_interval cinfo tmp) inp)
        end
  end.

(* for (i = 0; i < count; i++) {
     INPUT_BYTE(cinfo, tmp, return FALSE);
     quant_ptr->quantval[natural_order[i]] = (UINT16) tmp; }
   The table as the loop leaves it, and the input after the bytes read
   unless the input ran out. *)
Fixpoint read_quantval (n : nat) (i : nat) (inp : list Z) (qv : list Z)
  : list Z * option (list Z) :=
  match n with
  | O => (qv, Some inp)
  | S n' =>
      match INPUT_BYTE inp with
      | None => (qv, None)
      | Some (tmp, rest) =>
          read_quantval n' (S i) rest
            (list_set qv (Z.to_nat (nth i jpeg_natural_order 0))
               (to_UINT16 tmp))
      end
  end.

(* One pass of the body of [while (length > 0)] in get_dqt. *)
Inductive dqt_pass : Type :=
| DqtReturn (r : bool * decompress_struct)
| DqtAgain (cinfo : decompress_struct) (inp : list Z) (length : Z).

Definition dqt_body (cinfo : decompress_struct) (inp : list Z) (length : Z)
  : dqt_pass :=
  let length := to_INT32 (length - 1) in
  match INPUT_BYTE inp with
  | None => DqtReturn (false, cinfo)
  | Some (n, inp) =>
      let prec := Z.shiftr n 4 in
      let n := Z.land n 0x0F in
      if n >=? NUM_QUANT_TBLS then
        DqtReturn (false, warn cinfo (JERR_DQT_INDEX n))
      else
        match nth (Z.to_nat n) (quant_tbl_ptrs cinfo) None with
        | Some _ =>
            DqtReturn (false, warn cinfo (JERR_JSC_DUPLICATE_QUANT_TBL n))
        | None =>
            let quant_ptr := fresh_quant_table in
            let cinfo := set_quant_tbl cinfo n quant_ptr in
            if negb (prec =? 0) then
              DqtReturn (false, warn cinfo JERR_JSC_NOSUPPORT)
            else if length <? DCTSIZE2 then
              DqtReturn (false, warn cinfo JERR_JSC_NOSUPPORT)
            else
              let count := DCTSIZE2 in
              let '(qv, r) :=
                read_quantval (Z.to_nat count) 0 inp (quantval quant_ptr) in
              let cinfo :=
                set_quant_tbl cinfo n
                  (mkJQUANT_TBL qv (sent_table quant_ptr)) in
              match r with
              | None => DqtReturn (false, cinfo)
              | Some inp => DqtAgain cinfo inp (to_INT32 (length - count))
              end
        end
  end.

Lemma read_quantval_shortens n : forall i inp qv qv' inp',
  read_quantval n i inp qv = (qv', Some inp') ->
  (length inp' <= length inp)%nat.
Proof.
  induction n as [|n IH]; intros i inp qv qv' inp' H; cbn in H.
  - injection H as _ <-. lia.
  - destruct inp as [|b rest]; [discriminate|]. cbn in H.
    apply IH in H. cbn. lia.
Qed.

Equations? dqt_loop (cinfo : decompress_struct) (inp : list Z) (length : Z)
  : bool * decompress_struct by wf (List.length inp) lt :=
  dqt_loop cinfo inp len with Z_gt_le_dec len 0 := {
    | right _ =>
        if len <? 0 then (false, warn cinfo JERR_BAD_LENGTH)
        else (true, INPUT_SYNC cinfo inp)
    | left _ with jdmarker.inspect (dqt_body cinfo inp len) := {
      | exist _ (DqtReturn r) _ => r
      | exist _ (DqtAgain cinfo' inp' len') _ => dqt_loop cinfo' inp' len' } }.
Proof.
  unfold dqt_body in e. destruct inp as [|b rest]; [discriminate|].
  cbn [INPUT_BYTE] in e.
  destruct (Z.land b 15 >=? NUM_QUANT_TBLS); [discriminate|].
  destruct (nth _ _ _); [discriminate|].
  destruct (negb _); [discriminate|].
  destruct (_ <? DCTSIZE2); [discriminate|].
  destruct (read_quantval _ _ _ _) as [qv [r|]] eqn:E; [|discriminate].
  injection e as _ <- _. apply read_quantval_shortens in E. cbn. lia.
Qed.

(* static boolean get_dqt (j_decompress_ptr cinfo) *)
Definition get_dqt (cinfo : decompress_struct) : bool * decompress_struct :=
  match INPUT_2BYTES (next_input_byte cinfo) with
  | None => (false, cinfo)
  | Some (length, inp) =>
      dqt_loop cinfo inp (to_INT32 (to_INT32 length - 2))
  end.

(* What jpeg_get_mem_huff_table hands out for a slot not used yet. *)
Definition fresh_huff_table : jdhuff.JHUFF_TBL :=
  jdhuff.mk_JHUFF_TBL (repeat 0 17) (repeat 0 256).

(* count += bits[i]  over the sixteen counts read *)
Fixpoint dht_count (bits16 : list Z) (count : Z) : Z :=
  match bits16 with
  | [] => count
  | b :: rest => dht_count rest (to_JINT (count + b))
  end.

(* for (i = 0; i < count; i++) if (huffval[i] > 15) ... return FALSE *)
Fixpoint dc_values_ok (huffval : list Z) : bool :=
  match huffval with
  | [] => true
  | v :: rest => if v >? 15 then false else dc_values_ok rest
  end.

(* One pass of the body of [while (length > 16)] in get_dht. *)
Inductive dht_pass : Type :=
| DhtReturn (r : bool * decompress_struct)
| DhtAgain (cinfo : decompress_struct) (inp : list Z) (length : Z).

Definition dht_body (cinfo : decompress_struct) (inp : list Z) (length : Z)
  : dht_pass :=
  match INPUT_BYTE inp with
  | None => DhtReturn (false, cinfo)
  | Some (index, inp) =>
      let '(bits16, r) := read_bytes 16 inp in
      match r with
      | None => DhtReturn (false, cinfo)
      | Some inp =>
          let count := dht_count bits16 0 in
          let length := to_INT32 (length - (1 + 16)) in
          if (count >? 256) || (to_INT32 count >? length) then
            DhtReturn (false, warn cinfo JERR_BAD_HUFF_TABLE)
          else
            let '(huffval, r) := read_bytes (Z.to_nat count) inp in
            match r with
            | None => DhtReturn (false, cinfo)
            | Some inp =>
                let length := to_INT32 (length - count) in
                let is_ac := negb (Z.land index 0x10 =? 0) in
                let index := if is_ac then to_JINT (index - 0x10) else index in
                if negb is_ac && negb (dc_values_ok huffval) then
                  DhtReturn (false, warn cinfo JERR_JSC_BAD_HUFFVALS)
                else if (index <? 0) || (index >=? NUM_HUFF_TBLS) then
                  DhtReturn (false, warn cinfo (JERR_DHT_INDEX index))
                else
                  let slots :=
                    if is_ac then ac_huff_tbl_ptrs cinfo
                    else dc_huff_tbl_ptrs cinfo in
                  let old :=
                    match nth (Z.to_nat index) slots None with
                    | Some t => t
                    | None => fresh_huff_table
                    end in
                  let tbl :=
                    jdhuff.mk_JHUFF_TBL (0 :: bits16)
                      (huffval
                       ++ skipn (List.length huffval) (jdhuff.huffval old)) in
                  DhtAgain
                    (if is_ac then set_ac_huff_tbl cinfo index tbl
                     else set_dc_huff_tbl cinfo index tbl)
                    inp length
            end
      end
  end.

Lemma read_bytes_shortens n : forall inp bs inp',
  read_bytes n inp = (bs, Some inp') -> (length inp' <= length inp)%nat.
Proof.
  induction n as [|n IH]; intros inp bs inp' H; cbn in H.
  - injection H as _ <-. lia.
  - destruct inp as [|b rest]; [discriminate|]. cbn in H.
    destruct (read_bytes n rest) as [bs1 r1] eqn:E.
    injection H as _ ->. apply IH in E. cbn. lia.
Qed.

Equations? dht_loop (cinfo : decompress_struct) (inp : list Z) (length : Z)
  : bool * decompress_struct by wf (List.length inp) lt :=
  dht_loop cinfo inp len with Z_gt_le_dec len 16 := {
    | right _ =>
        if negb (len =? 0) then (false, warn cinfo JERR_BAD_LENGTH)
        else (true, INPUT_SYNC cinfo inp)
    | left _ with jdmarker.inspect (dht_body cinfo inp len) := {
      | exist _ (DhtReturn r) _ => r
      | exist _ (DhtAgain cinfo' inp' len') _ => dht_loop cinfo' inp' len' } }.
Proof.
  unfold dht_body in e. destruct inp as [|b rest]; [discriminate|].
  cbn [INPUT_BYTE] in e.
  destruct (read_bytes 16 rest) as [bits16 [r1|]] eqn:E1; [|discriminate].
  destruct (_ || _)%bool; [discriminate|].
  destruct (read_bytes _ r1) as [hv [r2|]] eqn:E2; [|discriminate].
  destruct (_ && _)%bool; [discriminate|].
  destruct (_ || _)%bool; [discriminate|].
  injection e as _ <- _.
  apply read_bytes_shortens in E1, E2. cbn. lia.
Qed.

(* static boolean get_dht (j_decompress_ptr cinfo) *)
Definition get_dht (cinfo : decompress_struct) : bool * decompress_struct :=
  match INPUT_2BYTES (next_input_byte cinfo) with
  | None => (false, cinfo)
  | Some (length, inp) =>
      dht_loop cinfo inp (to_INT32 (to_INT32 length - 2))
  end.

End jdmarker_segments.
(** ** jpeglib.h: a Huffman table with the flag the writer keeps *)

Module jpeglib_tables.

Record JHUFF_TBL : Type := mk_JHUFF_TBL {
  bits : list Z;                 (* UINT8 bits[17] *)
  huffval : list Z;              (* UINT8 huffval[256] *)
  sent_table : bool
}.

End jpeglib_tables.

(** ** jcmarker.c: writing marker segments *)

Module jcmarker.

Definition M_DHT : Z := 0xC4.
Definition M_EOI : Z := 0xD9.
Definition M_DQT : Z := 0xDB.
Definition M_DRI : Z := 0xDD.

(* The fields of the compression object that the marker writer touches. *)
Record compress_struct : Type := mk_cinfo {
  dest : jpeglib.jpeg_destination_mgr;
  quant_tbl_ptrs : list (option JQUANT_TBL);
  dc_huff_tbl_ptrs : list (option jpeglib_tables.JHUFF_TBL);
  ac_huff_tbl_ptrs : list (option jpeglib_tables.JHUFF_TBL);
  lim_Se : Z;
  natural_order : list Z;
  restart_interval : Z           (* JUINT *)
}.

Definition set_dest (c : compress_struct) (d : jpeglib.jpeg_destination_mgr) :=
  mk_cinfo d (quant_tbl_ptrs c) (dc_huff_tbl_ptrs c) (ac_huff_tbl_ptrs c)
    (lim_Se c) (natural_order c) (restart_interval c).

Definition set_quant_tbl_ptrs (c : compress_struct)
    (q : list (option JQUANT_TBL)) :=
  mk_cinfo (dest c) q (dc_huff_tbl_ptrs c) (ac_huff_tbl_ptrs c)
    (lim_Se c) (natural_order c) (restart_interval c).

Definition set_dc_huff_tbl_ptrs (c : compress_struct)
    (h : list (option jpeglib_tables.JHUFF_TBL)) :=
  mk_cinfo (dest c) (quant_tbl_ptrs c) h (ac_huff_tbl_ptrs c)
    (lim_Se c) (natural_order c) (restart_interval c).

Definition set_ac_huff_tbl_ptrs (c : compress_struct)
    (h : list (option jpeglib_tables.JHUFF_TBL)) :=
  mk_cinfo (dest c) (quant_tbl_ptrs c) (dc_huff_tbl_ptrs c) h
    (lim_Se c) (natural_order c) (restart_interval c).

(* static void emit_byte (j_compress_ptr cinfo, JINT val).  The
   destination is the memory destination of jscdatadst.c, whose
   empty_mem_output_buffer is  JSC_ASSERT(0); return FALSE;  *)
Definition emit_byte (cinfo : compress_struct) (val : Z)
  : outcome compress_struct :=
  let d := dest cinfo in
  let mem :=
    jchuff.store (jpeglib.out_mem d) (jpeglib.next_output_byte d)
      (to_JOCTET val) in
  let next := jpeglib.next_output_byte d + 1 in
  let free := to_JSIZE (jpeglib.free_in_buffer d - 1) in
  let cinfo := set_dest cinfo (jpeglib.mk_dest mem next free) in
  if free =? 0 then Asserted else Returned cinfo.

(* static void emit_marker (j_compress_ptr cinfo, JPEG_MARKER mark) *)
Definition emit_marker (cinfo : compress_struct) (mark : Z)
  : outcome compress_struct :=
  cinfo <- emit_byte cinfo 0xFF ;;
  emit_byte cinfo (to_JINT mark).

(* static void emit_2bytes (j_compress_ptr cinfo, JINT value) *)
Definition emit_2bytes (cinfo : compress_struct) (value : Z)
  : outcome compress_struct :=
  cinfo <- emit_byte cinfo (Z.land (Z.shiftr value 8) 0xFF) ;;
  emit_byte cinfo (Z.land value 0xFF).

(* for (i = 0; i <= cinfo->lim_Se; i++)
     if (qtbl->quantval[cinfo->natural_order[i]] > 255) prec = 1; *)
Fixpoint dqt_precision (n : nat) (i : nat) (order qv : list Z) (prec : Z)
  : Z :=
  match n with
  | O => prec
  | S n' =>
      dqt_precision n' (S i) order qv
        (if nth (Z.to_nat (nth i order 0)) qv 0 >? 255 then 1 else prec)
  end.

(* for (i = 0; i <= cinfo->lim_Se; i++) {
     JUINT qval = qtbl->quantval[cinfo->natural_order[i]];
     if (prec) emit_byte(cinfo, (JINT) (qval >> 8));
     emit_byte(cinfo, (JINT) (qval & 0xFF)); } *)
Fixpoint emit_quantvals (n : nat) (i : nat) (order qv : list Z) (prec : Z)
    (cinfo : compress_struct) : outcome compress_struct :=
  match n with
  | O => Returned cinfo
  | S n' =>
      let qval := to_JUINT (nth (Z.to_nat (nth i order 0)) qv 0) in
      cinfo <-
        (if negb (prec =? 0)
         then emit_byte cinfo (to_JINT (Z.shiftr qval 8))
         else Returned cinfo) ;;
      cinfo <- emit_byte cinfo (to_JINT (Z.land qval 0xFF)) ;;
      emit_quantvals n' (S i) order qv prec cinfo
  end.

(* static JINT emit_dqt (j_compress_ptr cinfo, JINT index) *)
Definition emit_dqt (cinfo : compress_struct) (index : Z)
  : outcome (Z * compress_struct) :=
  JSC_ASSERT (0 <=? index) (
  JSC_ASSERT (index <? NUM_QUANT_TBLS) (
    match nth (Z.to_nat index) (quant_tbl_ptrs cinfo) None with
    | None => Asserted
    | Some qtbl =>
        let n := Z.to_nat (lim_Se cinfo + 1) in
        let prec :=
          dqt_precision n 0 (natural_order cinfo) (quantval qtbl) 0 in
        if negb (sent_table qtbl) then
          cinfo <- emit_marker cinfo M_DQT ;;
          cinfo <- emit_2bytes cinfo
                     (if negb (prec =? 0)
                      then to_JINT (lim_Se cinfo * 2 + 2 + 1 + 2)
                      else to_JINT (lim_Se cinfo + 1 + 1 + 2)) ;;
          cinfo <- emit_byte cinfo (to_JINT (index + Z.shiftl prec 4)) ;;
          cinfo <- emit_quantvals n 0 (natural_order cinfo) (quantval qtbl)
                     prec cinfo ;;
          Returned (prec,
            set_quant_tbl_ptrs cinfo
              (list_set (quant_tbl_ptrs cinfo) (Z.to_nat index)
                 (Some (mkJQUANT_TBL (quantval qtbl) true))))
        else Returned (prec, cinfo)
    end)).

(* for (i = 1; i <= 16; i++) length += htbl->bits[i]; *)
Fixpoint dht_length (n : nat) (i : nat) (bits : list Z) (length : Z) : Z :=
  match n with
  | O => length
  | S n' => dht_length n' (S i) bits (to_JINT (length + nth i bits 0))
  end.

(* for (i = from; ...; i++) emit_byte(cinfo, a[i]);   n passes *)
Fixpoint emit_array (n : nat) (i : nat) (a : list Z) (cinfo : compress_struct)
  : outcome compress_struct :=
  match n with
  | O => Returned cinfo
  | S n' =>
      cinfo <- emit_byte cinfo (nth i a 0) ;;
      emit_array n' (S i) a cinfo
  end.

(* static void emit_dht (j_compress_ptr cinfo, JINT index, boolean is_ac) *)
Definition emit_dht (cinfo : compress_struct) (index : Z) (is_ac : bool)
  : outcome compress_struct :=
  let slot := Z.to_nat index in
  let htbl :=
    if is_ac then nth slot (ac_huff_tbl_ptrs cinfo) None
    else nth slot (dc_huff_tbl_ptrs cinfo) None in
  let index := if is_ac then to_JINT (index + 0x10) else index in
  match htbl with
  | None => Asserted
  | Some htbl =>
      if negb (jpeglib_tables.sent_table htbl) then
        cinfo <- emit_marker cinfo M_DHT ;;
        let length := dht_length 16 1 (jpeglib_tables.bits htbl) 0 in
        cinfo <- emit_2bytes cinfo (to_JINT (length + 2 + 1 + 16)) ;;
        cinfo <- emit_byte cinfo index ;;
        cinfo <- emit_array 16 1 (jpeglib_tables.bits htbl) cinfo ;;
        cinfo <- emit_array (Z.to_nat length) 0 (jpeglib_tables.huffval htbl) cinfo ;;
        let sent :=
          jpeglib_tables.mk_JHUFF_TBL (jpeglib_tables.bits htbl)
            (jpeglib_tables.huffval htbl) true in
        Returned
          (if is_ac
           then set_ac_huff_tbl_ptrs cinfo
                  (list_set (ac_huff_tbl_ptrs cinfo) slot (Some sent))
           else set_dc_huff_tbl_ptrs cinfo
                  (list_set (dc_huff_tbl_ptrs cinfo) slot (Some sent)))
      else Returned cinfo
  end.

(* static void emit_dri (j_compress_ptr cinfo) *)
Definition emit_dri (cinfo : compress_struct) : outcome compress_struct :=
  cinfo <- emit_marker cinfo M_DRI ;;
  cinfo <- emit_2bytes cinfo 4 ;;
  emit_2bytes cinfo (to_JINT (restart_interval cinfo)).

(* static void write_file_trailer (j_compress_ptr cinfo) *)
Definition write_file_trailer (cinfo : compress_struct)
  : outcome compress_struct :=
  emit_marker cinfo M_EOI.

End jcmarker.
(** ** jchuff.c: the derived encoding tables *)

Module jchuff_tables.
Import jchuff.

(* Figure C.3:
     for (p = 0; p < lastp; p++) {
       i = htbl->huffval[p];
       assert i >= 0; assert i <= maxsymbol; assert !ehufsi[i];
       dtbl->ehufco[i] = huffcode[p];
       dtbl->ehufsi[i] = huffsize[p];
     }                                          [n] passes remain *)
Fixpoint encoding_tables (n : nat) (p : nat) (htbl : jdhuff.JHUFF_TBL)
    (huffsize huffcode : list Z) (maxsymbol : Z) (ehufco ehufsi : list Z)
  : outcome (list Z * list Z) :=
  match n with
  | O => Returned (ehufco, ehufsi)
  | S n' =>
      let i := nth p (jdhuff.huffval htbl) 0 in
      JSC_ASSERT (i >=? 0) (
      JSC_ASSERT (i <=? maxsymbol) (
      JSC_ASSERT (nth (Z.to_nat i) ehufsi 0 =? 0) (
        encoding_tables n' (S p) htbl huffsize huffcode maxsymbol
          (list_set ehufco (Z.to_nat i) (nth p huffcode 0))
          (list_set ehufsi (Z.to_nat i) (nth p huffsize 0)))))
  end.

(* static void jpeg_make_c_derived_tbl (cinfo, isDC, tblno, pdtbl), for
   the Huffman table [htbl] found in slot [tblno]; a workspace that
   exists already is passed as [old] and overwritten.  Figures C.1 and
   C.2 are the statements of jpeg_make_d_derived_tbl. *)
Definition jpeg_make_c_derived_tbl (htbl : jdhuff.JHUFF_TBL) (isDC : bool)
    (tblno : Z) (old : c_derived_tbl) : outcome c_derived_tbl :=
  JSC_ASSERT (tblno >=? 0) (
  JSC_ASSERT (tblno <? NUM_HUFF_TBLS) (
    huffsize <- jdhuff.make_huffsize 16 1 htbl [] ;;
    let lastp := length huffsize in
    let huffsize := huffsize ++ [0] in
    huffcode <- jdhuff.generate_codes huffsize 0 (nth 0 huffsize 0) [] ;;
    let maxsymbol := if isDC then 15 else 255 in
    r <- encoding_tables lastp 0 htbl huffsize huffcode maxsymbol
           (ehufco old) (repeat 0 256) ;;
    let '(ehufco, ehufsi) := r in
    Returned (mk_c_derived_tbl ehufco ehufsi))).

End jchuff_tables.
(** ** jdhuff.c: decoding the symbols and coefficients of a block *)

Module jdhuff_block.
Import jdhuff jdhuff_mcu.

(* #define PEEK_BITS(nbits)
     (((JINT) (get_buffer >> (bits_left - (nbits)))) & BIT_MASK(nbits)) *)
Definition PEEK_BITS (get_buffer bits_left nbits : Z) : Z :=
  Z.land (to_JINT (Z.shiftr get_buffer (to_JINT (bits_left - nbits))))
         (BIT_MASK nbits).

(* #define DROP_BITS(nbits)  (bits_left -= (nbits)) *)
Definition DROP_BITS (bits_left nbits : Z) : Z := to_JINT (bits_left - nbits).

(* What HUFF_DECODE leaves: the symbol with the registers and the
   working state after it, or [failaction] taken. *)
Inductive huff_decoded : Type :=
| HuffSymbol (result : Z) (state : bitread_working_state)
             (get_buffer bits_left : Z)
| HuffFail
| HuffOutside.       (* jpeg_huff_decode read maxcode[] beyond the array *)

(* The code behind [slowlabel]:
     if ((result = jpeg_huff_decode(&state, get_buffer, bits_left, htbl, nb))
         < 0) { failaction; }
     get_buffer = state.get_buffer; bits_left = state.bits_left; *)
Definition huff_slow (state : bitread_working_state)
    (get_buffer bits_left : Z) (htbl : d_derived_tbl) (nb : Z)
  : huff_decoded :=
  match jpeg_huff_decode state get_buffer bits_left htbl nb with
  | Symbol result state =>
      if result <? 0 then HuffFail
      else HuffSymbol result state (jdhuff.get_buffer state)
             (jdhuff.bits_left state)
  | DecodeSuspended => HuffFail
  | DecodeOutside => HuffOutside
  end.

(* The code from [look = PEEK_BITS(HUFF_LOOKAHEAD)] on.  look_sym[] is
   an array of UINT8. *)
Definition huff_look (state : bitread_working_state)
    (get_buffer bits_left : Z) (htbl : d_derived_tbl) : huff_decoded :=
  let look := PEEK_BITS get_buffer bits_left HUFF_LOOKAHEAD in
  let nb := nth (Z.to_nat look) (look_nbits htbl) 0 in
  if negb (nb =? 0) then
    HuffSymbol (to_JOCTET (nth (Z.to_nat look) (look_sym htbl) 0)) state
      get_buffer (DROP_BITS bits_left nb)
  else huff_slow state get_buffer bits_left htbl (HUFF_LOOKAHEAD + 1).

(* #define HUFF_DECODE(result,state,htbl,failaction,slowlabel) *)
Definition HUFF_DECODE (state : bitread_working_state)
    (get_buffer bits_left : Z) (htbl : d_derived_tbl) : huff_decoded :=
  if bits_left <? HUFF_LOOKAHEAD then
    match jpeg_fill_bit_buffer state get_buffer bits_left 0 with
    | (false, _) => HuffFail
    | (true, state) =>
        let get_buffer := jdhuff.get_buffer state in
        let bits_left := jdhuff.bits_left state in
        if bits_left <? HUFF_LOOKAHEAD
        then huff_slow state get_buffer bits_left htbl 1
        else huff_look state get_buffer bits_left htbl
    end
  else huff_look state get_buffer bits_left htbl.

(* A symbol that HUFF_DECODE delivers is never negative. *)
Lemma HUFF_DECODE_nonneg state get_buffer bits_left htbl s state' gb' bl' :
  HUFF_DECODE state get_buffer bits_left htbl = HuffSymbol s state' gb' bl' ->
  0 <= s.
Proof.
  assert (Slow : forall st gb bl nb,
            huff_slow st gb bl htbl nb = HuffSymbol s state' gb' bl' -> 0 <= s).
  { intros st gb bl nb H. unfold huff_slow in H.
    destruct (jpeg_huff_decode st gb bl htbl nb) as [r st1| |];
      try discriminate.
    destruct (r <? 0) eqn:E; [discriminate|].
    injection H as <- _ _ _. lia. }
  assert (Look : forall st gb bl,
            huff_look st gb bl htbl = HuffSymbol s state' gb' bl' -> 0 <= s).
  { intros st gb bl H. unfold huff_look in H.
    destruct (negb _).
    - injection H as <- _ _ _. unfold to_JOCTET, wrap_u.
      apply Z.mod_pos_bound. reflexivity.
    - eapply Slow. exact H. }
  unfold HUFF_DECODE. intro H.
  destruct (bits_left <? HUFF_LOOKAHEAD).
  - destruct (jpeg_fill_bit_buffer state get_buffer bits_left 0) as [[|] st1];
      [|discriminate].
    cbv zeta in H. destruct (_ <? HUFF_LOOKAHEAD).
    + eapply Slow. exact H.
    + eapply Look. exact H.
  - eapply Look. exact H.
Qed.

(* One pass of a coefficient loop of decode_mcu. *)
Inductive coef_pass : Type :=
| CoefNext (k : Z) (block : list Z) (state : bitread_working_state)
           (get_buffer bits_left : Z)          (* k++ was reached *)
| CoefEnd (block : list Z) (state : bitread_working_state)
          (get_buffer bits_left : Z)           (* goto EndOfBlock, break *)
| CoefFail                                     (* return FALSE *)
| CoefOutside.

(* The body of [while (k < coef_limit)]:
     HUFF_DECODE(s, br_state, htbl, return FALSE, label2);
     r = s >> 4;  s &= 15;
     if (s) { k += r; CHECK_BIT_BUFFER(br_state, s, return FALSE);
              r = GET_BITS(s);  s = HUFF_EXTEND(r, s);
              block[jpeg_natural_order[k]] = (JCOEF) s; }
     else if (r != 15) goto EndOfBlock;
     else k += 15;
     k++;
   k stays below coef_limit + 16. *)
Definition store_pass (k : Z) (block : list Z) (state : bitread_working_state)
    (get_buffer bits_left : Z) (htbl : d_derived_tbl) : coef_pass :=
  match HUFF_DECODE state get_buffer bits_left htbl with
  | HuffFail => CoefFail
  | HuffOutside => CoefOutside
  | HuffSymbol s state get_buffer bits_left =>
      let r := Z.shiftr s 4 in
      let s := Z.land s 15 in
      if negb (s =? 0) then
        let k := k + r in
        match fetch_bits state get_buffer bits_left s with
        | None => CoefFail
        | Some (r, state, get_buffer, bits_left) =>
            let s := HUFF_EXTEND r s in
            CoefNext (k + 1)
              (list_set block
                 (Z.to_nat (nth (Z.to_nat k) jpeg_natural_order 0))
                 (to_JCOEF s))
              state get_buffer bits_left
        end
      else if negb (r =? 15) then CoefEnd block state get_buffer bits_left
      else CoefNext (k + 15 + 1) block state get_buffer bits_left
  end.

(* The body of [while (k < DCTSIZE2)], which discards the values:
     if (s) { k += r; CHECK_BIT_BUFFER(br_state, s, return FALSE);
              DROP_BITS(s); }
     else if (r != 15) break;
     else k += 15;
     k++; *)
Definition discard_pass (k : Z) (block : list Z)
    (state : bitread_working_state) (get_buffer bits_left : Z)
    (htbl : d_derived_tbl) : coef_pass :=
  match HUFF_DECODE state get_buffer bits_left htbl with
  | HuffFail => CoefFail
  | HuffOutside => CoefOutside
  | HuffSymbol s state get_buffer bits_left =>
      let r := Z.shiftr s 4 in
      let s := Z.land s 15 in
      if negb (s =? 0) then
        let k := k + r in
        match CHECK_BIT_BUFFER state get_buffer bits_left s with
        | None => CoefFail
        | Some (state, get_buffer, bits_left) =>
            CoefNext (k + 1) block state get_buffer (DROP_BITS bits_left s)
        end
      else if negb (r =? 15) then CoefEnd block state get_buffer bits_left
      else CoefNext (k + 15 + 1) block state get_buffer bits_left
  end.

Lemma store_pass_advances k block state gb bl htbl k' block' state' gb' bl' :
  store_pass k block state gb bl htbl = CoefNext k' block' state' gb' bl' ->
  k < k'.
Proof.
  unfold store_pass. intro H.
  destruct (HUFF_DECODE state gb bl htbl) as [s st1 gb1 bl1| |] eqn:E;
    try discriminate.
  apply HUFF_DECODE_nonneg in E.
  assert (0 <= Z.shiftr s 4) by (apply Z.shiftr_nonneg; exact E).
  cbv zeta in H. destruct (negb (Z.land s 15 =? 0)).
  - destruct (fetch_bits st1 gb1 bl1 (Z.land s 15)) as [[[[r st2] gb2] bl2]|];
      [|discriminate].
    injection H as <- _ _ _ _. lia.
  - destruct (negb (Z.shiftr s 4 =? 15)); [discriminate|].
    injection H as <- _ _ _ _. lia.
Qed.

Lemma discard_pass_advances k block state gb bl htbl k' block' state' gb' bl' :
  discard_pass k block state gb bl htbl = CoefNext k' block' state' gb' bl' ->
  k < k'.
Proof.
  unfold discard_pass. intro H.
  destruct (HUFF_DECODE state gb bl htbl) as [s st1 gb1 bl1| |] eqn:E;
    try discriminate.
  apply HUFF_DECODE_nonneg in E.
  assert (0 <= Z.shiftr s 4) by (apply Z.shiftr_nonneg; exact E).
  cbv zeta in H. destruct (negb (Z.land s 15 =? 0)).
  - destruct (CHECK_BIT_BUFFER st1 gb1 bl1 (Z.land s 15))
      as [[[st2 gb2] bl2]|]; [|discriminate].
    injection H as <- _ _ _ _. lia.
  - destruct (negb (Z.shiftr s 4 =? 15)); [discriminate|].
    injection H as <- _ _ _ _. lia.
Qed.

(* How a coefficient loop is left. *)
Inductive coef_exit : Type :=
| LoopExit (k : Z) (block : list Z) (state : bitread_working_state)
           (get_buffer bits_left : Z)          (* the condition failed *)
| LoopEnd (block : list Z) (state : bitread_working_state)
          (get_buffer bits_left : Z)           (* goto EndOfBlock, break *)
| LoopFail
| LoopOutside.

(* while (k < limit) { pass }, for either body *)
Equations? coef_loop
    (pass : Z -> list Z -> bitread_working_state -> Z -> Z -> d_derived_tbl
            -> coef_pass)
    (advances : forall k block state gb bl htbl k' block' state' gb' bl',
        pass k block state gb bl htbl = CoefNext k' block' state' gb' bl' ->
        k < k')
    (k limit : Z) (block : list Z) (state : bitread_working_state)
    (get_buffer bits_left : Z) (htbl : d_derived_tbl)
  : coef_exit by wf (Z.to_nat (limit - k)) lt :=
  coef_loop pass advances k limit block state gb bl htbl
    with Z_lt_ge_dec k limit := {
    | right _ => LoopExit k block state gb bl
    | left _ with jdmarker.inspect (pass k block state gb bl htbl) := {
      | exist _ (CoefNext k' block' state' gb' bl') _ =>
          coef_loop pass advances k' limit block' state' gb' bl' htbl
      | exist _ (CoefEnd block' state' gb' bl') _ =>
          LoopEnd block' state' gb' bl'
      | exist _ CoefFail _ => LoopFail
      | exist _ CoefOutside _ => LoopOutside } }.
Proof. apply advances in e. lia. Qed.

Definition store_loop := coef_loop store_pass store_pass_advances.
Definition discard_loop := coef_loop discard_pass discard_pass_advances.

(* What the decoding of one block leaves. *)
Inductive block_decoded : Type :=
| BlockDone (block : list Z) (last_dc_val : Z)
            (state : bitread_working_state) (get_buffer bits_left : Z)
| BlockFail                                    (* return FALSE *)
| BlockOutside.

(* The second loop, [while (k < DCTSIZE2)], up to the label
   EndOfBlock. *)
Definition discard_to_end (k : Z) (block : list Z)
    (state : bitread_working_state) (get_buffer bits_left : Z)
    (htbl : d_derived_tbl) (last_dc_val : Z) : block_decoded :=
  match discard_loop k DCTSIZE2 block state get_buffer bits_left htbl with
  | LoopExit _ block state gb bl => BlockDone block last_dc_val state gb bl
  | LoopEnd block state gb bl => BlockDone block last_dc_val state gb bl
  | LoopFail => BlockFail
  | LoopOutside => BlockOutside
  end.

(* From the end of the first loop, [while (k < coef_limit)], to the
   label EndOfBlock: left by goto, the second loop is passed over. *)
Definition end_of_block (r : coef_exit) (htbl : d_derived_tbl)
    (last_dc_val : Z) : block_decoded :=
  match r with
  | LoopExit k block state gb bl =>
      discard_to_end k block state gb bl htbl last_dc_val
  | LoopEnd block state gb bl => BlockDone block last_dc_val state gb bl
  | LoopFail => BlockFail
  | LoopOutside => BlockOutside
  end.

(* The body of [for (blkn = 0; blkn < cinfo->blocks_in_MCU; blkn++)] in
   decode_mcu, for a block that the caller has cleared: [dctbl] and
   [actbl] are dc_cur_tbls[blkn] and ac_cur_tbls[blkn], [last_dc_val] is
   state.last_dc_val[ci] for the block's component. *)
Definition decode_block (state : bitread_working_state)
    (get_buffer bits_left : Z) (dctbl actbl : d_derived_tbl)
    (coef_limit last_dc_val : Z) (block : list Z) : block_decoded :=
  match HUFF_DECODE state get_buffer bits_left dctbl with
  | HuffFail => BlockFail
  | HuffOutside => BlockOutside
  | HuffSymbol s state get_buffer bits_left =>
      if negb (coef_limit =? 0) then
        (* if (s) { CHECK_BIT_BUFFER; r = GET_BITS(s); s = HUFF_EXTEND(r, s); } *)
        match (if negb (s =? 0) then
                 match fetch_bits state get_buffer bits_left s with
                 | None => None
                 | Some (r, state, get_buffer, bits_left) =>
                     Some (HUFF_EXTEND r s, state, get_buffer, bits_left)
                 end
               else Some (s, state, get_buffer, bits_left)) with
        | None => BlockFail
        | Some (s, state, get_buffer, bits_left) =>
            let s := to_JINT (s + last_dc_val) in
            let block := list_set block 0 (to_JCOEF s) in
            end_of_block
              (store_loop 1 coef_limit block state get_buffer bits_left actbl)
              actbl s
        end
      else
        (* else if (s) { CHECK_BIT_BUFFER(br_state, s, return FALSE);
                         DROP_BITS(s); } *)
        match (if negb (s =? 0) then
                 match CHECK_BIT_BUFFER state get_buffer bits_left s with
                 | None => None
                 | Some (state, get_buffer, bits_left) =>
                     Some (state, get_buffer, DROP_BITS bits_left s)
                 end
               else Some (state, get_buffer, bits_left)) with
        | None => BlockFail
        | Some (state, get_buffer, bits_left) =>
            discard_to_end 1 block state get_buffer bits_left actbl
              last_dc_val
        end
  end.

End jdhuff_block.
(** ** jdhuff.c: decode_mcu *)

Module jdhuff_decode.
Import jdhuff jdhuff_mcu jdhuff_block.

(* What decode_mcu reads of the scan besides [decompress_struct]:
   cinfo->blocks_in_MCU and cinfo->MCU_membership[], and the entropy
   decoder's dc_cur_tbls[], ac_cur_tbls[] and coef_limit[].
   start_pass_huff_decoder sets them and decode_mcu changes none. *)
Record scan_tables : Type := mk_scan_tables {
  blocks_in_MCU : Z;
  MCU_membership : list Z;       (* block number -> component in scan *)
  dc_cur_tbls : list d_derived_tbl;
  ac_cur_tbls : list d_derived_tbl;
  coef_limit : list Z
}.

(* How the loop over the blocks of an MCU is left. *)
Inductive blocks_decoded : Type :=
| BlocksDone (MCU_data : list (list Z)) (last_dc_val : list Z)
             (state : bitread_working_state) (get_buffer bits_left : Z)
| BlocksFail                                   (* return FALSE *)
| BlocksOutside.

(* for (blkn = 0; blkn < cinfo->blocks_in_MCU; blkn++) { ... }, run for
   the [n] blocks that remain.  MCU_data[blkn] are separate blocks;
   state.last_dc_val[ci] is written on the path of a nonzero coefficient
   limit only. *)
Fixpoint decode_blocks (n : nat) (blkn : nat) (tabs : scan_tables)
    (MCU_data : list (list Z)) (last_dc_val : list Z)
    (state : bitread_working_state) (get_buffer bits_left : Z)
  : blocks_decoded :=
  match n with
  | O => BlocksDone MCU_data last_dc_val state get_buffer bits_left
  | S n' =>
      let block := nth blkn MCU_data [] in
      let limit := nth blkn (coef_limit tabs) 0 in
      let ci := nth blkn (MCU_membership tabs) 0 in
      match decode_block state get_buffer bits_left
              (nth blkn (dc_cur_tbls tabs) blank_d_derived_tbl)
              (nth blkn (ac_cur_tbls tabs) blank_d_derived_tbl)
              limit (nth (Z.to_nat ci) last_dc_val 0) block with
      | BlockDone block s state get_buffer bits_left =>
          decode_blocks n' (S blkn) tabs (list_set MCU_data blkn block)
            (if limit =? 0 then last_dc_val
             else list_set last_dc_val (Z.to_nat ci) s)
            state get_buffer bits_left
      | BlockFail => BlocksFail
      | BlockOutside => BlocksOutside
      end
  end.

Definition set_next_input_byte (c : jdmarker.jpeg_decompress_struct)
    (inp : list Z) :=
  jdmarker.mk_dinfo inp (jdmarker.unread_marker c)
    (jdmarker.discarded_bytes c) (jdmarker.next_restart_num c)
    (jdmarker.insufficient_data c) (jdmarker.warnings c).

(* What decode_mcu hands back: TRUE with the decompression object and
   the MCU's blocks as it leaves them, or FALSE.  What a call that
   returns FALSE has left in the object and in the blocks is not
   recorded. *)
Inductive mcu_decoded : Type :=
| McuDone (cinfo : decompress_struct) (MCU_data : list (list Z))
| McuFalse
| McuOutside.

(* The statements under [if (! entropy->insufficient_data)]: the
   working state loaded, the blocks decoded, the state saved.  The
   get_buffer and bits_left fields of br_state are not set on loading;
   jpeg_fill_bit_buffer and jpeg_huff_decode set them before they are
   read. *)
Definition decode_mcu_blocks (tabs : scan_tables) (cinfo : decompress_struct)
    (MCU_data : list (list Z)) : mcu_decoded :=
  let ent := entropy cinfo in
  let br_state :=
    mk_bitread (jdmarker.next_input_byte (reader cinfo)) (get_buffer ent)
      (bits_left ent) (reader cinfo) in
  match decode_blocks (Z.to_nat (blocks_in_MCU tabs)) 0 tabs MCU_data
          (last_dc_val ent) br_state (get_buffer ent) (bits_left ent) with
  | BlocksDone MCU_data last_dc state gb bl =>
      McuDone
        (mk_decompress
           (set_next_input_byte (jdhuff.cinfo state)
              (jdhuff.next_input_byte state))
           (comps_in_scan cinfo) (restart_interval cinfo)
           (mk_entropy gb bl last_dc (restarts_to_go ent)))
        MCU_data
  | BlocksFail => McuFalse
  | BlocksOutside => McuOutside
  end.

(* if (cinfo->restart_interval) entropy->restarts_to_go--; *)
Definition count_mcu (cinfo : decompress_struct) : decompress_struct :=
  if negb (restart_interval cinfo =? 0) then
    let ent := entropy cinfo in
    mk_decompress (reader cinfo) (comps_in_scan cinfo)
      (restart_interval cinfo)
      (mk_entropy (get_buffer ent) (bits_left ent) (last_dc_val ent)
         (to_JUINT (restarts_to_go ent - 1)))
  else cinfo.

(* static boolean decode_mcu (j_decompress_ptr cinfo, JBLOCKROW *MCU_data) *)
Definition decode_mcu (tabs : scan_tables) (cinfo : decompress_struct)
    (MCU_data : list (list Z)) : outcome mcu_decoded :=
  r <- (if negb (restart_interval cinfo =? 0)
           && (restarts_to_go (entropy cinfo) =? 0)
        then process_restart cinfo
        else Returned (true, cinfo)) ;;
  let '(ok, cinfo) := r in
  if negb ok then Returned McuFalse
  else if negb (jdmarker.insufficient_data (reader cinfo)) then
    match decode_mcu_blocks tabs cinfo MCU_data with
    | McuDone cinfo MCU_data => Returned (McuDone (count_mcu cinfo) MCU_data)
    | other => Returned other
    end
  else Returned (McuDone (count_mcu cinfo) MCU_data).

End jdhuff_decode.
(** ** Vocabulary of the properties *)

Module props.

Definition ceil_div (a b : Z) : Z := (a + b - 1) / b.

(* The number of iMCU rows of an image: ceil(H / (V_max * 8)). *)
Definition iMCU_rows (image_height max_v_samp_factor : Z) : Z :=
  ceil_div image_height (max_v_samp_factor * 8).

(* The bytes of the output array that lie below a write pointer. *)
Definition written (mem : list Z) (next : Z) : list Z :=
  firstn (Z.to_nat next) mem.

Definition ws_written (st : jchuff.working_state) : list Z :=
  written (jchuff.out_mem st) (jchuff.next_output_byte st).

Definition dest_written (d : jpeglib.jpeg_destination_mgr) : list Z :=
  written (jpeglib.out_mem d) (jpeglib.next_output_byte d).

(* A write pointer with its free count describes room that really is in
   the array, and at least one byte of it: what jpeg_mem_dest sets up and
   what every routine that returns TRUE leaves behind. *)
Definition room (mem : list Z) (next free : Z) : Prop :=
  0 <= next /\ 1 <= free <= JSIZE_MAX /\
  next + free <= Z.of_nat (length mem).

Definition ws_room (st : jchuff.working_state) : Prop :=
  room (jchuff.out_mem st) (jchuff.next_output_byte st)
       (jchuff.free_in_buffer st).

Definition dest_room (d : jpeglib.jpeg_destination_mgr) : Prop :=
  room (jpeglib.out_mem d) (jpeglib.next_output_byte d)
       (jpeglib.free_in_buffer d).

Definition is_restart_code (y : Z) : Prop := 0xD0 <= y <= 0xD7.

(* Marker framing: every 0xFF is immediately followed by 0x00 or by a
   restart marker code. *)
Definition marker_framed (B : list Z) : Prop :=
  forall i : nat,
    nth_error B i = Some 0xFF ->
    exists y, nth_error B (S i) = Some y /\ (y = 0 \/ is_restart_code y).

(* The same, as the encoder builds it: data bytes other than 0xFF, and
   0xFF always in a pair with its follower. *)
Inductive stuffed : list Z -> Prop :=
| stuffed_nil : stuffed []
| stuffed_data (c : Z) (l : list Z) :
    c <> 0xFF -> stuffed l -> stuffed (c :: l)
| stuffed_pair (y : Z) (l : list Z) :
    y = 0 \/ is_restart_code y -> stuffed l -> stuffed (0xFF :: y :: l).

(* [st'] is [st] after the bytes [B] went out through the write pointer. *)
Definition grows (st st' : jchuff.working_state) (B : list Z) : Prop :=
  ws_written st' = ws_written st ++ B /\
  jchuff.next_output_byte st' =
    jchuff.next_output_byte st + Z.of_nat (length B) /\
  jchuff.free_in_buffer st' =
    jchuff.free_in_buffer st - Z.of_nat (length B) /\
  length (jchuff.out_mem st') = length (jchuff.out_mem st) /\
  jchuff.cinfo st' = jchuff.cinfo st.

(* What every emitting routine of jchuff.c guarantees when started with
   room: on TRUE the bytes it added are stuffed and there is room left;
   on FALSE the free count stands at exactly zero, and what was below
   the pointer at the start is still there. *)
Definition emits {A : Type} (proj : A -> jchuff.working_state)
    (st : jchuff.working_state) (r : jchuff.suspendable A) : Prop :=
  match r with
  | Returned (jchuff.Done a) =>
      exists B, grows st (proj a) B /\ stuffed B /\ ws_room (proj a)
  | Returned (jchuff.Suspend st') =>
      exists B, grows st st' B /\ jchuff.free_in_buffer st' = 0
  | Asserted => True
  | Diverged => True
  end.

(* The calls the claims speak of: bits through the bit buffer, and
   restart markers. *)
Inductive emission : Type :=
| EmitBits (code size : Z)
| EmitRestart (restart_num : Z).

Definition emit (st : jchuff.working_state) (e : emission)
  : jchuff.suspendable jchuff.working_state :=
  match e with
  | EmitBits code size => jchuff.emit_bits_s st code size
  | EmitRestart n => jchuff.emit_restart_s st n
  end.

Import jchuff.

Fixpoint emit_all (st : working_state) (es : list emission)
  : suspendable working_state :=
  match es with
  | [] => Returned (Done st)
  | e :: rest => emit st e THEN fun st => emit_all st rest
  end.

(* The entropy-coded region of a scan: encode_mcu_huff for each MCU in
   turn, as compress_data calls it, stopping at the first FALSE. *)
Fixpoint encode_mcus (c : compress_struct) (mcus : list (list (list Z)))
  : outcome (bool * compress_struct) :=
  match mcus with
  | [] => Returned (true, c)
  | m :: rest =>
      match encode_mcu_huff c m with
      | Returned (true, c') => encode_mcus c' rest
      | other => other
      end
  end.

(* The working state that encode_mcu_huff and finish_pass_huff load. *)
Definition mcu_start (c : compress_struct) : working_state :=
  mk_working (jpeglib.out_mem (dest c)) (jpeglib.next_output_byte (dest c))
    (jpeglib.free_in_buffer (dest c)) (saved (entropy c)) (scan c).

Definition restart_num_ok (c : compress_struct) : Prop :=
  0 <= next_restart_num (entropy c) <= 7.

(* A routine that hands back a working state leaves its [cinfo] link as
   it was. *)
Definition keeps_cinfo (st : working_state) (r : suspendable working_state)
  : Prop :=
  match r with
  | Returned (Done st') => cinfo st' = cinfo st
  | _ => True
  end.

End props.
(** ** The three recovery actions of jpeg_resync_to_restart *)

Module resync.
Import jdmarker.

(* 1. discard the marker and let the entropy decoder resume *)
Definition discard (cinfo : jpeg_decompress_struct)
  : outcome (bool * jpeg_decompress_struct) :=
  Returned (true, set_unread_marker cinfo 0).

(* 2. read forward to the next marker and decide again on it *)
Definition scan_forward (cinfo : jpeg_decompress_struct) (desired : Z)
  : outcome (bool * jpeg_decompress_struct) :=
  match next_marker cinfo with
  | (false, cinfo') => Returned (false, cinfo')
  | (true, cinfo') => resync_loop cinfo' desired (unread_marker cinfo')
  end.

(* 3. leave the marker unread: the entropy decoder will process an empty
   segment, inserting zeroes *)
Definition leave_unread (cinfo : jpeg_decompress_struct)
  : outcome (bool * jpeg_decompress_struct) :=
  Returned (true, cinfo).

(* How many counts the restart marker [marker] is ahead of the desired
   one, modulo 8: 0 is the desired marker itself, 1 and 2 are the next
   two, 7 and 6 the previous two. *)
Definition counts_ahead (marker desired : Z) : Z :=
  (marker - M_RST0 - desired) mod 8.

Definition is_restart (marker : Z) : bool :=
  (M_RST0 <=? marker) && (marker <=? M_RST7).

(* The decision table as the specification words it: every restart
   marker within one or two counts of the desired one, on either side,
   is scanned past. *)
Definition table_as_claimed (cinfo : jpeg_decompress_struct)
    (desired marker : Z) : outcome (bool * jpeg_decompress_struct) :=
  if marker <? M_SOF0 then scan_forward cinfo desired
  else if negb (is_restart marker) then leave_unread cinfo
  else
    let d := counts_ahead marker desired in
    if (d =? 1) || (d =? 2) || (d =? 7) || (d =? 6)
    then scan_forward cinfo desired
    else discard cinfo.

(* The table the code implements. *)
Definition table_of_code (cinfo : jpeg_decompress_struct)
    (desired marker : Z) : outcome (bool * jpeg_decompress_struct) :=
  if marker <? M_SOF0 then scan_forward cinfo desired
  else if negb (is_restart marker) then leave_unread cinfo
  else
    let d := counts_ahead marker desired in
    if (d =? 1) || (d =? 2) then leave_unread cinfo
    else if (d =? 7) || (d =? 6) then scan_forward cinfo desired
    else discard cinfo.

(* Found RST1 where RST0 was expected, with RST2 next in the input. *)
Definition ex_ahead : jpeg_decompress_struct :=
  mk_dinfo [0xFF; 0xD2; 0x12; 0x34] 0xD1 0 0 false [].

(* Found RST7 where RST0 was expected, with RST0 next in the input. *)
Definition ex_behind : jpeg_decompress_struct :=
  mk_dinfo [0xFF; 0xD0; 0x12; 0x34] 0xD7 0 0 false [].

End resync.
(** ** Vocabulary for the entropy decoder *)

Module decode_spec.
Import jdhuff.

(* The code length jpeg_huff_decode has reached when its loop ends;
   nothing when it returns -1 from inside. *)
Definition code_length (state : bitread_working_state)
    (get_buffer bits_left : Z) (htbl : d_derived_tbl) (min_bits : Z)
  : option Z :=
  match CHECK_BIT_BUFFER state get_buffer bits_left min_bits with
  | None => None
  | Some (state, get_buffer, bits_left) =>
      let '(code, bits_left) := GET_BITS get_buffer bits_left min_bits in
      match lengthen_loop state get_buffer bits_left htbl code min_bits with
      | Lengthened _ _ _ _ l => Some l
      | _ => None
      end
  end.

Definition last_warning (state : bitread_working_state)
  : option jdmarker.warning :=
  hd_error (jdmarker.warnings (cinfo state)).

(* The standard luminance DC table (section K.3.1 of the JPEG spec). *)
Definition std_dc_luminance : JHUFF_TBL :=
  mk_JHUFF_TBL [0; 0; 1; 5; 1; 1; 1; 1; 1; 1; 0; 0; 0; 0; 0; 0; 0]
    [0; 1; 2; 3; 4; 5; 6; 7; 8; 9; 10; 11].

Definition ex_dtbl : d_derived_tbl :=
  Eval vm_compute in
    match jpeg_make_d_derived_tbl std_dc_luminance true 0 blank_d_derived_tbl
    with
    | Returned t => t
    | _ => blank_d_derived_tbl
    end.

(* A decoder in mid-segment whose input is all one-bits: no code of the
   table matches them. *)
Definition ex_garbage : bitread_working_state :=
  mk_bitread [0xFF; 0; 0xFF; 0; 0xFF; 0; 0xFF; 0; 0xFF; 0] 0 0
    (jdmarker.mk_dinfo [] 0 0 0 false []).

(* A request to jpeg_fill_bit_buffer: the register values and the number
   of bits asked for. *)
Record fill_request : Type := mk_request {
  req_get_buffer : Z;
  req_bits_left : Z;
  req_nbits : Z
}.

(* The calls made while one data segment is decoded, one after the
   other on the same working state; nothing resets insufficient_data
   in between (only start_pass and process_restart do). *)
Fixpoint fill_segment (state : bitread_working_state)
    (requests : list fill_request) : bitread_working_state :=
  match requests with
  | [] => state
  | r :: rest =>
      fill_segment
        (snd (jpeg_fill_bit_buffer state (req_get_buffer r) (req_bits_left r)
                (req_nbits r)))
        rest
  end.

(* Two data bytes, a stuffed 0xFF, one more byte, then RST3 and what
   follows it. *)
Definition ex_segment : bitread_working_state :=
  mk_bitread [0x12; 0x34; 0xFF; 0x00; 0x56; 0xFF; 0xD3; 0x78; 0x9A] 0 0
    (jdmarker.mk_dinfo [] 0 0 3 false []).

Definition ex_at_marker : bitread_working_state :=
  Eval vm_compute in
    snd (jpeg_fill_bit_buffer
           (snd (jpeg_fill_bit_buffer ex_segment 0 0 0)) 0x56 8 0).

End decode_spec.
(** ** The symbols of one block, in the words of the specification *)

Module block_spec.
Import jchuff props.

(* The number of significant bits of the magnitude of [v]. *)
Definition nbits_of (v : Z) : Z :=
  if v =? 0 then 0 else Z.log2 (Z.abs v) + 1.

(* The two's-complement-magnitude encoding: v - 1 when v is negative,
   v otherwise. *)
Definition magnitude (v : Z) : Z := if v <? 0 then v - 1 else v.

Definition ZRL : Z := 0xF0.
Definition EOB : Z := 0.

(* "The Huffman code for [sym]": its code and length from the table. *)
Definition huffman_code (tbl : c_derived_tbl) (sym : Z) : emission :=
  EmitBits (ehufco_at tbl sym) (ehufsi_at tbl sym).

(* "[n] bits of [v]": the low n bits. *)
Definition bits_of (n v : Z) : emission := EmitBits (v mod 2 ^ n) n.

(* DC: the code for nbits, then nbits bits of the difference. *)
Definition dc_symbols (dctbl : c_derived_tbl) (diff : Z) : list emission :=
  let n := nbits_of diff in
  huffman_code dctbl n ::
  (if n =? 0 then [] else [bits_of n (magnitude diff)]).

(* AC: the coefficients in zig-zag order with the zero run [r] met so
   far.  At a nonzero coefficient floor(r/16) ZRL symbols go out, then
   the code for (r<<4)|nbits, r being what those left of the run, and the
   magnitude bits; a run still open at the end gives EOB. *)
Fixpoint ac_symbols (actbl : c_derived_tbl) (coefs : list Z) (r : Z)
  : list emission :=
  match coefs with
  | [] => if r >? 0 then [huffman_code actbl EOB] else []
  | c :: rest =>
      if c =? 0 then ac_symbols actbl rest (r + 1)
      else
        repeat (huffman_code actbl ZRL) (Z.to_nat (r / 16)) ++
        huffman_code actbl (Z.lor (Z.shiftl (r mod 16) 4) (nbits_of c)) ::
        bits_of (nbits_of c) (magnitude c) ::
        ac_symbols actbl rest 0
  end.

(* Coefficients 1..63 of a block in natural zig-zag order. *)
Definition zigzag (block : list Z) : list Z :=
  map (fun k => block_at block (nth k jpeg_natural_order 0)) (seq 1 63).

Definition block_symbols (dctbl actbl : c_derived_tbl) (block : list Z)
    (last_dc : Z) : list emission :=
  dc_symbols dctbl (block_at block 0 - last_dc) ++
  ac_symbols actbl (zigzag block) 0.

(* A block with one nonzero AC coefficient after a run of 20 zeros, and
   tables that give every symbol a 4-bit code. *)
Definition ex_block : list Z :=
  [ -3; 0; 0; 0; 0; 0; 0; 0;
     0; 0; 0; 0; 0; 0; 0; 0;
     0; 0; 0; 0; 0; 0; 0; 0;
     0; 0; 0; 0; 0; 0; 0; 0;
     0; 0; 0; 0; 0; 0; 0; 0;
     0; 0; 0; 0; 0; 0; 0; 0;
     7; 0; 0; 0; 0; 0; 0; 0;
     0; 0; 0; 0; 0; 0; 0; 0].

Definition ex_tbl : c_derived_tbl :=
  mk_c_derived_tbl
    (map (fun s => Z.of_nat s mod 16) (seq 0 256)) (repeat 4 256).

(* A Huffman table of thirteen 4-bit codes, for the symbols 0..12, and
   what jpeg_make_c_derived_tbl makes of it as a DC and as an AC
   table. *)
Definition ex_wide_table : jdhuff.JHUFF_TBL :=
  jdhuff.mk_JHUFF_TBL [0; 0; 0; 0; 13; 0; 0; 0; 0; 0; 0; 0; 0; 0; 0; 0; 0]
    [0; 1; 2; 3; 4; 5; 6; 7; 8; 9; 10; 11; 12].

Definition ex_wide_dc : c_derived_tbl :=
  Eval vm_compute in
    match jchuff_tables.jpeg_make_c_derived_tbl ex_wide_table true 0
            (mk_c_derived_tbl (repeat 0 256) (repeat 0 256)) with
    | Returned t => t
    | _ => mk_c_derived_tbl [] []
    end.

Definition ex_wide_ac : c_derived_tbl :=
  Eval vm_compute in
    match jchuff_tables.jpeg_make_c_derived_tbl ex_wide_table false 0
            (mk_c_derived_tbl (repeat 0 256) (repeat 0 256)) with
    | Returned t => t
    | _ => mk_c_derived_tbl [] []
    end.

(* A block whose DC value takes 12 bits, and one with an AC coefficient
   of 11 bits. *)
Definition ex_wide_dc_block : list Z := 2048 :: repeat 0 63.
Definition ex_wide_ac_block : list Z := 0 :: 1024 :: repeat 0 62.

End block_spec.
(** ** Concrete inputs used to exercise the theorems *)

Module examples.
Import jchuff props.

Definition ex_scan : scan_params :=
  mk_scan 2 1 1 [0] [0] [0] 63 jpeg_natural_order.

(* A 16-byte output array, nothing written yet, 3 bits pending. *)
Definition ex_state : working_state :=
  mk_working (repeat 0 16) 0 16 (mk_savable 0xA00000 3 [5; 0; 0; 0]) ex_scan.

Definition ex_emissions : list emission :=
  [EmitBits 0x1FFF 13; EmitRestart 3; EmitBits 0xFF 8].

Definition ex_state' : working_state :=
  Eval vm_compute in
    match emit_all ex_state ex_emissions with
    | Returned (Done s) => s
    | _ => ex_state
    end.

(* A compression object as jpeg_create_compress leaves it, for a
   512x512 three-component image. *)
Definition ex_params : jpeg_compress_struct :=
  mkCinfo CSTATE_START 512 512 3
    [mkComp 1 2 2 0 0 0; mkComp 2 1 1 1 1 1; mkComp 3 1 1 1 1 1]
    8 [None; None; None; None] 0 0.

Definition ex_params' : jpeg_compress_struct :=
  Eval vm_compute in
    match jpeg_add_quant_table ex_params 0 std_luminance_quant_tbl
            (jpeg_quality_scaling 75) true with
    | Returned c => c
    | _ => ex_params
    end.

(* A 16-pixel-wide, 64-pixel-high image with the default 2x2 luminance
   sampling. *)
Definition ex_tall : jpeg_compress_struct :=
  mkCinfo CSTATE_START 16 64 3
    [mkComp 1 2 2 0 0 0; mkComp 2 1 1 1 1 1; mkComp 3 1 1 1 1 1]
    8 [None; None; None; None] 0 0.

End examples.
(** ** The MCUs a call of compress_data has before it *)

Module driver_spec.
Import jchuff controllers.

(* The MCUs of columns [from], [from]+1, ... ([n] of them) of one MCU
   row, as [MCU_of] gives them. *)
Definition cols_from (MCU_of : Z -> Z -> list (list Z)) (yoffset from : Z)
    (n : nat) : list (list (list Z)) :=
  map (fun j => MCU_of yoffset (from + Z.of_nat j)) (seq 0 n).

(* The MCUs of [n] MCU rows, the first of them taken up at column
   [from], the others at column 0. *)
Fixpoint rows_from (MCU_of : Z -> Z -> list (list Z)) (last_MCU_col : Z)
    (n : nat) (yoffset from : Z) : list (list (list Z)) :=
  match n with
  | O => []
  | S n' =>
      cols_from MCU_of yoffset from (Z.to_nat (last_MCU_col + 1 - from)) ++
      rows_from MCU_of last_MCU_col n' (yoffset + 1) 0
  end.

(* What is left of the current iMCU row, from the place the coefficient
   controller's counters point at. *)
Definition pending_mcus (d : j_compress) : list (list (list Z)) :=
  let c := coef d in
  rows_from (MCU_buffer_at d (iMCU_row_num c))
    (to_JDIMENSION (MCUs_per_row d - 1))
    (Z.to_nat (MCU_rows_per_iMCU_row c - MCU_vert_offset c))
    (MCU_vert_offset c) (mcu_ctr c).

(* An 8-line, one-component image of two MCUs, every block of it
   [block_spec.ex_block]; the compressor as it stands before line
   [line] is handed in, with [free] bytes of output buffer left. *)
Definition ex_huff (free : Z) : compress_struct :=
  mk_cinfo examples.ex_scan
    (jpeglib.mk_dest (repeat 0 (Z.to_nat free)) 0 free)
    (mk_entropy (mk_savable 0 0 [0; 0; 0; 0]) 2 0
       [block_spec.ex_tbl; block_spec.ex_tbl]
       [block_spec.ex_tbl; block_spec.ex_tbl]).

Definition ex_compress (line free : Z) : j_compress :=
  mk_compress CSTATE_SCANNING 8 line 1 2 1 8 1 1 false
    (fun h => Returned h)
    (fun _ _ _ => [block_spec.ex_block])
    (mk_prep (8 - line) 0) (mk_coef 0 0 0 1) (mk_main 0 line false)
    (ex_huff free).

End driver_spec.
(** ** Frames that initial_setup is given *)

Module dimension_spec.

Definition valid_factors (h v : Z) : Prop :=
  1 <= h <= MAX_SAMP_FACTOR /\ 1 <= v <= MAX_SAMP_FACTOR.

(* A compressor whose parameters other than the image dimensions are what
   jpeg_set_defaults and jpeg_calc_jpeg_dimensions leave, or what a
   caller may validly set. *)
Definition encoder_ready (c : jcmaster.j_compress) : Prop :=
  jcmaster.block_size c = DCTSIZE /\
  jcmaster.min_DCT_h_scaled_size c = DCTSIZE /\
  jcmaster.min_DCT_v_scaled_size c = DCTSIZE /\
  8 <= jcmaster.data_precision c <= 12 /\
  1 <= jcmaster.num_components c <= MAX_COMPONENTS /\
  (Z.to_nat (jcmaster.num_components c) <= length (jcmaster.comp_info c))%nat /\
  Forall (fun p => valid_factors (jcmaster.h_samp_factor p)
                     (jcmaster.v_samp_factor p))
    (firstn (Z.to_nat (jcmaster.num_components c)) (jcmaster.comp_info c)).

(* A decompressor after a baseline SOF marker with valid precision and
   sampling factors. *)
Definition decoder_ready (c : jdinput.j_decompress) : Prop :=
  jdinput.is_baseline c = true /\
  8 <= jdinput.data_precision c <= 12 /\
  jdinput.num_components c <= MAX_COMPONENTS /\
  (Z.to_nat (jdinput.num_components c) <= length (jdinput.comp_info c))%nat /\
  Forall (fun p => valid_factors (jdinput.h_samp_factor p)
                     (jdinput.v_samp_factor p))
    (firstn (Z.to_nat (jdinput.num_components c)) (jdinput.comp_info c)).

(* A three-component image with 2x2 luminance sampling, of the given
   width and height, as jsc_compress_rst sets it up. *)
Definition ex_encoder (width height : Z) : jcmaster.j_compress :=
  let comp h v := jcmaster.mk_component h v 0 0 0 0 0 0 0 false in
  jcmaster.mk_compress width height width height 8 3
    [comp 2 2; comp 1 1; comp 1 1] 8 8 8 1 1 [] 0 0.

Definition ex_decoder (width height : Z) : jdinput.j_decompress :=
  let comp h v := jdinput.mk_component h v 0 0 0 0 0 0 false None in
  jdinput.mk_decompress width height 8 3 3
    [comp 2 2; comp 1 1; comp 1 1] true 0 0 0 1 1 [] 0 0 false.

End dimension_spec.
(** ** Vocabulary for marker segments *)

Definition is_byte_pair (hi lo : Z) : Prop := 0 <= hi < 256 /\ 0 <= lo < 256.

(* What INPUT_2BYTES makes of two bytes. *)
Definition INPUT_2BYTES_value (b1 b2 : Z) : Z :=
  to_JUINT (to_JUINT (Z.shiftl b1 8) + b2).

(** ** Vocabulary for the bit stream between encoder and decoder *)

Module bitstream_spec.
Import jchuff.

Definition is_byte (b : Z) : Prop := 0 <= b < 256.

(* Data bytes as they stand in a scan: a zero byte after every 0xFF. *)
Fixpoint stuff (D : list Z) : list Z :=
  match D with
  | [] => []
  | b :: rest => if b =? 0xFF then 0xFF :: 0 :: stuff rest else b :: stuff rest
  end.

(* A run of bytes read as one number, first byte most significant. *)
Fixpoint bytes_value (D : list Z) : Z :=
  match D with
  | [] => 0
  | b :: rest => b * 256 ^ Z.of_nat (length rest) + bytes_value rest
  end.

(* The bits waiting in put_buffer: put_bits of them, left-justified in
   the right 24 bits of the register. *)
Definition pending (s : savable_state) : Z :=
  (put_buffer s mod 2 ^ 24) / 2 ^ (24 - put_bits s).

(* Fewer than 8 bits wait, and nothing lies to the right of them. *)
Definition bit_buffer_ok (s : savable_state) : Prop :=
  0 <= put_bits s < 8 /\ put_buffer s mod 2 ^ (24 - put_bits s) = 0.

(* The number of bits that bring [P] waiting bits to a byte boundary. *)
Definition pad_bits (P : Z) : Z := (8 - P) mod 8.

(* A sequence of (code, size) pairs as one run of bits, first pair
   first, each code cut to its size. *)
Fixpoint codes_length (cs : list (Z * Z)) : Z :=
  match cs with
  | [] => 0
  | (_, size) :: rest => size + codes_length rest
  end.

Fixpoint codes_value (cs : list (Z * Z)) : Z :=
  match cs with
  | [] => 0
  | (code, size) :: rest =>
      (code mod 2 ^ size) * 2 ^ codes_length rest + codes_value rest
  end.

(* One emit_bits_s call after the other, stopping at the first FALSE. *)
Fixpoint emit_codes (st : working_state) (cs : list (Z * Z))
  : suspendable working_state :=
  match cs with
  | [] => Returned (Done st)
  | (code, size) :: rest =>
      emit_bits_s st code size THEN fun st => emit_codes st rest
  end.

(* One CHECK_BIT_BUFFER / GET_BITS pair after the other, for the sizes
   given; the values fetched, or nothing once a pair returns FALSE. *)
Fixpoint fetch_all (state : jdhuff.bitread_working_state)
    (get_buffer bits_left : Z) (sizes : list Z)
  : option (list Z * jdhuff.bitread_working_state * Z * Z) :=
  match sizes with
  | [] => Some ([], state, get_buffer, bits_left)
  | s :: rest =>
      match jdhuff_mcu.fetch_bits state get_buffer bits_left s with
      | None => None
      | Some (r, state, get_buffer, bits_left) =>
          match fetch_all state get_buffer bits_left rest with
          | None => None
          | Some (rs, state, get_buffer, bits_left) =>
              Some (r :: rs, state, get_buffer, bits_left)
          end
      end
  end.

(* The decoder stands in a data segment: the data bytes [D] are still
   to be read and the marker [m] closes them, either still in the input
   or already taken into unread_marker. *)
Definition segment_view (state : jdhuff.bitread_working_state)
    (D : list Z) (m : Z) (rest : list Z) : Prop :=
  (jdmarker.unread_marker (jdhuff.cinfo state) = 0 /\
   jdhuff.next_input_byte state = stuff D ++ 0xFF :: m :: rest) \/
  (jdmarker.unread_marker (jdhuff.cinfo state) = m /\ D = [] /\
   jdhuff.next_input_byte state = rest).

(* The bits not fetched yet: the bits_left low bits of get_buffer, then
   the data bytes not read yet. *)
Definition unread_bits (get_buffer bits_left : Z) (D : list Z) : Z :=
  (get_buffer mod 2 ^ bits_left) * 256 ^ Z.of_nat (length D) + bytes_value D.

Definition unread_length (bits_left : Z) (D : list Z) : Z :=
  bits_left + 8 * Z.of_nat (length D).

(* The marker reader's part of the decoder state is left as it was,
   its input pointer and unread_marker apart. *)
Definition same_reader_state (c c' : jdmarker.jpeg_decompress_struct) : Prop :=
  jdmarker.warnings c' = jdmarker.warnings c /\
  jdmarker.insufficient_data c' = jdmarker.insufficient_data c /\
  jdmarker.discarded_bytes c' = jdmarker.discarded_bytes c /\
  jdmarker.next_restart_num c' = jdmarker.next_restart_num c.

(* A working state with 64 bytes of room and an empty bit buffer. *)
Definition ex_fresh : working_state :=
  mk_working (repeat 0 64) 0 64 (mk_savable 0 0 [0; 0; 0; 0])
    examples.ex_scan.

Definition ex_codes : list (Z * Z) := [(0x1FFF, 13); (5, 3); (0x2A, 6)].

Definition ex_emitted : working_state :=
  Eval vm_compute in
    match emit_codes ex_fresh ex_codes with
    | Returned (Done s) => s
    | _ => ex_fresh
    end.

Definition ex_flushed : working_state :=
  Eval vm_compute in
    match flush_bits_s ex_emitted with
    | Returned (Done s) => s
    | _ => ex_emitted
    end.

Definition ex_restarted : working_state :=
  Eval vm_compute in
    match emit_restart_s ex_emitted 5 with
    | Returned (Done s) => s
    | _ => ex_emitted
    end.

(* A decoder at the start of a data segment that holds what the encoder
   wrote into [ex_flushed], with RST5 and two more bytes behind it. *)
Definition ex_reader : jdhuff.bitread_working_state :=
  jdhuff.mk_bitread
    (firstn (Z.to_nat (next_output_byte ex_flushed)) (out_mem ex_flushed)
       ++ [0xFF; 0xD5; 0x12; 0x34])
    0 0 (jdmarker.mk_dinfo [] 0 0 5 false []).

End bitstream_spec.
(** ** Vocabulary and examples for restart intervals *)

Module restart_spec.

(* Where the encoder's restart counters stand after [t] MCUs of a scan
   with a restart marker every [R] MCUs: [togo] MCUs are left in the
   interval and [num] is the number of the next marker. *)
Definition counters_after (R t togo num : Z) : Prop :=
  (t = 0 /\ togo = R /\ num = 0) \/
  (1 <= t /\ togo = R - 1 - (t - 1) mod R /\ num = ((t - 1) / R) mod 8).

(* A decoder that has fetched all of a segment but five padding bits and
   stands before RST3. *)
Definition ex_at_restart : jdhuff_mcu.decompress_struct :=
  jdhuff_mcu.mk_decompress
    (jdmarker.mk_dinfo [0xFF; 0xD3; 0x12] 0 0 3 true []) 3 4
    (jdhuff_mcu.mk_entropy 0x2F 5 [7; -2; 9; 1] 0).

(* An encoder at the start of a scan with a restart marker every two
   MCUs, one block to the MCU, and 64 bytes of room. *)
Definition ex_encoder : jchuff.compress_struct :=
  jchuff.mk_cinfo examples.ex_scan
    (jpeglib.mk_dest (repeat 0 64) 0 64)
    (jchuff.mk_entropy (jchuff.mk_savable 0 0 [0; 0; 0; 0]) 2 0
       [block_spec.ex_tbl; block_spec.ex_tbl]
       [block_spec.ex_tbl; block_spec.ex_tbl]).

Definition ex_mcus : list (list (list Z)) :=
  [[block_spec.ex_block]; [block_spec.ex_block]; [block_spec.ex_block];
   [block_spec.ex_block]; [block_spec.ex_block]].

Definition ex_encoder' : jchuff.compress_struct :=
  Eval vm_compute in
    match props.encode_mcus ex_encoder ex_mcus with
    | Returned (true, c) => c
    | _ => ex_encoder
    end.

End restart_spec.
(** ** Vocabulary for the marker writer *)

Module marker_spec.
Import jcmarker.

(* [c'] is [c] after the bytes [B] went out through the destination;
   nothing but the destination changed. *)
Definition writes (c c' : compress_struct) (B : list Z) : Prop :=
  props.dest_written (dest c') = props.dest_written (dest c) ++ B /\
  jpeglib.next_output_byte (dest c')
    = jpeglib.next_output_byte (dest c) + Z.of_nat (length B) /\
  jpeglib.free_in_buffer (dest c')
    = jpeglib.free_in_buffer (dest c) - Z.of_nat (length B) /\
  length (jpeglib.out_mem (dest c')) = length (jpeglib.out_mem (dest c)) /\
  c' = set_dest c (dest c').

(* A routine that writes the bytes [B]: it returns with them written and
   room left, or, when the buffer cannot take them with a byte to
   spare, stops on the assertion of emit_byte. *)
Definition marker_writes (c : compress_struct) (r : outcome compress_struct)
    (B : list Z) : Prop :=
  match r with
  | Returned c' => writes c c' B /\ props.dest_room (dest c')
  | Asserted => jpeglib.free_in_buffer (dest c) <= Z.of_nat (length B)
  | Diverged => False
  end.

(* The two bytes of a 16-bit field, most significant first. *)
Definition two_bytes (v : Z) : list Z := [(v / 256) mod 256; v mod 256].

(* The DRI segment for a restart interval. *)
Definition dri_segment (restart_interval : Z) : list Z :=
  [0xFF; 0xDD; 0; 4] ++ two_bytes restart_interval.

(* The position in a table of the k-th entry in zig-zag order. *)
Definition order_at (k : nat) : nat := Z.to_nat (nth k jpeg_natural_order 0).

(* The entries of a table in zig-zag order. *)
Definition zigzag_entries (qv : list Z) : list Z :=
  map (fun i => nth (Z.to_nat (nth i jpeg_natural_order 0)) qv 0) (seq 0 64).

(* The DQT segment for an 8-bit table in slot [index]. *)
Definition dqt_segment (index : Z) (qv : list Z) : list Z :=
  [0xFF; 0xDB; 0; 67; index] ++ zigzag_entries qv.

(* The DHT segment for a table: class and slot, the sixteen counts, the
   symbols. *)
Definition dht_segment (is_ac : bool) (index : Z) (bits huffval : list Z)
  : list Z :=
  let counts := firstn 16 (skipn 1 bits) in
  let count := fold_right Z.add 0 counts in
  [0xFF; 0xC4] ++ two_bytes (count + 19)
  ++ [if is_ac then index + 16 else index]
  ++ counts ++ firstn (Z.to_nat count) huffval.

(* A DC Huffman table with twelve symbols, not yet sent. *)
Definition ex_dc_table : jpeglib_tables.JHUFF_TBL :=
  jpeglib_tables.mk_JHUFF_TBL
    [0; 0; 1; 5; 1; 1; 1; 1; 1; 1; 0; 0; 0; 0; 0; 0; 0]
    ([0; 1; 2; 3; 4; 5; 6; 7; 8; 9; 10; 11] ++ repeat 0 244)
    false.

(* A compression object with an empty 128-byte output array, the
   standard luminance table in slot 0, that DC Huffman table in slot 0
   and a restart interval of 300 MCUs. *)
Definition ex_writer : compress_struct :=
  mk_cinfo (jpeglib.mk_dest (repeat 0 128) 0 128)
    [Some (mkJQUANT_TBL std_luminance_quant_tbl false); None; None; None]
    [Some ex_dc_table; None]
    [None; None] 63 jpeg_natural_order 300.

(* A decompression object with empty table slots that stands behind a
   marker code. *)
Definition ex_segment_reader (inp : list Z)
  : jdmarker_segments.decompress_struct :=
  jdmarker_segments.mk_dinfo inp 0 [None; None; None; None]
    [None; None] [None; None] [].

End marker_spec.
(** ** Vocabulary for the Huffman code tables *)

Module huffman_spec.

(* The number of codes of length [l] that a table announces. *)
Definition codes_of_length (bits : list Z) (l : nat) : Z := nth l bits 0.

(* The number of symbols of a table: bits[1] + ... + bits[16]. *)
Definition symbol_count (bits : list Z) : Z :=
  fold_right Z.add 0 (firstn 16 (skipn 1 bits)).

(* The code lengths in the order of the symbols: bits[l] times l, for
   [n] lengths from [l] on. *)
Fixpoint run_sizes (n : nat) (l : nat) (bits : list Z) : list Z :=
  match n with
  | O => []
  | S n' =>
      repeat (Z.of_nat l) (Z.to_nat (codes_of_length bits l))
      ++ run_sizes n' (S l) bits
  end.

(* The codes in the order of the symbols, when the first code of length
   [l] is [code]: the codes of one length count up by one, and the first
   code of the next length is twice the number that follows them. *)
Fixpoint run_codes (n : nat) (l : nat) (bits : list Z) (code : Z) : list Z :=
  match n with
  | O => []
  | S n' =>
      let b := codes_of_length bits l in
      map (fun i => code + Z.of_nat i) (seq 0 (Z.to_nat b))
      ++ run_codes n' (S l) bits (2 * (code + b))
  end.

(* bits[k] + ... + bits[k+d-1] *)
Fixpoint index_after (bits : list Z) (k : nat) (d : nat) : Z :=
  match d with
  | O => 0
  | S d' => codes_of_length bits k + index_after bits (S k) d'
  end.

(* The first code of length k+d when the first code of length k is
   [code]. *)
Fixpoint code_after (bits : list Z) (k : nat) (code : Z) (d : nat) : Z :=
  match d with
  | O => code
  | S d' => code_after bits (S k) (2 * (code + codes_of_length bits k)) d'
  end.

(* The position in huffval[] of the first symbol with a code of length
   [l], and that code, for l = 1, 2, ... *)
Definition first_index (bits : list Z) (l : nat) : Z :=
  index_after bits 1 (l - 1).

Definition first_code (bits : list Z) (l : nat) : Z :=
  code_after bits 1 0 (l - 1).

(* The counts describe a code tree: the codes of every length in use fit
   in that length with the all-ones code to spare. *)
Fixpoint runs_fit (n : nat) (l : nat) (bits : list Z) (code : Z) : Prop :=
  match n with
  | O => True
  | S n' =>
      let b := codes_of_length bits l in
      (0 < b -> code + b < 2 ^ Z.of_nat l) /\
      runs_fit n' (S l) bits (2 * (code + b))
  end.

(* The counts of the lengths k .. k+n-1 are not negative. *)
Definition counts_ok (bits : list Z) (k n : nat) : Prop :=
  forall j, (k <= j < k + n)%nat -> 0 <= codes_of_length bits j.

(* [a], a code of [sa] bits, stands at the front of [b], a code of [sb]
   bits. *)
Definition is_prefix (a sa b sb : Z) : Prop :=
  sa <= sb /\ b / 2 ^ (sb - sa) = a.

(* The encoding table for the standard luminance DC table, built in a
   workspace of zeros. *)
Definition blank_c_derived_tbl : jchuff.c_derived_tbl :=
  jchuff.mk_c_derived_tbl (repeat 0 256) (repeat 0 256).

Definition ex_ctbl : jchuff.c_derived_tbl :=
  Eval vm_compute in
    match jchuff_tables.jpeg_make_c_derived_tbl decode_spec.std_dc_luminance
            true 0 blank_c_derived_tbl with
    | Returned t => t
    | _ => blank_c_derived_tbl
    end.

(* A decoder at the start of a data segment of one byte, 100 00000 in
   bits, that EOI closes. *)
Definition ex_code_reader : jdhuff.bitread_working_state :=
  jdhuff.mk_bitread [0x80; 0xFF; 0xD9] 0 0
    (jdmarker.mk_dinfo [] 0 0 0 false []).

End huffman_spec.
(** ** Vocabulary for decoding what the encoder wrote *)

Module roundtrip_spec.
Import jchuff props block_spec bitstream_spec.

(* The (code, size) pairs that a list of emissions hands to
   emit_bits_s. *)
Fixpoint emitted_codes (es : list emission) : list (Z * Z) :=
  match es with
  | [] => []
  | EmitBits code size :: rest => (code, size) :: emitted_codes rest
  | EmitRestart _ :: rest => emitted_codes rest
  end.

(* No emission uses a symbol without a code. *)
Definition sizes_nonzero (es : list emission) : Prop :=
  Forall (fun e => match e with
                   | EmitBits _ size => size <> 0
                   | EmitRestart _ => True
                   end) es.

(* [m] is a marker code that can close a data segment, and [tail] is a
   number of [pad] bits. *)
Definition closes (m pad tail : Z) : Prop :=
  m <> 0 /\ m <> 0xFF /\ 0 <= pad /\ 0 <= tail < 2 ^ pad.

(* The decoder stands in a data segment that the marker [m] closes, and
   the bits it has not fetched yet are the codes [cs], cut to their
   sizes, followed by [pad] more bits of value [tail]. *)
Definition reads (m : Z) (rest : list Z)
    (state : jdhuff.bitread_working_state) (get_buffer bits_left : Z)
    (cs : list (Z * Z)) (pad tail : Z) : Prop :=
  exists D,
    segment_view state D m rest /\ Forall is_byte D /\
    0 <= bits_left <= 32 /\
    unread_length bits_left D = codes_length cs + pad /\
    unread_bits get_buffer bits_left D = codes_value cs * 2 ^ pad + tail.

(* The coefficients [coefs], which stand at the zig-zag positions j,
   j+1, ..., stored into a block as decode_mcu stores them: the zero
   ones are passed over. *)
Fixpoint fill_from (coefs : list Z) (j : nat) (acc : list Z) : list Z :=
  match coefs with
  | [] => acc
  | c :: rest =>
      fill_from rest (S j)
        (if c =? 0 then acc
         else list_set acc (Z.to_nat (nth j jpeg_natural_order 0))
                (to_JCOEF c))
  end.

(* A Huffman table with its derived tables on both sides. *)
Record table_pair : Type := mk_table_pair {
  pair_htbl : jdhuff.JHUFF_TBL;
  pair_ctbl : c_derived_tbl;
  pair_dtbl : jdhuff.d_derived_tbl
}.

(* Both derived tables are what the library makes of the Huffman
   table. *)
Definition derived (isDC : bool) (t : table_pair) : Prop :=
  exists tblno oldc oldd,
    length (ehufco oldc) = 256%nat /\
    length (jdhuff.maxcode oldd) = 18%nat /\
    length (jdhuff.valoffset oldd) = 17%nat /\
    length (jdhuff.look_sym oldd) = 256%nat /\
    jchuff_tables.jpeg_make_c_derived_tbl (pair_htbl t) isDC tblno oldc
      = Returned (pair_ctbl t) /\
    jdhuff.jpeg_make_d_derived_tbl (pair_htbl t) isDC tblno oldd
      = Returned (pair_dtbl t).

(* The standard luminance DC table with its derived tables. *)
Definition ex_dc_pair : table_pair :=
  mk_table_pair decode_spec.std_dc_luminance huffman_spec.ex_ctbl
    decode_spec.ex_dtbl.

(* An AC table of two codes of two bits: 00 for the end of block and 01
   for a coefficient of two bits after no zero. *)
Definition ex_ac_table : jdhuff.JHUFF_TBL :=
  jdhuff.mk_JHUFF_TBL [0; 0; 2; 0; 0; 0; 0; 0; 0; 0; 0; 0; 0; 0; 0; 0; 0]
    [0x00; 0x02].

Definition ex_ac_pair : table_pair :=
  Eval vm_compute in
    match jchuff_tables.jpeg_make_c_derived_tbl ex_ac_table false 0
            huffman_spec.blank_c_derived_tbl,
          jdhuff.jpeg_make_d_derived_tbl ex_ac_table false 0
            jdhuff.blank_d_derived_tbl with
    | Returned c, Returned d => mk_table_pair ex_ac_table c d
    | _, _ =>
        mk_table_pair ex_ac_table huffman_spec.blank_c_derived_tbl
          jdhuff.blank_d_derived_tbl
    end.

(* A block with the DC coefficient 5 and one AC coefficient, 2, at the
   first zig-zag position. *)
Definition ex_small_block : list Z := 5 :: 2 :: repeat 0 62.

(* A decoder at the start of that block's bits after a DC prediction
   of 0: 100 101 for the DC coefficient, 01 10 for the AC coefficient,
   00 for the end of block and four one-bits of padding, before EOI. *)
Definition ex_block_reader : jdhuff.bitread_working_state :=
  jdhuff.mk_bitread [0x95; 0x8F; 0xFF; 0xD9] 0 0
    (jdmarker.mk_dinfo [] 0 0 0 false []).

End roundtrip_spec.
(** ** Vocabulary for a scan on both sides *)

Module scan_spec.
Import jchuff props block_spec bitstream_spec roundtrip_spec.

(* [st'] is [st] after the codes [cs] went through emit_bits_s: data
   bytes were written in stuffed form, and those bytes followed by the
   bits that wait now are the bits that waited before followed by the
   codes. *)
Definition wrote (st st' : working_state) (cs : list (Z * Z)) : Prop :=
  exists D,
    grows st st' (stuff D) /\ Forall is_byte D /\ ws_room st' /\
    bit_buffer_ok (cur st') /\
    8 * Z.of_nat (length D) + put_bits (cur st')
      = put_bits (cur st) + codes_length cs /\
    bytes_value D * 2 ^ put_bits (cur st') + pending (cur st')
      = pending (cur st) * 2 ^ codes_length cs + codes_value cs.

(* The component of block [blkn] of an MCU and the encoder's tables for
   it, as encode_mcu_huff looks them up. *)
Definition block_ci (sp : scan_params) (blkn : nat) : nat :=
  Z.to_nat (nth blkn (MCU_membership sp) 0).

Definition block_dctbl (sp : scan_params) (ent : huff_entropy_encoder)
    (blkn : nat) : c_derived_tbl :=
  nth (Z.to_nat (nth (block_ci sp blkn) (cur_comp_dc_tbl_no sp) 0))
    (dc_derived_tbls ent) empty_tbl.

Definition block_actbl (sp : scan_params) (ent : huff_entropy_encoder)
    (blkn : nat) : c_derived_tbl :=
  nth (Z.to_nat (nth (block_ci sp blkn) (cur_comp_ac_tbl_no sp) 0))
    (ac_derived_tbls ent) empty_tbl.

(* The symbols of the blocks blkn, blkn+1, ... of an MCU, [n] of them,
   each DC coefficient predicted by the one before it in its
   component. *)
Fixpoint mcu_symbols (n : nat) (blkn : nat) (sp : scan_params)
    (ent : huff_entropy_encoder) (last_dc : list Z)
    (MCU_data : list (list Z)) : list emission :=
  match n with
  | O => []
  | S n' =>
      let block := nth blkn MCU_data [] in
      block_symbols (block_dctbl sp ent blkn) (block_actbl sp ent blkn) block
        (nth (block_ci sp blkn) last_dc 0)
      ++ mcu_symbols n' (S blkn) sp ent
           (list_set last_dc (block_ci sp blkn) (block_at block 0)) MCU_data
  end.

(* The DC predictions after those blocks. *)
Fixpoint mcu_last_dc (n : nat) (blkn : nat) (sp : scan_params)
    (last_dc : list Z) (MCU_data : list (list Z)) : list Z :=
  match n with
  | O => last_dc
  | S n' =>
      mcu_last_dc n' (S blkn) sp
        (list_set last_dc (block_ci sp blkn)
           (block_at (nth blkn MCU_data []) 0)) MCU_data
  end.

(* The symbols of a run of MCUs with no restart marker between them,
   and the DC predictions after it. *)
Fixpoint run_symbols (sp : scan_params) (ent : huff_entropy_encoder)
    (last_dc : list Z) (mcus : list (list (list Z))) : list emission :=
  match mcus with
  | [] => []
  | mcu :: rest =>
      let n := Z.to_nat (blocks_in_MCU sp) in
      mcu_symbols n 0 sp ent last_dc mcu
      ++ run_symbols sp ent (mcu_last_dc n 0 sp last_dc mcu) rest
  end.

Fixpoint run_last_dc (sp : scan_params) (last_dc : list Z)
    (mcus : list (list (list Z))) : list Z :=
  match mcus with
  | [] => last_dc
  | mcu :: rest =>
      run_last_dc sp
        (mcu_last_dc (Z.to_nat (blocks_in_MCU sp)) 0 sp last_dc mcu) rest
  end.

(* A block of 64 coefficients in the range of 8-bit data: the DC
   coefficient in -1024..1023, the others below 1024 in magnitude. *)
Definition block_ok (block : list Z) : Prop :=
  length block = 64%nat /\
  - 2 ^ 10 <= block_at block 0 < 2 ^ 10 /\
  Forall (fun c => Z.abs c < 2 ^ 10) (zigzag block).

Definition mcu_ok (sp : scan_params) (mcu : list (list Z)) : Prop :=
  length mcu = Z.to_nat (blocks_in_MCU sp) /\ Forall block_ok mcu.

(* The DC predictions of the components of the scan are the same on
   both sides, and in the range of a DC coefficient. *)
Definition predictions_agree (n : nat) (le ld : list Z) : Prop :=
  length le = length ld /\
  forall i, (i < n)%nat ->
    nth i ld 0 = nth i le 0 /\ - 2 ^ 10 <= nth i le 0 < 2 ^ 10.

(* The MCU buffer as decompress_onepass clears it before each
   decode_mcu. *)
Definition cleared_mcu (n : Z) : list (list Z) :=
  repeat (repeat 0 64) (Z.to_nat n).

Inductive mcus_decoded : Type :=
| McusDone (cinfo : jdhuff_mcu.decompress_struct)
           (mcus : list (list (list Z)))
| McusFalse
| McusOutside.

(* [n] MCUs fetched one after the other as decompress_onepass fetches
   them: the buffer cleared, then decode_mcu; what was fetched is
   collected.  The first FALSE ends it. *)
Fixpoint decode_mcus (n : nat) (tabs : jdhuff_decode.scan_tables)
    (cinfo : jdhuff_mcu.decompress_struct) : outcome mcus_decoded :=
  match n with
  | O => Returned (McusDone cinfo [])
  | S n' =>
      r <- jdhuff_decode.decode_mcu tabs cinfo
             (cleared_mcu (jdhuff_decode.blocks_in_MCU tabs)) ;;
      match r with
      | jdhuff_decode.McuDone cinfo mcu =>
          r' <- decode_mcus n' tabs cinfo ;;
          match r' with
          | McusDone cinfo mcus => Returned (McusDone cinfo (mcu :: mcus))
          | other => Returned other
          end
      | jdhuff_decode.McuFalse => Returned McusFalse
      | jdhuff_decode.McuOutside => Returned McusOutside
      end
  end.

(* The working state that decode_mcu loads. *)
Definition load_state (d : jdhuff_mcu.decompress_struct)
  : jdhuff.bitread_working_state :=
  jdhuff.mk_bitread (jdmarker.next_input_byte (jdhuff_mcu.reader d))
    (jdhuff_mcu.get_buffer (jdhuff_mcu.entropy d))
    (jdhuff_mcu.bits_left (jdhuff_mcu.entropy d)) (jdhuff_mcu.reader d).

(* Encoder and decoder are set up for the same scan: the same blocks
   in an MCU, every block of a component of the scan, decoded in full,
   and with tables that both sides derived from the same Huffman
   table. *)
Definition scans_agree (sp : scan_params) (ent : huff_entropy_encoder)
    (tabs : jdhuff_decode.scan_tables) : Prop :=
  jdhuff_decode.blocks_in_MCU tabs = blocks_in_MCU sp /\
  forall blkn, (blkn < Z.to_nat (blocks_in_MCU sp))%nat ->
    nth blkn (jdhuff_decode.MCU_membership tabs) 0
      = nth blkn (MCU_membership sp) 0 /\
    0 <= nth blkn (MCU_membership sp) 0 < comps_in_scan sp /\
    nth blkn (jdhuff_decode.coef_limit tabs) 0 = DCTSIZE2 /\
    (exists t, derived true t /\
       pair_ctbl t = block_dctbl sp ent blkn /\
       pair_dtbl t = nth blkn (jdhuff_decode.dc_cur_tbls tabs)
                       jdhuff.blank_d_derived_tbl) /\
    (exists t, derived false t /\
       pair_ctbl t = block_actbl sp ent blkn /\
       pair_dtbl t = nth blkn (jdhuff_decode.ac_cur_tbls tabs)
                       jdhuff.blank_d_derived_tbl).

(* An encoder between two MCUs of the scan [sp], with the derived
   tables of [ent0], room in the output array and a bit buffer in
   order. *)
Definition encoder_at (sp : scan_params) (ent0 : huff_entropy_encoder)
    (c : compress_struct) : Prop :=
  scan c = sp /\
  dc_derived_tbls (entropy c) = dc_derived_tbls ent0 /\
  ac_derived_tbls (entropy c) = ac_derived_tbls ent0 /\
  dest_room (dest c) /\ bit_buffer_ok (saved (entropy c)) /\
  0 <= next_restart_num (entropy c) <= 7.

(* The encoder after the restart marker that opens an MCU, as if the
   MCU were still to come: the restart counter set back and the marker
   number moved on. *)
Definition after_restart (c : compress_struct) (st : working_state)
  : compress_struct :=
  mk_cinfo (scan c)
    (jpeglib.mk_dest (out_mem st) (next_output_byte st) (free_in_buffer st))
    (mk_entropy (cur st) (restart_interval (scan c))
       (Z.land (to_JINT (next_restart_num (entropy c) + 1)) 7)
       (dc_derived_tbls (entropy c)) (ac_derived_tbls (entropy c))).

(* A decoder at the start of an interval of a scan with restart
   interval [R]: the input at [input] with no marker read and nothing
   discarded, RST[num] the next restart marker, the bit buffer empty and
   the restart counter at [R], as start_pass_huff_decoder and
   process_restart leave them. *)
Definition decoder_at (R ncomp num : Z) (input : list Z)
    (d : jdhuff_mcu.decompress_struct) : Prop :=
  jdhuff_mcu.restart_interval d = R /\
  jdhuff_mcu.comps_in_scan d = ncomp /\
  jdmarker.next_input_byte (jdhuff_mcu.reader d) = input /\
  jdmarker.unread_marker (jdhuff_mcu.reader d) = 0 /\
  jdmarker.discarded_bytes (jdhuff_mcu.reader d) = 0 /\
  jdmarker.next_restart_num (jdhuff_mcu.reader d) = num /\
  jdmarker.insufficient_data (jdhuff_mcu.reader d) = false /\
  jdhuff_mcu.bits_left (jdhuff_mcu.entropy d) = 0 /\
  jdhuff_mcu.restarts_to_go (jdhuff_mcu.entropy d) = R.

(* A scan of one component, one block to the MCU, with a restart
   marker after every MCU; the encoder has the tables of
   [ex_dc_pair] and [ex_ac_pair] and 64 bytes of room. *)
Definition ex_scan_params : scan_params :=
  mk_scan 1 1 1 [0] [0] [0] 63 jpeg_natural_order.

Definition ex_scan_encoder : compress_struct :=
  mk_cinfo ex_scan_params (jpeglib.mk_dest (repeat 0 64) 0 64)
    (mk_entropy (mk_savable 0 0 [0; 0; 0; 0]) 0 0
       [pair_ctbl ex_dc_pair] [pair_ctbl ex_ac_pair]).

Definition ex_scan_mcus : list (list (list Z)) :=
  [[ex_small_block]; [ex_small_block]].

Definition ex_scan_encoded : compress_struct :=
  Eval vm_compute in
    match encode_mcus (start_pass_huff ex_scan_encoder) ex_scan_mcus with
    | Returned (true, c) => c
    | _ => ex_scan_encoder
    end.

Definition ex_scan_finished : compress_struct :=
  Eval vm_compute in
    match finish_pass_huff ex_scan_encoded with
    | Returned c => c
    | _ => ex_scan_encoder
    end.

Definition ex_scan_tables : jdhuff_decode.scan_tables :=
  jdhuff_decode.mk_scan_tables 1 [0] [pair_dtbl ex_dc_pair]
    [pair_dtbl ex_ac_pair] [64].

(* A decoder at the start of what that encoder wrote, with EOI behind
   it. *)
Definition ex_scan_decoder : jdhuff_mcu.decompress_struct :=
  jdhuff_mcu.mk_decompress
    (jdmarker.mk_dinfo [0x95; 0x8F; 0xFF; 0xD0; 0x95; 0x8F; 0xFF; 0xD9]
       0 0 0 false [])
    1 1 (jdhuff_mcu.mk_entropy 0 0 [0; 0; 0; 0] 1).

End scan_spec.
(** * Properties *)

Lemma Returned_inj {A} (a b : A) : Returned a = Returned b -> a = b.
Proof. intro H. inversion H. reflexivity. Qed.

Lemma wrap_s_small w z :
  0 < w -> - 2 ^ (w - 1) <= z < 2 ^ (w - 1) -> wrap_s w z = z.
Proof.
  intros Hw Hz. unfold wrap_s.
  assert (E : 2 ^ w = 2 * 2 ^ (w - 1)).
  { replace w with (Z.succ (w - 1)) at 1 by lia.
    rewrite Z.pow_succ_r by lia. reflexivity. }
  rewrite Z.mod_small by lia. lia.
Qed.

Lemma to_JINT_small z : - 2 ^ 31 <= z < 2 ^ 31 -> to_JINT z = z.
Proof. intros. apply wrap_s_small; simpl; lia. Qed.

Lemma wrap_u_small w z : 0 <= z < 2 ^ w -> wrap_u w z = z.
Proof. intros. unfold wrap_u. apply Z.mod_small; assumption. Qed.


Lemma bind_outcome_Returned {A B} (o : outcome A) (k : A -> outcome B) b :
  bind_outcome o k = Returned b -> exists a, o = Returned a /\ k a = Returned b.
Proof. destruct o as [a| |]; simpl; intro H; try discriminate. eauto. Qed.

Lemma JSC_ASSERT_Returned {A} (t : bool) (k : outcome A) a :
  JSC_ASSERT t k = Returned a -> t = true /\ k = Returned a.
Proof. destruct t; simpl; intro H; [auto|discriminate]. Qed.
(** ** Quality scaling and quantization tables (jcparam.c) *)


Lemma quality_safety_limit_range q : 1 <= quality_safety_limit q <= 100.
Proof.
  unfold quality_safety_limit.
  destruct (q <=? 0) eqn:E1.
  - simpl. lia.
  - destruct (q >? 100) eqn:E2; lia.
Qed.

Lemma quality_safety_limit_clamp q :
  quality_safety_limit q = Z.min (Z.max q 1) 100.
Proof.
  unfold quality_safety_limit.
  destruct (q <=? 0) eqn:E1.
  - simpl. lia.
  - destruct (q >? 100) eqn:E2; lia.
Qed.

Lemma quality_safety_limit_idem q :
  quality_safety_limit (quality_safety_limit q) = quality_safety_limit q.
Proof.
  pose proof (quality_safety_limit_range q) as H.
  unfold quality_safety_limit at 1.
  destruct (quality_safety_limit q <=? 0) eqn:E1; [lia|].
  destruct (quality_safety_limit q >? 100) eqn:E2; lia.
Qed.

Lemma jpeg_quality_scaling_range q : 0 <= jpeg_quality_scaling q <= 5000.
Proof.
  unfold jpeg_quality_scaling.
  pose proof (quality_safety_limit_range q) as H.
  set (c := quality_safety_limit q) in *.
  destruct (c <? 50) eqn:E.
  - unfold cdiv.
    assert (0 <= 5000 ÷ c <= 5000).
    { rewrite Z.quot_div_nonneg by lia. split.
      - apply Z.div_pos; lia.
      - apply Z.div_le_upper_bound; nia. }
    rewrite to_JINT_small; lia.
  - rewrite (to_JINT_small (c * 2)) by lia.
    rewrite to_JINT_small; lia.
Qed.

(** C10.  For every integer [q], in range or not, [jpeg_quality_scaling]
    first limits the quality to 1..100 (values <= 0 become 1, values
    above 100 become 100), so that it agrees with itself at
    [min (max q 1) 100], and the divisor of [5000 / quality] is never
    zero. *)
Theorem jpeg_quality_scaling_clamps_first :
  forall q : Z,
    quality_safety_limit q = Z.min (Z.max q 1) 100 /\
    (q <= 0 -> quality_safety_limit q = 1) /\
    (q > 100 -> quality_safety_limit q = 100) /\
    jpeg_quality_scaling q = jpeg_quality_scaling (Z.min (Z.max q 1) 100) /\
    quality_safety_limit q <> 0.
Proof.
  intro q. pose proof (quality_safety_limit_range q) as R.
  pose proof (quality_safety_limit_clamp q) as C.
  repeat split.
  - exact C.
  - intro. rewrite C. lia.
  - intro. rewrite C. lia.
  - unfold jpeg_quality_scaling. rewrite <- C.
    rewrite quality_safety_limit_idem. reflexivity.
  - lia.
Qed.

Lemma list_set_length {A} (l : list A) n x : length (list_set l n x) = length l.
Proof.
  revert n; induction l as [|h t IH]; intros [|n]; simpl; auto.
Qed.

Lemma nth_list_set_eq {A} (l : list A) n x d :
  (n < length l)%nat -> nth n (list_set l n x) d = x.
Proof.
  revert n; induction l as [|h t IH]; intros [|n] H; simpl in *; try lia; auto.
  apply IH; lia.
Qed.

Lemma nth_list_set_neq {A} (l : list A) n m x d :
  n <> m -> nth m (list_set l n x) d = nth m l d.
Proof.
  revert n m; induction l as [|h t IH]; intros [|n] [|m] H; simpl; auto; try lia.
Qed.

Lemma fill_quantval_length n i basic sf fb qv :
  length (fill_quantval n i basic sf fb qv) = length qv.
Proof.
  revert i qv; induction n as [|n IH]; intros i qv; simpl; auto.
  rewrite IH. apply list_set_length.
Qed.

Lemma fill_quantval_nth n : forall i basic sf fb qv k,
  (i + n <= length qv)%nat ->
  nth k (fill_quantval n i basic sf fb qv) 0 =
    if (Nat.leb i k && Nat.ltb k (i + n))%bool
    then quant_entry (nth k basic 0) sf fb
    else nth k qv 0.
Proof.
  induction n as [|n IH]; intros i basic sf fb qv k Hlen; simpl.
  - destruct (Nat.leb i k) eqn:E1; simpl; auto.
    destruct (Nat.ltb k (i + 0)) eqn:E2; auto.
    apply Nat.leb_le in E1. apply Nat.ltb_lt in E2. lia.
  - rewrite IH by (rewrite list_set_length; lia).
    destruct (Nat.leb (S i) k) eqn:E1; destruct (Nat.ltb k (S i + n)) eqn:E2;
      destruct (Nat.leb i k) eqn:E3; destruct (Nat.ltb k (i + S n)) eqn:E4;
      simpl;
      repeat match goal with
             | H : Nat.leb _ _ = true |- _ => apply Nat.leb_le in H
             | H : Nat.leb _ _ = false |- _ => apply Nat.leb_gt in H
             | H : Nat.ltb _ _ = true |- _ => apply Nat.ltb_lt in H
             | H : Nat.ltb _ _ = false |- _ => apply Nat.ltb_ge in H
             end; try lia; auto;
      try (rewrite nth_list_set_neq by lia; reflexivity).
    assert (k = i) by lia. subst k. apply nth_list_set_eq. lia.
Qed.

Lemma wrap_s_range w z : 0 < w -> - 2 ^ (w - 1) <= wrap_s w z < 2 ^ (w - 1).
Proof.
  intro Hw. unfold wrap_s.
  assert (E : 2 ^ w = 2 * 2 ^ (w - 1)).
  { replace w with (1 + (w - 1)) at 1 by lia.
    rewrite Z.pow_add_r by lia. reflexivity. }
  assert (P : 0 < 2 ^ (w - 1)) by (apply Z.pow_pos_nonneg; lia).
  pose proof (Z.mod_pos_bound (z + 2 ^ (w - 1)) (2 ^ w) ltac:(lia)). lia.
Qed.

(* The entry for any operands: the 32-bit product, then the sum and the
   quotient that the long arithmetic gives without a wrap. *)
Lemma quant_entry_value basic sf fb :
  quant_entry basic sf fb =
    clamp 1 (if fb then 255 else 32767)
      (cdiv (to_JLONG (to_JLONG basic * sf) + 50) 100).
Proof.
  unfold quant_entry.
  pose proof (wrap_s_range 32 (to_JLONG basic * sf) ltac:(lia)) as Hp.
  change (wrap_s 32) with to_JLONG in Hp. change (2 ^ (32 - 1)) with 2147483648 in Hp.
  set (p := to_JLONG (to_JLONG basic * sf)) in *.
  unfold to_long. rewrite (wrap_s_small 64 (p + 50)) by (simpl; lia).
  assert (Hq : -21474837 <= cdiv (p + 50) 100 <= 21474837).
  { unfold cdiv. split.
    - apply Z.quot_le_lower_bound; lia.
    - apply Z.quot_le_upper_bound; lia. }
  assert (Et : to_JLONG (cdiv (p + 50) 100) = cdiv (p + 50) 100)
    by (apply wrap_s_small; simpl; lia).
  rewrite Et. set (t := cdiv (p + 50) 100) in *. clearbody t. cbv zeta.
  unfold to_UINT16, clamp.
  destruct (t <=? 0) eqn:E1.
  - change (1 >? 32767) with false. cbv iota.
    destruct fb; cbn [andb]; change (1 >? 255) with false; cbv iota;
      rewrite wrap_u_small by (simpl; lia); lia.
  - destruct (t >? 32767) eqn:E2.
    + destruct fb; cbn [andb].
      * change (32767 >? 255) with true. cbv iota.
        rewrite wrap_u_small by (simpl; lia). lia.
      * rewrite wrap_u_small by (simpl; lia). lia.
    + destruct fb; cbn [andb].
      * destruct (t >? 255) eqn:E3; rewrite wrap_u_small by (simpl; lia); lia.
      * rewrite wrap_u_small by (simpl; lia). lia.
Qed.

Lemma quant_entry_clamp basic sf fb :
  0 <= basic -> 0 <= sf -> basic * sf + 50 <= JINT_MAX ->
  quant_entry basic sf fb =
    clamp 1 (if fb then 255 else 32767) ((basic * sf + 50) / 100).
Proof.
  intros Hb Hs Hov. unfold JINT_MAX in Hov.
  rewrite quant_entry_value. unfold to_JLONG, cdiv.
  assert (Hprod : wrap_s 32 (wrap_s 32 basic * sf) = basic * sf).
  { destruct (Z.eq_dec sf 0) as [->|Hsf].
    - rewrite !Z.mul_0_r. reflexivity.
    - rewrite (wrap_s_small 32 basic) by (simpl; nia).
      apply wrap_s_small; simpl; nia. }
  rewrite Hprod. rewrite Z.quot_div_nonneg by nia. reflexivity.
Qed.

(** C7.  For a quality [q] in 1..100 the scaling percentage is
    [5000 / q] when [q <= 50] and [200 - 2 q] when [q > 50]; and the table
    that [jpeg_add_quant_table] installs for that scaling holds, at each
    of its 64 entries, [(basic * scale + 50) / 100] clamped to 1..255 when
    baseline is forced and to 1..32767 when it is not. *)
Theorem quality_scaling_and_quant_entries :
  forall (q : Z) (cinfo : jpeg_compress_struct) (which_tbl : Z)
         (basic_table : list Z) (force_baseline : bool),
    1 <= q <= 100 ->
    global_state cinfo = CSTATE_START ->
    0 <= which_tbl < NUM_QUANT_TBLS ->
    length (quant_tbl_ptrs cinfo) = Z.to_nat NUM_QUANT_TBLS ->
    (forall t, In (Some t) (quant_tbl_ptrs cinfo) ->
               length (quantval t) = Z.to_nat DCTSIZE2) ->
    (forall b, In b basic_table ->
               0 <= b /\ b * jpeg_quality_scaling q + 50 <= JINT_MAX) ->
    length basic_table = Z.to_nat DCTSIZE2 ->
    jpeg_quality_scaling q = (if q <=? 50 then 5000 / q else 200 - 2 * q) /\
    exists cinfo' t,
      jpeg_add_quant_table cinfo which_tbl basic_table
        (jpeg_quality_scaling q) force_baseline = Returned cinfo' /\
      nth (Z.to_nat which_tbl) (quant_tbl_ptrs cinfo') None = Some t /\
      length (quantval t) = Z.to_nat DCTSIZE2 /\
      forall i, (i < 64)%nat ->
        nth i (quantval t) 0 =
          clamp 1 (if force_baseline then 255 else 32767)
            ((nth i basic_table 0 * jpeg_quality_scaling q + 50) / 100).
Proof.
  intros q cinfo which basic fb Hq Hstate Hwhich Hslots Hold Hbasic Hblen.
  split.
  - unfold jpeg_quality_scaling.
    assert (E : quality_safety_limit q = q)
      by (rewrite quality_safety_limit_clamp; lia).
    rewrite E.
    destruct (q <? 50) eqn:E1.
    + assert (E2 : (q <=? 50) = true) by lia. rewrite E2.
      unfold cdiv. rewrite Z.quot_div_nonneg by lia.
      apply to_JINT_small.
      assert (0 <= 5000 / q) by (apply Z.div_pos; lia).
      assert (5000 / q <= 5000) by (apply Z.div_le_upper_bound; nia).
      lia.
    + rewrite (to_JINT_small (q * 2)) by lia.
      rewrite to_JINT_small by lia.
      destruct (q <=? 50) eqn:E2.
      * assert (q = 50) by lia. subst q. reflexivity.
      * lia.
  - unfold jpeg_add_quant_table, JSC_ASSERT. rewrite Hstate, Z.eqb_refl.
    replace (which >=? 0) with true by lia.
    replace (which <? NUM_QUANT_TBLS) with true by lia.
    eexists. eexists. split; [reflexivity|].
    cbn [quant_tbl_ptrs set_quant_tbl_ptrs].
    unfold NUM_QUANT_TBLS in *.
    assert (Hw : (Z.to_nat which < length (quant_tbl_ptrs cinfo))%nat)
      by (rewrite Hslots; lia).
    rewrite nth_list_set_eq by exact Hw.
    split; [reflexivity|]. cbn [quantval].
    assert (Hqlen :
      length (quantval match nth (Z.to_nat which) (quant_tbl_ptrs cinfo) None with
                       | Some t => t | None => fresh_quant_table end)
      = Z.to_nat DCTSIZE2).
    { destruct (nth (Z.to_nat which) (quant_tbl_ptrs cinfo) None) eqn:En.
      - apply Hold. rewrite <- En. apply nth_In. exact Hw.
      - reflexivity. }
    split.
    + rewrite fill_quantval_length. exact Hqlen.
    + intros i Hi.
      assert (E64 : Z.to_nat DCTSIZE2 = 64%nat) by reflexivity.
      rewrite fill_quantval_nth by (rewrite Hqlen; lia).
      replace (Nat.leb 0 i && Nat.ltb i (0 + Z.to_nat DCTSIZE2))%bool with true.
      2:{ symmetry. apply andb_true_iff. split.
          - apply Nat.leb_le; lia.
          - apply Nat.ltb_lt. lia. }
      assert (Hin : In (nth i basic 0) basic).
      { apply nth_In. rewrite Hblen. lia. }
      destruct (Hbasic _ Hin) as [Hb0 Hb1].
      apply quant_entry_clamp; auto.
      apply (jpeg_quality_scaling_range q).
Qed.

Lemma quality_scaling_and_quant_entries_witness :
  jpeg_quality_scaling 75 = 50 /\
  exists cinfo' t,
    jpeg_add_quant_table examples.ex_params 0 std_luminance_quant_tbl
      (jpeg_quality_scaling 75) true = Returned cinfo' /\
    nth 0 (quant_tbl_ptrs cinfo') None = Some t /\
    length (quantval t) = 64%nat /\
    forall i, (i < 64)%nat ->
      nth i (quantval t) 0 =
        clamp 1 255
          ((nth i std_luminance_quant_tbl 0 * jpeg_quality_scaling 75 + 50) / 100).
Proof.
  apply (quality_scaling_and_quant_entries 75 examples.ex_params
           0 std_luminance_quant_tbl true).
  - lia.
  - reflexivity.
  - unfold NUM_QUANT_TBLS. lia.
  - reflexivity.
  - simpl. intros t [H|[H|[H|[H|[]]]]]; discriminate.
  - intros b Hb. change (jpeg_quality_scaling 75) with 50.
    unfold JINT_MAX. simpl in Hb.
    repeat (destruct Hb as [<-|Hb]; [lia|]). destruct Hb.
  - reflexivity.
Defined.

(** ** Restart sections (jsc_compress.c) *)

Section restart_sections.
Import props examples.

(* jsc_compress asks for height / 64 restart sections. *)
Lemma jsc_compress_sections {R : Type}
    (rst : JscImage -> JscBuf -> JscBuf -> Z -> Z -> R)
    (image : JscImage) (o w : JscBuf) (quality : Z) :
  0 <= height image < 2 ^ 32 ->
  jsc_compress rst image o w quality = rst image o w quality (height image / 64).
Proof.
  intro H. unfold jsc_compress. f_equal.
  unfold cdiv, DCTSIZE2. rewrite Z.quot_div_nonneg by lia.
  assert (0 <= height image / 64) by (apply Z.div_pos; lia).
  assert (height image / 64 < 2 ^ 26).
  { apply Z.div_lt_upper_bound; [lia|]. change (64 * 2 ^ 26) with (2 ^ 32). lia. }
  unfold to_JDIMENSION. rewrite wrap_u_small by lia.
  apply to_JINT_small. lia.
Qed.

(** C8.  On a 16x64 image with 2x2 luminance sampling and two restart
    sections, the image has 4 iMCU rows and the claim calls for
    [restart_in_rows = ceil(4 / 2) = 2]; [set_restart_sections] computes
    the row count from [image_width] instead of [image_height] and
    stores 1. *)
Theorem set_restart_sections_counts_rows_from_width :
  exists c',
    set_restart_sections ex_tall 2 = Returned c' /\
    restart_in_rows c' = 1 /\
    restart_in_rows c' = ceil_div (iMCU_rows (image_width ex_tall) 2) 2 /\
    ceil_div (iMCU_rows (image_height ex_tall) 2) 2 = 2.
Proof.
  eexists. split; [vm_compute; reflexivity|].
  split; [reflexivity|]. split; reflexivity.
Qed.

End restart_sections.

(** ** The bit buffer and byte stuffing (jchuff.c) *)

Section jchuff_properties.
Import jchuff props.

Lemma firstn_list_set_le {A} (l : list A) k n v :
  (n <= k)%nat -> firstn n (list_set l k v) = firstn n l.
Proof.
  revert k n; induction l as [|h t IH]; intros [|k] [|n] H; simpl; auto; try lia.
  f_equal. apply IH. lia.
Qed.

Lemma firstn_S_list_set {A} (l : list A) k v :
  (k < length l)%nat -> firstn (S k) (list_set l k v) = firstn k l ++ [v].
Proof.
  revert k; induction l as [|h t IH]; intros [|k] H; simpl in *; try lia; auto.
  f_equal. apply IH. lia.
Qed.

Lemma stuffed_app a b : stuffed a -> stuffed b -> stuffed (a ++ b).
Proof.
  induction 1; intros Hb; simpl; auto.
  - apply stuffed_data; auto.
  - apply stuffed_pair; auto.
Qed.

Lemma stuffed_framed B : stuffed B -> marker_framed B.
Proof.
  induction 1 as [|c l Hc Hl IH|y l Hy Hl IH]; intros i Hi.
  - destruct i; discriminate.
  - destruct i as [|i]; simpl in Hi.
    + injection Hi as ->. contradiction.
    + apply IH in Hi. exact Hi.
  - destruct i as [|[|i]]; simpl in Hi.
    + exists y. split; [reflexivity|exact Hy].
    + injection Hi as ->. unfold is_restart_code in Hy. lia.
    + apply IH in Hi. exact Hi.
Qed.

Lemma grows_refl st : grows st st [].
Proof.
  unfold grows. rewrite app_nil_r. simpl. repeat split; lia.
Qed.

Lemma grows_trans st1 st2 st3 B1 B2 :
  grows st1 st2 B1 -> grows st2 st3 B2 -> grows st1 st3 (B1 ++ B2).
Proof.
  unfold grows. intros (W1 & N1 & F1 & L1 & C1) (W2 & N2 & F2 & L2 & C2).
  rewrite length_app, Nat2Z.inj_add.
  repeat split; try lia; try congruence.
  rewrite W2, W1, app_assoc. reflexivity.
Qed.

Lemma grows_set_cur st st' B c : grows st st' B -> grows st (set_cur st' c) B.
Proof. unfold grows, ws_written. destruct st'; simpl. auto. Qed.

Lemma ws_room_set_cur st c : ws_room st -> ws_room (set_cur st c).
Proof. unfold ws_room. destruct st; simpl. auto. Qed.

Lemma to_JOCTET_range v : 0 <= to_JOCTET v < 256.
Proof. unfold to_JOCTET, wrap_u. apply Z.mod_pos_bound. reflexivity. Qed.

(* emit_byte_s with room: one byte goes out, the count goes down by one
   and stays at or above zero, and the action is taken exactly at zero. *)
Lemma emit_byte_s_spec st v :
  ws_room st ->
  let '(st', suspend) := emit_byte_s st v in
  grows st st' [to_JOCTET v] /\
  0 <= free_in_buffer st' /\
  suspend = (free_in_buffer st' =? 0) /\
  cur st' = cur st.
Proof.
  intros (Hn & Hf & Hlen). unfold emit_byte_s, grows, ws_written, written, store.
  cbn [out_mem next_output_byte free_in_buffer cur cinfo].
  assert (E : to_JSIZE (free_in_buffer st - 1) = free_in_buffer st - 1).
  { unfold to_JSIZE. apply wrap_u_small. unfold JSIZE_MAX in Hf.
    change (2 ^ 32) with 4294967296. lia. }
  rewrite E.
  destruct (next_output_byte st <? 0) eqn:En; [lia|].
  repeat split; try (simpl; lia); auto.
  - replace (Z.to_nat (next_output_byte st + 1))
      with (S (Z.to_nat (next_output_byte st))) by lia.
    apply firstn_S_list_set. lia.
  - apply list_set_length.
Qed.

Lemma emit_byte_s_room st v st' :
  ws_room st -> emit_byte_s st v = (st', false) -> ws_room st'.
Proof.
  intros Hr He. pose proof (emit_byte_s_spec st v Hr) as H.
  rewrite He in H. destruct H as ((W & N & F & L & C) & F0 & S & _).
  destruct Hr as (Hn & Hf & Hlen). unfold ws_room, room.
  simpl in N, F. symmetry in S. apply Z.eqb_neq in S.
  rewrite L. unfold JSIZE_MAX in *. lia.
Qed.

Lemma emits_then {A B} (pa : A -> working_state) (pb : B -> working_state)
    st (r : suspendable A) (k : A -> suspendable B) :
  emits pa st r ->
  (forall a, ws_room (pa a) -> emits pb (pa a) (k a)) ->
  emits pb st (r THEN k).
Proof.
  intros Hr Hk. destruct r as [[a|st']| |]; simpl in *; auto.
  destruct Hr as (B1 & G1 & S1 & R1).
  specialize (Hk a R1). destruct (k a) as [[b|st'']| |]; simpl in *; auto.
  - destruct Hk as (B2 & G2 & S2 & R2). exists (B1 ++ B2).
    split; [eapply grows_trans; eauto|]. split; auto using stuffed_app.
  - destruct Hk as (B2 & G2 & F2). exists (B1 ++ B2).
    split; [eapply grows_trans; eauto|auto].
Qed.

Lemma emits_after {A} (pa : A -> working_state) st st1 B1
    (r : suspendable A) :
  grows st st1 B1 -> stuffed B1 -> emits pa st1 r -> emits pa st r.
Proof.
  intros G1 S1 Hr. destruct r as [[a|st']| |]; simpl in *; auto.
  - destruct Hr as (B2 & G2 & S2 & R2). exists (B1 ++ B2).
    split; [eapply grows_trans; eauto|]. split; auto using stuffed_app.
  - destruct Hr as (B2 & G2 & F2). exists (B1 ++ B2).
    split; [eapply grows_trans; eauto|auto].
Qed.

Lemma emits_bind {A B} (pb : B -> working_state) st (o : outcome A)
    (k : A -> suspendable B) :
  (forall a, o = Returned a -> emits pb st (k a)) ->
  emits pb st (bind_outcome o k).
Proof. intros H. destruct o; simpl; auto. Qed.

Lemma emits_assert {B} (pb : B -> working_state) st (t : bool)
    (k : suspendable B) :
  (t = true -> emits pb st k) -> emits pb st (JSC_ASSERT t k).
Proof. intros H. destruct t; simpl; auto. Qed.

Lemma emits_done st : ws_room st -> emits (fun s => s) st (Returned (Done st)).
Proof.
  intro R. simpl. exists []. split; [apply grows_refl|].
  split; [constructor|exact R].
Qed.

Lemma top_byte_range pb : 0 <= to_JINT (Z.land (Z.shiftr pb 16) 0xFF) < 256.
Proof.
  change 0xFF with (Z.ones 8). rewrite Z.land_ones by lia.
  pose proof (Z.mod_pos_bound (Z.shiftr pb 16) (2 ^ 8) eq_refl) as H.
  change (2 ^ 8) with 256 in *.
  rewrite to_JINT_small by (change (2 ^ 31) with 2147483648; lia). exact H.
Qed.

Lemma to_JOCTET_small v : 0 <= v < 256 -> to_JOCTET v = v.
Proof. intro H. unfold to_JOCTET. apply wrap_u_small. exact H. Qed.

Lemma spill_byte_emits st pb :
  ws_room st -> emits (fun s => s) st (Returned (spill_byte st pb)).
Proof.
  intro R. unfold spill_byte.
  pose proof (top_byte_range pb) as Hc.
  set (c := to_JINT (Z.land (Z.shiftr pb 16) 255)) in *.
  pose proof (emit_byte_s_spec st c R) as H1.
  destruct (emit_byte_s st c) as [st1 s1] eqn:E1.
  destruct H1 as (G1 & F1 & S1 & _).
  rewrite to_JOCTET_small in G1 by exact Hc.
  destruct s1.
  - simpl. exists [c]. split; auto. symmetry in S1. apply Z.eqb_eq in S1. auto.
  - assert (R1 : ws_room st1) by (eapply emit_byte_s_room; eauto).
    destruct (c =? 255) eqn:Ec.
    + apply Z.eqb_eq in Ec.
      pose proof (emit_byte_s_spec st1 0 R1) as H2.
      destruct (emit_byte_s st1 0) as [st2 s2] eqn:E2.
      destruct H2 as (G2 & F2 & S2 & _).
      change (to_JOCTET 0) with 0 in G2.
      pose proof (grows_trans _ _ _ _ _ G1 G2) as G.
      destruct s2; simpl.
      * exists ([c] ++ [0]). split; auto.
        symmetry in S2. apply Z.eqb_eq in S2. auto.
      * exists ([c] ++ [0]). split; auto. split.
        -- rewrite Ec. simpl. apply stuffed_pair; [left; reflexivity|constructor].
        -- eapply emit_byte_s_room; eauto.
    + apply Z.eqb_neq in Ec. simpl. exists [c]. split; auto. split; auto.
      apply stuffed_data; [exact Ec|constructor].
Qed.

Lemma emit_bits_loop_emits st pb bits :
  ws_room st -> emits (fun s => s) st (Returned (emit_bits_loop st pb bits)).
Proof.
  funelim (emit_bits_loop st pb bits); intro R.
  - simpl. exists []. split; [apply grows_set_cur, grows_refl|].
    split; [constructor|apply ws_room_set_cur; exact R].
  - pose proof (spill_byte_emits state pb R) as Hs. rewrite Heq in Hs.
    simpl in Hs. destruct Hs as (B1 & G1 & S1 & R1).
    eapply emits_after; eauto.
  - pose proof (spill_byte_emits state pb R) as Hs. rewrite Heq in Hs.
    exact Hs.
Qed.

Lemma emit_bits_s_emits st code size :
  ws_room st -> emits (fun s => s) st (emit_bits_s st code size).
Proof.
  intro R. unfold emit_bits_s. apply emits_assert. intros _.
  apply emit_bits_loop_emits. exact R.
Qed.

Lemma emits_set_cur st st' c :
  ws_room st' -> grows st st' [] ->
  emits (fun s => s) st (Returned (Done (set_cur st' c))).
Proof.
  intros R G. simpl. exists []. split; [apply grows_set_cur; exact G|].
  split; [constructor|apply ws_room_set_cur; exact R].
Qed.

Lemma flush_bits_s_emits st :
  ws_room st -> emits (fun s => s) st (flush_bits_s st).
Proof.
  intro R. unfold flush_bits_s.
  eapply emits_then; [apply emit_bits_s_emits; exact R|].
  intros a Ra. apply emits_set_cur; [exact Ra|apply grows_refl].
Qed.

Lemma emit_restart_s_emits st n :
  0 <= n <= 7 -> ws_room st -> emits (fun s => s) st (emit_restart_s st n).
Proof.
  intros Hn R. unfold emit_restart_s.
  eapply emits_then; [apply flush_bits_s_emits; exact R|].
  intros a Ra.
  pose proof (emit_byte_s_spec a 255 Ra) as H1.
  destruct (emit_byte_s a 255) as [st1 s1] eqn:E1.
  destruct H1 as (G1 & F1 & S1 & _). change (to_JOCTET 255) with 255 in G1.
  destruct s1.
  - simpl. exists [255]. split; auto. symmetry in S1. apply Z.eqb_eq in S1. auto.
  - assert (R1 : ws_room st1) by (eapply emit_byte_s_room; eauto).
    set (m := to_JINT (JPEG_RST0 + n)).
    assert (Hm : m = 208 + n).
    { unfold m, JPEG_RST0. apply to_JINT_small.
      change (2 ^ 31) with 2147483648. lia. }
    pose proof (emit_byte_s_spec st1 m R1) as H2.
    destruct (emit_byte_s st1 m) as [st2 s2] eqn:E2.
    destruct H2 as (G2 & F2 & S2 & _).
    rewrite to_JOCTET_small in G2 by lia.
    pose proof (grows_trans _ _ _ _ _ G1 G2) as G.
    destruct s2.
    + simpl. exists ([255] ++ [m]). split; auto.
      symmetry in S2. apply Z.eqb_eq in S2. auto.
    + simpl. exists ([255] ++ [m]). split; [apply grows_set_cur; exact G|].
      split.
      * simpl. apply stuffed_pair; [right; unfold is_restart_code; lia|constructor].
      * apply ws_room_set_cur. eapply emit_byte_s_room; eauto.
Qed.

Lemma emits_done_pair st (r : Z) :
  ws_room st -> emits fst st (Returned (Done (st, r))).
Proof.
  intro R. simpl. exists []. split; [apply grows_refl|].
  split; [constructor|exact R].
Qed.

Lemma emit_zrl_loop_emits st actbl r :
  ws_room st -> emits fst st (emit_zrl_loop st actbl r).
Proof.
  funelim (emit_zrl_loop st actbl r); intro R; try exact I.
  - apply emits_done_pair. exact R.
  - pose proof (emit_bits_s_emits state (ehufco_at actbl 240)
                  (ehufsi_at actbl 240) R) as He.
    rewrite Heq in He. simpl in He. destruct He as (B1 & G1 & S1 & R1).
    eapply emits_after; eauto.
  - pose proof (emit_bits_s_emits state (ehufco_at actbl 240)
                  (ehufsi_at actbl 240) R) as He.
    rewrite Heq in He. exact He.
Qed.

Lemma encode_ac_loop_emits n : forall k r st block actbl,
  ws_room st -> emits fst st (encode_ac_loop n k r st block actbl).
Proof.
  induction n as [|n IH]; intros k r st block actbl R; cbn [encode_ac_loop].
  - apply emits_done_pair. exact R.
  - destruct (block_at block _ =? 0).
    + apply IH. exact R.
    + eapply emits_then; [apply emit_zrl_loop_emits; exact R|].
      intros [st1 r1] R1. cbn [fst] in R1.
      destruct (if block_at block _ <? 0 then _ else _) as [temp temp2].
      apply emits_bind. intros nbits _.
      apply emits_assert. intros _.
      eapply emits_then; [apply emit_bits_s_emits; exact R1|].
      intros st2 R2.
      eapply emits_then; [apply emit_bits_s_emits; exact R2|].
      intros st3 R3. apply IH. exact R3.
Qed.

Lemma encode_one_block_emits st block last_dc dctbl actbl :
  ws_room st ->
  emits (fun s => s) st (encode_one_block st block last_dc dctbl actbl).
Proof.
  intro R. unfold encode_one_block.
  destruct (if to_JINT (block_at block 0 - last_dc) <? 0 then _ else _)
    as [temp temp2].
  apply emits_bind. intros nbits _.
  apply emits_assert. intros _.
  eapply emits_then; [apply emit_bits_s_emits; exact R|].
  intros st1 R1.
  eapply emits_then.
  { destruct (negb (nbits =? 0)).
    - apply emit_bits_s_emits. exact R1.
    - apply emits_done. exact R1. }
  intros st2 R2.
  eapply emits_then; [apply encode_ac_loop_emits; exact R2|].
  intros [st3 r] R3. cbn [fst] in R3. destruct (r >? 0).
  - apply emit_bits_s_emits. exact R3.
  - apply emits_done. exact R3.
Qed.

Lemma ws_room_set_last_dc st ci v : ws_room st -> ws_room (set_last_dc st ci v).
Proof. intro R. unfold set_last_dc. apply ws_room_set_cur. exact R. Qed.

Lemma grows_from_set_cur st c st' B :
  grows (set_cur st c) st' B -> grows st st' B.
Proof. unfold grows, ws_written. destruct st; simpl. auto. Qed.

Lemma emits_from_set_cur {A} (pa : A -> working_state) st c
    (r : suspendable A) :
  emits pa (set_cur st c) r -> emits pa st r.
Proof.
  destruct r as [[a|st']| |]; simpl; auto.
Qed.

Lemma encode_blocks_emits n : forall blkn st ent MCU_data,
  ws_room st -> emits (fun s => s) st (encode_blocks n blkn st ent MCU_data).
Proof.
  induction n as [|n IH]; intros blkn st ent MCU_data R; cbn [encode_blocks].
  - apply emits_done. exact R.
  - eapply emits_then; [apply encode_one_block_emits; exact R|].
    intros st1 R1. unfold set_last_dc.
    apply emits_from_set_cur with (c := mk_savable (put_buffer (cur st1))
      (put_bits (cur st1))
      (list_set (last_dc_val (cur st1))
         (Z.to_nat (nth blkn (MCU_membership (cinfo st)) 0))
         (block_at (nth blkn MCU_data []) 0))).
    apply IH. apply ws_room_set_cur. exact R1.
Qed.

Lemma emit_all_emits es : forall st,
  ws_room st ->
  (forall n, In (EmitRestart n) es -> 0 <= n <= 7) ->
  emits (fun s => s) st (emit_all st es).
Proof.
  induction es as [|e es IH]; intros st R Hn; cbn [emit_all].
  - apply emits_done. exact R.
  - eapply emits_then.
    + destruct e as [code size|n]; cbn [emit].
      * apply emit_bits_s_emits. exact R.
      * apply emit_restart_s_emits; [apply Hn; left; reflexivity|exact R].
    + intros st1 R1. apply IH; [exact R1|].
      intros n Hin. apply Hn. right. exact Hin.
Qed.

Lemma firstn_prefix_app {A} (l1 l2 B : list A) n :
  firstn (n + length B) l2 = firstn n l1 ++ B ->
  (n <= length l1)%nat ->
  firstn n l2 = firstn n l1.
Proof.
  intros H Hn.
  assert (E : firstn n (firstn (n + length B) l2) = firstn n l2).
  { rewrite firstn_firstn. f_equal. lia. }
  rewrite <- E, H. rewrite firstn_app.
  rewrite firstn_firstn, Nat.min_id.
  rewrite length_firstn, Nat.min_l by lia.
  rewrite Nat.sub_diag. simpl. apply app_nil_r.
Qed.

(* What was below the pointer stays there, whatever is written above. *)
Lemma grows_keeps_written st st' B :
  ws_room st -> grows st st' B ->
  written (out_mem st') (next_output_byte st) = ws_written st.
Proof.
  intros (Hn & Hf & Hlen) (W & N & F & L & C).
  unfold ws_written, written in *. rewrite N in W.
  replace (Z.to_nat (next_output_byte st + Z.of_nat (length B)))
    with (Z.to_nat (next_output_byte st) + length B)%nat in W by lia.
  eapply firstn_prefix_app; eauto. lia.
Qed.

Lemma land_7_range z : 0 <= Z.land z 7 <= 7.
Proof.
  assert (E : Z.land z 7 = z mod 8).
  { change 7 with (Z.ones 3). rewrite Z.land_ones by lia. reflexivity. }
  rewrite E. pose proof (Z.mod_pos_bound z 8 eq_refl). lia.
Qed.

Lemma mcu_attempt_emits c MCU_data :
  dest_room (dest c) -> restart_num_ok c ->
  emits (fun s => s) (mcu_start c)
    ((if negb (restart_interval (scan c) =? 0)
         && (restarts_to_go (entropy c) =? 0)
      then emit_restart_s (mcu_start c) (next_restart_num (entropy c))
      else Returned (Done (mcu_start c))) THEN fun state =>
     encode_blocks (Z.to_nat (blocks_in_MCU (scan c))) 0 state (entropy c)
       MCU_data).
Proof.
  intros R Hn.
  assert (R0 : ws_room (mcu_start c)) by exact R.
  eapply emits_then.
  - destruct (negb _ && _)%bool.
    + apply emit_restart_s_emits; [exact Hn|exact R0].
    + apply emits_done. exact R0.
  - intros st1 R1. apply encode_blocks_emits. exact R1.
Qed.

Lemma update_restart_state_num c :
  restart_num_ok c -> 0 <= snd (update_restart_state c) <= 7.
Proof.
  unfold restart_num_ok, update_restart_state. intro Hn.
  destruct (negb _); [destruct (restarts_to_go _ =? 0)|]; simpl;
    auto using land_7_range.
Qed.

(* encode_mcu_huff, started with room in the destination. *)
Lemma encode_mcu_huff_spec c MCU_data :
  dest_room (dest c) -> restart_num_ok c ->
  match encode_mcu_huff c MCU_data with
  | Returned (true, c') =>
      (exists B, dest_written (dest c') = dest_written (dest c) ++ B /\
                 stuffed B) /\
      dest_room (dest c') /\ restart_num_ok c' /\ scan c' = scan c
  | Returned (false, c') =>
      jpeglib.next_output_byte (dest c') = jpeglib.next_output_byte (dest c) /\
      jpeglib.free_in_buffer (dest c') = jpeglib.free_in_buffer (dest c) /\
      entropy c' = entropy c /\ scan c' = scan c /\
      dest_written (dest c') = dest_written (dest c)
  | Asserted => True
  | Diverged => True
  end.
Proof.
  intros R Hn. pose proof (mcu_attempt_emits c MCU_data R Hn) as He.
  unfold encode_mcu_huff. fold (mcu_start c).
  destruct (_ THEN _) as [[st|st]| |]; auto.
  - simpl in He. destruct He as (B & (W & N & F & L & C) & S & R1).
    pose proof (update_restart_state_num c Hn) as Hnum.
    destruct (update_restart_state c) as [togo num].
    split; [|split; [|split]].
    + exists B. split; [exact W|exact S].
    + exact R1.
    + unfold restart_num_ok. simpl. exact Hnum.
    + reflexivity.
  - simpl in He. destruct He as (B & G & F0).
    repeat split; auto.
    unfold uncommitted, dest_written. simpl.
    apply (grows_keeps_written (mcu_start c) st B); [exact R|exact G].
Qed.

Lemma finish_pass_huff_spec c :
  dest_room (dest c) ->
  match finish_pass_huff c with
  | Returned c' =>
      exists B, dest_written (dest c') = dest_written (dest c) ++ B /\ stuffed B
  | _ => True
  end.
Proof.
  intro R. unfold finish_pass_huff. fold (mcu_start c).
  pose proof (flush_bits_s_emits (mcu_start c) R) as He.
  destruct (flush_bits_s (mcu_start c)) as [[st|st]| |]; auto.
  simpl in He. destruct He as (B & (W & _) & S & _).
  exists B. split; [exact W|exact S].
Qed.

Lemma encode_mcus_spec mcus : forall c c',
  dest_room (dest c) -> restart_num_ok c ->
  encode_mcus c mcus = Returned (true, c') ->
  (exists B, dest_written (dest c') = dest_written (dest c) ++ B /\
             stuffed B) /\
  dest_room (dest c') /\ restart_num_ok c'.
Proof.
  induction mcus as [|m rest IH]; intros c c' R Hn Hrun; cbn [encode_mcus] in Hrun.
  - apply Returned_inj in Hrun. injection Hrun as <-.
    split; [|auto]. exists []. rewrite app_nil_r. split; [reflexivity|constructor].
  - pose proof (encode_mcu_huff_spec c m R Hn) as Hm.
    destruct (encode_mcu_huff c m) as [[[|] c1]| |]; try discriminate.
    destruct Hm as ((B1 & W1 & S1) & R1 & N1 & _).
    destruct (IH c1 c' R1 N1 Hrun) as ((B2 & W2 & S2) & R2 & N2).
    split; [|auto]. exists (B1 ++ B2). rewrite W2, W1, app_assoc.
    split; [reflexivity|apply stuffed_app; auto].
Qed.

End jchuff_properties.

(** ** Marker framing of the entropy-coded output *)

Section marker_framing.
Import jchuff props examples.

(** C1.  Whatever sequence of bits goes through [emit_bits_s] and
    whatever restart markers [emit_restart_s] emits (restart numbers
    0..7), every 0xFF byte that reaches the output is immediately
    followed by 0x00 or by a restart code 0xD0..0xD7; and so is every
    0xFF in the entropy-coded region of a scan, the bytes that a run of
    [encode_mcu_huff] calls closed by [finish_pass_huff] adds to the
    destination. *)
Theorem entropy_output_marker_framed :
  (forall (st st' : working_state) (es : list emission),
      ws_room st ->
      (forall n, In (EmitRestart n) es -> 0 <= n <= 7) ->
      emit_all st es = Returned (Done st') ->
      exists B, ws_written st' = ws_written st ++ B /\ marker_framed B) /\
  (forall (c c1 c2 : compress_struct) (mcus : list (list (list Z))),
      dest_room (dest c) -> restart_num_ok c ->
      encode_mcus c mcus = Returned (true, c1) ->
      finish_pass_huff c1 = Returned c2 ->
      exists B, dest_written (dest c2) = dest_written (dest c) ++ B /\
                marker_framed B).
Proof.
  split.
  - intros st st' es R Hn Hrun.
    pose proof (emit_all_emits es st R Hn) as He. rewrite Hrun in He.
    simpl in He. destruct He as (B & (W & _) & S & _).
    exists B. split; [exact W|apply stuffed_framed; exact S].
  - intros c c1 c2 mcus R Hn Hrun Hfin.
    destruct (encode_mcus_spec mcus c c1 R Hn Hrun) as ((B1 & W1 & S1) & R1 & _).
    pose proof (finish_pass_huff_spec c1 R1) as Hf. rewrite Hfin in Hf.
    destruct Hf as (B2 & W2 & S2).
    exists (B1 ++ B2). rewrite W2, W1, app_assoc. split; [reflexivity|].
    apply stuffed_framed, stuffed_app; assumption.
Qed.

Lemma entropy_output_marker_framed_witness :
  (emit_all ex_state ex_emissions = Returned (Done ex_state') /\
   exists B, ws_written ex_state' = ws_written ex_state ++ B /\
             marker_framed B) /\
  exists c1 c2 B,
    encode_mcus (driver_spec.ex_huff 16)
      [[block_spec.ex_block]; [block_spec.ex_block]] = Returned (true, c1) /\
    finish_pass_huff c1 = Returned c2 /\
    dest_written (dest c2)
      = dest_written (dest (driver_spec.ex_huff 16)) ++ B /\
    marker_framed B.
Proof.
  destruct entropy_output_marker_framed as [Hbits Hscan].
  split.
  - split; [vm_compute; reflexivity|].
    apply (Hbits ex_state ex_state' ex_emissions).
    + unfold ws_room, room, JSIZE_MAX. simpl. lia.
    + intros n [H|[H|[H|[]]]]; inversion H. lia.
    + vm_compute. reflexivity.
  - eexists. eexists.
    assert (R : dest_room (dest (driver_spec.ex_huff 16)))
      by (unfold dest_room, room, JSIZE_MAX; simpl; lia).
    assert (N : restart_num_ok (driver_spec.ex_huff 16))
      by (unfold restart_num_ok; simpl; lia).
    match goal with
    | |- exists B, ?run1 /\ ?run2 /\ _ =>
        assert (H1 : run1) by (vm_compute; reflexivity);
        assert (H2 : run2) by (vm_compute; reflexivity)
    end.
    destruct (Hscan _ _ _ _ R N H1 H2) as (B & HB & HF).
    exists B. auto.
Defined.

End marker_framing.

(** ** The symbols of a block *)

Section block_symbols_properties.
Import jchuff props block_spec.

Lemma and_then_assoc {A B C} (r : suspendable A) (f : A -> suspendable B)
    (g : B -> suspendable C) :
  (r THEN f) THEN g = r THEN fun a => f a THEN g.
Proof. destruct r as [[a|s]| |]; reflexivity. Qed.

Lemma and_then_done {A} (r : suspendable A) :
  r THEN (fun a => Returned (Done a)) = r.
Proof. destruct r as [[a|s]| |]; reflexivity. Qed.

Lemma and_then_ext_cinfo {B} st (r : suspendable working_state)
    (k k' : working_state -> suspendable B) :
  keeps_cinfo st r ->
  (forall st', cinfo st' = cinfo st -> k st' = k' st') ->
  r THEN k = r THEN k'.
Proof.
  intros Hr Hk. destruct r as [[a|s]| |]; try reflexivity.
  simpl. apply Hk. exact Hr.
Qed.

Lemma spill_byte_cinfo st pb :
  match spill_byte st pb with
  | Done st' => cinfo st' = cinfo st
  | Suspend _ => True
  end.
Proof.
  unfold spill_byte, emit_byte_s.
  repeat match goal with
         | |- context [if ?b then _ else _] => destruct b
         end; cbn; auto.
Qed.

Lemma emit_bits_loop_cinfo st pb bits :
  match emit_bits_loop st pb bits with
  | Done st' => cinfo st' = cinfo st
  | Suspend _ => True
  end.
Proof.
  funelim (emit_bits_loop st pb bits); try exact I.
  - reflexivity.
  - pose proof (spill_byte_cinfo state pb) as Hs. rewrite Heq in Hs.
    destruct (emit_bits_loop st _ _); [congruence|exact I].
Qed.

Lemma emit_bits_s_cinfo st code size :
  keeps_cinfo st (emit_bits_s st code size).
Proof.
  unfold emit_bits_s, JSC_ASSERT. destruct (negb (size =? 0)); [|exact I].
  apply emit_bits_loop_cinfo.
Qed.

Lemma emit_bits_all_cinfo l : forall st,
  (forall e, In e l -> exists code size, e = EmitBits code size) ->
  keeps_cinfo st (emit_all st l).
Proof.
  induction l as [|e l IH]; intros st Hl; [reflexivity|].
  destruct (Hl e (or_introl eq_refl)) as (code & size & ->).
  cbn [emit_all emit].
  pose proof (emit_bits_s_cinfo st code size) as H1.
  destruct (emit_bits_s st code size) as [[a|s]| |]; try exact I.
  cbn [and_then]. cbn in H1.
  assert (H2 : keeps_cinfo a (emit_all a l))
    by (apply IH; intros; apply Hl; right; assumption).
  unfold keeps_cinfo in *.
  destruct (emit_all a l) as [[a'|s']| |]; try exact I. congruence.
Qed.

Lemma emit_all_app l1 : forall st l2,
  emit_all st (l1 ++ l2) = emit_all st l1 THEN fun st => emit_all st l2.
Proof.
  induction l1 as [|e l1 IH]; intros st l2; [reflexivity|].
  cbn [emit_all app]. rewrite and_then_assoc.
  destruct (emit st e) as [[a|s]| |]; try reflexivity.
  cbn [and_then]. apply IH.
Qed.

Lemma emit_all_one st e : emit_all st [e] = emit st e.
Proof. cbn [emit_all]. apply and_then_done. Qed.

Lemma log2_shiftr_1 t : 2 <= t -> Z.log2 (Z.shiftr t 1) = Z.log2 t - 1.
Proof.
  intro H. rewrite Z.log2_shiftr by lia.
  assert (1 <= Z.log2 t) by (apply Z.log2_le_pow2; simpl; lia). lia.
Qed.

Lemma shiftr_1_pos t : 2 <= t -> 1 <= Z.shiftr t 1.
Proof.
  intro H. rewrite Z.shiftr_div_pow2 by lia. change (2 ^ 1) with 2.
  apply Z.div_le_lower_bound; lia.
Qed.

Lemma count_bits_ac_log2 temp nbits :
  1 <= temp -> count_bits_ac temp nbits = Returned (nbits + Z.log2 temp).
Proof.
  funelim (count_bits_ac temp nbits); intro Ht.
  - exfalso. pose proof (Z.shiftr_nonneg temp 1). lia.
  - assert (temp = 1).
    { destruct (Z_le_gt_dec 2 temp) as [H2|H2]; [|lia].
      pose proof (shiftr_1_pos temp H2). lia. }
    subst temp. simpl. f_equal. lia.
  - assert (2 <= temp).
    { destruct (Z_le_gt_dec 2 temp) as [H2|H2]; [exact H2|].
      assert (Z.shiftr temp 1 = 0)
        by (replace temp with 1 by lia; reflexivity). lia. }
    rewrite H by (apply shiftr_1_pos; assumption).
    rewrite log2_shiftr_1 by assumption. f_equal. lia.
Qed.

Lemma count_bits_nbits_of v :
  count_bits (Z.abs v) 0 = Returned (nbits_of v).
Proof.
  unfold nbits_of. destruct (v =? 0) eqn:E.
  - apply Z.eqb_eq in E. subst v. simpl. simp count_bits. reflexivity.
  - apply Z.eqb_neq in E. assert (Ha : 1 <= Z.abs v) by lia.
    revert Ha. generalize (Z.abs v). intros t Ht.
    assert (G : forall n, count_bits t n = Returned (n + (Z.log2 t + 1))).
    { clear E v. intro n. funelim (count_bits t n).
      - lia.
      - lia.
      - destruct (Z_le_gt_dec 2 temp) as [H2|H2].
        + rewrite H by (apply shiftr_1_pos; assumption).
          rewrite log2_shiftr_1 by assumption. f_equal. lia.
        + assert (temp = 1) by lia. subst temp.
          change (Z.shiftr 1 1) with 0. simp count_bits. reflexivity. }
    apply G.
Qed.

Lemma nbits_of_bound v n :
  0 <= n -> Z.abs v < 2 ^ n -> 0 <= nbits_of v <= n.
Proof.
  intros Hn Hv. unfold nbits_of. destruct (v =? 0) eqn:E; [lia|].
  apply Z.eqb_neq in E. pose proof (Z.log2_nonneg (Z.abs v)).
  assert (Z.log2 (Z.abs v) < n) by (apply Z.log2_lt_pow2; lia). lia.
Qed.

Lemma nbits_of_pos v : v <> 0 -> 1 <= nbits_of v.
Proof.
  intro H. unfold nbits_of. apply Z.eqb_neq in H. rewrite H.
  pose proof (Z.log2_nonneg (Z.abs v)). lia.
Qed.

Lemma pow2_divide n m : 0 <= n <= m -> (2 ^ n | 2 ^ m).
Proof.
  intro H. exists (2 ^ (m - n)). rewrite <- Z.pow_add_r by lia.
  f_equal. lia.
Qed.

Lemma wrap_u_low_bits z n : 0 <= n <= 32 -> wrap_u 32 z mod 2 ^ n = z mod 2 ^ n.
Proof.
  intro H. unfold wrap_u. apply Z.mod_mod_divide, pow2_divide. lia.
Qed.

Lemma wrap_s_low_bits z n : 0 <= n <= 31 -> wrap_s 32 z mod 2 ^ n = z mod 2 ^ n.
Proof.
  intro H. unfold wrap_s. change (32 - 1) with 31.
  rewrite Zminus_mod.
  rewrite Z.mod_mod_divide by (apply pow2_divide; lia).
  rewrite <- Zminus_mod. f_equal. lia.
Qed.

(* emit_bits_s looks at the low [size] bits of its code only. *)
Lemma emit_bits_s_masks st code code' size :
  0 < size < 31 -> code mod 2 ^ size = code' mod 2 ^ size ->
  emit_bits_s st code size = emit_bits_s st code' size.
Proof.
  intros Hs Hc. unfold emit_bits_s. f_equal.
  assert (M : forall c, Z.land (to_INT32 c)
                (to_INT32 (to_INT32 (Z.shiftl 1 size) - 1)) = c mod 2 ^ size).
  { intro c. rewrite Z.shiftl_1_l.
    assert (0 < 2 ^ size < 2 ^ 31)
      by (split; [apply Z.pow_pos_nonneg|apply Z.pow_lt_mono_r]; lia).
    unfold to_INT32. rewrite (wrap_s_small 32 (2 ^ size)) by lia.
    rewrite (wrap_s_small 32 (2 ^ size - 1)) by lia.
    replace (2 ^ size - 1) with (Z.ones size)
      by (rewrite Z.ones_equiv; lia).
    rewrite Z.land_ones by lia. apply wrap_s_low_bits. lia. }
  rewrite !M, Hc. reflexivity.
Qed.

Lemma shiftl_4_add_lor r n :
  0 <= r -> 0 <= n < 16 -> Z.shiftl r 4 + n = Z.lor (Z.shiftl r 4) n.
Proof.
  intros Hr Hn. rewrite <- Z.lxor_lor; [apply Z.add_nocarry_lxor|];
    apply Z.bits_inj'; intros i Hi; rewrite Z.land_spec, Z.bits_0;
    destruct (Z_lt_ge_dec i 4) as [Lt|Ge].
  - rewrite Z.shiftl_spec_low by lia. reflexivity.
  - rewrite (Z.bits_above_log2 n i); [apply andb_false_r|lia|].
    destruct (Z.eq_dec n 0) as [->|Nz]; [simpl; lia|].
    assert (Z.log2 n < 4) by (apply Z.log2_lt_pow2; simpl; lia). lia.
  - rewrite Z.shiftl_spec_low by lia. reflexivity.
  - rewrite (Z.bits_above_log2 n i); [apply andb_false_r|lia|].
    destruct (Z.eq_dec n 0) as [->|Nz]; [simpl; lia|].
    assert (Z.log2 n < 4) by (apply Z.log2_lt_pow2; simpl; lia). lia.
Qed.

Lemma emit_zrl_loop_symbols st actbl r :
  0 <= r ->
  emit_zrl_loop st actbl r =
    emit_all st (repeat (huffman_code actbl ZRL) (Z.to_nat (r / 16)))
    THEN fun st => Returned (Done (st, r mod 16)).
Proof.
  funelim (emit_zrl_loop st actbl r); intro Hr.
  all: try (assert (Er : r / 16 = (r - 16) / 16 + 1)
              by (replace r with ((r - 16) + 1 * 16) at 1 by lia;
                  rewrite Z.div_add by lia; reflexivity);
            assert (E0 : 0 <= (r - 16) / 16) by (apply Z.div_pos; lia);
            rewrite Er, Z2Nat.inj_add by lia;
            change (Z.to_nat 1) with 1%nat; rewrite Nat.add_1_r;
            cbn [repeat emit_all emit huffman_code]; unfold ZRL;
            rewrite Heq; cbn [and_then]).
  - rewrite Z.div_small, Z.mod_small by lia. reflexivity.
  - rewrite H by lia. unfold ZRL.
    replace (r mod 16) with ((r - 16) mod 16); [reflexivity|].
    replace r with ((r - 16) + 1 * 16) at 2 by lia.
    rewrite Z.mod_add by lia. reflexivity.
  - reflexivity.
  - reflexivity.
  - reflexivity.
Qed.

Lemma sign_split c :
  Z.abs c < 2 ^ 30 ->
  (if c <? 0 then (to_JINT (- c), to_JINT (c - 1)) else (c, c))
    = (Z.abs c, magnitude c).
Proof.
  intro H. unfold magnitude. destruct (c <? 0) eqn:E.
  - rewrite !to_JINT_small by lia. f_equal. lia.
  - f_equal. lia.
Qed.

Lemma count_bits_ac_nbits_of c :
  c <> 0 -> count_bits_ac (Z.abs c) 1 = Returned (nbits_of c).
Proof.
  intro H. rewrite count_bits_ac_log2 by lia. unfold nbits_of.
  apply Z.eqb_neq in H. rewrite H. f_equal. lia.
Qed.

Lemma emit_magnitude_bits st v n :
  0 < n < 31 ->
  emit_bits_s st (to_JUINT v) n = emit st (bits_of n v).
Proof.
  intro H. unfold bits_of, emit. apply emit_bits_s_masks; [exact H|].
  unfold to_JUINT. rewrite wrap_u_low_bits by lia.
  rewrite Z.mod_mod; [reflexivity|].
  assert (0 < 2 ^ n) by (apply Z.pow_pos_nonneg; lia). lia.
Qed.

Lemma encode_ac_loop_symbols block actbl n : forall k r st,
  0 <= r ->
  (forall c,
      In c (map (fun j => block_at block (nth j (natural_order (cinfo st)) 0))
              (seq k n)) -> Z.abs c < 2 ^ 10) ->
  encode_ac_loop n (Z.of_nat k) r st block actbl
    THEN (fun '(st, r) =>
            if r >? 0
            then emit_bits_s st (ehufco_at actbl 0) (ehufsi_at actbl 0)
            else Returned (Done st))
  = emit_all st
      (ac_symbols actbl
         (map (fun j => block_at block (nth j (natural_order (cinfo st)) 0))
            (seq k n)) r).
Proof.
  induction n as [|n IH]; intros k r st Hr Hc.
  - cbn [encode_ac_loop seq map ac_symbols and_then].
    destruct (r >? 0); [|reflexivity].
    symmetry. apply emit_all_one.
  - cbn [encode_ac_loop seq map ac_symbols]. rewrite Nat2Z.id.
    assert (Hc0 := Hc _ (or_introl eq_refl)).
    assert (Hrest : forall c,
      In c (map (fun j => block_at block (nth j (natural_order (cinfo st)) 0))
              (seq (S k) n)) -> Z.abs c < 2 ^ 10)
      by (intros c0 Hin; apply Hc; right; exact Hin).
    revert Hc0.
    generalize (block_at block (nth k (natural_order (cinfo st)) 0)).
    intros c Hc0.
    replace (Z.of_nat k + 1) with (Z.of_nat (S k)) by lia.
    destruct (c =? 0) eqn:E.
    + apply IH; [lia|exact Hrest].
    + apply Z.eqb_neq in E.
      rewrite and_then_assoc, emit_zrl_loop_symbols, and_then_assoc by lia.
      rewrite emit_all_app.
      apply and_then_ext_cinfo with (st := st).
      { apply emit_bits_all_cinfo. intros e He.
        apply repeat_spec in He. subst e.
        eexists; eexists; reflexivity. }
      intros st1 Hst1. cbn [and_then].
      rewrite sign_split by lia. cbv beta iota zeta.
      rewrite count_bits_ac_nbits_of by exact E.
      pose proof (nbits_of_bound c 10 ltac:(lia) Hc0) as Hb.
      pose proof (nbits_of_pos c E) as Hp.
      cbn [bind_outcome]. unfold JSC_ASSERT, MAX_COEF_BITS.
      replace (nbits_of c <=? 10) with true by lia.
      assert (Hm : 0 <= r mod 16 < 16) by (apply Z.mod_pos_bound; lia).
      rewrite shiftl_4_add_lor by lia.
      cbn [emit_all]. rewrite and_then_assoc.
      apply and_then_ext_cinfo with (st := st1);
        [apply emit_bits_s_cinfo|].
      intros st2 Hst2. rewrite and_then_assoc.
      rewrite emit_magnitude_bits by lia.
      apply and_then_ext_cinfo with (st := st2).
      { unfold emit, bits_of. apply emit_bits_s_cinfo. }
      intros st3 Hst3.
      assert (Hci : cinfo st3 = cinfo st) by congruence.
      rewrite <- Hci. apply IH; [lia|]. rewrite Hci. exact Hrest.
Qed.

(* The same for whatever [lim_Se] and [natural_order] the scan has. *)
Lemma encode_one_block_any_Se st block last_dc dctbl actbl :
  Z.abs (block_at block 0 - last_dc) < 2 ^ 11 ->
  (forall c,
      In c (map (fun j => block_at block (nth j (natural_order (cinfo st)) 0))
              (seq 1 (Z.to_nat (lim_Se (cinfo st))))) -> Z.abs c < 2 ^ 10) ->
  encode_one_block st block last_dc dctbl actbl
    = emit_all st
        (dc_symbols dctbl (block_at block 0 - last_dc) ++
         ac_symbols actbl
           (map (fun j => block_at block (nth j (natural_order (cinfo st)) 0))
              (seq 1 (Z.to_nat (lim_Se (cinfo st))))) 0).
Proof.
  intros Hdc Hac.
  assert (Hloop : forall st',
    cinfo st' = cinfo st ->
    encode_ac_loop (Z.to_nat (lim_Se (cinfo st))) 1 0 st' block actbl
      THEN (fun '(st, r) =>
              if r >? 0
              then emit_bits_s st (ehufco_at actbl 0) (ehufsi_at actbl 0)
              else Returned (Done st))
    = emit_all st'
        (ac_symbols actbl
           (map (fun j => block_at block (nth j (natural_order (cinfo st)) 0))
              (seq 1 (Z.to_nat (lim_Se (cinfo st))))) 0)).
  { intros st' Hst'. rewrite <- Hst'.
    apply (encode_ac_loop_symbols block actbl
             (Z.to_nat (lim_Se (cinfo st'))) 1 0 st'); [lia|].
    rewrite Hst'. exact Hac. }
  unfold encode_one_block, dc_symbols.
  revert Hdc. generalize (block_at block 0 - last_dc). intros diff Hdc.
  generalize dependent (Z.to_nat (lim_Se (cinfo st))). intros n Hac Hloop.
  rewrite (to_JINT_small diff) by lia.
  rewrite sign_split by lia. cbv beta iota zeta.
  rewrite count_bits_nbits_of. cbn [bind_outcome].
  pose proof (nbits_of_bound diff 11 ltac:(lia) Hdc) as Hb.
  unfold JSC_ASSERT, MAX_COEF_BITS.
  replace (nbits_of diff <=? 10 + 1) with true by lia.
  cbn [app emit_all]. unfold huffman_code at 1. cbn [emit].
  apply and_then_ext_cinfo with (st := st); [apply emit_bits_s_cinfo|].
  intros st1 Hst1.
  destruct (nbits_of diff =? 0) eqn:En.
  - cbn [negb and_then app]. apply Hloop. exact Hst1.
  - apply Z.eqb_neq in En. cbn [negb app emit_all].
    rewrite emit_magnitude_bits by lia.
    apply and_then_ext_cinfo with (st := st1).
    { unfold emit, bits_of. apply emit_bits_s_cinfo. }
    intros st2 Hst2. apply Hloop. congruence.
Qed.

(** C3.  For a block of coefficients in the legal range of 8-bit data
    (a DC difference below 2^11 and AC coefficients below 2^10 in
    magnitude), any previous DC value and any derived tables,
    [encode_one_block] with the baseline scan settings passes to
    [emit_bits_s] exactly the symbols the specification lists: the DC
    code for nbits of the difference and nbits bits of it (the
    difference less one when negative); then, over coefficients 1..63 in
    zig-zag order with the zero run r, at each nonzero coefficient
    floor(r/16) ZRL symbols, the code for (r<<4)|nbits and the nbits
    magnitude bits; and the EOB symbol exactly when a zero run is open at
    the end. *)
Theorem encode_one_block_symbols st block last_dc dctbl actbl :
  lim_Se (cinfo st) = 63 ->
  natural_order (cinfo st) = jpeg_natural_order ->
  Z.abs (block_at block 0 - last_dc) < 2 ^ 11 ->
  (forall c, In c (zigzag block) -> Z.abs c < 2 ^ 10) ->
  encode_one_block st block last_dc dctbl actbl
    = emit_all st (block_symbols dctbl actbl block last_dc).
Proof.
  intros HSe Hno Hdc Hac.
  assert (Hz : zigzag block
               = map (fun j => block_at block
                                 (nth j (natural_order (cinfo st)) 0))
                   (seq 1 (Z.to_nat (lim_Se (cinfo st)))))
    by (rewrite HSe, Hno; reflexivity).
  unfold block_symbols. rewrite Hz in Hac |- *.
  apply encode_one_block_any_Se; assumption.
Qed.

Lemma encode_one_block_symbols_witness :
  block_symbols ex_tbl ex_tbl ex_block 5
    = [EmitBits 4 4; EmitBits 7 4; EmitBits 0 4;
       EmitBits 3 4; EmitBits 7 3; EmitBits 0 4] /\
  encode_one_block examples.ex_state ex_block 5 ex_tbl ex_tbl
    = emit_all examples.ex_state (block_symbols ex_tbl ex_tbl ex_block 5).
Proof.
  split; [vm_compute; reflexivity|].
  apply encode_one_block_symbols.
  - reflexivity.
  - reflexivity.
  - vm_compute. reflexivity.
  - assert (F : forallb (fun c => Z.abs c <? 2 ^ 10) (zigzag ex_block) = true)
      by (vm_compute; reflexivity).
    intros c Hin. rewrite forallb_forall in F.
    apply Z.ltb_lt. apply F. exact Hin.
Defined.

(** C3 as stated, for every block, fails.  For the block whose DC value
    is 2048 after a previous DC value of 0, the symbols listed are the
    code for 12, the twelve bits of 2048 and EOB; the tables, made by
    [jpeg_make_c_derived_tbl], hold a code for each and emitting them
    succeeds, yet [encode_one_block] emits nothing and stops on the
    assertion nbits <= MAX_COEF_BITS+1.  For the block with the AC
    coefficient 1024 it stops on the assertion nbits <= MAX_COEF_BITS. *)
Lemma wide_coefficient_block_is_asserted :
  block_symbols ex_wide_dc ex_wide_ac ex_wide_dc_block 0
    = [EmitBits 12 4; EmitBits 2048 12; EmitBits 0 4] /\
  (exists st',
     emit_all examples.ex_state
       (block_symbols ex_wide_dc ex_wide_ac ex_wide_dc_block 0)
       = Returned (Done st')) /\
  encode_one_block examples.ex_state ex_wide_dc_block 0 ex_wide_dc ex_wide_ac
    = Asserted /\
  encode_one_block examples.ex_state ex_wide_dc_block 0 ex_wide_dc ex_wide_ac
    <> emit_all examples.ex_state
         (block_symbols ex_wide_dc ex_wide_ac ex_wide_dc_block 0) /\
  block_symbols ex_wide_dc ex_wide_ac ex_wide_ac_block 0
    = [EmitBits 0 4; EmitBits 11 4; EmitBits 1024 11; EmitBits 0 4] /\
  (exists st',
     emit_all examples.ex_state
       (block_symbols ex_wide_dc ex_wide_ac ex_wide_ac_block 0)
       = Returned (Done st')) /\
  encode_one_block examples.ex_state ex_wide_ac_block 0 ex_wide_dc ex_wide_ac
    = Asserted /\
  encode_one_block examples.ex_state ex_wide_ac_block 0 ex_wide_dc ex_wide_ac
    <> emit_all examples.ex_state
         (block_symbols ex_wide_dc ex_wide_ac ex_wide_ac_block 0).
Proof.
  split; [vm_compute; reflexivity|].
  split; [eexists; vm_compute; reflexivity|].
  split; [vm_compute; reflexivity|].
  split; [vm_compute; intro H; discriminate H|].
  split; [vm_compute; reflexivity|].
  split; [eexists; vm_compute; reflexivity|].
  split; [vm_compute; reflexivity|].
  vm_compute; intro H; discriminate H.
Qed.

End block_symbols_properties.

(** ** Output exhaustion, from emit_byte_s up to jsc_compress_rst *)

Section driver_properties.
Import jchuff props controllers driver_spec.

Lemma wrap_u_add_wrap_s x y : wrap_u 32 (x + wrap_s 32 y) = wrap_u 32 (x + y).
Proof.
  unfold wrap_u, wrap_s.
  replace (x + ((y + 2 ^ (32 - 1)) mod 2 ^ 32 - 2 ^ (32 - 1)))
    with ((x - 2 ^ (32 - 1)) + (y + 2 ^ (32 - 1)) mod 2 ^ 32) by lia.
  rewrite Zplus_mod_idemp_r. f_equal. lia.
Qed.

Lemma wrap_u_range z : 0 <= wrap_u 32 z < 2 ^ 32.
Proof. unfold wrap_u. apply Z.mod_pos_bound. reflexivity. Qed.

(* A pass of pre_process_data moves in_row_ctr forward, and not past
   in_rows_avail. *)
Lemma prep_pass_in_row_ctr max_v p i avail o oavail :
  0 <= i < avail -> avail < 2 ^ 32 ->
  i <= snd (fst (fst (prep_pass max_v p i avail o oavail))) <= avail.
Proof.
  intros Hi Ha. unfold prep_pass.
  set (a := to_JDIMENSION (to_JINT (max_v - next_buf_row p))).
  assert (Hr : to_JDIMENSION (avail - i) = avail - i)
    by (apply wrap_u_small; lia).
  rewrite Hr.
  assert (Hm : 0 <= JSC_MIN a (avail - i) <= avail - i).
  { pose proof (wrap_u_range (to_JINT (max_v - next_buf_row p))) as Hw.
    fold (to_JDIMENSION (to_JINT (max_v - next_buf_row p))) in Hw.
    fold a in Hw. unfold JSC_MIN. destruct (a <? avail - i) eqn:E; lia. }
  assert (Hin : to_JDIMENSION (i + to_JINT (JSC_MIN a (avail - i)))
                = i + JSC_MIN a (avail - i)).
  { unfold to_JDIMENSION, to_JINT. rewrite wrap_u_add_wrap_s.
    apply wrap_u_small. lia. }
  rewrite Hin.
  repeat match goal with
         | |- context [if ?b then _ else _] => destruct b
         end; cbn [fst snd]; lia.
Qed.

Lemma pre_process_loop_in_row_ctr fuel : forall max_v p i avail o oavail p' i' o',
  0 <= i <= avail -> avail < 2 ^ 32 ->
  pre_process_loop fuel max_v p i avail o oavail = Returned (p', i', o') ->
  i <= i' <= avail.
Proof.
  induction fuel as [|fuel IH]; intros max_v p i avail o oavail p' i' o' Hi Ha Hrun;
    cbn [pre_process_loop] in Hrun; [discriminate|].
  destruct ((i <? avail) && (o <? oavail))%bool eqn:Ec.
  - apply andb_true_iff in Ec. destruct Ec as [Ei _]. apply Z.ltb_lt in Ei.
    pose proof (prep_pass_in_row_ctr max_v p i avail o oavail
                  ltac:(lia) Ha) as Hp.
    destruct (prep_pass max_v p i avail o oavail) as [[[p1 i1] o1] b].
    cbn [fst snd] in Hp. destruct b.
    + apply Returned_inj in Hrun. injection Hrun as _ <- _. exact Hp.
    + apply IH in Hrun; lia.
  - apply Returned_inj in Hrun. injection Hrun as _ <- _. lia.
Qed.

(* Reading input leaves everything but the preprocessor's counters and
   rowgroup_ctr alone, and consumes no more rows than there are. *)
Lemma read_input_data_spec d i avail r1 d1 :
  0 <= i <= avail -> avail < 2 ^ 32 ->
  read_input_data d i avail = Returned (r1, d1) ->
  i <= r1 <= avail /\
  suspended (mainp d1) = suspended (mainp d) /\
  image_height d1 = image_height d /\
  next_scanline d1 = next_scanline d.
Proof.
  intros Hi Ha. unfold read_input_data, pre_process_data.
  destruct (rowgroup_ctr (mainp d) <? _).
  - destruct (pre_process_loop _ _ _ _ _ _ _) as [[[p' i'] o']| |] eqn:El;
      cbn [bind_outcome]; try discriminate.
    intro H. apply Returned_inj in H. injection H as <- <-.
    apply pre_process_loop_in_row_ctr in El; [|lia|lia].
    cbn. auto.
  - intro H. apply Returned_inj in H. injection H as <- <-. auto with zarith.
Qed.

Lemma encode_mcus_app l1 : forall c l2,
  encode_mcus c (l1 ++ l2) =
    match encode_mcus c l1 with
    | Returned (true, c') => encode_mcus c' l2
    | other => other
    end.
Proof.
  induction l1 as [|m l1 IH]; intros c l2; [reflexivity|].
  cbn [app encode_mcus].
  destruct (encode_mcu_huff c m) as [[[|] c1]| |]; auto.
Qed.

Lemma cols_from_S MCU_of y col n :
  cols_from MCU_of y col (S n) = MCU_of y col :: cols_from MCU_of y (col + 1) n.
Proof.
  unfold cols_from. cbn [seq map]. rewrite Z.add_0_r. f_equal.
  rewrite <- seq_shift, map_map. apply map_ext. intro j. f_equal. lia.
Qed.

(* The column loop of compress_data is the run of encode_mcu_huff over
   the columns that remain, and it stops with it. *)
Lemma compress_cols_runs n : forall d y col,
  match encode_mcus (huff d)
          (cols_from (MCU_buffer_at d (iMCU_row_num (coef d))) y col n) with
  | Returned (true, h) => compress_cols n d y col = Returned (true, set_huff d h)
  | Returned (false, h) =>
      exists col',
        compress_cols n d y col =
          Returned (false,
            set_coef (set_huff d h)
              (mk_coef (iMCU_row_num (coef d)) col' y
                 (MCU_rows_per_iMCU_row (coef d))))
  | Asserted => compress_cols n d y col = Asserted
  | Diverged => compress_cols n d y col = Diverged
  end.
Proof.
  induction n as [|n IH]; intros d y col.
  - cbn. destruct d; reflexivity.
  - rewrite cols_from_S. cbn [encode_mcus compress_cols].
    destruct (encode_mcu_huff (huff d) _) as [[[|] h]| |];
      cbn [bind_outcome negb]; try reflexivity.
    + specialize (IH (set_huff d h) y (col + 1)).
      cbn [huff set_huff MCU_buffer_at coef] in IH.
      destruct (encode_mcus h _) as [[[|] h2]| |]; exact IH.
    + exists col. reflexivity.
Qed.

Lemma compress_rows_runs n : forall d y,
  match encode_mcus (huff d)
          (rows_from (MCU_buffer_at d (iMCU_row_num (coef d)))
             (to_JDIMENSION (MCUs_per_row d - 1)) n y (mcu_ctr (coef d))) with
  | Returned (b, h) =>
      exists c, compress_rows n d y = Returned (b, set_coef (set_huff d h) c)
  | Asserted => compress_rows n d y = Asserted
  | Diverged => compress_rows n d y = Diverged
  end.
Proof.
  induction n as [|n IH]; intros d y.
  - cbn. exists (coef d). destruct d; reflexivity.
  - cbn [rows_from compress_rows]. rewrite encode_mcus_app.
    pose proof (compress_cols_runs
                  (Z.to_nat (to_JDIMENSION (MCUs_per_row d - 1) + 1
                             - mcu_ctr (coef d)))
                  d y (mcu_ctr (coef d))) as Hc.
    destruct (encode_mcus (huff d) (cols_from _ _ _ _)) as [[[|] h]| |].
    + rewrite Hc. cbn [bind_outcome negb].
      match goal with
      | |- context [compress_rows n ?d2 (y + 1)] =>
          specialize (IH d2 (y + 1))
      end.
      cbn [huff set_huff set_coef MCU_buffer_at coef iMCU_row_num
           MCUs_per_row mcu_ctr] in IH.
      destruct (encode_mcus h _) as [[b h2]| |]; [|exact IH|exact IH].
      destruct IH as [c IH]. exists c. exact IH.
    + destruct Hc as [col' Hc]. rewrite Hc. cbn [bind_outcome negb].
      eexists. reflexivity.
    + rewrite Hc. reflexivity.
    + rewrite Hc. reflexivity.
Qed.

(* compress_data returns what the run of encode_mcu_huff over the rest
   of the iMCU row returns, and leaves the encoder as that run does. *)
Lemma compress_data_runs d :
  match encode_mcus (huff d) (pending_mcus d) with
  | Returned (b, h) =>
      exists d', compress_data d = Returned (b, d') /\
                 huff d' = h /\ mainp d' = mainp d
  | Asserted => compress_data d = Asserted
  | Diverged => compress_data d = Diverged
  end.
Proof.
  unfold pending_mcus, compress_data.
  pose proof (compress_rows_runs
                (Z.to_nat (MCU_rows_per_iMCU_row (coef d)
                           - MCU_vert_offset (coef d)))
                d (MCU_vert_offset (coef d))) as Hr.
  destruct (encode_mcus (huff d) _) as [[b h]| |].
  - destruct Hr as [c Hr]. rewrite Hr. cbn [bind_outcome].
    destruct b; cbn [negb]; eexists; (split; [reflexivity|]);
      split; reflexivity.
  - rewrite Hr. reflexivity.
  - rewrite Hr. reflexivity.
Qed.

Lemma write_scanlines_startup_frame d d0 :
  write_scanlines_startup d = Returned d0 ->
  image_height d0 = image_height d /\ next_scanline d0 = next_scanline d.
Proof.
  unfold write_scanlines_startup, JSC_ASSERT, pass_startup_std.
  destruct (global_state d =? CSTATE_SCANNING); [|discriminate].
  destruct (call_pass_startup d).
  - destruct (write_headers _ _) as [h| |]; cbn [bind_outcome];
      try discriminate.
    intro H. apply Returned_inj in H. subst d0. split; reflexivity.
  - intro H. apply Returned_inj in H. subst d0. split; reflexivity.
Qed.

(* A FALSE from compress_data on the row just buffered: the call of
   jpeg_write_scanlines reports a row count other than 1, and
   jsc_compress_rst returns -1. *)
Lemma exhausted_row_fails d d0 r1 d1 c2 :
  0 <= next_scanline d < image_height d -> image_height d < 2 ^ 32 ->
  write_scanlines_startup d = Returned d0 ->
  suspended (mainp d0) = false ->
  cur_iMCU_row (mainp d0) < total_iMCU_rows d0 ->
  read_input_data d0 0 1 = Returned (r1, d1) ->
  rowgroup_ctr (mainp d1) = to_JDIMENSION (min_DCT_v_scaled_size d1) ->
  encode_mcus (huff d1) (pending_mcus d1) = Returned (false, c2) ->
  exists d',
    jsc_write_rows d = Returned (Some (-1), d') /\
    huff d' = c2 /\ suspended (mainp d') = true.
Proof.
  intros Hn Hh Hs Hsus Hcur Hread Hfull Hrun.
  destruct (write_scanlines_startup_frame d d0 Hs) as [Eh En].
  destruct (read_input_data_spec d0 0 1 r1 d1 ltac:(lia) ltac:(lia) Hread)
    as (Hr1 & Hsus1 & _ & _).
  pose proof (compress_data_runs d1) as Hc. rewrite Hrun in Hc.
  destruct Hc as (d2 & Hc & Hh2 & Hm2).
  assert (Hrows : to_JDIMENSION (image_height d0 - next_scanline d0) >= 1).
  { rewrite Eh, En. unfold to_JDIMENSION. rewrite wrap_u_small; lia. }
  assert (Hp : process_data_simple_main d0 0 1 =
               Returned (to_JDIMENSION (r1 - 1),
                 set_mainp d2
                   (mk_main (cur_iMCU_row (mainp d2))
                      (rowgroup_ctr (mainp d2)) true))).
  { unfold process_data_simple_main. cbn [process_data_loop].
    replace (cur_iMCU_row (mainp d0) <? total_iMCU_rows d0) with true by lia.
    rewrite Hread. cbn [bind_outcome]. rewrite Hfull, Z.eqb_refl.
    cbn [negb]. rewrite Hc. cbn [bind_outcome negb].
    unfold suspend_main. rewrite Hm2, Hsus1, Hsus. reflexivity. }
  assert (Hw : (to_JDIMENSION (r1 - 1) =? 1) = false).
  { apply Z.eqb_neq. unfold to_JDIMENSION, wrap_u.
    assert (r1 = 0 \/ r1 = 1) as [-> | ->] by lia; vm_compute; discriminate. }
  eexists. split; [|split].
  - unfold jsc_write_rows. cbn [write_rows].
    replace (next_scanline d <? image_height d) with true by lia.
    unfold jpeg_write_scanlines. rewrite Hs. cbn [bind_outcome].
    replace (1 >? to_JDIMENSION (image_height d0 - next_scanline d0))
      with false by lia.
    rewrite Hp. cbn [bind_outcome]. rewrite Hw. cbn [negb]. reflexivity.
  - cbn. exact Hh2.
  - reflexivity.
Qed.

(** C4.  The free count of the encoder's output buffer never goes below
    zero: [emit_byte_s] takes one off it and takes its suspend action
    exactly when it arrives at zero, and a TRUE from [encode_mcu_huff]
    leaves at least one byte free.  When [encode_mcu_huff] returns
    FALSE, the destination's [next_output_byte] and [free_in_buffer]
    and the encoder's saved bit buffer, DC values and restart state are
    those of the start of the MCU, and the bytes committed before it are
    still in place.  And when that happens in the row of MCUs a call of
    [jpeg_write_scanlines] has buffered, the scanline loop of
    [jsc_compress_rst] returns -1. *)
Theorem output_exhaustion_rewinds_and_fails :
  (forall st v,
      ws_room st ->
      free_in_buffer (fst (emit_byte_s st v)) = free_in_buffer st - 1 /\
      0 <= free_in_buffer (fst (emit_byte_s st v)) /\
      (snd (emit_byte_s st v) = true <->
       free_in_buffer (fst (emit_byte_s st v)) = 0)) /\
  (forall c MCU_data c',
      dest_room (dest c) -> restart_num_ok c ->
      encode_mcu_huff c MCU_data = Returned (true, c') ->
      1 <= jpeglib.free_in_buffer (dest c')) /\
  (forall c MCU_data c',
      dest_room (dest c) -> restart_num_ok c ->
      encode_mcu_huff c MCU_data = Returned (false, c') ->
      jpeglib.next_output_byte (dest c') = jpeglib.next_output_byte (dest c) /\
      jpeglib.free_in_buffer (dest c') = jpeglib.free_in_buffer (dest c) /\
      saved (entropy c') = saved (entropy c) /\
      restarts_to_go (entropy c') = restarts_to_go (entropy c) /\
      next_restart_num (entropy c') = next_restart_num (entropy c) /\
      dest_written (dest c') = dest_written (dest c)) /\
  (forall d d0 r1 d1 c2,
      0 <= next_scanline d < image_height d -> image_height d < 2 ^ 32 ->
      write_scanlines_startup d = Returned d0 ->
      suspended (mainp d0) = false ->
      cur_iMCU_row (mainp d0) < total_iMCU_rows d0 ->
      read_input_data d0 0 1 = Returned (r1, d1) ->
      rowgroup_ctr (mainp d1) = to_JDIMENSION (min_DCT_v_scaled_size d1) ->
      encode_mcus (huff d1) (pending_mcus d1) = Returned (false, c2) ->
      exists d',
        jsc_write_rows d = Returned (Some (-1), d') /\
        huff d' = c2 /\ suspended (mainp d') = true).
Proof.
  split; [|split; [|split]].
  - intros st v R. pose proof (emit_byte_s_spec st v R) as H.
    destruct (emit_byte_s st v) as [st' suspend]. cbn [fst snd].
    destruct H as ((_ & _ & F & _) & F0 & S & _).
    cbn [length] in F. split; [lia|]. split; [exact F0|].
    rewrite S. apply Z.eqb_eq.
  - intros c MCU_data c' R Hn Hrun.
    pose proof (encode_mcu_huff_spec c MCU_data R Hn) as H.
    rewrite Hrun in H. destruct H as (_ & (_ & Hf & _) & _). lia.
  - intros c MCU_data c' R Hn Hrun.
    pose proof (encode_mcu_huff_spec c MCU_data R Hn) as H.
    rewrite Hrun in H. destruct H as (N & F & E & _ & W).
    rewrite E. repeat split; assumption.
  - apply exhausted_row_fails.
Qed.

Lemma output_exhaustion_rewinds_and_fails_witness :
  (free_in_buffer (fst (emit_byte_s examples.ex_state 0x41)) = 15 /\
   snd (emit_byte_s examples.ex_state 0x41) = false) /\
  (exists c',
      encode_mcu_huff (ex_huff 2) [block_spec.ex_block] = Returned (false, c') /\
      jpeglib.next_output_byte (dest c') = 0 /\
      jpeglib.free_in_buffer (dest c') = 2 /\
      saved (entropy c') = saved (entropy (ex_huff 2))) /\
  exists d',
    jsc_write_rows (ex_compress 7 4) = Returned (Some (-1), d') /\
    jpeglib.next_output_byte (dest (huff d')) = 2 /\
    jpeglib.free_in_buffer (dest (huff d')) = 2 /\
    suspended (mainp d') = true.
Proof.
  destruct output_exhaustion_rewinds_and_fails as (Hbyte & _ & Hmcu & Hrow).
  assert (R16 : ws_room examples.ex_state)
    by (unfold ws_room, room, JSIZE_MAX; simpl; lia).
  assert (R2 : dest_room (dest (ex_huff 2)))
    by (unfold dest_room, room, JSIZE_MAX; simpl; lia).
  split; [|split].
  - destruct (Hbyte examples.ex_state 0x41 R16) as (Hf & _ & Hs).
    split; [exact Hf|].
    destruct (snd (emit_byte_s examples.ex_state 0x41)); [|reflexivity].
    rewrite Hf in Hs. destruct Hs as [Hs _].
    specialize (Hs eq_refl). discriminate Hs.
  - eexists. split; [vm_compute; reflexivity|].
    match goal with
    | |- context [jpeglib.next_output_byte (dest ?c)] =>
        destruct (Hmcu (ex_huff 2) [block_spec.ex_block] c R2
                    ltac:(unfold restart_num_ok; simpl; lia)
                    ltac:(vm_compute; reflexivity))
          as (Hn & Hf & Hsv & _)
    end.
    rewrite Hn, Hf, Hsv. split; [reflexivity|]. split; reflexivity.
  - destruct (Hrow (ex_compress 7 4) (ex_compress 7 4) 1
                (set_mainp (set_prep (ex_compress 7 4) (mk_prep 0 0))
                   (mk_main 0 8 false))
                (mk_cinfo examples.ex_scan
                   (jpeglib.mk_dest [32; 15; 128; 1] 2 2)
                   (mk_entropy (mk_savable 260046848 5 [-3; 0; 0; 0]) 1 0
                      [block_spec.ex_tbl; block_spec.ex_tbl]
                      [block_spec.ex_tbl; block_spec.ex_tbl])))
      as (d' & Hrun & Hh & Hs).
    + simpl. lia.
    + simpl. lia.
    + reflexivity.
    + reflexivity.
    + simpl. lia.
    + vm_compute. reflexivity.
    + reflexivity.
    + vm_compute. reflexivity.
    + exists d'. split; [exact Hrun|]. rewrite Hh. split; [reflexivity|].
      split; [reflexivity|exact Hs].
Defined.

End driver_properties.

(** ** Restart resynchronization (jdmarker.c) *)

Section resync_properties.
Import jdmarker resync.

Lemma resync_loop_unfold cinfo desired marker :
  resync_loop cinfo desired marker =
  match resync_body cinfo desired marker with
  | Return r => r
  | Again c' => resync_loop c' desired (unread_marker c')
  end.
Proof.
  funelim (resync_loop cinfo desired marker); rewrite e; reflexivity.
Qed.

Lemma resync_loop_by_action cinfo desired marker :
  resync_loop cinfo desired marker =
  let action := recovery_action marker desired in
  if action =? 1 then discard cinfo
  else if action =? 2 then scan_forward cinfo desired
  else if action =? 3 then leave_unread cinfo
  else Asserted.
Proof.
  rewrite resync_loop_unfold. unfold resync_body, scan_forward. cbv zeta.
  destruct (recovery_action marker desired =? 1); [reflexivity|].
  destruct (recovery_action marker desired =? 2).
  - destruct (next_marker cinfo) as [[|] c']; reflexivity.
  - destruct (recovery_action marker desired =? 3); reflexivity.
Qed.

Lemma land_7_mod z : Z.land z 7 = z mod 8.
Proof. change 7 with (Z.ones 3). apply Z.land_ones. lia. Qed.

(* The if-chain of the code, read as counts ahead of the desired marker. *)
Lemma recovery_action_table marker desired :
  0 <= desired <= 7 ->
  recovery_action marker desired =
    if marker <? M_SOF0 then 2
    else if negb (is_restart marker) then 3
    else
      let d := counts_ahead marker desired in
      if (d =? 1) || (d =? 2) then 3
      else if (d =? 7) || (d =? 6) then 2
      else 1.
Proof.
  intro Hd. unfold recovery_action, is_restart, counts_ahead.
  unfold M_SOF0, M_RST0, M_RST7. rewrite !land_7_mod.
  destruct (marker <? 192) eqn:E0; [reflexivity|].
  destruct (marker <? 208) eqn:E1; [replace (208 <=? marker) with false by lia; reflexivity|].
  replace (208 <=? marker) with true by lia.
  destruct (marker >? 215) eqn:E2;
    [replace (marker <=? 215) with false by lia; reflexivity|].
  replace (marker <=? 215) with true by lia.
  cbn [orb andb negb]. cbv zeta.
  assert (Hm : marker = 208 \/ marker = 209 \/ marker = 210 \/ marker = 211 \/
               marker = 212 \/ marker = 213 \/ marker = 214 \/ marker = 215)
    by lia.
  assert (Hdd : desired = 0 \/ desired = 1 \/ desired = 2 \/ desired = 3 \/
                desired = 4 \/ desired = 5 \/ desired = 6 \/ desired = 7)
    by lia.
  clear E0 E1 E2 Hd.
  repeat (destruct Hm as [->|Hm]); try subst marker;
    repeat (destruct Hdd as [->|Hdd]); try subst desired; reflexivity.
Qed.

(** C2 (as amended).  On a restart-marker mismatch
    [jpeg_resync_to_restart], after its warning, decides on the marker
    found by this table: a byte below 0xC0 is scanned past, to the next
    marker; a valid marker that is no restart marker is left unread, so
    that the entropy decoder processes an empty segment; a restart
    marker one or two counts ahead of the desired one is left unread in
    the same way; a restart marker one or two counts behind it is
    scanned past; any other restart marker is discarded and decoding
    continues.  After a scan forward the decision is taken again on the
    marker found. *)
Theorem resync_decision_table :
  forall (cinfo : jpeg_decompress_struct) (desired : Z),
    0 <= desired <= 7 ->
    jpeg_resync_to_restart cinfo desired =
      table_of_code
        (warn cinfo (JWRN_MUST_RESYNC (unread_marker cinfo) desired))
        desired (unread_marker cinfo) /\
    forall c marker, resync_loop c desired marker = table_of_code c desired marker.
Proof.
  intros cinfo desired Hd.
  assert (L : forall c marker,
             resync_loop c desired marker = table_of_code c desired marker).
  { intros c marker. rewrite resync_loop_by_action. cbv zeta.
    rewrite (recovery_action_table marker desired Hd). unfold table_of_code.
    destruct (marker <? M_SOF0); [reflexivity|].
    destruct (negb (is_restart marker)); [reflexivity|]. cbv zeta.
    destruct ((counts_ahead marker desired =? 1)
              || (counts_ahead marker desired =? 2)); [reflexivity|].
    destruct ((counts_ahead marker desired =? 7)
              || (counts_ahead marker desired =? 6)); reflexivity. }
  split; [|exact L].
  unfold jpeg_resync_to_restart. cbv zeta. apply L.
Qed.

Lemma resync_decision_table_witness :
  jpeg_resync_to_restart ex_behind 0 =
    table_of_code (warn ex_behind (JWRN_MUST_RESYNC 0xD7 0)) 0 0xD7 /\
  forall c marker, resync_loop c 0 marker = table_of_code c 0 marker.
Proof.
  apply (resync_decision_table ex_behind 0). lia.
Defined.

(** C2 as stated fails: with RST0 desired and RST1 found (one count
    ahead), the claimed table scans forward, to the RST2 that follows;
    the code leaves RST1 unread and the input untouched. *)
Lemma resync_ahead_is_not_scanned :
  jpeg_resync_to_restart ex_ahead 0 <>
    table_as_claimed (warn ex_ahead (JWRN_MUST_RESYNC 0xD1 0)) 0 0xD1 /\
  recovery_action 0xD1 0 = 3 /\
  jpeg_resync_to_restart ex_ahead 0 =
    Returned (true, warn ex_ahead (JWRN_MUST_RESYNC 0xD1 0)).
Proof.
  split; [|split].
  - vm_compute. intro H. discriminate H.
  - reflexivity.
  - vm_compute. reflexivity.
Qed.

End resync_properties.

(** ** Termination of Huffman code lengthening (jdhuff.c) *)

Section huff_decode_properties.
Import jdhuff decode_spec.

Lemma decoding_tables_length n : forall l p htbl hc mc vo,
  length (fst (decoding_tables n l p htbl hc mc vo)) = length mc.
Proof.
  induction n as [|n IH]; intros l p htbl hc mc vo; cbn [decoding_tables].
  - reflexivity.
  - destruct (negb _); rewrite IH; apply list_set_length.
Qed.

(* The sentinel is the last thing jpeg_make_d_derived_tbl stores in
   maxcode[]. *)
Lemma derived_tbl_sentinel htbl isDC tblno old dtbl :
  length (maxcode old) = 18%nat ->
  jpeg_make_d_derived_tbl htbl isDC tblno old = Returned dtbl ->
  maxcode_at dtbl 17 = Some 0xFFFFF.
Proof.
  intros Hlen H. unfold jpeg_make_d_derived_tbl in H.
  apply JSC_ASSERT_Returned in H. destruct H as [_ H].
  apply JSC_ASSERT_Returned in H. destruct H as [_ H].
  apply bind_outcome_Returned in H. destruct H as (hs & _ & H).
  apply bind_outcome_Returned in H. destruct H as (hc & _ & H).
  pose proof (decoding_tables_length 16 1 0 htbl hc (maxcode old) (valoffset old))
    as Hl.
  destruct (decoding_tables 16 1 0 htbl hc (maxcode old) (valoffset old))
    as [mc vo]. cbn [fst] in Hl.
  destruct (lookahead_tables 8 1 0 htbl hc (repeat 0 256) (look_sym old))
    as [nb sy].
  apply JSC_ASSERT_Returned in H. destruct H as [_ H].
  apply Returned_inj in H. subst dtbl.
  assert (H17 : (17 < length mc)%nat) by (rewrite Hl, Hlen; lia).
  unfold maxcode_at. cbn [maxcode]. change (17 <? 0) with false. cbv iota.
  change (Z.to_nat 17) with 17%nat.
  rewrite (nth_error_nth' (list_set mc 17 1048575) 0)
    by (rewrite list_set_length; exact H17).
  rewrite nth_list_set_eq by exact H17. reflexivity.
Qed.

Lemma BIT_MASK_ones n : 0 <= n <= 15 -> BIT_MASK n = Z.ones n.
Proof.
  intro H. rewrite <- (Z2Nat.id n) by lia.
  assert (Hk : (Z.to_nat n < 16)%nat) by lia.
  revert Hk. generalize (Z.to_nat n). intros k Hk.
  do 16 (destruct k as [|k]; [reflexivity|]). lia.
Qed.

(* GET_BITS(n) yields an n-bit number. *)
Lemma GET_BITS_range gb bl n :
  0 <= n <= 15 -> 0 <= fst (GET_BITS gb bl n) < 2 ^ n.
Proof.
  intro H. unfold GET_BITS. cbn [fst].
  rewrite BIT_MASK_ones by exact H. rewrite Z.land_ones by lia.
  apply Z.mod_pos_bound. apply Z.pow_pos_nonneg; lia.
Qed.

Lemma lor_even_bit c b : 0 <= c -> 0 <= b < 2 -> Z.lor (2 * c) b = 2 * c + b.
Proof.
  intros Hc Hb.
  assert (E : Z.land (2 * c) b = 0).
  { assert (Hb01 : b = 0 \/ b = 1) by lia.
    destruct Hb01 as [Hb0|Hb1]; subst b.
    - apply Z.land_0_r.
    - change 1 with (Z.ones 1). rewrite Z.land_ones by lia.
      change (2 ^ 1) with 2. rewrite Z.mul_comm. apply Z.mod_mul. lia. }
  rewrite <- Z.lxor_lor by exact E. symmetry.
  apply Z.add_nocarry_lxor. exact E.
Qed.

Lemma lengthen_loop_unfold state gb bl htbl code l :
  lengthen_loop state gb bl htbl code l =
  match lengthen_body state gb bl htbl code l with
  | CodeComplete => Lengthened state gb bl code l
  | OutsideTable => LengthenOutside
  | MustSuspend => LengthenSuspended
  | OneMoreBit state' gb' bl' code' =>
      lengthen_loop state' gb' bl' htbl code' (l + 1)
  end.
Proof.
  funelim (lengthen_loop state gb bl htbl code l); rewrite e; reflexivity.
Qed.

(* One more bit: the code doubles and takes the bit. *)
Lemma lengthen_body_more state gb bl htbl code l state' gb' bl' code' :
  lengthen_body state gb bl htbl code l = OneMoreBit state' gb' bl' code' ->
  0 <= code < 2 ^ 17 ->
  (exists m, maxcode_at htbl l = Some m /\ code > m) /\
  2 * code <= code' <= 2 * code + 1.
Proof.
  intros e Hc. unfold lengthen_body in e.
  destruct (maxcode_at htbl l) as [m|] eqn:Em; [|discriminate].
  destruct (code >? m) eqn:Ecm; [|discriminate].
  destruct (CHECK_BIT_BUFFER state gb bl 1) as [[[st1 gb1] bl1]|];
    [|discriminate].
  pose proof (GET_BITS_range gb1 bl1 1 ltac:(lia)) as Hb.
  destruct (GET_BITS gb1 bl1 1) as [b bl2]. cbn [fst] in Hb.
  change (2 ^ 1) with 2 in Hb. change (2 ^ 17) with 131072 in Hc.
  assert (E2 : to_INT32 (Z.shiftl code 1) = 2 * code).
  { rewrite Z.shiftl_mul_pow2 by lia. change (2 ^ 1) with 2.
    unfold to_INT32.
    rewrite wrap_s_small by (change (2 ^ (32 - 1)) with 2147483648; lia).
    apply Z.mul_comm. }
  rewrite E2 in e. rewrite lor_even_bit in e by lia.
  assert (E3 : code' = 2 * code + b) by congruence.
  split; [exists m; split; [reflexivity|lia]|lia].
Qed.

(* With the sentinel in place the loop never leaves the table, and it
   ends with a code of at most 17 bits. *)
Lemma lengthen_loop_bounded htbl :
  maxcode_at htbl 17 = Some 0xFFFFF ->
  forall (n : nat) state gb bl code l,
  l = 17 - Z.of_nat n -> 0 <= l -> 0 <= code < 2 ^ l ->
  match lengthen_loop state gb bl htbl code l with
  | Lengthened _ _ _ code' l' => l <= l' <= 17 /\ 0 <= code' < 2 ^ l'
  | LengthenSuspended => True
  | LengthenOutside => False
  end.
Proof.
  intro Hs.
  assert (Hsome : forall l, 0 <= l <= 17 -> maxcode_at htbl l <> None).
  { intros l Hl. unfold maxcode_at in *.
    destruct (l <? 0) eqn:El; [lia|]. change (17 <? 0) with false in Hs.
    cbv iota in Hs. apply nth_error_Some.
    assert (Z.to_nat 17 < length (maxcode htbl))%nat
      by (apply nth_error_Some; rewrite Hs; discriminate).
    lia. }
  induction n as [|n IH]; intros state gb bl code l El Hl Hc;
    rewrite lengthen_loop_unfold;
    destruct (lengthen_body state gb bl htbl code l)
      as [| | |st1 gb1 bl1 code1] eqn:Eb.
  - split; lia.
  - unfold lengthen_body in Eb. specialize (Hsome l ltac:(lia)).
    destruct (maxcode_at htbl l); [|contradiction].
    destruct (code >? z); [|discriminate].
    destruct (CHECK_BIT_BUFFER state gb bl 1) as [[[? ?] ?]|]; [|discriminate].
    destruct (GET_BITS _ _ 1); discriminate.
  - exact I.
  - exfalso. change (17 - Z.of_nat 0) with 17 in El. subst l.
    change (2 ^ 17) with 131072 in Hc.
    destruct (lengthen_body_more _ _ _ _ _ _ _ _ _ _ Eb ltac:(change (2 ^ 17) with 131072; lia))
      as ((m & Em & Hm) & _).
    rewrite Hs in Em. injection Em as <-. lia.
  - split; lia.
  - unfold lengthen_body in Eb. specialize (Hsome l ltac:(lia)).
    destruct (maxcode_at htbl l); [|contradiction].
    destruct (code >? z); [|discriminate].
    destruct (CHECK_BIT_BUFFER state gb bl 1) as [[[? ?] ?]|]; [|discriminate].
    destruct (GET_BITS _ _ 1); discriminate.
  - exact I.
  - assert (P : 2 ^ (l + 1) = 2 * 2 ^ l)
      by (change (l + 1) with (Z.succ l); apply Z.pow_succ_r; lia).
    assert (P17 : 2 ^ l <= 2 ^ 17) by (apply Z.pow_le_mono_r; lia).
    destruct (lengthen_body_more _ _ _ _ _ _ _ _ _ _ Eb ltac:(lia)) as (_ & Hc1).
    specialize (IH st1 gb1 bl1 code1 (l + 1) ltac:(lia) ltac:(lia) ltac:(lia)).
    destruct (lengthen_loop st1 gb1 bl1 htbl code1 (l + 1)); auto.
    destruct IH. split; [lia|auto].
Qed.

(** C6.  A table that [jpeg_make_d_derived_tbl] accepts has the sentinel
    [maxcode[17] = 0xFFFFF]; with it, on any input and from any state of
    the bit buffer, the loop of [jpeg_huff_decode] that lengthens the
    code stays inside [maxcode[]] and ends with a code length of at most
    17, unless the data source makes the routine return -1; and when the
    length is above 16 the routine records the bad-Huffman-code warning
    and returns symbol 0. *)
Theorem huff_decode_length_bounded :
  forall (htbl : JHUFF_TBL) (isDC : bool) (tblno : Z)
         (old dtbl : d_derived_tbl),
    length (maxcode old) = 18%nat ->
    jpeg_make_d_derived_tbl htbl isDC tblno old = Returned dtbl ->
    nth 17 (maxcode dtbl) 0 = 0xFFFFF /\
    forall (state : bitread_working_state) (get_buffer bits_left min_bits : Z),
      1 <= min_bits <= 15 ->
      jpeg_huff_decode state get_buffer bits_left dtbl min_bits
        <> DecodeOutside /\
      (code_length state get_buffer bits_left dtbl min_bits = None ->
       jpeg_huff_decode state get_buffer bits_left dtbl min_bits
         = DecodeSuspended) /\
      forall l,
        code_length state get_buffer bits_left dtbl min_bits = Some l ->
        min_bits <= l <= 17 /\
        (l > 16 ->
         exists state',
           jpeg_huff_decode state get_buffer bits_left dtbl min_bits
             = Symbol 0 state' /\
           last_warning state' = Some jdmarker.JWRN_HUFF_BAD_CODE).
Proof.
  intros htbl isDC tblno old dtbl Hlen Hmk.
  pose proof (derived_tbl_sentinel htbl isDC tblno old dtbl Hlen Hmk) as Hs.
  split.
  { unfold maxcode_at in Hs. change (17 <? 0) with false in Hs. cbv iota in Hs.
    change (Z.to_nat 17) with 17%nat in Hs.
    apply nth_error_nth with (d := 0) in Hs. exact Hs. }
  intros state gb bl min_bits Hmin.
  unfold jpeg_huff_decode, code_length. cbv zeta.
  destruct (CHECK_BIT_BUFFER state gb bl min_bits) as [[[st1 gb1] bl1]|].
  2:{ split; [discriminate|]. split; [reflexivity|discriminate]. }
  pose proof (GET_BITS_range gb1 bl1 min_bits ltac:(lia)) as Hc.
  destruct (GET_BITS gb1 bl1 min_bits) as [code bl2]. cbn [fst] in Hc.
  pose proof (lengthen_loop_bounded dtbl Hs (Z.to_nat (17 - min_bits))
                st1 gb1 bl2 code min_bits ltac:(lia) ltac:(lia) Hc) as Hl.
  destruct (lengthen_loop st1 gb1 bl2 dtbl code min_bits)
    as [st2 gb2 bl3 code2 l2| |].
  - destruct Hl as [Hl2 Hc2]. split; [destruct (l2 >? 16); discriminate|].
    split; [discriminate|]. intros l E. injection E as <-.
    split; [exact Hl2|]. intro H16.
    replace (l2 >? 16) with true by lia.
    eexists. split; reflexivity.
  - split; [discriminate|]. split; [reflexivity|discriminate].
  - contradiction.
Qed.

Lemma huff_decode_length_bounded_witness :
  nth 17 (maxcode ex_dtbl) 0 = 0xFFFFF /\
  code_length ex_garbage 0 0 ex_dtbl 1 = Some 17 /\
  exists state',
    jpeg_huff_decode ex_garbage 0 0 ex_dtbl 1 = Symbol 0 state' /\
    last_warning state' = Some jdmarker.JWRN_HUFF_BAD_CODE.
Proof.
  destruct (huff_decode_length_bounded std_dc_luminance true 0
              blank_d_derived_tbl ex_dtbl eq_refl
              ltac:(vm_compute; reflexivity)) as [Hs Hd].
  split; [exact Hs|].
  assert (E : code_length ex_garbage 0 0 ex_dtbl 1 = Some 17)
    by (vm_compute; reflexivity).
  split; [exact E|].
  destruct (Hd ex_garbage 0 0 1 ltac:(lia)) as (_ & _ & Hl).
  destruct (Hl 17 E) as [_ H]. apply H. lia.
Defined.

End huff_decode_properties.

(** ** Refilling the bit buffer (jdhuff.c) *)

Section fill_bit_buffer_properties.
Import jdhuff decode_spec.

(* The refill loop ends only with 25 bits or more, unless it meets a
   marker or runs out of input. *)
Lemma fill_loop_filled inp gb bl :
  match fill_loop inp gb bl with
  | Filled _ _ bl' => MIN_GET_BITS <= bl'
  | _ => True
  end.
Proof.
  funelim (fill_loop inp gb bl); try exact I.
  - lia.
  - assumption.
Qed.

Lemma fill_loop_unfold inp gb bl :
  fill_loop inp gb bl =
  if bl <? MIN_GET_BITS then
    match fill_body inp with
    | NoBytes => Suspended
    | Marker c rest => HitMarker c rest gb bl
    | DataByte c rest =>
        fill_loop rest (to_INT32 (Z.lor (to_INT32 (Z.shiftl gb 8)) c)) (bl + 8)
    end
  else Filled inp gb bl.
Proof.
  funelim (fill_loop inp gb bl);
    destruct (bl <? MIN_GET_BITS) eqn:E; try lia;
    try rewrite e; reflexivity.
Qed.

(* With a marker pending nothing is read. *)
Lemma fill_at_marker state gb bl nbits :
  jdmarker.unread_marker (cinfo state) <> 0 ->
  exists state',
    jpeg_fill_bit_buffer state gb bl nbits = (true, state') /\
    next_input_byte state' = next_input_byte state /\
    jdmarker.unread_marker (cinfo state') = jdmarker.unread_marker (cinfo state) /\
    get_buffer state' =
      (if nbits >? bl then to_INT32 (Z.shiftl gb (MIN_GET_BITS - bl)) else gb) /\
    bits_left state' = (if nbits >? bl then MIN_GET_BITS else bl).
Proof.
  intro Hm. unfold jpeg_fill_bit_buffer.
  apply Z.eqb_neq in Hm. rewrite Hm. unfold no_more_bytes.
  destruct (nbits >? bl).
  - destruct (negb (jdmarker.insufficient_data (cinfo state)));
      eexists; (split; [reflexivity|]); cbn; auto.
  - eexists. split; [reflexivity|]. cbn. auto.
Qed.

(* Zero bits are what a left shift brings in. *)
Lemma shifted_in_zeroes gb k :
  0 <= k <= 32 -> to_INT32 (Z.shiftl gb k) mod 2 ^ k = 0.
Proof.
  intro Hk. rewrite Z.shiftl_mul_pow2 by lia.
  unfold to_INT32, wrap_s. change (2 ^ (32 - 1)) with 2147483648.
  set (z := gb * 2 ^ k).
  rewrite (Z.mod_eq (z + 2147483648) (2 ^ 32)) by (apply Z.pow_nonzero; lia).
  set (q := (z + 2147483648) / 2 ^ 32).
  replace (z + 2147483648 - 2 ^ 32 * q - 2147483648) with (z - 2 ^ 32 * q) by lia.
  assert (E : 2 ^ 32 = 2 ^ (32 - k) * 2 ^ k).
  { rewrite <- Z.pow_add_r by lia. f_equal. lia. }
  rewrite E. unfold z.
  replace (gb * 2 ^ k - 2 ^ (32 - k) * 2 ^ k * q)
    with ((gb - 2 ^ (32 - k) * q) * 2 ^ k) by ring.
  apply Z.mod_mul. apply Z.pow_nonzero; lia.
Qed.

Lemma skip_ff_not_ff xs : forall c rest,
  skip_ff xs = Some (c, rest) -> c <> 0xFF.
Proof.
  induction xs as [|x xs IH]; intros c rest H; simpl in H; [discriminate|].
  destruct (x =? 255) eqn:E.
  - eapply IH; eauto.
  - injection H as <- _. apply Z.eqb_neq. exact E.
Qed.

Lemma fill_body_marker inp c rest :
  fill_body inp = Marker c rest -> c <> 0 /\ c <> 0xFF.
Proof.
  unfold fill_body. destruct inp as [|x xs]; [discriminate|].
  destruct (x =? 255); [|discriminate].
  destruct (skip_ff xs) as [[c1 r1]|] eqn:Es; [|discriminate].
  destruct (c1 =? 0) eqn:E0; [discriminate|].
  intro H. injection H as <- _. split.
  - apply Z.eqb_neq. exact E0.
  - eapply skip_ff_not_ff; eauto.
Qed.

Lemma fill_loop_marker inp gb bl :
  match fill_loop inp gb bl with
  | HitMarker c _ _ _ => c <> 0 /\ c <> 0xFF
  | _ => True
  end.
Proof.
  funelim (fill_loop inp gb bl); try exact I.
  - assumption.
  - eapply fill_body_marker; eauto.
Qed.

Lemma no_more_bytes_marker c g b n :
  jdmarker.unread_marker (fst (fst (no_more_bytes c g b n)))
    = jdmarker.unread_marker c.
Proof.
  unfold no_more_bytes. destruct (n >? b); [|reflexivity].
  destruct (negb (jdmarker.insufficient_data c)); reflexivity.
Qed.

Lemma no_more_bytes_pads c g b n :
  n > b ->
  jdmarker.insufficient_data (fst (fst (no_more_bytes c g b n))) = true.
Proof.
  intro H. unfold no_more_bytes. replace (n >? b) with true by lia.
  destruct (jdmarker.insufficient_data c) eqn:E; cbn; auto.
Qed.

End fill_bit_buffer_properties.

(** ** Image dimensions in the two initial_setup routines *)

Section dimension_properties.
Import dimension_spec.

Lemma jdiv_round_up_returns a b :
  0 <= a -> 0 < b -> exists q, jdiv_round_up a b = Returned q.
Proof.
  intros Ha Hb. unfold jdiv_round_up, JSC_ASSERT.
  replace (a >=? 0) with true by lia. replace (b >? 0) with true by lia.
  eexists. reflexivity.
Qed.

Lemma to_JLONG_small z : - 2 ^ 31 <= z < 2 ^ 31 -> to_JLONG z = z.
Proof. exact (to_JINT_small z). Qed.

Lemma JSC_MAX_range a b lo hi :
  lo <= a <= hi -> lo <= b <= hi -> lo <= JSC_MAX a b <= hi.
Proof. unfold JSC_MAX. destruct (a >? b); lia. Qed.

(* The argument a dimension and a factor give jdiv_round_up. *)
Lemma scaled_dimension_ok d f :
  0 <= d <= JPEG_MAX_DIMENSION -> 0 <= f <= 32 ->
  0 <= to_JLONG (to_JLONG d * to_JLONG f).
Proof.
  unfold JPEG_MAX_DIMENSION. intros Hd Hf.
  rewrite (to_JLONG_small d), (to_JLONG_small f) by lia.
  rewrite (to_JLONG_small (d * f)); nia.
Qed.

Lemma block_divisor_ok m :
  1 <= m <= MAX_SAMP_FACTOR -> 0 < to_JLONG (to_JINT (m * DCTSIZE)).
Proof.
  unfold MAX_SAMP_FACTOR, DCTSIZE. intro Hm.
  rewrite (to_JINT_small (m * 8)), (to_JLONG_small (m * 8)) by lia. lia.
Qed.

Lemma jc_max_samp_loop_returns n : forall comps mh mv,
  (n <= length comps)%nat ->
  Forall (fun p => valid_factors (jcmaster.h_samp_factor p)
                     (jcmaster.v_samp_factor p)) (firstn n comps) ->
  1 <= mh <= MAX_SAMP_FACTOR -> 1 <= mv <= MAX_SAMP_FACTOR ->
  exists mh' mv',
    jcmaster.max_samp_loop comps n mh mv = Returned (mh', mv') /\
    1 <= mh' <= MAX_SAMP_FACTOR /\ 1 <= mv' <= MAX_SAMP_FACTOR.
Proof.
  induction n as [|n IH]; intros comps mh mv Hlen Hall Hh Hv.
  - exists mh, mv. auto.
  - destruct comps as [|p rest]; [simpl in Hlen; lia|].
    cbn [firstn] in Hall. inversion Hall as [|? ? [Hp1 Hp2] Hrest]; subst.
    cbn [jcmaster.max_samp_loop]. unfold JSC_ASSERT.
    replace (jcmaster.h_samp_factor p >? 0) with true by lia.
    replace (jcmaster.v_samp_factor p >? 0) with true by lia.
    replace (jcmaster.h_samp_factor p <=? MAX_SAMP_FACTOR) with true by lia.
    replace (jcmaster.v_samp_factor p <=? MAX_SAMP_FACTOR) with true by lia.
    apply IH; auto using JSC_MAX_range. simpl in Hlen. lia.
Qed.

Lemma jc_component_dimensions_returns c mh mv ci p :
  jcmaster.block_size c = DCTSIZE ->
  jcmaster.min_DCT_h_scaled_size c = DCTSIZE ->
  jcmaster.min_DCT_v_scaled_size c = DCTSIZE ->
  0 <= jcmaster.jpeg_width c <= JPEG_MAX_DIMENSION ->
  0 <= jcmaster.jpeg_height c <= JPEG_MAX_DIMENSION ->
  1 <= mh <= MAX_SAMP_FACTOR -> 1 <= mv <= MAX_SAMP_FACTOR ->
  valid_factors (jcmaster.h_samp_factor p) (jcmaster.v_samp_factor p) ->
  exists p', jcmaster.component_dimensions c mh mv ci p = Returned p'.
Proof.
  intros Hb Hmh Hmv Hw Hh Hxh Hxv [Hp1 Hp2].
  unfold jcmaster.component_dimensions. rewrite Hb, Hmh, Hmv.
  change (to_JINT (DCTSIZE * 1)) with 8. cbv beta iota zeta.
  change (8 >? to_JINT (8 * 2)) with false. cbv beta iota zeta.
  pose proof (block_divisor_ok mh Hxh) as Dh.
  pose proof (block_divisor_ok mv Hxv) as Dv.
  unfold MAX_SAMP_FACTOR in *.
  assert (Fh : to_JINT (jcmaster.h_samp_factor p * 8)
               = jcmaster.h_samp_factor p * 8) by (apply to_JINT_small; lia).
  assert (Fv : to_JINT (jcmaster.v_samp_factor p * 8)
               = jcmaster.v_samp_factor p * 8) by (apply to_JINT_small; lia).
  rewrite Fh, Fv.
  destruct (jdiv_round_up_returns _ _
              (scaled_dimension_ok (jcmaster.jpeg_width c)
                 (jcmaster.h_samp_factor p) Hw ltac:(lia)) Dh) as [q1 E1].
  destruct (jdiv_round_up_returns _ _
              (scaled_dimension_ok (jcmaster.jpeg_height c)
                 (jcmaster.v_samp_factor p) Hh ltac:(lia)) Dv) as [q2 E2].
  destruct (jdiv_round_up_returns _ _
              (scaled_dimension_ok (jcmaster.jpeg_width c)
                 (jcmaster.h_samp_factor p * 8) Hw ltac:(lia)) Dh) as [q3 E3].
  destruct (jdiv_round_up_returns _ _
              (scaled_dimension_ok (jcmaster.jpeg_height c)
                 (jcmaster.v_samp_factor p * 8) Hh ltac:(lia)) Dv) as [q4 E4].
  rewrite E1. cbn [bind_outcome]. rewrite E2. cbn [bind_outcome].
  rewrite E3. cbn [bind_outcome]. rewrite E4. cbn [bind_outcome].
  eexists. reflexivity.
Qed.

Lemma jc_dimensions_loop_returns c mh mv n : forall comps ci,
  jcmaster.block_size c = DCTSIZE ->
  jcmaster.min_DCT_h_scaled_size c = DCTSIZE ->
  jcmaster.min_DCT_v_scaled_size c = DCTSIZE ->
  0 <= jcmaster.jpeg_width c <= JPEG_MAX_DIMENSION ->
  0 <= jcmaster.jpeg_height c <= JPEG_MAX_DIMENSION ->
  1 <= mh <= MAX_SAMP_FACTOR -> 1 <= mv <= MAX_SAMP_FACTOR ->
  (n <= length comps)%nat ->
  Forall (fun p => valid_factors (jcmaster.h_samp_factor p)
                     (jcmaster.v_samp_factor p)) (firstn n comps) ->
  exists cs, jcmaster.dimensions_loop c mh mv comps n ci = Returned cs.
Proof.
  induction n as [|n IH]; intros comps ci Hb Hmh Hmv Hw Hh Hxh Hxv Hlen Hall.
  - eexists. reflexivity.
  - destruct comps as [|p rest]; [simpl in Hlen; lia|].
    cbn [firstn] in Hall. inversion Hall as [|? ? Hp Hrest]; subst.
    cbn [jcmaster.dimensions_loop].
    destruct (jc_component_dimensions_returns c mh mv ci p
                Hb Hmh Hmv Hw Hh Hxh Hxv Hp) as [p' Ep].
    rewrite Ep. cbn [bind_outcome].
    destruct (IH rest (ci + 1) Hb Hmh Hmv Hw Hh Hxh Hxv
                ltac:(simpl in Hlen; lia) Hrest) as [cs Ecs].
    rewrite Ecs. cbn [bind_outcome]. eexists. reflexivity.
Qed.

Lemma jd_max_samp_loop_returns n : forall comps mh mv,
  (n <= length comps)%nat ->
  Forall (fun p => valid_factors (jdinput.h_samp_factor p)
                     (jdinput.v_samp_factor p)) (firstn n comps) ->
  1 <= mh <= MAX_SAMP_FACTOR -> 1 <= mv <= MAX_SAMP_FACTOR ->
  exists mh' mv',
    jdinput.max_samp_loop comps n mh mv = Returned (mh', mv') /\
    1 <= mh' <= MAX_SAMP_FACTOR /\ 1 <= mv' <= MAX_SAMP_FACTOR.
Proof.
  induction n as [|n IH]; intros comps mh mv Hlen Hall Hh Hv.
  - exists mh, mv. auto.
  - destruct comps as [|p rest]; [simpl in Hlen; lia|].
    cbn [firstn] in Hall. inversion Hall as [|? ? [Hp1 Hp2] Hrest]; subst.
    cbn [jdinput.max_samp_loop]. unfold JSC_ASSERT.
    replace (jdinput.h_samp_factor p >? 0) with true by lia.
    replace (jdinput.v_samp_factor p >? 0) with true by lia.
    replace (jdinput.h_samp_factor p <=? MAX_SAMP_FACTOR) with true by lia.
    replace (jdinput.v_samp_factor p <=? MAX_SAMP_FACTOR) with true by lia.
    apply IH; auto using JSC_MAX_range. simpl in Hlen. lia.
Qed.

Lemma jd_component_dimensions_returns c mh mv p :
  0 <= jdinput.image_width c <= JPEG_MAX_DIMENSION ->
  0 <= jdinput.image_height c <= JPEG_MAX_DIMENSION ->
  1 <= mh <= MAX_SAMP_FACTOR -> 1 <= mv <= MAX_SAMP_FACTOR ->
  valid_factors (jdinput.h_samp_factor p) (jdinput.v_samp_factor p) ->
  exists p', jdinput.component_dimensions c mh mv p = Returned p'.
Proof.
  intros Hw Hh Hxh Hxv [Hp1 Hp2].
  unfold jdinput.component_dimensions. cbv zeta.
  pose proof (block_divisor_ok mh Hxh) as Dh.
  pose proof (block_divisor_ok mv Hxv) as Dv.
  unfold MAX_SAMP_FACTOR in *.
  assert (Mh : 0 < to_JLONG mh) by (rewrite to_JLONG_small; lia).
  assert (Mv : 0 < to_JLONG mv) by (rewrite to_JLONG_small; lia).
  destruct (jdiv_round_up_returns _ _
              (scaled_dimension_ok (jdinput.image_width c)
                 (jdinput.h_samp_factor p) Hw ltac:(lia)) Dh) as [q1 E1].
  destruct (jdiv_round_up_returns _ _
              (scaled_dimension_ok (jdinput.image_height c)
                 (jdinput.v_samp_factor p) Hh ltac:(lia)) Dv) as [q2 E2].
  destruct (jdiv_round_up_returns _ _
              (scaled_dimension_ok (jdinput.image_width c)
                 (jdinput.h_samp_factor p) Hw ltac:(lia)) Mh) as [q3 E3].
  destruct (jdiv_round_up_returns _ _
              (scaled_dimension_ok (jdinput.image_height c)
                 (jdinput.v_samp_factor p) Hh ltac:(lia)) Mv) as [q4 E4].
  rewrite E1. cbn [bind_outcome]. rewrite E2. cbn [bind_outcome].
  rewrite E3. cbn [bind_outcome]. rewrite E4. cbn [bind_outcome].
  eexists. reflexivity.
Qed.

Lemma jd_dimensions_loop_returns c mh mv n : forall comps,
  0 <= jdinput.image_width c <= JPEG_MAX_DIMENSION ->
  0 <= jdinput.image_height c <= JPEG_MAX_DIMENSION ->
  1 <= mh <= MAX_SAMP_FACTOR -> 1 <= mv <= MAX_SAMP_FACTOR ->
  (n <= length comps)%nat ->
  Forall (fun p => valid_factors (jdinput.h_samp_factor p)
                     (jdinput.v_samp_factor p)) (firstn n comps) ->
  exists cs, jdinput.dimensions_loop c mh mv comps n = Returned cs.
Proof.
  induction n as [|n IH]; intros comps Hw Hh Hxh Hxv Hlen Hall.
  - eexists. reflexivity.
  - destruct comps as [|p rest]; [simpl in Hlen; lia|].
    cbn [firstn] in Hall. inversion Hall as [|? ? Hp Hrest]; subst.
    cbn [jdinput.dimensions_loop].
    destruct (jd_component_dimensions_returns c mh mv p Hw Hh Hxh Hxv Hp)
      as [p' Ep].
    rewrite Ep. cbn [bind_outcome].
    destruct (IH rest Hw Hh Hxh Hxv ltac:(simpl in Hlen; lia) Hrest)
      as [cs Ecs].
    rewrite Ecs. cbn [bind_outcome]. eexists. reflexivity.
Qed.

(* The compressor's initial_setup passes all its checks on a ready
   compressor with dimensions 1..65500. *)
Lemma jc_initial_setup_accepts c :
  encoder_ready c ->
  1 <= jcmaster.jpeg_width c <= JPEG_MAX_DIMENSION ->
  1 <= jcmaster.jpeg_height c <= JPEG_MAX_DIMENSION ->
  exists c', jcmaster.initial_setup c = Returned c' /\
             jcmaster.jpeg_width c' = jcmaster.jpeg_width c /\
             jcmaster.jpeg_height c' = jcmaster.jpeg_height c.
Proof.
  intros (Hb & Hmh & Hmv & Hp & Hn & Hlen & Hall) Hw Hh.
  unfold jcmaster.initial_setup, JSC_ASSERT. rewrite Hb.
  change (DCTSIZE >=? 1) with true. change (DCTSIZE <=? 16) with true.
  change (DCTSIZE =? DCTSIZE) with true. cbv iota.
  replace (jcmaster.jpeg_height c >? 0) with true by lia.
  replace (jcmaster.jpeg_width c >? 0) with true by lia.
  replace (jcmaster.num_components c >? 0) with true by lia.
  replace (jcmaster.jpeg_height c <=? JPEG_MAX_DIMENSION) with true by lia.
  replace (jcmaster.jpeg_width c <=? JPEG_MAX_DIMENSION) with true by lia.
  replace (jcmaster.data_precision c >=? 8) with true by lia.
  replace (jcmaster.data_precision c <=? 12) with true by lia.
  replace (jcmaster.num_components c <=? MAX_COMPONENTS) with true by lia.
  destruct (jc_max_samp_loop_returns _ _ 1 1 Hlen Hall)
    as (mh & mv & Em & Rh & Rv); try (unfold MAX_SAMP_FACTOR; lia).
  rewrite Em. cbn [bind_outcome].
  destruct (jc_dimensions_loop_returns c mh mv _ (jcmaster.comp_info c) 0
              Hb Hmh Hmv ltac:(lia) ltac:(lia) Rh Rv Hlen Hall) as [cs Ecs].
  rewrite Ecs. cbn [bind_outcome].
  assert (Hj : 0 <= to_JLONG (jcmaster.jpeg_height c))
    by (unfold JPEG_MAX_DIMENSION in Hh; rewrite to_JLONG_small; lia).
  destruct (jdiv_round_up_returns _ _ Hj (block_divisor_ok mv Rv)) as [q Eq].
  rewrite Eq. cbn [bind_outcome].
  eexists. split; [reflexivity|]. split; reflexivity.
Qed.

(* It stops on an assertion at any dimension outside 1..65500. *)
Lemma jc_initial_setup_asserts c :
  ~ (1 <= jcmaster.jpeg_width c <= JPEG_MAX_DIMENSION /\
     1 <= jcmaster.jpeg_height c <= JPEG_MAX_DIMENSION) ->
  jcmaster.initial_setup c = Asserted.
Proof.
  intro Hout. unfold jcmaster.initial_setup, JSC_ASSERT.
  repeat match goal with
         | |- (if ?b then _ else Asserted) = Asserted =>
             destruct b eqn:?; [|reflexivity]
         end.
  exfalso. apply Hout. lia.
Qed.

Lemma jd_initial_setup_accepts c :
  decoder_ready c ->
  0 <= jdinput.image_width c <= JPEG_MAX_DIMENSION ->
  0 <= jdinput.image_height c <= JPEG_MAX_DIMENSION ->
  exists c', jdinput.initial_setup c = Returned c' /\
             jdinput.image_width c' = jdinput.image_width c /\
             jdinput.image_height c' = jdinput.image_height c.
Proof.
  intros (Hb & Hp & Hn & Hlen & Hall) Hw Hh.
  unfold jdinput.initial_setup, JSC_ASSERT.
  assert (Hjw : to_JLONG (jdinput.image_width c) = jdinput.image_width c)
    by (unfold JPEG_MAX_DIMENSION in Hw; rewrite to_JLONG_small; lia).
  assert (Hjh : to_JLONG (jdinput.image_height c) = jdinput.image_height c)
    by (unfold JPEG_MAX_DIMENSION in Hh; rewrite to_JLONG_small; lia).
  rewrite Hjw, Hjh.
  change (to_JLONG JPEG_MAX_DIMENSION) with JPEG_MAX_DIMENSION.
  replace (jdinput.image_height c <=? JPEG_MAX_DIMENSION) with true by lia.
  replace (jdinput.image_width c <=? JPEG_MAX_DIMENSION) with true by lia.
  replace (jdinput.data_precision c >=? 8) with true by lia.
  replace (jdinput.data_precision c <=? 12) with true by lia.
  replace (jdinput.num_components c <=? MAX_COMPONENTS) with true by lia.
  destruct (jd_max_samp_loop_returns _ _ 1 1 Hlen Hall)
    as (mh & mv & Em & Rh & Rv); try (unfold MAX_SAMP_FACTOR; lia).
  rewrite Em. cbn [bind_outcome]. rewrite Hb.
  destruct (jd_dimensions_loop_returns c mh mv _ (jdinput.comp_info c)
              Hw Hh Rh Rv Hlen Hall) as [cs Ecs].
  rewrite Ecs. cbn [bind_outcome].
  destruct (jdiv_round_up_returns _ _ (proj1 Hh) (block_divisor_ok mv Rv))
    as [q Eq].
  rewrite Eq. cbn [bind_outcome].
  eexists. split; [reflexivity|]. split; reflexivity.
Qed.

(** C9, as amended.  With its other parameters valid, the compressor's
    [initial_setup] accepts every image whose width and height are each
    between 1 and 65500, and the decompressor's every image whose width
    and height are each at most 65500.  The compressor turns down a
    width or height of 65501 or more, and one of zero, by a failed
    [JSC_ASSERT]: the routine does not return, with a failure value or
    otherwise. *)
Theorem dimension_limits_are_asserted :
  (forall c,
      encoder_ready c ->
      1 <= jcmaster.jpeg_width c <= JPEG_MAX_DIMENSION ->
      1 <= jcmaster.jpeg_height c <= JPEG_MAX_DIMENSION ->
      exists c', jcmaster.initial_setup c = Returned c' /\
                 jcmaster.jpeg_width c' = jcmaster.jpeg_width c /\
                 jcmaster.jpeg_height c' = jcmaster.jpeg_height c) /\
  (forall c,
      decoder_ready c ->
      0 <= jdinput.image_width c <= JPEG_MAX_DIMENSION ->
      0 <= jdinput.image_height c <= JPEG_MAX_DIMENSION ->
      exists c', jdinput.initial_setup c = Returned c' /\
                 jdinput.image_width c' = jdinput.image_width c /\
                 jdinput.image_height c' = jdinput.image_height c) /\
  (forall c,
      jcmaster.jpeg_width c <= 0 \/ JPEG_MAX_DIMENSION < jcmaster.jpeg_width c \/
      jcmaster.jpeg_height c <= 0 \/
      JPEG_MAX_DIMENSION < jcmaster.jpeg_height c ->
      jcmaster.initial_setup c = Asserted).
Proof.
  split; [|split].
  - exact jc_initial_setup_accepts.
  - exact jd_initial_setup_accepts.
  - intros c Hout. apply jc_initial_setup_asserts. lia.
Qed.

Lemma ex_encoder_ready w h : encoder_ready (ex_encoder w h).
Proof.
  unfold encoder_ready, ex_encoder, valid_factors, MAX_COMPONENTS,
    MAX_SAMP_FACTOR. cbn.
  repeat split; try lia; try reflexivity.
  repeat constructor; cbn; lia.
Qed.

Lemma ex_decoder_ready w h : decoder_ready (ex_decoder w h).
Proof.
  unfold decoder_ready, ex_decoder, valid_factors, MAX_COMPONENTS,
    MAX_SAMP_FACTOR. cbn.
  repeat split; try lia; try reflexivity.
  repeat constructor; cbn; lia.
Qed.

Lemma dimension_limits_are_asserted_witness :
  (exists c', jcmaster.initial_setup (ex_encoder 65500 65500) = Returned c' /\
              jcmaster.jpeg_width c' = 65500 /\
              jcmaster.jpeg_height c' = 65500) /\
  (exists c', jdinput.initial_setup (ex_decoder 65500 65500) = Returned c' /\
              jdinput.image_width c' = 65500 /\
              jdinput.image_height c' = 65500) /\
  jcmaster.initial_setup (ex_encoder 512 65501) = Asserted.
Proof.
  destruct dimension_limits_are_asserted as (Henc & Hdec & Hout).
  split; [|split].
  - apply (Henc (ex_encoder 65500 65500)).
    + apply ex_encoder_ready.
    + unfold JPEG_MAX_DIMENSION. simpl. lia.
    + unfold JPEG_MAX_DIMENSION. simpl. lia.
  - apply (Hdec (ex_decoder 65500 65500)).
    + apply ex_decoder_ready.
    + unfold JPEG_MAX_DIMENSION. simpl. lia.
    + unfold JPEG_MAX_DIMENSION. simpl. lia.
  - apply (Hout (ex_encoder 512 65501)).
    unfold JPEG_MAX_DIMENSION. simpl. lia.
Defined.

(** C9, as first stated, fails: a valid three-component image 512
    pixels wide and 65501 high is not turned down with a failure value,
    the compressor's [initial_setup] stops on a failed assertion; and an
    image of width 0, which is at most 65500, is not accepted. *)
Lemma oversize_image_is_not_a_typed_failure :
  encoder_ready (ex_encoder 512 65501) /\
  jcmaster.jpeg_height (ex_encoder 512 65501) = 65501 /\
  jcmaster.initial_setup (ex_encoder 512 65501) = Asserted /\
  (~ exists c', jcmaster.initial_setup (ex_encoder 512 65501) = Returned c') /\
  jcmaster.initial_setup (ex_encoder 0 512) = Asserted.
Proof.
  split; [apply ex_encoder_ready|]. split; [reflexivity|].
  assert (E : jcmaster.initial_setup (ex_encoder 512 65501) = Asserted)
    by (vm_compute; reflexivity).
  split; [exact E|]. split; [|vm_compute; reflexivity].
  intros [c' H]. rewrite E in H. discriminate.
Qed.

End dimension_properties.

(** ** Rounding utilities (jutils.c) *)

Section rounding_properties.

Lemma ceiling_bounds a b :
  0 <= a -> 0 < b -> b * ((a + b - 1) / b - 1) < a <= b * ((a + b - 1) / b).
Proof.
  intros Ha Hb.
  pose proof (Z.div_mod (a + b - 1) b ltac:(lia)) as D.
  pose proof (Z.mod_pos_bound (a + b - 1) b Hb) as M. nia.
Qed.

(** X1.  [jdiv_round_up a b], for a >= 0 and b > 0 whose sum does not
    overflow a JLONG, returns the ceiling of a / b: the least q with
    a <= b * q.  A negative a or a b that is not positive stops on an
    assertion. *)
Theorem jdiv_round_up_is_ceiling :
  (forall a b,
      0 <= a -> 0 < b -> a + b < 2 ^ 31 ->
      exists q, jdiv_round_up a b = Returned q /\
                b * (q - 1) < a <= b * q) /\
  (forall a b, a < 0 \/ b <= 0 -> jdiv_round_up a b = Asserted).
Proof.
  split.
  - intros a b Ha Hb Hov. unfold jdiv_round_up, JSC_ASSERT.
    replace (a >=? 0) with true by lia. replace (b >? 0) with true by lia.
    eexists. split; [reflexivity|].
    rewrite (to_JLONG_small (a + b)) by lia.
    rewrite (to_JLONG_small (a + b - 1)) by lia.
    unfold cdiv. rewrite Z.quot_div_nonneg by lia.
    apply ceiling_bounds; assumption.
  - intros a b H. unfold jdiv_round_up, JSC_ASSERT.
    destruct (a >=? 0) eqn:Ea; [|reflexivity].
    destruct (b >? 0) eqn:Eb; [|reflexivity]. lia.
Qed.

Lemma jdiv_round_up_is_ceiling_witness :
  (exists q, jdiv_round_up 65500 16 = Returned q /\
             16 * (q - 1) < 65500 <= 16 * q) /\
  jdiv_round_up 65500 0 = Asserted.
Proof.
  split.
  - apply (proj1 jdiv_round_up_is_ceiling 65500 16); lia.
  - apply (proj2 jdiv_round_up_is_ceiling 65500 0). right. lia.
Defined.

(** X2.  [jround_up a b], for a >= 0 and b > 0 whose sum does not
    overflow a JLONG, returns the least multiple of b that is not below
    a, which is b times what [jdiv_round_up] returns. *)
Theorem jround_up_is_next_multiple :
  forall a b,
    0 <= a -> 0 < b -> a + b < 2 ^ 31 ->
    exists r q,
      jround_up a b = Returned r /\ jdiv_round_up a b = Returned q /\
      r = b * q /\ a <= r < a + b.
Proof.
  intros a b Ha Hb Hov. unfold jround_up, jdiv_round_up, JSC_ASSERT.
  replace (a >=? 0) with true by lia. replace (b >? 0) with true by lia.
  eexists. eexists. split; [reflexivity|]. split; [reflexivity|].
  cbv zeta.
  rewrite (to_JLONG_small (a + b)) by lia.
  replace (a + (b - 1)) with (a + b - 1) by lia.
  rewrite !(to_JLONG_small (a + b - 1)) by lia.
  unfold cdiv. rewrite Z.quot_div_nonneg by lia.
  rewrite Z.rem_mod_nonneg by lia.
  pose proof (Z.div_mod (a + b - 1) b ltac:(lia)) as D.
  pose proof (Z.mod_pos_bound (a + b - 1) b Hb) as M.
  assert (E : a + b - 1 - (a + b - 1) mod b = b * ((a + b - 1) / b)) by lia.
  rewrite E.
  pose proof (ceiling_bounds a b Ha Hb) as C.
  assert (R : to_JLONG (b * ((a + b - 1) / b)) = b * ((a + b - 1) / b))
    by (apply to_JLONG_small; lia).
  rewrite R. split; [reflexivity|]. lia.
Qed.

Lemma jround_up_is_next_multiple_witness :
  exists r q,
    jround_up 65500 16 = Returned r /\ jdiv_round_up 65500 16 = Returned q /\
    r = 16 * q /\ 65500 <= r < 65500 + 16.
Proof.
  apply (jround_up_is_next_multiple 65500 16); lia.
Defined.

End rounding_properties.

(** ** More on quality scaling and quantization tables (jcparam.c) *)

Section quality_properties.

Lemma quality_scaling_of_limited c :
  1 <= c <= 100 ->
  (if c <? 50 then to_JINT (cdiv 5000 c) else to_JINT (200 - to_JINT (c * 2)))
  = (if c <? 50 then 5000 / c else 200 - 2 * c).
Proof.
  intro H. destruct (c <? 50).
  - unfold cdiv. rewrite Z.quot_div_nonneg by lia.
    apply to_JINT_small.
    assert (0 <= 5000 / c) by (apply Z.div_pos; lia).
    assert (5000 / c <= 5000) by (apply Z.div_le_upper_bound; nia). lia.
  - rewrite (to_JINT_small (c * 2)) by lia.
    rewrite to_JINT_small by lia. lia.
Qed.

Lemma jpeg_quality_scaling_at_100 q : 100 <= q -> jpeg_quality_scaling q = 0.
Proof.
  intro H. unfold jpeg_quality_scaling.
  pose proof (quality_safety_limit_clamp q) as C.
  replace (quality_safety_limit q) with 100 by lia. reflexivity.
Qed.

(** X3.  [jpeg_quality_scaling] never grows with the quality: a higher
    quality setting gives a scaling percentage that is the same or
    smaller; the percentage is 5000 at quality 1 and below and 0 at
    quality 100 and above. *)
Theorem jpeg_quality_scaling_monotone :
  forall q1 q2,
    q1 <= q2 ->
    jpeg_quality_scaling q2 <= jpeg_quality_scaling q1 /\
    (q1 <= 1 -> jpeg_quality_scaling q1 = 5000) /\
    (100 <= q2 -> jpeg_quality_scaling q2 = 0).
Proof.
  intros q1 q2 Hq. unfold jpeg_quality_scaling.
  pose proof (quality_safety_limit_range q1) as R1.
  pose proof (quality_safety_limit_range q2) as R2.
  pose proof (quality_safety_limit_clamp q1) as C1.
  pose proof (quality_safety_limit_clamp q2) as C2.
  cbv zeta.
  rewrite (quality_scaling_of_limited _ R1), (quality_scaling_of_limited _ R2).
  set (c1 := quality_safety_limit q1) in *.
  set (c2 := quality_safety_limit q2) in *.
  assert (Hc : c1 <= c2) by lia.
  split; [|split].
  - destruct (c1 <? 50) eqn:E1; destruct (c2 <? 50) eqn:E2; try lia.
    + apply Z.div_le_compat_l; lia.
    + assert (101 <= 5000 / c1) by (apply Z.div_le_lower_bound; lia).
      lia.
  - intro H1. assert (c1 = 1) by lia.
    replace c1 with 1 by lia. reflexivity.
  - intro H2. assert (c2 = 100) by lia.
    replace c2 with 100 by lia. reflexivity.
Qed.

Lemma jpeg_quality_scaling_monotone_witness :
  jpeg_quality_scaling 90 <= jpeg_quality_scaling 25.
Proof.
  apply (jpeg_quality_scaling_monotone 25 90). lia.
Defined.

Lemma quant_entry_range basic sf fb :
  1 <= quant_entry basic sf fb <= (if fb then 255 else 32767).
Proof.
  rewrite quant_entry_value. unfold clamp. destruct fb; lia.
Qed.

(* What jpeg_add_quant_table leaves behind, for any table and scaling. *)
Lemma jpeg_add_quant_table_result cinfo which basic sf fb :
  global_state cinfo = CSTATE_START ->
  0 <= which < NUM_QUANT_TBLS ->
  length (quant_tbl_ptrs cinfo) = Z.to_nat NUM_QUANT_TBLS ->
  (forall t, In (Some t) (quant_tbl_ptrs cinfo) ->
             length (quantval t) = Z.to_nat DCTSIZE2) ->
  exists t,
    jpeg_add_quant_table cinfo which basic sf fb
      = Returned (set_quant_tbl_ptrs cinfo
                    (list_set (quant_tbl_ptrs cinfo) (Z.to_nat which) (Some t))) /\
    sent_table t = false /\
    length (quantval t) = Z.to_nat DCTSIZE2 /\
    forall i, (i < 64)%nat ->
      nth i (quantval t) 0 = quant_entry (nth i basic 0) sf fb.
Proof.
  intros Hstate Hwhich Hslots Hold.
  unfold jpeg_add_quant_table, JSC_ASSERT. rewrite Hstate, Z.eqb_refl.
  replace (which >=? 0) with true by lia.
  replace (which <? NUM_QUANT_TBLS) with true by lia.
  cbv zeta. eexists. split; [reflexivity|]. split; [reflexivity|].
  cbn [quantval]. unfold NUM_QUANT_TBLS in *.
  assert (Hw : (Z.to_nat which < length (quant_tbl_ptrs cinfo))%nat)
    by (rewrite Hslots; lia).
  assert (Hqlen :
    length (quantval match nth (Z.to_nat which) (quant_tbl_ptrs cinfo) None with
                     | Some t => t | None => fresh_quant_table end)
    = Z.to_nat DCTSIZE2).
  { destruct (nth (Z.to_nat which) (quant_tbl_ptrs cinfo) None) eqn:En.
    - apply Hold. rewrite <- En. apply nth_In. exact Hw.
    - reflexivity. }
  split.
  - rewrite fill_quantval_length. exact Hqlen.
  - intros i Hi.
    assert (E64 : Z.to_nat DCTSIZE2 = 64%nat) by reflexivity.
    rewrite fill_quantval_nth by (rewrite Hqlen; lia).
    replace (Nat.leb 0 i && Nat.ltb i (0 + Z.to_nat DCTSIZE2))%bool with true;
      [reflexivity|].
    symmetry. apply andb_true_iff. split.
    + apply Nat.leb_le; lia.
    + apply Nat.ltb_lt. lia.
Qed.

Lemma nth_repeat_lt {A} (a d : A) n : forall i,
  (i < n)%nat -> nth i (repeat a n) d = a.
Proof.
  induction n as [|n IH]; intros [|i] Hi; simpl; try lia; auto.
  apply IH. lia.
Qed.

(** X4.  For a basic table of non-negative JLONG values and a scale
    factor whose products with them stay within the 32 bits of a JLONG,
    [jpeg_add_quant_table] installs the table whose entry i is
    (basic_table[i] * scale_factor + 50) / 100, the division truncating
    and the sum taken in long, where it cannot wrap, cut to 1..255 with
    [force_baseline] and to 1..32767 without; so none of the 64 entries
    is zero.  The table is marked not sent and the other three slots are
    left as they were. *)
Theorem quant_table_entries_never_zero :
  forall cinfo which_tbl basic_table scale_factor force_baseline,
    global_state cinfo = CSTATE_START ->
    0 <= which_tbl < NUM_QUANT_TBLS ->
    length (quant_tbl_ptrs cinfo) = Z.to_nat NUM_QUANT_TBLS ->
    (forall t, In (Some t) (quant_tbl_ptrs cinfo) ->
               length (quantval t) = Z.to_nat DCTSIZE2) ->
    (forall i, (i < 64)%nat ->
       0 <= nth i basic_table 0 <= JINT_MAX /\
       JINT_MIN <= nth i basic_table 0 * scale_factor <= JINT_MAX) ->
    exists cinfo' t,
      jpeg_add_quant_table cinfo which_tbl basic_table scale_factor
        force_baseline = Returned cinfo' /\
      nth (Z.to_nat which_tbl) (quant_tbl_ptrs cinfo') None = Some t /\
      sent_table t = false /\
      (forall i, (i < 64)%nat ->
         nth i (quantval t) 0 =
           clamp 1 (if force_baseline then 255 else 32767)
             (cdiv (nth i basic_table 0 * scale_factor + 50) 100) /\
         1 <= nth i (quantval t) 0
           <= (if force_baseline then 255 else 32767)) /\
      (forall j, j <> Z.to_nat which_tbl ->
         nth j (quant_tbl_ptrs cinfo') None = nth j (quant_tbl_ptrs cinfo) None).
Proof.
  intros cinfo which basic sf fb Hstate Hwhich Hslots Hold Hfit.
  destruct (jpeg_add_quant_table_result cinfo which basic sf fb
              Hstate Hwhich Hslots Hold) as (t & Hrun & Hsent & Hlen & Hent).
  eexists. exists t. split; [exact Hrun|].
  cbn [quant_tbl_ptrs set_quant_tbl_ptrs]. unfold NUM_QUANT_TBLS in *.
  split; [apply nth_list_set_eq; rewrite Hslots; lia|].
  split; [exact Hsent|]. split.
  - intros i Hi. rewrite (Hent i Hi). split; [|apply quant_entry_range].
    destruct (Hfit i Hi) as [Hb Hp]. unfold JINT_MIN, JINT_MAX in Hb, Hp.
    rewrite quant_entry_value. unfold to_JLONG.
    rewrite (wrap_s_small 32 (nth i basic 0)) by (simpl; lia).
    rewrite (wrap_s_small 32 (nth i basic 0 * sf)) by (simpl; lia).
    reflexivity.
  - intros j Hj. apply nth_list_set_neq. lia.
Qed.

Lemma quant_table_entries_never_zero_witness :
  exists cinfo' t,
    jpeg_add_quant_table examples.ex_params 2 (repeat 2147483647 64) 1 false
      = Returned cinfo' /\
    nth 2 (quant_tbl_ptrs cinfo') None = Some t /\
    sent_table t = false /\
    (forall i, (i < 64)%nat -> nth i (quantval t) 0 = 32767) /\
    (forall j, j <> 2%nat ->
       nth j (quant_tbl_ptrs cinfo') None
         = nth j (quant_tbl_ptrs examples.ex_params) None).
Proof.
  destruct (quant_table_entries_never_zero examples.ex_params 2
              (repeat 2147483647 64) 1 false)
    as (cinfo' & t & Hrun & Hnth & Hsent & Hent & Hother).
  - reflexivity.
  - unfold NUM_QUANT_TBLS. lia.
  - reflexivity.
  - simpl. intros t [H|[H|[H|[H|[]]]]]; discriminate.
  - intros i Hi. rewrite (nth_repeat_lt 2147483647 0 64 i Hi).
    unfold JINT_MIN, JINT_MAX. simpl. lia.
  - exists cinfo', t. split; [exact Hrun|]. split; [exact Hnth|].
    split; [exact Hsent|]. split; [|exact Hother].
    intros i Hi. destruct (Hent i Hi) as [E _].
    rewrite E, (nth_repeat_lt 2147483647 0 64 i Hi). reflexivity.
Defined.

Lemma In_list_set {A} (l : list A) n x y :
  In x (list_set l n y) -> x = y \/ In x l.
Proof.
  revert n. induction l as [|h t IH]; intros [|n] H; simpl in *; auto.
  - destruct H as [H|H]; auto.
  - destruct H as [H|H]; auto. apply IH in H. tauto.
Qed.

Lemma std_quant_tbl_entries i :
  1 <= nth i std_luminance_quant_tbl 1 <= 255 /\
  1 <= nth i std_chrominance_quant_tbl 1 <= 255.
Proof.
  assert (F : forall l,
             forallb (fun b => (1 <=? b) && (b <=? 255)) l = true ->
             1 <= nth i l 1 <= 255).
  { intros l Hl. rewrite forallb_forall in Hl.
    destruct (Nat.lt_ge_cases i (length l)) as [Hi|Hi].
    - specialize (Hl _ (nth_In l 1 Hi)). lia.
    - rewrite nth_overflow by exact Hi. lia. }
  split; apply F; vm_compute; reflexivity.
Qed.

Lemma scaled_std_entry b s fb :
  1 <= b <= 255 -> 0 <= s <= 5000 ->
  quant_entry b s fb = clamp 1 (if fb then 255 else 32767) ((b * s + 50) / 100) /\
  (s = 100 -> quant_entry b s fb = b) /\
  (s = 0 -> quant_entry b s fb = 1).
Proof.
  intros Hb Hs.
  assert (E : quant_entry b s fb
              = clamp 1 (if fb then 255 else 32767) ((b * s + 50) / 100))
    by (apply quant_entry_clamp; unfold JINT_MAX; nia).
  split; [exact E|]. rewrite E. unfold clamp. split; intro Hv; subst s.
  - replace (b * 100 + 50) with (50 + b * 100) by lia.
    rewrite Z.div_add by lia. change (50 / 100) with 0.
    destruct fb; lia.
  - rewrite Z.mul_0_r. change ((0 + 50) / 100) with 0. destruct fb; lia.
Qed.

(** X5.  [jpeg_set_quality] puts the scaled standard luminance table in
    slot 0 and the scaled standard chrominance table in slot 1 and
    leaves slots 2 and 3 alone.  At quality 50 the two standard tables
    are installed as they are; at quality 100 and above every entry of
    both tables is 1. *)
Theorem jpeg_set_quality_installs_standard_tables :
  forall cinfo quality force_baseline,
    global_state cinfo = CSTATE_START ->
    length (quant_tbl_ptrs cinfo) = Z.to_nat NUM_QUANT_TBLS ->
    (forall t, In (Some t) (quant_tbl_ptrs cinfo) ->
               length (quantval t) = Z.to_nat DCTSIZE2) ->
    exists cinfo' lum chr,
      jpeg_set_quality cinfo quality force_baseline = Returned cinfo' /\
      nth 0 (quant_tbl_ptrs cinfo') None = Some lum /\
      nth 1 (quant_tbl_ptrs cinfo') None = Some chr /\
      nth 2 (quant_tbl_ptrs cinfo') None = nth 2 (quant_tbl_ptrs cinfo) None /\
      nth 3 (quant_tbl_ptrs cinfo') None = nth 3 (quant_tbl_ptrs cinfo) None /\
      (forall i, (i < 64)%nat ->
         nth i (quantval lum) 0 =
           clamp 1 (if force_baseline then 255 else 32767)
             ((nth i std_luminance_quant_tbl 1
               * jpeg_quality_scaling quality + 50) / 100) /\
         nth i (quantval chr) 0 =
           clamp 1 (if force_baseline then 255 else 32767)
             ((nth i std_chrominance_quant_tbl 1
               * jpeg_quality_scaling quality + 50) / 100)) /\
      (quality = 50 ->
         quantval lum = std_luminance_quant_tbl /\
         quantval chr = std_chrominance_quant_tbl) /\
      (100 <= quality ->
         quantval lum = repeat 1 64 /\ quantval chr = repeat 1 64).
Proof.
  intros cinfo q fb Hstate Hslots Hold.
  unfold jpeg_set_quality, jpeg_set_linear_quality. cbv zeta.
  set (s := jpeg_quality_scaling q).
  assert (Hs : 0 <= s <= 5000) by apply jpeg_quality_scaling_range.
  destruct (jpeg_add_quant_table_result cinfo 0 std_luminance_quant_tbl s fb
              Hstate ltac:(unfold NUM_QUANT_TBLS; lia) Hslots Hold)
    as (lum & Hrun0 & _ & Hlen0 & Hent0).
  rewrite Hrun0. cbn [bind_outcome].
  set (c1 := set_quant_tbl_ptrs cinfo
               (list_set (quant_tbl_ptrs cinfo) (Z.to_nat 0) (Some lum))).
  assert (Hslots1 : length (quant_tbl_ptrs c1) = Z.to_nat NUM_QUANT_TBLS)
    by (unfold c1; cbn [quant_tbl_ptrs set_quant_tbl_ptrs];
        rewrite list_set_length; exact Hslots).
  assert (Hold1 : forall t, In (Some t) (quant_tbl_ptrs c1) ->
                            length (quantval t) = Z.to_nat DCTSIZE2).
  { intros t Hin. unfold c1 in Hin.
    cbn [quant_tbl_ptrs set_quant_tbl_ptrs] in Hin.
    apply In_list_set in Hin. destruct Hin as [Heq|Hin].
    - injection Heq as ->. exact Hlen0.
    - apply Hold. exact Hin. }
  destruct (jpeg_add_quant_table_result c1 1 std_chrominance_quant_tbl s fb
              Hstate ltac:(unfold NUM_QUANT_TBLS; lia) Hslots1 Hold1)
    as (chr & Hrun1 & _ & Hlen1 & Hent1).
  rewrite Hrun1. eexists. exists lum, chr. split; [reflexivity|].
  unfold c1. cbn [quant_tbl_ptrs set_quant_tbl_ptrs].
  change (Z.to_nat 0) with 0%nat. change (Z.to_nat 1) with 1%nat.
  unfold NUM_QUANT_TBLS in Hslots. change (Z.to_nat 4) with 4%nat in Hslots.
  assert (Elum : forall i, (i < 64)%nat ->
            nth i std_luminance_quant_tbl 0 = nth i std_luminance_quant_tbl 1)
    by (intros i Hi; apply nth_indep; simpl; lia).
  assert (Echr : forall i, (i < 64)%nat ->
            nth i std_chrominance_quant_tbl 0 = nth i std_chrominance_quant_tbl 1)
    by (intros i Hi; apply nth_indep; simpl; lia).
  split; [rewrite nth_list_set_neq by lia; apply nth_list_set_eq; lia|].
  split; [apply nth_list_set_eq; rewrite list_set_length; lia|].
  split; [rewrite !nth_list_set_neq by lia; reflexivity|].
  split; [rewrite !nth_list_set_neq by lia; reflexivity|].
  split; [|split].
  - intros i Hi. rewrite (Hent0 i Hi), (Hent1 i Hi), Elum, Echr by exact Hi.
    destruct (std_quant_tbl_entries i) as [Bl Bc].
    split; apply scaled_std_entry; assumption.
  - intro H50. subst q. change s with 100 in *.
    split; apply nth_ext with (d := 0) (d' := 1);
      try (rewrite ?Hlen0, ?Hlen1; reflexivity);
      intros i Hi; rewrite ?Hlen0, ?Hlen1 in Hi;
      change (Z.to_nat DCTSIZE2) with 64%nat in Hi;
      destruct (std_quant_tbl_entries i) as [Bl Bc].
    + rewrite (Hent0 i Hi), Elum by exact Hi.
      apply scaled_std_entry; auto.
    + rewrite (Hent1 i Hi), Echr by exact Hi.
      apply scaled_std_entry; auto.
  - intro H100.
    assert (E0 : s = 0) by (apply jpeg_quality_scaling_at_100; exact H100).
    split; apply nth_ext with (d := 0) (d' := 1);
      try (rewrite ?Hlen0, ?Hlen1; reflexivity);
      intros i Hi; rewrite ?Hlen0, ?Hlen1 in Hi;
      change (Z.to_nat DCTSIZE2) with 64%nat in Hi;
      rewrite nth_repeat;
      destruct (std_quant_tbl_entries i) as [Bl Bc].
    + rewrite (Hent0 i Hi), Elum by exact Hi.
      apply scaled_std_entry; auto.
    + rewrite (Hent1 i Hi), Echr by exact Hi.
      apply scaled_std_entry; auto.
Qed.

Lemma jpeg_set_quality_installs_standard_tables_witness :
  exists cinfo' lum chr,
    jpeg_set_quality examples.ex_params 50 true = Returned cinfo' /\
    nth 0 (quant_tbl_ptrs cinfo') None = Some lum /\
    nth 1 (quant_tbl_ptrs cinfo') None = Some chr /\
    quantval lum = std_luminance_quant_tbl /\
    quantval chr = std_chrominance_quant_tbl.
Proof.
  destruct (jpeg_set_quality_installs_standard_tables examples.ex_params 50 true)
    as (c' & lum & chr & Hrun & H0 & H1 & _ & _ & _ & H50 & _).
  - reflexivity.
  - reflexivity.
  - simpl. intros t [H|[H|[H|[H|[]]]]]; discriminate.
  - exists c', lum, chr. destruct (H50 eq_refl) as [Hl Hc]. auto.
Defined.

End quality_properties.
(** ** The value bits of a coefficient (jchuff.c, jdhuff.c) *)

Section value_bits_properties.
Import jchuff jdhuff_mcu.

Lemma bmask_pow2 s : 0 <= s <= 15 -> nth (Z.to_nat s) jdhuff.bmask 0 = 2 ^ s - 1.
Proof.
  intro H. change (nth (Z.to_nat s) jdhuff.bmask 0) with (jdhuff.BIT_MASK s).
  rewrite BIT_MASK_ones by exact H. rewrite Z.ones_equiv. lia.
Qed.

Lemma log2_bounds t : 1 <= t -> 2 ^ Z.log2 t <= t < 2 ^ (Z.log2 t + 1).
Proof.
  intro H. pose proof (Z.log2_spec t ltac:(lia)) as L.
  replace (Z.succ (Z.log2 t)) with (Z.log2 t + 1) in L by lia. exact L.
Qed.

Lemma HUFF_EXTEND_cases r s :
  1 <= s <= 15 -> 0 <= r < 2 ^ s ->
  HUFF_EXTEND r s = if r <? 2 ^ (s - 1) then r - (2 ^ s - 1) else r.
Proof.
  intros Hs Hr. unfold HUFF_EXTEND.
  rewrite (bmask_pow2 (s - 1)), (bmask_pow2 s) by lia.
  assert (0 < 2 ^ (s - 1)) by (apply Z.pow_pos_nonneg; lia).
  assert (2 ^ s <= 2 ^ 15) by (apply Z.pow_le_mono_r; lia).
  destruct (r <? 2 ^ (s - 1)) eqn:E.
  - replace (r <=? 2 ^ (s - 1) - 1) with true by lia.
    apply to_JINT_small. lia.
  - replace (r <=? 2 ^ (s - 1) - 1) with false by lia. reflexivity.
Qed.

(** X6.  The decoder's [HUFF_EXTEND] undoes the encoder's value bits.
    For a nonzero coefficient v of fewer than 16 bits the encoder counts
    nbits = the number of significant bits of |v| and hands [emit_bits_s]
    v itself, or v - 1 when v is negative; only the low nbits bits of
    that go out, and [HUFF_EXTEND] applied to them with s = nbits gives v
    back.  Conversely what [HUFF_EXTEND r s] yields always has exactly s
    significant bits. *)
Theorem HUFF_EXTEND_inverts_value_bits :
  (forall v, v <> 0 -> - 2 ^ 15 < v < 2 ^ 15 ->
     let temp := if v <? 0 then to_JINT (- v) else v in
     let temp2 := if v <? 0 then to_JINT (v - 1) else v in
     exists nbits,
       count_bits_ac temp 1 = Returned nbits /\
       count_bits temp 0 = Returned nbits /\
       1 <= nbits <= 15 /\
       (forall st, emit_bits_s st (to_JUINT temp2) nbits =
                   emit_bits_s st (to_JUINT temp2 mod 2 ^ nbits) nbits) /\
       HUFF_EXTEND (to_JUINT temp2 mod 2 ^ nbits) nbits = v) /\
  (forall r s, 1 <= s <= 15 -> 0 <= r < 2 ^ s ->
     2 ^ (s - 1) <= Z.abs (HUFF_EXTEND r s) < 2 ^ s).
Proof.
  split.
  - intros v Hv Hr temp temp2.
    assert (Et : temp = Z.abs v).
    { unfold temp. destruct (v <? 0) eqn:E; [rewrite to_JINT_small|]; lia. }
    assert (Et2 : temp2 = if v <? 0 then v - 1 else v).
    { unfold temp2. destruct (v <? 0) eqn:E; [apply to_JINT_small|]; lia. }
    rewrite Et. clearbody temp temp2. subst temp temp2.
    assert (Ha : 1 <= Z.abs v) by lia.
    pose proof (log2_bounds _ Ha) as [Lo Hi].
    pose proof (Z.log2_nonneg (Z.abs v)) as L0.
    assert (L15 : Z.log2 (Z.abs v) < 15) by (apply Z.log2_lt_pow2; lia).
    exists (1 + Z.log2 (Z.abs v)).
    split; [apply count_bits_ac_log2; exact Ha|].
    split.
    { rewrite (count_bits_nbits_of v). unfold block_spec.nbits_of.
      replace (v =? 0) with false by lia. f_equal. lia. }
    split; [lia|].
    set (s := 1 + Z.log2 (Z.abs v)) in *.
    replace (Z.log2 (Z.abs v) + 1) with s in Hi by lia.
    replace (Z.log2 (Z.abs v)) with (s - 1) in Lo by lia.
    assert (Hs : 1 <= s <= 15) by lia.
    assert (P : 0 < 2 ^ s) by (apply Z.pow_pos_nonneg; lia).
    assert (E2 : 2 ^ s = 2 * 2 ^ (s - 1)).
    { rewrite <- Z.pow_succ_r by lia. f_equal. lia. }
    split.
    { intro st. apply emit_bits_s_masks; [lia|].
      rewrite Z.mod_mod by lia. reflexivity. }
    unfold to_JUINT. rewrite wrap_u_low_bits by lia.
    rewrite HUFF_EXTEND_cases by (try apply Z.mod_pos_bound; lia).
    destruct (v <? 0) eqn:E.
    + assert (M : (v - 1) mod 2 ^ s = v - 1 + 2 ^ s).
      { symmetry. apply Z.mod_unique with (q := -1); lia. }
      rewrite M. replace (v - 1 + 2 ^ s <? 2 ^ (s - 1)) with true by lia. lia.
    + rewrite Z.mod_small by lia.
      replace (v <? 2 ^ (s - 1)) with false by lia. reflexivity.
  - intros r s Hs Hr. rewrite HUFF_EXTEND_cases by assumption.
    assert (0 < 2 ^ (s - 1)) by (apply Z.pow_pos_nonneg; lia).
    assert (E2 : 2 ^ s = 2 * 2 ^ (s - 1)).
    { rewrite <- Z.pow_succ_r by lia. f_equal. lia. }
    destruct (r <? 2 ^ (s - 1)) eqn:E; lia.
Qed.

Lemma HUFF_EXTEND_inverts_value_bits_witness :
  (exists nbits,
     count_bits_ac (to_JINT (- -5)) 1 = Returned nbits /\
     count_bits (to_JINT (- -5)) 0 = Returned nbits /\
     1 <= nbits <= 15 /\
     (forall st, emit_bits_s st (to_JUINT (to_JINT (-5 - 1))) nbits =
                 emit_bits_s st (to_JUINT (to_JINT (-5 - 1)) mod 2 ^ nbits)
                   nbits) /\
     HUFF_EXTEND (to_JUINT (to_JINT (-5 - 1)) mod 2 ^ nbits) nbits = -5) /\
  2 ^ (3 - 1) <= Z.abs (HUFF_EXTEND 2 3) < 2 ^ 3.
Proof.
  split.
  - apply (proj1 HUFF_EXTEND_inverts_value_bits (-5)); lia.
  - apply (proj2 HUFF_EXTEND_inverts_value_bits 2 3); simpl; lia.
Defined.

End value_bits_properties.
(** ** The bit stream the encoder writes (jchuff.c) *)

Section encoder_bitstream_properties.
Import jchuff props bitstream_spec.

Lemma pow2_pos n : 0 <= n -> 0 < 2 ^ n.
Proof. intro H. apply Z.pow_pos_nonneg; lia. Qed.

Lemma pow2_split a b : 0 <= a -> 0 <= b -> 2 ^ (a + b) = 2 ^ a * 2 ^ b.
Proof. intros. apply Z.pow_add_r; assumption. Qed.

Lemma mod_pow2_le a n m : 0 <= n <= m -> (a mod 2 ^ m) mod 2 ^ n = a mod 2 ^ n.
Proof. intro H. apply Z.mod_mod_divide, pow2_divide. exact H. Qed.

(* OR is addition when the operands share no bit. *)
Lemma lor_disjoint a b k :
  0 <= k -> 0 <= a < 2 ^ k -> b mod 2 ^ k = 0 -> Z.lor a b = a + b.
Proof.
  intros Hk Ha Hb.
  assert (L : Z.land a b = 0).
  { apply Z.bits_inj'. intros i Hi. rewrite Z.land_spec, Z.bits_0.
    destruct (Z_lt_ge_dec i k) as [Lt|Ge].
    - rewrite <- (Z.mod_pow2_bits_low b k i) by lia.
      rewrite Hb, Z.bits_0. apply andb_false_r.
    - rewrite <- (Z.mod_small a (2 ^ k)) by lia.
      rewrite Z.mod_pow2_bits_high by lia. reflexivity. }
  rewrite <- Z.lxor_lor by exact L. symmetry. apply Z.add_nocarry_lxor. exact L.
Qed.

Lemma bytes_value_app D1 D2 :
  bytes_value (D1 ++ D2)
    = bytes_value D1 * 256 ^ Z.of_nat (length D2) + bytes_value D2.
Proof.
  induction D1 as [|b D1 IH]; simpl bytes_value; [lia|].
  rewrite IH, length_app, Nat2Z.inj_add, Z.pow_add_r by lia. ring.
Qed.

Lemma bytes_value_range D :
  Forall is_byte D -> 0 <= bytes_value D < 256 ^ Z.of_nat (length D).
Proof.
  induction 1 as [|b D Hb _ IH]; simpl bytes_value; simpl length; [lia|].
  rewrite Nat2Z.inj_succ, Z.pow_succ_r by lia. unfold is_byte in Hb.
  assert (0 < 256 ^ Z.of_nat (length D)) by (apply Z.pow_pos_nonneg; lia).
  nia.
Qed.

Lemma pow256 n : 0 <= n -> 256 ^ n = 2 ^ (8 * n).
Proof.
  intro H. change 256 with (2 ^ 8). rewrite <- Z.pow_mul_r by lia. reflexivity.
Qed.

Lemma stuff_app D1 D2 : stuff (D1 ++ D2) = stuff D1 ++ stuff D2.
Proof.
  induction D1 as [|b D1 IH]; simpl; [reflexivity|].
  destruct (b =? 255); simpl; rewrite IH; reflexivity.
Qed.

(* The byte that leaves the register is the top one of its right 24 bits. *)
Lemma top_byte_value pb :
  to_JINT (Z.land (Z.shiftr pb 16) 0xFF) = (pb mod 2 ^ 24) / 2 ^ 16.
Proof.
  pose proof (top_byte_range pb) as R.
  change 0xFF with (Z.ones 8) in *. rewrite Z.land_ones in * by lia.
  rewrite Z.shiftr_div_pow2 in * by lia.
  rewrite to_JINT_small
    by (pose proof (Z.mod_pos_bound (pb / 2 ^ 16) (2 ^ 8) eq_refl);
        change (2 ^ 8) with 256 in *; change (2 ^ 31) with 2147483648; lia).
  change (2 ^ 24) with (2 ^ 16 * 2 ^ 8).
  rewrite Z.rem_mul_r by lia.
  rewrite (Z.mul_comm (2 ^ 16)), Z.div_add by lia.
  rewrite (Z.div_small (pb mod 2 ^ 16))
    by (apply Z.mod_pos_bound; reflexivity).
  reflexivity.
Qed.

Lemma spill_byte_exact st pb st1 :
  ws_room st -> spill_byte st pb = Done st1 ->
  grows st st1 (stuff [(pb mod 2 ^ 24) / 2 ^ 16]) /\ ws_room st1 /\
  cur st1 = cur st /\ is_byte ((pb mod 2 ^ 24) / 2 ^ 16).
Proof.
  intros R. unfold spill_byte. rewrite top_byte_value.
  assert (Hc : 0 <= (pb mod 2 ^ 24) / 2 ^ 16 < 256).
  { rewrite <- top_byte_value. apply top_byte_range. }
  set (c := (pb mod 2 ^ 24) / 2 ^ 16) in *.
  pose proof (emit_byte_s_spec st c R) as H1.
  destruct (emit_byte_s st c) as [s1 b1] eqn:E1.
  destruct H1 as (G1 & F1 & S1 & C1).
  rewrite to_JOCTET_small in G1 by exact Hc.
  destruct b1; [discriminate|].
  assert (R1 : ws_room s1) by (eapply emit_byte_s_room; eauto).
  cbn [stuff]. destruct (c =? 255) eqn:Ec.
  - apply Z.eqb_eq in Ec.
    pose proof (emit_byte_s_spec s1 0 R1) as H2.
    destruct (emit_byte_s s1 0) as [s2 b2] eqn:E2.
    destruct H2 as (G2 & F2 & S2 & C2).
    change (to_JOCTET 0) with 0 in G2.
    destruct b2; [discriminate|]. intro H. injection H as <-.
    split; [|split; [|split]].
    + rewrite Ec in G1. exact (grows_trans _ _ _ _ _ G1 G2).
    + eapply emit_byte_s_room; eauto.
    + congruence.
    + exact Hc.
  - intro H. injection H as <-. auto.
Qed.

Lemma spill_arith pb bits :
  8 <= bits <= 23 -> pb mod 2 ^ (24 - bits) = 0 ->
  (pb mod 2 ^ 24) / 2 ^ 16 * 2 ^ (bits - 8)
    + (to_INT32 (Z.shiftl pb 8) mod 2 ^ 24) / 2 ^ (24 - (bits - 8))
  = (pb mod 2 ^ 24) / 2 ^ (24 - bits).
Proof.
  intros Hb Hz. unfold to_INT32. rewrite wrap_s_low_bits by lia.
  rewrite Z.shiftl_mul_pow2 by lia.
  set (e := 24 - bits) in *. set (d := bits - 8).
  assert (He : 0 <= e) by lia. assert (Hd : 0 <= d) by lia.
  pose proof (pow2_pos e He) as Pe. pose proof (pow2_pos d Hd) as Pd.
  assert (E16 : 2 ^ 16 = 2 ^ d * 2 ^ e)
    by (rewrite <- pow2_split by lia; f_equal; lia).
  assert (E24 : 2 ^ 24 = 2 ^ 16 * 2 ^ 8) by reflexivity.
  assert (Ex : (pb mod 2 ^ 24) mod 2 ^ e = 0)
    by (rewrite mod_pow2_le by lia; exact Hz).
  set (x := pb mod 2 ^ 24) in *.
  assert (EW : x = x / 2 ^ e * 2 ^ e).
  { pose proof (Z.div_mod x (2 ^ e) ltac:(lia)). lia. }
  set (W := x / 2 ^ e) in *.
  replace (24 - d) with (e + 8) by lia.
  assert (E1 : x / 2 ^ 16 = W / 2 ^ d).
  { rewrite EW, E16. apply Z.div_mul_cancel_r; lia. }
  assert (E2 : (pb * 2 ^ 8) mod 2 ^ 24 = (W mod 2 ^ d) * 2 ^ (e + 8)).
  { rewrite E24, Z.mul_mod_distr_r by lia.
    replace (pb mod 2 ^ 16) with (x mod 2 ^ 16)
      by (unfold x; apply mod_pow2_le; lia).
    rewrite EW at 1. rewrite E16, Z.mul_mod_distr_r by lia.
    rewrite pow2_split by lia. ring. }
  rewrite E1, E2, Z.div_mul by (pose proof (pow2_pos (e + 8)); lia).
  pose proof (Z.div_mod W (2 ^ d) ltac:(lia)). lia.
Qed.

Lemma emit_bits_loop_exact st pb bits :
  ws_room st -> 0 <= bits <= 23 -> pb mod 2 ^ (24 - bits) = 0 ->
  forall st', emit_bits_loop st pb bits = Done st' ->
  exists D,
    grows st st' (stuff D) /\ Forall is_byte D /\ ws_room st' /\
    bit_buffer_ok (cur st') /\
    Z.of_nat (length D) = bits / 8 /\
    put_bits (cur st') = bits mod 8 /\
    bytes_value D * 2 ^ (bits mod 8) + pending (cur st')
      = (pb mod 2 ^ 24) / 2 ^ (24 - bits) /\
    last_dc_val (cur st') = last_dc_val (cur st).
Proof.
  funelim (emit_bits_loop st pb bits); intros R Hb Hz st' Hrun.
  - injection Hrun as <-. exists [].
    rewrite Z.mod_small, Z.div_small by lia.
    split; [apply grows_set_cur, grows_refl|].
    split; [constructor|]. split; [apply ws_room_set_cur; exact R|].
    unfold bit_buffer_ok, pending. cbn.
    repeat split; auto; lia.
  - destruct (spill_byte_exact _ _ _ R Heq) as (G1 & R1 & C1 & B1).
    assert (Hz' : to_INT32 (Z.shiftl pb 8) mod 2 ^ (24 - (bits - 8)) = 0).
    { unfold to_INT32. rewrite wrap_s_low_bits by lia.
      rewrite Z.shiftl_mul_pow2 by lia.
      replace (24 - (bits - 8)) with ((24 - bits) + 8) by lia.
      rewrite pow2_split, Z.mul_mod_distr_r, Hz by (try apply pow2_pos; lia).
      reflexivity. }
    destruct (H R1 ltac:(lia) Hz' st' Hrun)
      as (D & G & F & R' & Ok & Len & Pb & Val & Dc).
    exists (((pb mod 2 ^ 24) / 2 ^ 16) :: D).
    assert (Em : (bits - 8) mod 8 = bits mod 8).
    { replace bits with ((bits - 8) + 1 * 8) at 2 by lia.
      rewrite Z.mod_add by lia. reflexivity. }
    assert (Ed : (bits - 8) / 8 = bits / 8 - 1).
    { replace bits with ((bits - 8) + 1 * 8) at 2 by lia.
      rewrite Z.div_add by lia. lia. }
    split.
    { change (?c :: D) with ([c] ++ D). rewrite stuff_app.
      exact (grows_trans _ _ _ _ _ G1 G). }
    split; [constructor; assumption|]. split; [exact R'|].
    split; [exact Ok|].
    split; [simpl length; lia|]. split; [congruence|].
    split; [|congruence].
    rewrite <- (spill_arith pb bits) by lia.
    rewrite <- Val, Em. cbn [bytes_value].
    rewrite pow256, Len, Ed by lia.
    replace (2 ^ (bits - 8)) with (2 ^ (8 * (bits / 8 - 1)) * 2 ^ (bits mod 8)).
    + ring.
    + rewrite <- pow2_split.
      * f_equal. pose proof (Z.div_mod bits 8 ltac:(lia)). lia.
      * pose proof (Z.div_le_lower_bound bits 8 1 ltac:(lia) ltac:(lia)). lia.
      * apply Z.mod_pos_bound. lia.
  - discriminate.
Qed.

Lemma emit_mask_value c size :
  0 < size < 31 ->
  Z.land (to_INT32 c) (to_INT32 (to_INT32 (Z.shiftl 1 size) - 1))
    = c mod 2 ^ size.
Proof.
  intro Hs. rewrite Z.shiftl_1_l.
  assert (0 < 2 ^ size < 2 ^ 31)
    by (split; [apply Z.pow_pos_nonneg|apply Z.pow_lt_mono_r]; lia).
  unfold to_INT32. rewrite (wrap_s_small 32 (2 ^ size)) by lia.
  rewrite (wrap_s_small 32 (2 ^ size - 1)) by lia.
  replace (2 ^ size - 1) with (Z.ones size) by (rewrite Z.ones_equiv; lia).
  rewrite Z.land_ones by lia. apply wrap_s_low_bits. lia.
Qed.

(* The register after the new bits are shifted in below the waiting ones. *)
Lemma merge_arith old cm P size :
  0 <= P < 8 -> 1 <= size <= 16 -> 0 <= cm < 2 ^ size ->
  old mod 2 ^ (24 - P) = 0 ->
  let pb := Z.lor (to_INT32 (Z.shiftl cm (24 - (size + P)))) old in
  pb mod 2 ^ (24 - (size + P)) = 0 /\
  (pb mod 2 ^ 24) / 2 ^ (24 - (size + P))
    = (old mod 2 ^ 24) / 2 ^ (24 - P) * 2 ^ size + cm.
Proof.
  intros HP Hs Hc Hz pb.
  set (k := 24 - (size + P)) in *.
  assert (Hk : 0 <= k) by lia.
  pose proof (pow2_pos k Hk) as Pk.
  pose proof (pow2_pos size ltac:(lia)) as Ps.
  pose proof (pow2_pos P ltac:(lia)) as PP.
  assert (Ek : 2 ^ (24 - P) = 2 ^ size * 2 ^ k)
    by (rewrite <- pow2_split by lia; f_equal; lia).
  assert (E24 : 2 ^ 24 = 2 ^ size * 2 ^ P * 2 ^ k).
  { rewrite <- !pow2_split by lia. f_equal. lia. }
  assert (Ha : 0 <= cm * 2 ^ k < 2 ^ (24 - P)) by (rewrite Ek; nia).
  assert (Hle : 2 ^ (24 - P) <= 2 ^ 24) by (apply Z.pow_le_mono_r; lia).
  assert (Epb : pb = cm * 2 ^ k + old).
  { unfold pb. rewrite Z.shiftl_mul_pow2 by lia. unfold to_INT32.
    rewrite wrap_s_small
      by (change (2 ^ (32 - 1)) with (128 * 2 ^ 24); lia).
    apply lor_disjoint with (k := 24 - P); [lia|exact Ha|exact Hz]. }
  assert (Eo : old = old / 2 ^ (24 - P) * 2 ^ (24 - P)).
  { pose proof (Z.div_mod old (2 ^ (24 - P)) ltac:(lia)). lia. }
  set (q := old / 2 ^ (24 - P)) in *.
  assert (Ex : pb = (cm + q * 2 ^ size) * 2 ^ k)
    by (rewrite Epb, Eo, Ek; ring).
  split.
  - rewrite Ex. apply Z.mod_mul. lia.
  - rewrite Ex. replace (2 ^ 24) with ((2 ^ size * 2 ^ P) * 2 ^ k) by lia.
    rewrite Z.mul_mod_distr_r, Z.div_mul by lia.
    rewrite Z.rem_mul_r by lia.
    rewrite Z.mod_add, Z.div_add, (Z.mod_small cm), (Z.div_small cm) by lia.
    rewrite Eo, Ek.
    replace (q * (2 ^ size * 2 ^ k)) with (q * (2 ^ size * 2 ^ k) + 0) by lia.
    replace (2 ^ size * 2 ^ P * 2 ^ k) with (2 ^ P * (2 ^ size * 2 ^ k)) by ring.
    replace (q * (2 ^ size * 2 ^ k) + 0) with (q * (2 ^ size * 2 ^ k)) by lia.
    rewrite Z.mul_mod_distr_r, Z.div_mul by lia. rewrite Z.add_0_l. ring.
Qed.

Lemma emit_bits_s_exact st code size st' :
  ws_room st -> bit_buffer_ok (cur st) -> 1 <= size <= 16 ->
  emit_bits_s st code size = Returned (Done st') ->
  exists D,
    grows st st' (stuff D) /\ Forall is_byte D /\ ws_room st' /\
    bit_buffer_ok (cur st') /\
    Z.of_nat (length D) = (put_bits (cur st) + size) / 8 /\
    put_bits (cur st') = (put_bits (cur st) + size) mod 8 /\
    bytes_value D * 2 ^ put_bits (cur st') + pending (cur st')
      = pending (cur st) * 2 ^ size + code mod 2 ^ size /\
    last_dc_val (cur st') = last_dc_val (cur st).
Proof.
  intros R [HP Hz] Hs Hrun. unfold emit_bits_s, JSC_ASSERT in Hrun.
  replace (size =? 0) with false in Hrun by lia. cbn [negb] in Hrun.
  apply Returned_inj in Hrun.
  rewrite emit_mask_value in Hrun by lia.
  rewrite (to_JINT_small (size + put_bits (cur st))) in Hrun
    by (change (2 ^ 31) with 2147483648; lia).
  pose proof (Z.mod_pos_bound code (2 ^ size) (pow2_pos size ltac:(lia))) as Hc.
  destruct (merge_arith (put_buffer (cur st)) (code mod 2 ^ size)
              (put_bits (cur st)) size HP Hs Hc Hz) as [Z0 V].
  assert (Hb : 0 <= size + put_bits (cur st) <= 23) by lia.
  destruct (emit_bits_loop_exact _ _ _ R Hb Z0 st' Hrun)
    as (D & G & F & R' & Ok & Len & Pb & Val & Dc).
  exists D. replace (put_bits (cur st) + size) with (size + put_bits (cur st))
    by lia.
  rewrite Pb. unfold pending at 2. rewrite <- V.
  split; [exact G|]. split; [exact F|]. split; [exact R'|].
  split; [exact Ok|]. split; [exact Len|]. split; [reflexivity|].
  split; [exact Val|exact Dc].
Qed.

Lemma codes_length_nonneg cs :
  Forall (fun c => 1 <= snd c <= 16) cs -> 0 <= codes_length cs.
Proof.
  induction 1 as [|[c s] cs Hs _ IH]; simpl in *; lia.
Qed.

Lemma emit_codes_exact cs : forall st st',
  ws_room st -> bit_buffer_ok (cur st) ->
  Forall (fun c => 1 <= snd c <= 16) cs ->
  emit_codes st cs = Returned (Done st') ->
  exists D,
    grows st st' (stuff D) /\ Forall is_byte D /\ ws_room st' /\
    bit_buffer_ok (cur st') /\
    8 * Z.of_nat (length D) + put_bits (cur st')
      = put_bits (cur st) + codes_length cs /\
    bytes_value D * 2 ^ put_bits (cur st') + pending (cur st')
      = pending (cur st) * 2 ^ codes_length cs + codes_value cs /\
    last_dc_val (cur st') = last_dc_val (cur st).
Proof.
  induction cs as [|[code size] cs IH]; intros st st' R Ok Hcs Hrun.
  - cbn in Hrun. apply Returned_inj in Hrun. injection Hrun as <-.
    exists []. cbn [stuff length bytes_value codes_length codes_value].
    split; [apply grows_refl|]. split; [constructor|].
    split; [exact R|]. split; [exact Ok|]. split; [lia|].
    split; [|reflexivity]. rewrite Z.pow_0_r. lia.
  - inversion Hcs as [|x l Hs Hrest]; subst. cbn [snd] in Hs.
    cbn [emit_codes] in Hrun.
    destruct (emit_bits_s st code size) as [[st1|?]| |] eqn:E1;
      try discriminate.
    cbn [and_then] in Hrun.
    destruct (emit_bits_s_exact _ _ _ _ R Ok Hs E1)
      as (D1 & G1 & F1 & R1 & Ok1 & Len1 & Pb1 & Val1 & Dc1).
    destruct (IH st1 st' R1 Ok1 Hrest Hrun)
      as (D2 & G2 & F2 & R2 & Ok2 & Len2 & Val2 & Dc2).
    exists (D1 ++ D2).
    pose proof (codes_length_nonneg cs Hrest) as L0.
    assert (Len : 8 * Z.of_nat (length (D1 ++ D2)) + put_bits (cur st')
                  = put_bits (cur st) + codes_length ((code, size) :: cs)).
    { rewrite length_app, Nat2Z.inj_add. cbn [codes_length].
      pose proof (Z.div_mod (put_bits (cur st) + size) 8 ltac:(lia)). lia. }
    split; [rewrite stuff_app; exact (grows_trans _ _ _ _ _ G1 G2)|].
    split; [apply Forall_app; split; assumption|].
    split; [exact R2|]. split; [exact Ok2|]. split; [exact Len|].
    split; [|congruence].
    rewrite bytes_value_app. cbn [codes_length codes_value].
    rewrite pow256 by lia.
    destruct Ok2 as [HP2 _]. destruct Ok1 as [HP1 _].
    assert (E : 2 ^ (8 * Z.of_nat (length D2)) * 2 ^ put_bits (cur st')
                = 2 ^ put_bits (cur st1) * 2 ^ codes_length cs).
    { rewrite <- !pow2_split by lia. f_equal. lia. }
    rewrite (pow2_split size) by lia.
    transitivity
      ((bytes_value D1 * 2 ^ put_bits (cur st1) + pending (cur st1))
         * 2 ^ codes_length cs + codes_value cs).
    + rewrite Z.mul_add_distr_r, <- Z.add_assoc, Val2, <- Z.mul_assoc, E.
      ring.
    + rewrite Val1. ring.
Qed.

Lemma pending_range s :
  bit_buffer_ok s -> 0 <= pending s < 2 ^ put_bits s.
Proof.
  intros [HP _]. unfold pending.
  pose proof (Z.mod_pos_bound (put_buffer s) (2 ^ 24) eq_refl) as M.
  pose proof (pow2_pos (24 - put_bits s) ltac:(lia)) as P.
  split; [apply Z.div_pos; lia|].
  apply Z.div_lt_upper_bound; [lia|].
  rewrite <- pow2_split by lia.
  replace (24 - put_bits s + put_bits s) with 24 by lia. lia.
Qed.

Lemma flush_bits_s_exact st st' :
  ws_room st -> bit_buffer_ok (cur st) ->
  flush_bits_s st = Returned (Done st') ->
  exists D,
    grows st st' (stuff D) /\ Forall is_byte D /\ ws_room st' /\
    put_bits (cur st') = 0 /\ put_buffer (cur st') = 0 /\
    last_dc_val (cur st') = last_dc_val (cur st) /\
    8 * Z.of_nat (length D)
      = put_bits (cur st) + pad_bits (put_bits (cur st)) /\
    bytes_value D
      = pending (cur st) * 2 ^ pad_bits (put_bits (cur st))
        + (2 ^ pad_bits (put_bits (cur st)) - 1).
Proof.
  intros R Ok Hrun. unfold flush_bits_s in Hrun.
  destruct (emit_bits_s st 127 7) as [[st1|?]| |] eqn:E1; try discriminate.
  cbn [and_then] in Hrun. apply Returned_inj in Hrun. injection Hrun as <-.
  destruct (emit_bits_s_exact st 127 7 st1 R Ok ltac:(lia) E1)
    as (D & G & F & R1 & Ok1 & Len & Pb & Val & Dc).
  pose proof (pending_range _ Ok) as V0.
  pose proof (pending_range _ Ok1) as V1.
  destruct Ok as [HP _].
  exists D. split; [apply grows_set_cur; exact G|].
  split; [exact F|]. split; [apply ws_room_set_cur; exact R1|].
  cbn [cur set_cur put_bits put_buffer last_dc_val].
  split; [reflexivity|]. split; [reflexivity|]. split; [exact Dc|].
  change (127 mod 2 ^ 7) with 127 in Val. change (2 ^ 7) with 128 in Val.
  unfold pad_bits.
  destruct (Z.eq_dec (put_bits (cur st)) 0) as [E0|N0].
  - rewrite E0 in *. change ((0 + 7) / 8) with 0 in Len.
    change ((8 - 0) mod 8) with 0.
    destruct D; [|simpl in Len; lia]. cbn. split; lia.
  - assert (Ed : (put_bits (cur st) + 7) / 8 = 1).
    { symmetry. apply Z.div_unique with (r := put_bits (cur st) - 1); lia. }
    assert (Em : (put_bits (cur st) + 7) mod 8 = put_bits (cur st) - 1).
    { symmetry. apply Z.mod_unique with (q := 1); lia. }
    assert (Ep : (8 - put_bits (cur st)) mod 8 = 8 - put_bits (cur st))
      by (apply Z.mod_small; lia).
    rewrite Ed in Len. rewrite Em in Pb. rewrite Ep.
    split; [lia|]. rewrite Pb in Val, V1.
    set (P := put_bits (cur st)) in *.
    pose proof (pow2_pos (P - 1) ltac:(lia)) as P1.
    pose proof (pow2_pos (8 - P) ltac:(lia)) as P2.
    assert (E128 : 128 = 2 ^ (8 - P) * 2 ^ (P - 1)).
    { rewrite <- pow2_split by lia. replace (8 - P + (P - 1)) with 7 by lia.
      reflexivity. }
    set (a := 2 ^ (8 - P)) in *. set (b := 2 ^ (P - 1)) in *.
    set (V := pending (cur st)) in *. set (V' := pending (cur st1)) in *.
    set (B := bytes_value D) in *. clearbody a b V V' B. nia.
Qed.

Lemma reset_last_dc_nth n : forall ci dc i,
  nth i (reset_last_dc n ci dc) 0
    = if (Nat.leb ci i && Nat.ltb i (ci + n))%bool then 0 else nth i dc 0.
Proof.
  induction n as [|n IH]; intros ci dc i; cbn [reset_last_dc].
  - replace (Nat.leb ci i && Nat.ltb i (ci + 0))%bool with false; [reflexivity|].
    symmetry. apply andb_false_iff.
    destruct (Nat.leb ci i) eqn:E; [right|left; reflexivity].
    apply Nat.leb_le in E. apply Nat.ltb_ge. lia.
  - rewrite IH.
    destruct (Nat.leb (S ci) i && Nat.ltb i (S ci + n))%bool eqn:E1.
    + apply andb_true_iff in E1. destruct E1 as [A B].
      apply Nat.leb_le in A. apply Nat.ltb_lt in B.
      replace (Nat.leb ci i && Nat.ltb i (ci + S n))%bool with true;
        [reflexivity|].
      symmetry. apply andb_true_iff. split;
        [apply Nat.leb_le|apply Nat.ltb_lt]; lia.
    + destruct (Nat.eq_dec i ci) as [->|Ne].
      * replace (Nat.leb ci ci && Nat.ltb ci (ci + S n))%bool with true.
        2:{ symmetry. apply andb_true_iff. split;
              [apply Nat.leb_le|apply Nat.ltb_lt]; lia. }
        destruct (Nat.lt_ge_cases ci (length dc)) as [Lt|Ge].
        -- apply nth_list_set_eq. exact Lt.
        -- rewrite nth_overflow; [reflexivity|].
           rewrite list_set_length. exact Ge.
      * rewrite nth_list_set_neq by lia.
        replace (Nat.leb ci i && Nat.ltb i (ci + S n))%bool with false;
          [reflexivity|].
        symmetry. apply andb_false_iff. apply andb_false_iff in E1.
        destruct E1 as [A|B].
        -- apply Nat.leb_gt in A. left. apply Nat.leb_gt. lia.
        -- apply Nat.ltb_ge in B. right. apply Nat.ltb_ge. lia.
Qed.

Lemma emit_restart_s_exact st n st' :
  0 <= n <= 7 -> ws_room st -> bit_buffer_ok (cur st) ->
  emit_restart_s st n = Returned (Done st') ->
  exists D,
    grows st st' (stuff D ++ [0xFF; 0xD0 + n]) /\ Forall is_byte D /\
    ws_room st' /\
    put_bits (cur st') = 0 /\ put_buffer (cur st') = 0 /\
    last_dc_val (cur st')
      = reset_last_dc (Z.to_nat (comps_in_scan (cinfo st))) 0
          (last_dc_val (cur st)) /\
    8 * Z.of_nat (length D)
      = put_bits (cur st) + pad_bits (put_bits (cur st)) /\
    bytes_value D
      = pending (cur st) * 2 ^ pad_bits (put_bits (cur st))
        + (2 ^ pad_bits (put_bits (cur st)) - 1).
Proof.
  intros Hn R Ok Hrun. unfold emit_restart_s in Hrun.
  destruct (flush_bits_s st) as [[st1|?]| |] eqn:E1; try discriminate.
  cbn [and_then] in Hrun.
  destruct (flush_bits_s_exact _ _ R Ok E1)
    as (D & G & F & R1 & Pb & Pv & Dc & Len & Val).
  pose proof (emit_byte_s_spec st1 255 R1) as H1.
  destruct (emit_byte_s st1 255) as [s2 b2] eqn:E2.
  destruct H1 as (G2 & _ & _ & C2). change (to_JOCTET 255) with 255 in G2.
  destruct b2; [discriminate|].
  assert (R2 : ws_room s2) by (eapply emit_byte_s_room; eauto).
  assert (Hm : to_JINT (JPEG_RST0 + n) = 208 + n).
  { unfold JPEG_RST0. apply to_JINT_small.
    change (2 ^ 31) with 2147483648. lia. }
  rewrite Hm in Hrun.
  pose proof (emit_byte_s_spec s2 (208 + n) R2) as H3.
  destruct (emit_byte_s s2 (208 + n)) as [s3 b3] eqn:E3.
  destruct H3 as (G3 & _ & _ & C3).
  rewrite to_JOCTET_small in G3 by lia.
  destruct b3; [discriminate|].
  assert (R3 : ws_room s3) by (eapply emit_byte_s_room; eauto).
  apply Returned_inj in Hrun. injection Hrun as <-.
  exists D.
  assert (Ci : cinfo s3 = cinfo st).
  { destruct G as (_ & _ & _ & _ & Ca). destruct G2 as (_ & _ & _ & _ & Cb).
    destruct G3 as (_ & _ & _ & _ & Cc). congruence. }
  split.
  { apply grows_set_cur.
    change [255; 208 + n] with ([255] ++ [208 + n]).
    exact (grows_trans _ _ _ _ _ G (grows_trans _ _ _ _ _ G2 G3)). }
  split; [exact F|]. split; [apply ws_room_set_cur; exact R3|].
  cbn [cur set_cur put_bits put_buffer last_dc_val].
  rewrite C3, C2, Ci.
  split; [exact Pb|]. split; [exact Pv|]. split; [rewrite Dc; reflexivity|].
  split; [exact Len|exact Val].
Qed.

(** X7.  [emit_bits_s] appends exactly the low [size] bits of each code
    to the bit stream, most significant bit first.  After a run of calls
    that all return TRUE, the bytes written are the stuffed form of data
    bytes D, and D followed by the bits now waiting in put_buffer is the
    bits that waited before followed by the codes in order; fewer than 8
    bits wait afterwards, and the DC predictions are untouched. *)
Theorem emit_bits_s_appends_code_bits :
  forall cs st st',
    ws_room st -> bit_buffer_ok (cur st) ->
    Forall (fun c => 1 <= snd c <= 16) cs ->
    emit_codes st cs = Returned (Done st') ->
    exists D,
      grows st st' (stuff D) /\ Forall is_byte D /\ ws_room st' /\
      bit_buffer_ok (cur st') /\
      8 * Z.of_nat (length D) + put_bits (cur st')
        = put_bits (cur st) + codes_length cs /\
      bytes_value D * 2 ^ put_bits (cur st') + pending (cur st')
        = pending (cur st) * 2 ^ codes_length cs + codes_value cs /\
      last_dc_val (cur st') = last_dc_val (cur st).
Proof.
  intros cs st st'. apply emit_codes_exact.
Qed.

Lemma emit_bits_s_appends_code_bits_witness :
  exists D,
    grows ex_fresh ex_emitted (stuff D) /\ Forall is_byte D /\
    ws_room ex_emitted /\ bit_buffer_ok (cur ex_emitted) /\
    8 * Z.of_nat (length D) + put_bits (cur ex_emitted)
      = put_bits (cur ex_fresh) + codes_length ex_codes /\
    bytes_value D * 2 ^ put_bits (cur ex_emitted) + pending (cur ex_emitted)
      = pending (cur ex_fresh) * 2 ^ codes_length ex_codes
        + codes_value ex_codes /\
    last_dc_val (cur ex_emitted) = last_dc_val (cur ex_fresh).
Proof.
  apply (emit_bits_s_appends_code_bits ex_codes ex_fresh ex_emitted).
  - unfold ws_room, room, JSIZE_MAX. simpl. lia.
  - split; [simpl; lia|reflexivity].
  - repeat constructor; simpl; lia.
  - vm_compute. reflexivity.
Defined.

(** X8.  [flush_bits_s] fills the partial byte with one-bits: the data
    it writes is the waiting bits followed by as many ones as reach the
    byte boundary (nothing when no bit waits), and the bit buffer is
    empty afterwards.  [emit_restart_s] writes that, then 0xFF and
    0xD0 + restart_num, and sets the DC predictions of the scan's
    components to zero, leaving the other entries alone. *)
Theorem flush_pads_with_ones_and_restart_resets :
  (forall st st',
      ws_room st -> bit_buffer_ok (cur st) ->
      flush_bits_s st = Returned (Done st') ->
      exists D,
        grows st st' (stuff D) /\
        put_bits (cur st') = 0 /\ put_buffer (cur st') = 0 /\
        8 * Z.of_nat (length D)
          = put_bits (cur st) + pad_bits (put_bits (cur st)) /\
        bytes_value D
          = pending (cur st) * 2 ^ pad_bits (put_bits (cur st))
            + (2 ^ pad_bits (put_bits (cur st)) - 1)) /\
  (forall st n st',
      0 <= n <= 7 -> ws_room st -> bit_buffer_ok (cur st) ->
      emit_restart_s st n = Returned (Done st') ->
      exists D,
        grows st st' (stuff D ++ [0xFF; 0xD0 + n]) /\
        put_bits (cur st') = 0 /\ put_buffer (cur st') = 0 /\
        8 * Z.of_nat (length D)
          = put_bits (cur st) + pad_bits (put_bits (cur st)) /\
        bytes_value D
          = pending (cur st) * 2 ^ pad_bits (put_bits (cur st))
            + (2 ^ pad_bits (put_bits (cur st)) - 1) /\
        forall i,
          nth i (last_dc_val (cur st')) 0
            = if Nat.ltb i (Z.to_nat (comps_in_scan (cinfo st))) then 0
              else nth i (last_dc_val (cur st)) 0).
Proof.
  split.
  - intros st st' R Ok Hrun.
    destruct (flush_bits_s_exact st st' R Ok Hrun)
      as (D & G & _ & _ & Pb & Pv & _ & Len & Val).
    exists D. auto.
  - intros st n st' Hn R Ok Hrun.
    destruct (emit_restart_s_exact st n st' Hn R Ok Hrun)
      as (D & G & _ & _ & Pb & Pv & Dc & Len & Val).
    exists D. split; [exact G|]. split; [exact Pb|]. split; [exact Pv|].
    split; [exact Len|]. split; [exact Val|].
    intro i. rewrite Dc, reset_last_dc_nth. reflexivity.
Qed.

Lemma flush_pads_with_ones_and_restart_resets_witness :
  (exists D,
     grows ex_emitted ex_flushed (stuff D) /\
     put_bits (cur ex_flushed) = 0 /\ put_buffer (cur ex_flushed) = 0 /\
     8 * Z.of_nat (length D)
       = put_bits (cur ex_emitted) + pad_bits (put_bits (cur ex_emitted)) /\
     bytes_value D
       = pending (cur ex_emitted) * 2 ^ pad_bits (put_bits (cur ex_emitted))
         + (2 ^ pad_bits (put_bits (cur ex_emitted)) - 1)) /\
  (exists D,
     grows ex_emitted ex_restarted (stuff D ++ [0xFF; 0xD0 + 5]) /\
     put_bits (cur ex_restarted) = 0 /\ put_buffer (cur ex_restarted) = 0 /\
     8 * Z.of_nat (length D)
       = put_bits (cur ex_emitted) + pad_bits (put_bits (cur ex_emitted)) /\
     bytes_value D
       = pending (cur ex_emitted) * 2 ^ pad_bits (put_bits (cur ex_emitted))
         + (2 ^ pad_bits (put_bits (cur ex_emitted)) - 1) /\
     forall i,
       nth i (last_dc_val (cur ex_restarted)) 0
         = if Nat.ltb i (Z.to_nat (comps_in_scan (cinfo ex_emitted))) then 0
           else nth i (last_dc_val (cur ex_emitted)) 0).
Proof.
  assert (R : ws_room ex_emitted)
    by (unfold ws_room, room, JSIZE_MAX; simpl; lia).
  assert (Ok : bit_buffer_ok (cur ex_emitted))
    by (split; [simpl; lia|reflexivity]).
  split.
  - apply (proj1 flush_pads_with_ones_and_restart_resets
             ex_emitted ex_flushed R Ok).
    vm_compute. reflexivity.
  - apply (proj2 flush_pads_with_ones_and_restart_resets
             ex_emitted 5 ex_restarted ltac:(lia) R Ok).
    vm_compute. reflexivity.
Defined.

End encoder_bitstream_properties.
(** ** The bits the decoder fetches (jdhuff.c) *)

(* One pass of the refill loop. *)
Lemma fill_loop_step inp gb bl :
  jdhuff.fill_loop inp gb bl =
  if bl <? jdhuff.MIN_GET_BITS then
    match jdhuff.fill_body inp with
    | jdhuff.NoBytes => jdhuff.Suspended
    | jdhuff.Marker c rest => jdhuff.HitMarker c rest gb bl
    | jdhuff.DataByte c rest =>
        jdhuff.fill_loop rest
          (to_INT32 (Z.lor (to_INT32 (Z.shiftl gb 8)) c)) (bl + 8)
    end
  else jdhuff.Filled inp gb bl.
Proof. exact (fill_loop_unfold inp gb bl). Qed.

Section decoder_bitstream_properties.
Import jdhuff bitstream_spec.

Lemma wrap_s_32_low_bits z n :
  0 <= n <= 32 -> wrap_s 32 z mod 2 ^ n = z mod 2 ^ n.
Proof.
  intro H. unfold wrap_s. change (32 - 1) with 31.
  rewrite Zminus_mod.
  rewrite Z.mod_mod_divide by (apply pow2_divide; lia).
  rewrite <- Zminus_mod. f_equal. lia.
Qed.

Lemma GET_BITS_value gb bl s :
  0 <= s <= 15 -> s <= bl <= 32 ->
  GET_BITS gb bl s = ((gb mod 2 ^ bl) / 2 ^ (bl - s), bl - s).
Proof.
  intros Hs Hb. unfold GET_BITS.
  rewrite (to_JINT_small (bl - s)) by (change (2 ^ 31) with 2147483648; lia).
  f_equal. rewrite BIT_MASK_ones, Z.land_ones by lia.
  unfold to_JINT. rewrite wrap_s_low_bits by lia.
  rewrite Z.shiftr_div_pow2 by lia.
  pose proof (pow2_pos (bl - s) ltac:(lia)) as P1.
  pose proof (pow2_pos s ltac:(lia)) as P2.
  replace (2 ^ bl) with (2 ^ (bl - s) * 2 ^ s)
    by (rewrite <- pow2_split by lia; f_equal; lia).
  rewrite Z.rem_mul_r by lia.
  rewrite (Z.mul_comm (2 ^ (bl - s))), Z.div_add by lia.
  rewrite (Z.div_small (gb mod 2 ^ (bl - s)))
    by (apply Z.mod_pos_bound; lia).
  reflexivity.
Qed.

(* One more byte in the register. *)
Lemma load_byte_value gb bl b :
  is_byte b -> 0 <= bl -> bl + 8 <= 32 ->
  to_INT32 (Z.lor (to_INT32 (Z.shiftl gb 8)) b) mod 2 ^ (bl + 8)
    = (gb mod 2 ^ bl) * 256 + b.
Proof.
  intros Hb H0 H32. unfold is_byte in Hb. unfold to_INT32.
  rewrite wrap_s_32_low_bits by lia.
  rewrite Z.lor_comm, (lor_disjoint b _ 8)
    by (try rewrite wrap_s_low_bits by lia;
        try rewrite Z.shiftl_mul_pow2 by lia;
        try apply Z.mod_mul; change (2 ^ 8) with 256; lia).
  rewrite Zplus_mod, wrap_s_32_low_bits, <- Zplus_mod by lia.
  rewrite Z.shiftl_mul_pow2 by lia. change (2 ^ 8) with 256.
  pose proof (pow2_pos bl H0) as P.
  rewrite pow2_split by lia. change (2 ^ 8) with 256.
  rewrite (Z.mul_comm (2 ^ bl)), Z.rem_mul_r by lia.
  rewrite Z.mod_add, Z.div_add, (Z.mod_small b), (Z.div_small b),
    Z.add_0_l by lia.
  ring.
Qed.

Lemma fill_body_data b D tail :
  is_byte b -> fill_body (stuff (b :: D) ++ tail) = DataByte b (stuff D ++ tail).
Proof.
  intro Hb. cbn [stuff]. destruct (b =? 255) eqn:E.
  - apply Z.eqb_eq in E. subst b. reflexivity.
  - cbn [app fill_body]. rewrite E. reflexivity.
Qed.

Lemma fill_body_at_marker m rest :
  m <> 0 -> m <> 0xFF -> fill_body (0xFF :: m :: rest) = Marker m rest.
Proof.
  intros H0 H1. cbn. apply Z.eqb_neq in H0, H1. rewrite H1, H0. reflexivity.
Qed.

(* The refill loop on stuffed data that a marker closes. *)
Lemma fill_loop_view m rest : forall D gb bl,
  Forall is_byte D -> m <> 0 -> m <> 0xFF -> 0 <= bl ->
  match fill_loop (stuff D ++ 0xFF :: m :: rest) gb bl with
  | Suspended => False
  | Filled inp gb1 bl1 =>
      exists D2,
        inp = stuff D2 ++ 0xFF :: m :: rest /\ Forall is_byte D2 /\
        MIN_GET_BITS <= bl1 /\ (bl <= 32 -> bl1 <= 32) /\ bl <= bl1 /\
        unread_length bl1 D2 = unread_length bl D /\
        (bl <= 32 -> unread_bits gb1 bl1 D2 = unread_bits gb bl D)
  | HitMarker c inp gb1 bl1 =>
      c = m /\ inp = rest /\ bl1 < MIN_GET_BITS /\ bl <= bl1 /\
      unread_length bl1 [] = unread_length bl D /\
      unread_bits gb1 bl1 [] = unread_bits gb bl D
  end.
Proof.
  induction D as [|b D IH]; intros gb bl HD Hm0 Hm1 Hbl;
    rewrite fill_loop_step; unfold MIN_GET_BITS, BIT_BUF_SIZE in *;
    destruct (bl <? 32 - 7) eqn:E.
  - cbn [stuff app]. rewrite fill_body_at_marker by assumption.
    repeat split; lia.
  - exists []. cbn [stuff app]. repeat split; auto; lia.
  - inversion HD as [|x l Hb HD']; subst.
    rewrite fill_body_data by exact Hb.
    specialize (IH (to_INT32 (Z.lor (to_INT32 (Z.shiftl gb 8)) b)) (bl + 8)
                  HD' Hm0 Hm1 ltac:(lia)).
    assert (Eu : unread_bits (to_INT32 (Z.lor (to_INT32 (Z.shiftl gb 8)) b))
                   (bl + 8) D = unread_bits gb bl (b :: D)).
    { unfold unread_bits. rewrite load_byte_value by (auto; lia).
      cbn [bytes_value length]. rewrite Nat2Z.inj_succ, Z.pow_succ_r by lia.
      ring. }
    assert (El : unread_length (bl + 8) D = unread_length bl (b :: D)).
    { unfold unread_length. cbn [length]. lia. }
    destruct (fill_loop _ _ _) as [|inp gb1 bl1|c inp gb1 bl1].
    + exact IH.
    + destruct IH as (D2 & Ei & F2 & Hmin & Hmax & Hle & Hl & Hu).
      exists D2. split; [exact Ei|]. split; [exact F2|].
      split; [exact Hmin|]. split; [lia|]. split; [lia|].
      split; [lia|]. intro H32. rewrite Hu by lia. exact Eu.
    + destruct IH as (Ec & Ei & Hlt & Hle & Hl & Hu).
      split; [exact Ec|]. split; [exact Ei|]. split; [exact Hlt|].
      split; [lia|]. split; [lia|]. rewrite Hu. exact Eu.
  - exists (b :: D). repeat split; auto; lia.
Qed.

Lemma check_bit_buffer_view state gb bl s D m rest :
  segment_view state D m rest -> Forall is_byte D ->
  m <> 0 -> m <> 0xFF -> 0 <= bl <= 32 -> s <= MIN_GET_BITS ->
  s <= unread_length bl D ->
  exists state1 gb1 bl1 D1,
    CHECK_BIT_BUFFER state gb bl s = Some (state1, gb1, bl1) /\
    segment_view state1 D1 m rest /\ Forall is_byte D1 /\
    0 <= bl1 <= 32 /\ s <= bl1 /\
    unread_length bl1 D1 = unread_length bl D /\
    unread_bits gb1 bl1 D1 = unread_bits gb bl D /\
    same_reader_state (cinfo state) (cinfo state1).
Proof.
  intros V HD Hm0 Hm1 Hbl Hs25 Hs. unfold CHECK_BIT_BUFFER.
  unfold MIN_GET_BITS, BIT_BUF_SIZE in Hs25.
  destruct (bl <? s) eqn:E.
  2:{ exists state, gb, bl, D. unfold same_reader_state.
      split; [reflexivity|]. split; [exact V|]. split; [exact HD|].
      split; [lia|]. split; [lia|]. repeat split. }
  destruct V as [[Hu Hin]|[Hu [-> Hin]]].
  2:{ unfold unread_length in Hs. simpl in Hs. lia. }
  unfold jpeg_fill_bit_buffer. rewrite Hu. change (0 =? 0) with true.
  cbv iota. rewrite Hin.
  pose proof (fill_loop_view m rest D gb bl HD Hm0 Hm1 ltac:(lia)) as F.
  destruct (fill_loop _ _ _) as [|inp gb1 bl1|c inp gb1 bl1].
  - destruct F.
  - destruct F as (D2 & Ei & F2 & Hmin & Hmax & Hle & Hl & Hv).
    unfold MIN_GET_BITS, BIT_BUF_SIZE in Hmin.
    exists (mk_bitread inp gb1 bl1 (cinfo state)), gb1, bl1, D2.
    split; [reflexivity|]. split; [left; split; [exact Hu|exact Ei]|].
    split; [exact F2|]. split; [lia|]. split.
    { unfold unread_length in *. lia. }
    split; [exact Hl|]. split; [apply Hv; lia|].
    unfold same_reader_state. cbn. repeat split.
  - destruct F as (-> & -> & Hlt & Hle & Hl & Hv).
    unfold no_more_bytes.
    assert (Eb : bl1 = unread_length bl D)
      by (rewrite <- Hl; unfold unread_length; simpl; lia).
    replace (s >? bl1) with false by lia.
    exists (mk_bitread rest gb1 bl1
              (jdmarker.set_unread_marker (cinfo state) m)), gb1, bl1, [].
    unfold MIN_GET_BITS, BIT_BUF_SIZE in Hlt.
    split; [reflexivity|]. split; [right; cbn; auto|].
    split; [constructor|]. split; [lia|]. split; [lia|].
    split; [exact Hl|]. split; [exact Hv|].
    unfold same_reader_state. cbn. repeat split.
Qed.

Lemma bytes_value_bound D :
  Forall is_byte D -> 0 <= bytes_value D < 2 ^ (8 * Z.of_nat (length D)).
Proof.
  intro H. rewrite <- pow256 by lia. apply bytes_value_range. exact H.
Qed.

Lemma fetch_bits_exact state gb bl s D m rest :
  segment_view state D m rest -> Forall is_byte D ->
  m <> 0 -> m <> 0xFF -> 0 <= bl <= 32 -> 0 <= s <= 15 ->
  s <= unread_length bl D ->
  exists state' gb' bl' D',
    jdhuff_mcu.fetch_bits state gb bl s
      = Some (unread_bits gb bl D / 2 ^ (unread_length bl D - s),
              state', gb', bl') /\
    segment_view state' D' m rest /\ Forall is_byte D' /\
    0 <= bl' <= 32 /\
    unread_length bl' D' = unread_length bl D - s /\
    unread_bits gb' bl' D'
      = unread_bits gb bl D mod 2 ^ (unread_length bl D - s) /\
    same_reader_state (cinfo state) (cinfo state').
Proof.
  intros V HD Hm0 Hm1 Hbl Hs Hlen.
  assert (Hs25 : s <= MIN_GET_BITS) by (unfold MIN_GET_BITS, BIT_BUF_SIZE; lia).
  destruct (check_bit_buffer_view state gb bl s D m rest V HD Hm0 Hm1 Hbl
              Hs25 Hlen)
    as (state1 & gb1 & bl1 & D1 & Hc & V1 & F1 & Hb1 & Hs1 & Hl & Hv & Hr).
  unfold jdhuff_mcu.fetch_bits. rewrite Hc.
  rewrite GET_BITS_value by lia.
  exists state1, gb1, (bl1 - s), D1.
  rewrite <- Hl, <- Hv. unfold unread_length, unread_bits.
  set (n := Z.of_nat (length D1)).
  assert (Hn : 0 <= n) by (unfold n; lia).
  pose proof (bytes_value_bound D1 F1) as HB. fold n in HB.
  rewrite pow256 by lia.
  pose proof (pow2_pos (8 * n) ltac:(lia)) as Pn.
  pose proof (pow2_pos (bl1 - s) ltac:(lia)) as Pb.
  replace (bl1 + 8 * n - s) with ((bl1 - s) + 8 * n) by lia.
  rewrite pow2_split by lia.
  pose proof (Z.mod_pos_bound gb1 (2 ^ bl1) (pow2_pos bl1 ltac:(lia))) as Hx.
  split.
  { f_equal. f_equal. f_equal. f_equal.
    rewrite (Z.mul_comm (2 ^ (bl1 - s))), <- Z.div_div by lia.
    rewrite Z.div_add_l, (Z.div_small (bytes_value D1)) by lia.
    f_equal. lia. }
  split; [exact V1|]. split; [exact F1|]. split; [lia|]. split; [lia|].
  split; [|exact Hr].
  rewrite Z.add_mul_mod_distr_r by lia.
  rewrite mod_pow2_le by lia. reflexivity.
Qed.

Lemma codes_value_range cs :
  Forall (fun c => 1 <= snd c <= 15) cs ->
  0 <= codes_length cs /\ 0 <= codes_value cs < 2 ^ codes_length cs.
Proof.
  induction 1 as [|[c s] cs Hs _ [L0 IH]]; cbn [codes_length codes_value].
  - simpl. lia.
  - cbn [snd] in Hs. split; [lia|].
    pose proof (Z.mod_pos_bound c (2 ^ s) (pow2_pos s ltac:(lia))) as Hc.
    pose proof (pow2_pos (codes_length cs) L0) as P.
    rewrite pow2_split by lia. nia.
Qed.

Lemma same_reader_state_trans c1 c2 c3 :
  same_reader_state c1 c2 -> same_reader_state c2 c3 ->
  same_reader_state c1 c3.
Proof.
  unfold same_reader_state. intros (A & B & C & D) (A' & B' & C' & D').
  repeat split; congruence.
Qed.

Lemma fetch_all_exact m rest cs : forall state gb bl D pad tail,
  segment_view state D m rest -> Forall is_byte D ->
  m <> 0 -> m <> 0xFF -> 0 <= bl <= 32 ->
  Forall (fun c => 1 <= snd c <= 15) cs ->
  0 <= pad -> 0 <= tail < 2 ^ pad ->
  unread_length bl D = codes_length cs + pad ->
  unread_bits gb bl D = codes_value cs * 2 ^ pad + tail ->
  exists state' gb' bl' D',
    fetch_all state gb bl (map snd cs)
      = Some (map (fun c => fst c mod 2 ^ snd c) cs, state', gb', bl') /\
    segment_view state' D' m rest /\ Forall is_byte D' /\ 0 <= bl' <= 32 /\
    unread_length bl' D' = pad /\ unread_bits gb' bl' D' = tail /\
    same_reader_state (cinfo state) (cinfo state').
Proof.
  induction cs as [|[c s] cs IH];
    intros state gb bl D pad tail V HD Hm0 Hm1 Hbl Hcs Hpad Htail Hlen Hval.
  - exists state, gb, bl, D. cbn in *.
    split; [reflexivity|]. split; [exact V|]. split; [exact HD|].
    split; [exact Hbl|]. split; [lia|]. split; [lia|].
    unfold same_reader_state. repeat split.
  - inversion Hcs as [|x l Hs Hrest]; subst. cbn [snd] in Hs.
    cbn [codes_length codes_value] in Hlen, Hval.
    destruct (codes_value_range cs Hrest) as [L0 HV].
    pose proof (Z.mod_pos_bound c (2 ^ s) (pow2_pos s ltac:(lia))) as Hc.
    pose proof (pow2_pos (codes_length cs) L0) as P1.
    pose proof (pow2_pos pad Hpad) as P2.
    pose proof (pow2_pos (codes_length cs + pad) ltac:(lia)) as P3.
    assert (Hlo : 0 <= codes_value cs * 2 ^ pad + tail
                    < 2 ^ (codes_length cs + pad))
      by (rewrite pow2_split by lia; nia).
    assert (Hu : unread_bits gb bl D
                 = c mod 2 ^ s * 2 ^ (codes_length cs + pad)
                   + (codes_value cs * 2 ^ pad + tail))
      by (rewrite Hval, pow2_split by lia; ring).
    destruct (fetch_bits_exact state gb bl s D m rest V HD Hm0 Hm1 Hbl
                ltac:(lia) ltac:(lia))
      as (state1 & gb1 & bl1 & D1 & Hf & V1 & F1 & Hb1 & Hl1 & Hv1 & Hr1).
    replace (unread_length bl D - s) with (codes_length cs + pad) in * by lia.
    rewrite Hu in Hf, Hv1.
    rewrite Z.div_add_l, Z.div_small, Z.add_0_r in Hf by lia.
    rewrite Z.add_comm, Z.mod_add, Z.mod_small in Hv1 by lia.
    destruct (IH state1 gb1 bl1 D1 pad tail V1 F1 Hm0 Hm1 Hb1 Hrest Hpad
                Htail Hl1 Hv1)
      as (state2 & gb2 & bl2 & D2 & Hf2 & V2 & F2 & Hb2 & Hl2 & Hv2 & Hr2).
    exists state2, gb2, bl2, D2.
    cbn [map fetch_all fst snd]. rewrite Hf, Hf2.
    split; [reflexivity|]. split; [exact V2|]. split; [exact F2|].
    split; [exact Hb2|]. split; [exact Hl2|]. split; [exact Hv2|].
    exact (same_reader_state_trans _ _ _ Hr1 Hr2).
Qed.

(** X9.  What the encoder emits the decoder fetches.  When a run of
    [emit_bits_s] calls, started with an empty bit buffer and closed by
    [flush_bits_s], has written the bytes B, a decoder that stands at B
    with a marker after it and fetches the same sizes in the same order
    (CHECK_BIT_BUFFER then GET_BITS, as decode_mcu does) gets each code
    cut to its size, never has to suspend, and logs no warning and sets
    no insufficient_data on the way; fewer than 8 padding bits are left,
    and the marker is the next thing in the input. *)
Theorem decoder_fetches_what_encoder_emitted :
  forall cs st st1 st2,
    props.ws_room st -> bit_buffer_ok (jchuff.cur st) ->
    jchuff.put_bits (jchuff.cur st) = 0 ->
    Forall (fun c => 1 <= snd c <= 15) cs ->
    emit_codes st cs = Returned (jchuff.Done st1) ->
    jchuff.flush_bits_s st1 = Returned (jchuff.Done st2) ->
    exists B,
      props.ws_written st2 = props.ws_written st ++ B /\
      forall state gb m rest,
        jdmarker.unread_marker (cinfo state) = 0 ->
        m <> 0 -> m <> 0xFF ->
        next_input_byte state = B ++ 0xFF :: m :: rest ->
        exists state' gb' bl',
          fetch_all state gb 0 (map snd cs)
            = Some (map (fun c => fst c mod 2 ^ snd c) cs, state', gb', bl') /\
          0 <= bl' < 8 /\
          segment_view state' [] m rest /\
          same_reader_state (cinfo state) (cinfo state').
Proof.
  intros cs st st1 st2 R Ok P0 Hcs Hemit Hflush.
  assert (Hcs' : Forall (fun c => 1 <= snd c <= 16) cs).
  { eapply Forall_impl; [|exact Hcs]. cbn. intros a Ha. lia. }
  destruct (emit_codes_exact cs st st1 R Ok Hcs' Hemit)
    as (D1 & G1 & F1 & R1 & Ok1 & Len1 & Val1 & _).
  destruct (flush_bits_s_exact st1 st2 R1 Ok1 Hflush)
    as (D2 & G2 & F2 & _ & _ & _ & _ & Len2 & Val2).
  pose proof (grows_trans _ _ _ _ _ G1 G2) as G.
  rewrite <- stuff_app in G.
  exists (stuff (D1 ++ D2)). split; [apply G|].
  intros state gb m rest Hu Hm0 Hm1 Hin.
  pose proof (pending_range _ Ok) as V0. rewrite P0 in *.
  change (2 ^ 0) with 1 in V0.
  set (P1 := jchuff.put_bits (jchuff.cur st1)) in *.
  assert (HP1 : 0 <= P1 < 8) by apply Ok1.
  assert (Hpad : 0 <= pad_bits P1 < 8)
    by (unfold pad_bits; apply Z.mod_pos_bound; lia).
  pose proof (pow2_pos (pad_bits P1) ltac:(lia)) as Pp.
  destruct (codes_value_range cs Hcs) as [L0 HV].
  assert (Flen : unread_length 0 (D1 ++ D2) = codes_length cs + pad_bits P1).
  { unfold unread_length. rewrite length_app, Nat2Z.inj_add. lia. }
  assert (Fval : unread_bits gb 0 (D1 ++ D2)
                 = codes_value cs * 2 ^ pad_bits P1 + (2 ^ pad_bits P1 - 1)).
  { unfold unread_bits. rewrite Z.pow_0_r, Z.mod_1_r, Z.mul_0_l, Z.add_0_l.
    rewrite bytes_value_app, Val2, pow256 by lia.
    replace (8 * Z.of_nat (length D2)) with (P1 + pad_bits P1) by lia.
    rewrite pow2_split by lia.
    replace (codes_value cs)
      with (bytes_value D1 * 2 ^ P1 + pending (jchuff.cur st1)) by lia.
    ring. }
  destruct (fetch_all_exact m rest cs state gb 0 (D1 ++ D2) (pad_bits P1)
              (2 ^ pad_bits P1 - 1))
    as (state' & gb' & bl' & D' & Hf & V' & F' & Hb' & Hl' & _ & Hr');
    try assumption; try lia.
  { left. split; assumption. }
  { apply Forall_app. split; assumption. }
  exists state', gb', bl'. split; [exact Hf|].
  unfold unread_length in Hl'.
  assert (D' = []) by (destruct D'; [reflexivity|simpl in Hl'; lia]).
  subst D'. simpl in Hl'. split; [lia|]. split; [exact V'|exact Hr'].
Qed.

Lemma decoder_fetches_what_encoder_emitted_witness :
  exists B,
    props.ws_written ex_flushed = props.ws_written ex_fresh ++ B /\
    forall state gb m rest,
      jdmarker.unread_marker (cinfo state) = 0 ->
      m <> 0 -> m <> 0xFF ->
      next_input_byte state = B ++ 0xFF :: m :: rest ->
      exists state' gb' bl',
        fetch_all state gb 0 (map snd ex_codes)
          = Some (map (fun c => fst c mod 2 ^ snd c) ex_codes,
                  state', gb', bl') /\
        0 <= bl' < 8 /\
        segment_view state' [] m rest /\
        same_reader_state (cinfo state) (cinfo state').
Proof.
  apply (decoder_fetches_what_encoder_emitted ex_codes ex_fresh ex_emitted
           ex_flushed).
  - unfold props.ws_room, props.room, JSIZE_MAX. simpl. lia.
  - split; [simpl; lia|reflexivity].
  - reflexivity.
  - repeat constructor; simpl; lia.
  - vm_compute. reflexivity.
  - vm_compute. reflexivity.
Defined.

End decoder_bitstream_properties.
(** ** What jpeg_fill_bit_buffer loads (jdhuff.c) *)

Section fill_policy_properties.
Import jdhuff bitstream_spec decode_spec.

Lemma wrap_s_shift w a q : 0 <= w -> wrap_s w (a + q * 2 ^ w) = wrap_s w a.
Proof.
  intro Hw. unfold wrap_s.
  replace (a + q * 2 ^ w + 2 ^ (w - 1)) with (a + 2 ^ (w - 1) + q * 2 ^ w)
    by ring.
  rewrite Z.mod_add by (apply Z.pow_nonzero; lia). reflexivity.
Qed.

Lemma wrap_s_quotient w a : 0 <= w -> exists q, wrap_s w a = a + q * 2 ^ w.
Proof.
  intro Hw. exists (- ((a + 2 ^ (w - 1)) / 2 ^ w)). unfold wrap_s.
  rewrite Z.mod_eq by (apply Z.pow_nonzero; lia). ring.
Qed.

(* A wrap inside a product and sum that is wrapped again does nothing. *)
Lemma to_INT32_inner a p q :
  to_INT32 (to_INT32 a * p + q) = to_INT32 (a * p + q).
Proof.
  unfold to_INT32. destruct (wrap_s_quotient 32 a ltac:(lia)) as [k E].
  rewrite E.
  replace ((a + k * 2 ^ 32) * p + q) with (a * p + q + (k * p) * 2 ^ 32)
    by ring.
  apply wrap_s_shift. lia.
Qed.

(* get_buffer = (get_buffer << 8) | c, for a byte c. *)
Lemma load_byte_exact gb b :
  is_byte b ->
  to_INT32 (Z.lor (to_INT32 (Z.shiftl gb 8)) b) = to_INT32 (gb * 256 + b).
Proof.
  intro Hb. unfold is_byte in Hb.
  assert (L : Z.lor (to_INT32 (Z.shiftl gb 8)) b
              = to_INT32 (gb * 256) * 1 + b).
  { rewrite Z.lor_comm, (lor_disjoint b _ 8).
    - rewrite Z.shiftl_mul_pow2 by lia. change (2 ^ 8) with 256. ring.
    - lia.
    - change (2 ^ 8) with 256. lia.
    - unfold to_INT32. rewrite wrap_s_low_bits by lia.
      rewrite Z.shiftl_mul_pow2 by lia. apply Z.mod_mul. lia. }
  rewrite L, to_INT32_inner. f_equal. ring.
Qed.

(* The do-while that discards the 0xFF bytes before a marker code. *)
Lemma skip_ff_run c tail : c <> 0xFF -> forall j,
  skip_ff (repeat 0xFF j ++ c :: tail) = Some (c, tail).
Proof.
  intros Hc j. induction j as [|j IH]; cbn [repeat app skip_ff].
  - apply Z.eqb_neq in Hc. rewrite Hc. reflexivity.
  - change (255 =? 255) with true. cbv iota. exact IH.
Qed.

(* The refill loop takes every data byte it meets while fewer than 25
   bits are held. *)
Lemma fill_loop_data tail : forall C gb bl,
  Forall is_byte C -> - 2 ^ 31 <= gb < 2 ^ 31 ->
  bl + 8 * Z.of_nat (length C) < MIN_GET_BITS + 8 ->
  fill_loop (stuff C ++ tail) gb bl =
    fill_loop tail
      (to_INT32 (gb * 256 ^ Z.of_nat (length C) + bytes_value C))
      (bl + 8 * Z.of_nat (length C)).
Proof.
  induction C as [|b C IH]; intros gb bl HC Hgb Hbl.
  - cbn [stuff app length bytes_value]. change (Z.of_nat 0) with 0.
    replace (gb * 256 ^ 0 + 0) with gb by ring.
    replace (bl + 8 * 0) with bl by ring.
    unfold to_INT32. rewrite wrap_s_small by (simpl; lia). reflexivity.
  - inversion HC as [|x l Hb HC']; subst.
    cbn [length] in Hbl |- *. rewrite Nat2Z.inj_succ in Hbl |- *.
    unfold MIN_GET_BITS, BIT_BUF_SIZE in Hbl.
    rewrite fill_loop_step. unfold MIN_GET_BITS, BIT_BUF_SIZE.
    replace (bl <? 32 - 7) with true by lia.
    rewrite fill_body_data by exact Hb.
    rewrite IH.
    + rewrite load_byte_exact by exact Hb. rewrite to_INT32_inner.
      cbn [bytes_value]. rewrite Z.pow_succ_r by lia.
      f_equal; [f_equal; ring|lia].
    + exact HC'.
    + pose proof (wrap_s_range 32
                    (Z.lor (to_INT32 (Z.shiftl gb 8)) b) ltac:(lia)) as R.
      exact R.
    + unfold MIN_GET_BITS, BIT_BUF_SIZE. lia.
Qed.

(* What the code after no_more_bytes does to the log and the flag. *)
Lemma no_more_bytes_log c g b n :
  jdmarker.warnings (fst (fst (no_more_bytes c g b n))) =
    (if (n >? b) && negb (jdmarker.insufficient_data c)
     then jdmarker.JWRN_HIT_MARKER :: jdmarker.warnings c
     else jdmarker.warnings c) /\
  jdmarker.insufficient_data (fst (fst (no_more_bytes c g b n))) =
    ((n >? b) || jdmarker.insufficient_data c)%bool.
Proof.
  unfold no_more_bytes. destruct (n >? b); cbn [andb orb fst].
  - destruct (jdmarker.insufficient_data c) eqn:E; cbn; auto.
  - auto.
Qed.

(* One call logs the premature-end warning exactly when it sets the
   flag, which it never clears. *)
Lemma fill_warns_exactly state gb bl nbits :
  let state' := snd (jpeg_fill_bit_buffer state gb bl nbits) in
  (jdmarker.insufficient_data (cinfo state) = true ->
   jdmarker.insufficient_data (cinfo state') = true /\
   jdmarker.warnings (cinfo state') = jdmarker.warnings (cinfo state)) /\
  (jdmarker.insufficient_data (cinfo state) = false ->
   jdmarker.warnings (cinfo state') =
     if jdmarker.insufficient_data (cinfo state')
     then jdmarker.JWRN_HIT_MARKER :: jdmarker.warnings (cinfo state)
     else jdmarker.warnings (cinfo state)).
Proof.
  cbv zeta. unfold jpeg_fill_bit_buffer.
  assert (N : forall c g b n,
    (jdmarker.insufficient_data c = true ->
     jdmarker.insufficient_data (fst (fst (no_more_bytes c g b n))) = true /\
     jdmarker.warnings (fst (fst (no_more_bytes c g b n)))
       = jdmarker.warnings c) /\
    (jdmarker.insufficient_data c = false ->
     jdmarker.warnings (fst (fst (no_more_bytes c g b n))) =
       if jdmarker.insufficient_data (fst (fst (no_more_bytes c g b n)))
       then jdmarker.JWRN_HIT_MARKER :: jdmarker.warnings c
       else jdmarker.warnings c)).
  { intros c g b n. destruct (no_more_bytes_log c g b n) as [Hw Hi].
    rewrite Hw, Hi. split; intro H; rewrite H.
    - rewrite andb_false_r, orb_true_r. auto.
    - rewrite andb_true_r, orb_false_r. destruct (n >? b); reflexivity. }
  destruct (jdmarker.unread_marker (cinfo state) =? 0).
  - destruct (fill_loop (next_input_byte state) gb bl) as [|inp g b|c inp g b].
    + cbn. split; intro H; [auto|rewrite H; reflexivity].
    + cbn. split; intro H; [auto|rewrite H; reflexivity].
    + specialize (N (jdmarker.set_unread_marker (cinfo state) c) g b nbits).
      destruct (no_more_bytes (jdmarker.set_unread_marker (cinfo state) c) g b nbits)
        as [[c1 g1] b1]. cbn in N |- *. exact N.
  - specialize (N (cinfo state) gb bl nbits).
    destruct (no_more_bytes (cinfo state) gb bl nbits) as [[c1 g1] b1].
    cbn in N |- *. exact N.
Qed.

Lemma fill_segment_warns_exactly requests : forall state,
  (jdmarker.insufficient_data (cinfo state) = true ->
   jdmarker.insufficient_data (cinfo (fill_segment state requests)) = true /\
   jdmarker.warnings (cinfo (fill_segment state requests))
     = jdmarker.warnings (cinfo state)) /\
  (jdmarker.insufficient_data (cinfo state) = false ->
   jdmarker.warnings (cinfo (fill_segment state requests)) =
     if jdmarker.insufficient_data (cinfo (fill_segment state requests))
     then jdmarker.JWRN_HIT_MARKER :: jdmarker.warnings (cinfo state)
     else jdmarker.warnings (cinfo state)).
Proof.
  induction requests as [|r rest IH]; intro state; cbn [fill_segment].
  - split; intro H; [auto|rewrite H; reflexivity].
  - pose proof (fill_warns_exactly state (req_get_buffer r) (req_bits_left r)
                  (req_nbits r)) as H. cbv zeta in H.
    destruct H as [Ht Hf].
    specialize (IH (snd (jpeg_fill_bit_buffer state (req_get_buffer r)
                           (req_bits_left r) (req_nbits r)))).
    destruct IH as [IHt IHf]. split.
    + intro Hi. destruct (Ht Hi) as [Hi' Hw].
      destruct (IHt Hi') as [Hi2 Hw2]. split; [exact Hi2|]. congruence.
    + intro Hi. specialize (Hf Hi).
      destruct (jdmarker.insufficient_data
                  (cinfo (snd (jpeg_fill_bit_buffer state (req_get_buffer r)
                                 (req_bits_left r) (req_nbits r))))) eqn:E1.
      * destruct (IHt eq_refl) as [Hi2 Hw2]. rewrite Hi2, Hw2. exact Hf.
      * rewrite (IHf eq_refl), Hf. reflexivity.
Qed.

(** C5.  With no marker pending, [jpeg_fill_bit_buffer] loads the data
    bytes at the input, most significant first, below the bits already
    in the 32-bit [get_buffer], and it takes just as many as bring
    [bits_left] to 25 or more; [stuff D] is the data [D] as it stands in
    the stream, with a zero byte after each 0xFF.  An 0xFF followed,
    after any further 0xFF bytes, by 0x00 is loaded as the one data byte
    0xFF.  An 0xFF followed, after any further 0xFF bytes, by another
    byte [m] ends the data: all data bytes before it are loaded, [m]
    becomes [unread_marker] and the input stands right after [m].  Once
    a marker is saved no input byte is read.  In both cases a request for
    no more bits than are held changes nothing else, and a request for
    more is met by shifting zero bits in up to 25; then
    [insufficient_data] is set, and the premature-end warning is logged
    exactly when the flag was not set before.  Over the calls of one
    data segment the flag is never cleared and the warning is logged
    once if the flag comes to be set and not at all otherwise. *)
Theorem fill_bit_buffer_policy :
  (forall state gb bl nbits D tail,
      jdmarker.unread_marker (cinfo state) = 0 ->
      - 2 ^ 31 <= gb < 2 ^ 31 ->
      Forall is_byte D ->
      next_input_byte state = stuff D ++ tail ->
      MIN_GET_BITS <= bl + 8 * Z.of_nat (length D) ->
      exists k,
        (k <= length D)%nat /\
        MIN_GET_BITS <= bl + 8 * Z.of_nat k /\
        (k = 0%nat \/ bl + 8 * Z.of_nat k < MIN_GET_BITS + 8) /\
        jpeg_fill_bit_buffer state gb bl nbits =
          (true,
           mk_bitread (stuff (skipn k D) ++ tail)
             (to_INT32 (gb * 256 ^ Z.of_nat k + bytes_value (firstn k D)))
             (bl + 8 * Z.of_nat k) (cinfo state))) /\
  (forall state gb bl nbits j tail,
      jdmarker.unread_marker (cinfo state) = 0 ->
      MIN_GET_BITS - 8 <= bl < MIN_GET_BITS ->
      next_input_byte state = 0xFF :: repeat 0xFF j ++ 0 :: tail ->
      jpeg_fill_bit_buffer state gb bl nbits =
        (true,
         mk_bitread tail (to_INT32 (gb * 256 + 0xFF)) (bl + 8)
           (cinfo state))) /\
  (forall state gb bl nbits D j m rest,
      jdmarker.unread_marker (cinfo state) = 0 ->
      - 2 ^ 31 <= gb < 2 ^ 31 ->
      Forall is_byte D -> m <> 0 -> m <> 0xFF ->
      next_input_byte state
        = stuff D ++ 0xFF :: repeat 0xFF j ++ m :: rest ->
      bl + 8 * Z.of_nat (length D) < MIN_GET_BITS ->
      exists state',
        jpeg_fill_bit_buffer state gb bl nbits = (true, state') /\
        jdmarker.unread_marker (cinfo state') = m /\
        next_input_byte state' = rest /\
        (nbits <= bl + 8 * Z.of_nat (length D) ->
         get_buffer state'
           = to_INT32 (gb * 256 ^ Z.of_nat (length D) + bytes_value D) /\
         bits_left state' = bl + 8 * Z.of_nat (length D) /\
         jdmarker.insufficient_data (cinfo state')
           = jdmarker.insufficient_data (cinfo state) /\
         jdmarker.warnings (cinfo state') = jdmarker.warnings (cinfo state)) /\
        (bl + 8 * Z.of_nat (length D) < nbits ->
         get_buffer state'
           = to_INT32 ((gb * 256 ^ Z.of_nat (length D) + bytes_value D)
                       * 2 ^ (MIN_GET_BITS - (bl + 8 * Z.of_nat (length D)))) /\
         bits_left state' = MIN_GET_BITS /\
         jdmarker.insufficient_data (cinfo state') = true /\
         jdmarker.warnings (cinfo state') =
           if jdmarker.insufficient_data (cinfo state)
           then jdmarker.warnings (cinfo state)
           else jdmarker.JWRN_HIT_MARKER :: jdmarker.warnings (cinfo state))) /\
  (forall state gb bl nbits,
      jdmarker.unread_marker (cinfo state) <> 0 ->
      exists state',
        jpeg_fill_bit_buffer state gb bl nbits = (true, state') /\
        next_input_byte state' = next_input_byte state /\
        jdmarker.unread_marker (cinfo state')
          = jdmarker.unread_marker (cinfo state) /\
        (nbits <= bl ->
         state' = mk_bitread (next_input_byte state) gb bl (cinfo state)) /\
        (bl < nbits -> 0 <= bl <= MIN_GET_BITS ->
         bits_left state' = MIN_GET_BITS /\
         get_buffer state' = to_INT32 (gb * 2 ^ (MIN_GET_BITS - bl)) /\
         get_buffer state' mod 2 ^ (MIN_GET_BITS - bl) = 0 /\
         jdmarker.insufficient_data (cinfo state') = true /\
         jdmarker.warnings (cinfo state') =
           if jdmarker.insufficient_data (cinfo state)
           then jdmarker.warnings (cinfo state)
           else jdmarker.JWRN_HIT_MARKER :: jdmarker.warnings (cinfo state))) /\
  (forall state gb bl nbits state',
      jdmarker.unread_marker (cinfo state) = 0 ->
      jpeg_fill_bit_buffer state gb bl nbits = (true, state') ->
      jdmarker.unread_marker (cinfo state') = 0 ->
      MIN_GET_BITS <= bits_left state') /\
  (forall state requests,
      (jdmarker.insufficient_data (cinfo state) = true ->
       jdmarker.insufficient_data (cinfo (fill_segment state requests)) = true /\
       jdmarker.warnings (cinfo (fill_segment state requests))
         = jdmarker.warnings (cinfo state)) /\
      (jdmarker.insufficient_data (cinfo state) = false ->
       jdmarker.warnings (cinfo (fill_segment state requests)) =
         if jdmarker.insufficient_data (cinfo (fill_segment state requests))
         then jdmarker.JWRN_HIT_MARKER :: jdmarker.warnings (cinfo state)
         else jdmarker.warnings (cinfo state))).
Proof.
  split; [|split; [|split; [|split; [|split]]]].
  - (* loading *)
    intros state gb bl nbits D tail Hm Hgb HD Hin Hlen.
    unfold jpeg_fill_bit_buffer. rewrite Hm. change (0 =? 0) with true.
    cbv iota. rewrite Hin. unfold MIN_GET_BITS, BIT_BUF_SIZE in *.
    destruct (Z_lt_ge_dec bl 25) as [Hlt|Hge].
    + set (k := Z.to_nat ((32 - bl) / 8)).
      assert (Hk : 25 <= bl + 8 * Z.of_nat k < 33 /\ (k <= length D)%nat).
      { unfold k. pose proof (Z.div_pos (32 - bl) 8 ltac:(lia) ltac:(lia)).
        rewrite Z2Nat.id by assumption.
        pose proof (Z.mul_div_le (32 - bl) 8 ltac:(lia)).
        pose proof (Z.mul_succ_div_gt (32 - bl) 8 ltac:(lia)).
        split; [lia|]. apply Nat2Z.inj_le. rewrite Z2Nat.id by assumption.
        lia. }
      destruct Hk as [Hk1 Hk2]. exists k.
      split; [exact Hk2|]. split; [lia|]. split; [right; lia|].
      assert (El : length (firstn k D) = k) by (apply firstn_length_le; exact Hk2).
      rewrite <- (firstn_skipn k D) at 1. rewrite stuff_app, <- app_assoc.
      rewrite fill_loop_data.
      * rewrite El. rewrite fill_loop_step. unfold MIN_GET_BITS, BIT_BUF_SIZE.
        replace (bl + 8 * Z.of_nat k <? 32 - 7) with false by lia.
        reflexivity.
      * rewrite <- (firstn_skipn k D) in HD. apply Forall_app in HD.
        exact (proj1 HD).
      * exact Hgb.
      * rewrite El. unfold MIN_GET_BITS, BIT_BUF_SIZE. lia.
    + exists 0%nat. split; [lia|]. split; [simpl; lia|]. split; [left; reflexivity|].
      rewrite fill_loop_step. unfold MIN_GET_BITS, BIT_BUF_SIZE.
      replace (bl <? 32 - 7) with false by lia.
      cbn [skipn firstn bytes_value]. change (Z.of_nat 0) with 0.
      replace (gb * 256 ^ 0 + 0) with gb by ring.
      replace (bl + 8 * 0) with bl by ring.
      unfold to_INT32. rewrite wrap_s_small by (simpl; lia). reflexivity.
  - (* FF 00 *)
    intros state gb bl nbits j tail Hm Hbl Hin.
    unfold jpeg_fill_bit_buffer. rewrite Hm. change (0 =? 0) with true.
    cbv iota. rewrite Hin. unfold MIN_GET_BITS, BIT_BUF_SIZE in *.
    rewrite fill_loop_step. unfold MIN_GET_BITS, BIT_BUF_SIZE.
    replace (bl <? 32 - 7) with true by lia.
    unfold fill_body. change (255 =? 255) with true. cbv iota.
    rewrite skip_ff_run by lia. change (0 =? 0) with true. cbv iota.
    rewrite fill_loop_step. unfold MIN_GET_BITS, BIT_BUF_SIZE.
    replace (bl + 8 <? 32 - 7) with false by lia.
    rewrite load_byte_exact by (unfold is_byte; lia). reflexivity.
  - (* marker *)
    intros state gb bl nbits D j m rest Hm Hgb HD Hm0 Hmf Hin Hlen.
    unfold jpeg_fill_bit_buffer. rewrite Hm. change (0 =? 0) with true.
    cbv iota. rewrite Hin.
    rewrite fill_loop_data
      by (auto; unfold MIN_GET_BITS, BIT_BUF_SIZE in *; lia).
    set (gb1 := to_INT32 (gb * 256 ^ Z.of_nat (length D) + bytes_value D)).
    set (bl1 := bl + 8 * Z.of_nat (length D)) in *.
    rewrite fill_loop_step.
    replace (bl1 <? MIN_GET_BITS) with true by lia.
    unfold fill_body. change (255 =? 255) with true. cbv iota.
    rewrite skip_ff_run by exact Hmf.
    replace (m =? 0) with false by lia.
    pose proof (no_more_bytes_log
                  (jdmarker.set_unread_marker (cinfo state) m) gb1 bl1 nbits)
      as [Hw Hi].
    pose proof (no_more_bytes_marker
                  (jdmarker.set_unread_marker (cinfo state) m) gb1 bl1 nbits)
      as Hk.
    assert (Hr : snd (fst (no_more_bytes
                  (jdmarker.set_unread_marker (cinfo state) m) gb1 bl1 nbits))
                 = (if nbits >? bl1
                    then to_INT32 (Z.shiftl gb1 (MIN_GET_BITS - bl1))
                    else gb1) /\
                 snd (no_more_bytes
                  (jdmarker.set_unread_marker (cinfo state) m) gb1 bl1 nbits)
                 = (if nbits >? bl1 then MIN_GET_BITS else bl1)).
    { unfold no_more_bytes. destruct (nbits >? bl1); split; reflexivity. }
    destruct Hr as [Hg Hb].
    destruct (no_more_bytes (jdmarker.set_unread_marker (cinfo state) m)
                gb1 bl1 nbits) as [[c1 g1] b1].
    cbn [fst snd] in Hw, Hi, Hk, Hg, Hb.
    eexists. split; [reflexivity|].
    cbn [cinfo next_input_byte get_buffer bits_left].
    split; [exact Hk|]. split; [reflexivity|]. split.
    + intro Hle. replace (nbits >? bl1) with false in * by lia.
      cbn [andb orb] in Hw, Hi. auto.
    + intro Hgt. replace (nbits >? bl1) with true in * by lia.
      cbn [andb orb] in Hw, Hi. split.
      { rewrite Hg. unfold gb1.
        rewrite Z.shiftl_mul_pow2 by (unfold MIN_GET_BITS, BIT_BUF_SIZE in *; lia).
        replace (to_INT32 (gb * 256 ^ Z.of_nat (length D) + bytes_value D)
                 * 2 ^ (MIN_GET_BITS - bl1))
          with (to_INT32 (gb * 256 ^ Z.of_nat (length D) + bytes_value D)
                * 2 ^ (MIN_GET_BITS - bl1) + 0) by ring.
        rewrite to_INT32_inner. f_equal. ring. }
      split; [exact Hb|]. split; [exact Hi|].
      rewrite Hw. cbn [jdmarker.set_unread_marker jdmarker.insufficient_data
                       jdmarker.warnings].
      destruct (jdmarker.insufficient_data (cinfo state)); reflexivity.
  - (* a marker is pending *)
    intros state gb bl nbits Hm.
    unfold jpeg_fill_bit_buffer.
    replace (jdmarker.unread_marker (cinfo state) =? 0) with false by lia.
    pose proof (no_more_bytes_log (cinfo state) gb bl nbits) as [Hw Hi].
    pose proof (no_more_bytes_marker (cinfo state) gb bl nbits) as Hk.
    assert (Hr : (nbits <= bl ->
                  no_more_bytes (cinfo state) gb bl nbits
                    = (cinfo state, gb, bl)) /\
                 (bl < nbits ->
                  snd (fst (no_more_bytes (cinfo state) gb bl nbits))
                    = to_INT32 (Z.shiftl gb (MIN_GET_BITS - bl)) /\
                  snd (no_more_bytes (cinfo state) gb bl nbits)
                    = MIN_GET_BITS)).
    { unfold no_more_bytes. split; intro H.
      - replace (nbits >? bl) with false by lia. reflexivity.
      - replace (nbits >? bl) with true by lia. split; reflexivity. }
    destruct Hr as [Hsame Hpad].
    destruct (no_more_bytes (cinfo state) gb bl nbits) as [[c1 g1] b1].
    cbn [fst snd] in Hw, Hi, Hk, Hpad.
    eexists. split; [reflexivity|].
    cbn [cinfo next_input_byte get_buffer bits_left].
    split; [reflexivity|]. split; [exact Hk|]. split.
    + intro Hle. specialize (Hsame Hle). injection Hsame as -> -> ->.
      reflexivity.
    + intros Hlt Hrange. destruct (Hpad Hlt) as [Hg Hb].
      replace (nbits >? bl) with true in * by lia.
      cbn [andb orb] in Hw, Hi. unfold MIN_GET_BITS, BIT_BUF_SIZE in *.
      split; [exact Hb|].
      split; [rewrite Hg, Z.shiftl_mul_pow2 by lia; reflexivity|].
      split; [rewrite Hg; apply shifted_in_zeroes; lia|].
      split; [exact Hi|]. rewrite Hw.
      destruct (jdmarker.insufficient_data (cinfo state)); reflexivity.
  - (* 25 bits unless a marker ends the data *)
    intros state gb bl nbits state' Hm Hrun Hm'.
    unfold jpeg_fill_bit_buffer in Hrun. rewrite Hm in Hrun.
    change (0 =? 0) with true in Hrun. cbv iota in Hrun.
    pose proof (fill_loop_filled (next_input_byte state) gb bl) as Hf.
    pose proof (fill_loop_marker (next_input_byte state) gb bl) as Hk.
    destruct (fill_loop (next_input_byte state) gb bl) as [|inp g b|c inp g b].
    + discriminate.
    + injection Hrun as <-. exact Hf.
    + exfalso.
      pose proof (no_more_bytes_marker
                    (jdmarker.set_unread_marker (cinfo state) c) g b nbits) as Hn.
      destruct (no_more_bytes (jdmarker.set_unread_marker (cinfo state) c) g b nbits)
        as [[c1 g1] b1]. cbn [fst] in Hn.
      injection Hrun as <-. cbn [cinfo] in Hm'. cbn in Hn. lia.
  - (* once in a data segment *)
    intros state requests. apply fill_segment_warns_exactly.
Qed.

Lemma fill_bit_buffer_policy_witness :
  jpeg_fill_bit_buffer ex_segment 0 0 0 =
    (true, mk_bitread [0xFF; 0xD3; 0x78; 0x9A] 0x1234FF56 32
             (cinfo ex_segment)) /\
  jpeg_fill_bit_buffer
    (mk_bitread [0xFF; 0xFF; 0x00; 0x77] 0 0 (cinfo ex_segment)) 0x1234 17 0 =
    (true, mk_bitread [0x77] 0x1234FF 25 (cinfo ex_segment)) /\
  (exists state',
     jpeg_fill_bit_buffer
       (mk_bitread [0x56; 0xFF; 0xD3; 0x78; 0x9A] 0 0 (cinfo ex_segment))
       0 0 12 = (true, state') /\
     jdmarker.unread_marker (cinfo state') = 0xD3 /\
     next_input_byte state' = [0x78; 0x9A] /\
     get_buffer state' = 0x56 * 2 ^ 17 /\
     bits_left state' = 25 /\
     jdmarker.insufficient_data (cinfo state') = true /\
     jdmarker.warnings (cinfo state') = [jdmarker.JWRN_HIT_MARKER]) /\
  (exists state',
     jpeg_fill_bit_buffer ex_at_marker 0x56 8 12 = (true, state') /\
     next_input_byte state' = next_input_byte ex_at_marker /\
     jdmarker.unread_marker (cinfo state') = 0xD3 /\
     bits_left state' = 25 /\
     get_buffer state' = 0x56 * 2 ^ 17 /\
     jdmarker.insufficient_data (cinfo state') = true /\
     jdmarker.warnings (cinfo state') = [jdmarker.JWRN_HIT_MARKER]) /\
  MIN_GET_BITS <= bits_left (snd (jpeg_fill_bit_buffer ex_segment 0 0 0)) /\
  jdmarker.warnings
    (cinfo (fill_segment ex_segment
              [mk_request 0 0 0; mk_request 0x56 8 0; mk_request 0x56 8 12;
               mk_request 0 3 9]))
    = [jdmarker.JWRN_HIT_MARKER].
Proof.
  destruct fill_bit_buffer_policy
    as (Hload & Hff & Hmark & Hpend & Hmin & Hseg).
  split; [|split; [|split; [|split; [|split]]]].
  - destruct (Hload ex_segment 0 0 0 [0x12; 0x34; 0xFF; 0x56]
                [0xFF; 0xD3; 0x78; 0x9A])
      as (k & Hk & Hk25 & Hkmin & Hrun).
    + reflexivity.
    + lia.
    + repeat constructor; unfold is_byte; lia.
    + reflexivity.
    + vm_compute. discriminate.
    + assert (E : k = 4%nat).
      { unfold MIN_GET_BITS, BIT_BUF_SIZE in *. cbn [length] in Hk. lia. }
      subst k. rewrite Hrun. vm_compute. reflexivity.
  - rewrite (Hff (mk_bitread [0xFF; 0xFF; 0x00; 0x77] 0 0 (cinfo ex_segment))
               0x1234 17 0 1%nat [0x77]).
    + vm_compute. reflexivity.
    + reflexivity.
    + unfold MIN_GET_BITS, BIT_BUF_SIZE. lia.
    + reflexivity.
  - destruct (Hmark
                (mk_bitread [0x56; 0xFF; 0xD3; 0x78; 0x9A] 0 0 (cinfo ex_segment))
                0 0 12 [0x56] 0%nat 0xD3 [0x78; 0x9A])
      as (state' & Hrun & Hu & Hin & _ & Hpad).
    + reflexivity.
    + lia.
    + repeat constructor; unfold is_byte; lia.
    + lia.
    + lia.
    + reflexivity.
    + vm_compute. reflexivity.
    + exists state'. split; [exact Hrun|]. split; [exact Hu|].
      split; [exact Hin|].
      destruct Hpad as (Hg & Hb & Hi & Hw); [vm_compute; reflexivity|].
      split; [rewrite Hg; vm_compute; reflexivity|].
      split; [exact Hb|]. split; [exact Hi|]. exact Hw.
  - destruct (Hpend ex_at_marker 0x56 8 12)
      as (state' & Hrun & Hin & Hu & _ & Hpad).
    + vm_compute. discriminate.
    + exists state'. split; [exact Hrun|]. split; [exact Hin|].
      split; [exact Hu|].
      destruct Hpad as (Hb & Hg & _ & Hi & Hw).
      * lia.
      * unfold MIN_GET_BITS, BIT_BUF_SIZE. lia.
      * split; [exact Hb|]. split; [rewrite Hg; vm_compute; reflexivity|].
        split; [exact Hi|]. exact Hw.
  - apply (Hmin ex_segment 0 0 0); vm_compute; reflexivity.
  - destruct (Hseg ex_segment
                [mk_request 0 0 0; mk_request 0x56 8 0; mk_request 0x56 8 12;
                 mk_request 0 3 9]) as [_ Hf].
    rewrite Hf by reflexivity. vm_compute. reflexivity.
Defined.

(** C5 as stated fails where the byte that follows an 0xFF is another
    0xFF.  On the input FF FF D3 78 the byte following the first 0xFF is
    not 0x00, yet it is not what [unread_marker] receives: the code
    discards it, saves 0xD3 and leaves the input after three bytes.  On
    the input FF FF 00 77 nothing is saved as a marker at all: the three
    bytes are loaded as the one data byte 0xFF. *)
Lemma fill_discards_padding_ff :
  jpeg_fill_bit_buffer
    (mk_bitread [0xFF; 0xFF; 0xD3; 0x78] 0 0 (cinfo ex_segment)) 0 0 0 =
    (true,
     mk_bitread [0x78] 0 0
       (jdmarker.set_unread_marker (cinfo ex_segment) 0xD3)) /\
  jdmarker.unread_marker
    (cinfo (snd (jpeg_fill_bit_buffer
                   (mk_bitread [0xFF; 0xFF; 0xD3; 0x78] 0 0 (cinfo ex_segment))
                   0 0 0))) <> 0xFF /\
  jpeg_fill_bit_buffer
    (mk_bitread [0xFF; 0xFF; 0x00; 0x77] 0 0 (cinfo ex_segment)) 0x1234 17 0 =
    (true, mk_bitread [0x77] 0x1234FF 25 (cinfo ex_segment)) /\
  jdmarker.unread_marker
    (cinfo (snd (jpeg_fill_bit_buffer
                   (mk_bitread [0xFF; 0xFF; 0x00; 0x77] 0 0 (cinfo ex_segment))
                   0x1234 17 0))) = 0.
Proof.
  split; [vm_compute; reflexivity|].
  split; [vm_compute; intro H; discriminate H|].
  split; vm_compute; reflexivity.
Qed.

End fill_policy_properties.
(** ** Restart markers on both sides (jchuff.c, jdhuff.c, jdmarker.c) *)

Section restart_properties.
Import jdhuff_mcu.

Lemma next_marker_clean c m rest :
  jdmarker.unread_marker c = 0 -> jdmarker.discarded_bytes c = 0 ->
  jdmarker.next_input_byte c = 0xFF :: m :: rest ->
  m <> 0 -> m <> 0xFF ->
  jdmarker.next_marker c
    = (true, jdmarker.mk_dinfo rest m 0 (jdmarker.next_restart_num c)
               (jdmarker.insufficient_data c) (jdmarker.warnings c)).
Proof.
  intros Hu Hd Hin H0 H1. unfold jdmarker.next_marker. rewrite Hin.
  cbn [jdmarker.next_marker_scan]. change (255 =? 255) with true. cbv iota.
  apply Z.eqb_neq in H0, H1. rewrite H1, H0. cbn [negb].
  unfold jdmarker.next_marker_found. rewrite Hd. reflexivity.
Qed.

Lemma read_restart_marker_expected inp um n ins ws rest :
  0 <= n <= 7 ->
  (um = 0 /\ inp = 0xFF :: (0xD0 + n) :: rest) \/
  (um = 0xD0 + n /\ inp = rest) ->
  jdmarker.read_restart_marker (jdmarker.mk_dinfo inp um 0 n ins ws)
    = Returned (true, jdmarker.mk_dinfo rest 0 0 ((n + 1) mod 8) ins ws).
Proof.
  intros Hn Hin.
  assert (En : Z.land (to_JINT (n + 1)) 7 = (n + 1) mod 8).
  { rewrite to_JINT_small by (change (2 ^ 31) with 2147483648; lia).
    apply land_7_mod. }
  assert (Em : (208 + n =? jdmarker.M_RST0 + n) = true)
    by (unfold jdmarker.M_RST0; lia).
  assert (Ez : (208 + n =? 0) = false) by lia.
  unfold jdmarker.read_restart_marker.
  cbn [jdmarker.unread_marker].
  destruct Hin as [[-> ->]|[-> ->]].
  - change (0 =? 0) with true. cbv iota.
    rewrite (next_marker_clean _ (208 + n) rest) by (try reflexivity; lia).
    cbv iota beta.
    cbn [jdmarker.unread_marker jdmarker.next_restart_num].
    rewrite Em. cbv iota beta.
    unfold jdmarker.set_unread_marker, jdmarker.set_next_restart_num.
    cbn [jdmarker.unread_marker jdmarker.next_restart_num
         jdmarker.next_input_byte jdmarker.discarded_bytes
         jdmarker.insufficient_data jdmarker.warnings].
    rewrite En. reflexivity.
  - rewrite Ez. cbv iota beta.
    cbn [jdmarker.unread_marker jdmarker.next_restart_num].
    rewrite Em. cbv iota beta.
    unfold jdmarker.set_unread_marker, jdmarker.set_next_restart_num.
    cbn [jdmarker.unread_marker jdmarker.next_restart_num
         jdmarker.next_input_byte jdmarker.discarded_bytes
         jdmarker.insufficient_data jdmarker.warnings].
    rewrite En. reflexivity.
Qed.

(** X10.  A restart marker written by the encoder is taken by the
    decoder without resynchronisation.  With RSTn expected, no byte
    discarded and fewer than 8 padding bits left in the bit buffer,
    [process_restart] on an input that continues 0xFF, 0xD0 + n (or with
    that marker already in unread_marker) returns TRUE: the marker is
    consumed, the next one expected is RST((n + 1) mod 8), the bit buffer
    is empty, the DC predictions of the scan's components are zero, the
    restart counter is back at restart_interval, insufficient_data is
    clear and no warning is added. *)
Theorem process_restart_takes_expected_marker :
  forall (d : decompress_struct) (n : Z) (rest : list Z),
    0 <= n <= 7 ->
    jdmarker.next_restart_num (reader d) = n ->
    jdmarker.discarded_bytes (reader d) = 0 ->
    0 <= bits_left (entropy d) < 8 ->
    (jdmarker.unread_marker (reader d) = 0 /\
     jdmarker.next_input_byte (reader d) = 0xFF :: (0xD0 + n) :: rest) \/
    (jdmarker.unread_marker (reader d) = 0xD0 + n /\
     jdmarker.next_input_byte (reader d) = rest) ->
    exists d',
      process_restart d = Returned (true, d') /\
      jdmarker.next_input_byte (reader d') = rest /\
      jdmarker.unread_marker (reader d') = 0 /\
      jdmarker.next_restart_num (reader d') = (n + 1) mod 8 /\
      jdmarker.discarded_bytes (reader d') = 0 /\
      jdmarker.insufficient_data (reader d') = false /\
      jdmarker.warnings (reader d') = jdmarker.warnings (reader d) /\
      bits_left (entropy d') = 0 /\
      restarts_to_go (entropy d') = restart_interval d /\
      forall i,
        nth i (last_dc_val (entropy d')) 0
          = if Nat.ltb i (Z.to_nat (comps_in_scan d)) then 0
            else nth i (last_dc_val (entropy d)) 0.
Proof.
  intros [[inp um db nrn ins ws] cs ri [gb bl dc togo]] n rest Hn Hnum Hdb
    Hbl Hin.
  cbn [reader entropy jdmarker.next_restart_num jdmarker.discarded_bytes
       jdmarker.unread_marker jdmarker.next_input_byte bits_left] in *.
  subst nrn db.
  assert (Eq : cdiv bl 8 = 0) by (unfold cdiv; apply Z.quot_small; lia).
  unfold process_restart, finish_pass_huff.
  cbn [reader entropy comps_in_scan restart_interval bits_left get_buffer
       last_dc_val restarts_to_go jdmarker.discarded_bytes].
  rewrite Eq. change (to_JUINT (0 + 0)) with 0.
  unfold set_discarded_bytes.
  cbn [jdmarker.next_input_byte jdmarker.unread_marker
       jdmarker.next_restart_num jdmarker.insufficient_data
       jdmarker.warnings jdmarker.discarded_bytes].
  rewrite (read_restart_marker_expected inp um n ins ws rest Hn Hin).
  cbn [bind_outcome negb jdmarker.unread_marker].
  change (0 =? 0) with true. cbv iota.
  eexists. split; [reflexivity|].
  cbn [reader entropy set_insufficient_data jdmarker.next_input_byte
       jdmarker.unread_marker jdmarker.next_restart_num
       jdmarker.insufficient_data jdmarker.warnings jdmarker.discarded_bytes
       bits_left restarts_to_go last_dc_val comps_in_scan restart_interval].
  repeat split.
  intro i. apply reset_last_dc_nth.
Qed.

Lemma process_restart_takes_expected_marker_witness :
  exists d',
    process_restart restart_spec.ex_at_restart = Returned (true, d') /\
    jdmarker.next_input_byte (reader d') = [0x12] /\
    jdmarker.unread_marker (reader d') = 0 /\
    jdmarker.next_restart_num (reader d') = (3 + 1) mod 8 /\
    jdmarker.discarded_bytes (reader d') = 0 /\
    jdmarker.insufficient_data (reader d') = false /\
    jdmarker.warnings (reader d')
      = jdmarker.warnings (reader restart_spec.ex_at_restart) /\
    bits_left (entropy d') = 0 /\
    restarts_to_go (entropy d')
      = restart_interval restart_spec.ex_at_restart /\
    forall i,
      nth i (last_dc_val (entropy d')) 0
        = if Nat.ltb i (Z.to_nat (comps_in_scan restart_spec.ex_at_restart))
          then 0
          else nth i (last_dc_val (entropy restart_spec.ex_at_restart)) 0.
Proof.
  apply (process_restart_takes_expected_marker restart_spec.ex_at_restart 3
           [0x12]).
  - lia.
  - reflexivity.
  - reflexivity.
  - simpl. lia.
  - left. split; reflexivity.
Defined.

End restart_properties.

Section restart_counter_properties.
Import jchuff props restart_spec.

Lemma encode_mcu_huff_counters c m c' :
  encode_mcu_huff c m = Returned (true, c') ->
  scan c' = scan c /\
  restarts_to_go (entropy c') = fst (update_restart_state c) /\
  next_restart_num (entropy c') = snd (update_restart_state c).
Proof.
  unfold encode_mcu_huff.
  destruct (_ THEN _) as [[st|st]| |]; try discriminate.
  destruct (update_restart_state c) as [togo num].
  intro H. apply Returned_inj in H. injection H as <-. cbn. auto.
Qed.

Lemma counters_step R t togo num :
  0 < R < 2 ^ 32 -> 0 <= t -> counters_after R t togo num ->
  counters_after R (t + 1)
    (to_JUINT ((if togo =? 0 then R else togo) - 1))
    (if togo =? 0 then Z.land (to_JINT (num + 1)) 7 else num).
Proof.
  intros HR Ht [(-> & -> & ->)|(H1 & -> & ->)]; right.
  - replace (R =? 0) with false by lia.
    unfold to_JUINT. rewrite wrap_u_small by lia.
    replace (0 + 1 - 1) with 0 by lia.
    rewrite Z.mod_0_l, Z.div_0_l by lia. repeat split; lia.
  - replace (t + 1 - 1) with t by lia.
    pose proof (Z.div_mod (t - 1) R ltac:(lia)) as D.
    pose proof (Z.mod_pos_bound (t - 1) R ltac:(lia)) as M.
    set (q := (t - 1) / R) in *. set (a := (t - 1) mod R) in *.
    destruct (R - 1 - a =? 0) eqn:E.
    + assert (Em : t mod R = 0)
        by (symmetry; apply Z.mod_unique with (q := q + 1); nia).
      assert (Ed : t / R = q + 1)
        by (symmetry; apply Z.div_unique with (r := 0); nia).
      rewrite Em, Ed. unfold to_JUINT. rewrite wrap_u_small by lia.
      split; [lia|]. split; [lia|].
      pose proof (Z.mod_pos_bound q 8 ltac:(lia)).
      rewrite to_JINT_small by (change (2 ^ 31) with 2147483648; lia).
      rewrite land_7_mod. rewrite Zplus_mod_idemp_l. reflexivity.
    + assert (Em : t mod R = a + 1)
        by (symmetry; apply Z.mod_unique with (q := q); nia).
      assert (Ed : t / R = q)
        by (symmetry; apply Z.div_unique with (r := a + 1); nia).
      rewrite Em, Ed. unfold to_JUINT. rewrite wrap_u_small by lia.
      repeat split; lia.
Qed.

Lemma encode_mcus_counters mcus : forall c c' t,
  0 < restart_interval (scan c) < 2 ^ 32 -> 0 <= t ->
  counters_after (restart_interval (scan c)) t
    (restarts_to_go (entropy c)) (next_restart_num (entropy c)) ->
  encode_mcus c mcus = Returned (true, c') ->
  scan c' = scan c /\
  counters_after (restart_interval (scan c)) (t + Z.of_nat (length mcus))
    (restarts_to_go (entropy c')) (next_restart_num (entropy c')).
Proof.
  induction mcus as [|m rest IH]; intros c c' t HR Ht Inv Hrun;
    cbn [encode_mcus] in Hrun.
  - apply Returned_inj in Hrun. injection Hrun as <-.
    cbn [length]. rewrite Z.add_0_r. auto.
  - destruct (encode_mcu_huff c m) as [[[|] c1]| |] eqn:E1; try discriminate.
    destruct (encode_mcu_huff_counters c m c1 E1) as (Hs & Hg & Hn).
    pose proof (counters_step _ _ _ _ HR Ht Inv) as Inv1.
    assert (Inv1' : counters_after (restart_interval (scan c1)) (t + 1)
                      (restarts_to_go (entropy c1))
                      (next_restart_num (entropy c1))).
    { rewrite Hs, Hg, Hn. unfold update_restart_state.
      replace (restart_interval (scan c) =? 0) with false by lia.
      cbn [negb].
      destruct (restarts_to_go (entropy c) =? 0); exact Inv1. }
    rewrite <- Hs in HR.
    destruct (IH c1 c' (t + 1) HR ltac:(lia) Inv1' Hrun) as [Hs' Inv'].
    split; [congruence|]. rewrite <- Hs.
    replace (t + Z.of_nat (length (m :: rest)))
      with (t + 1 + Z.of_nat (length rest)) by (cbn [length]; lia).
    exact Inv'.
Qed.

(** X11.  The encoder's restart counters count MCUs.  In a scan with
    restart_interval R > 0 that [start_pass_huff] has set up
    (restarts_to_go = R, next_restart_num = 0), after k >= 1 MCUs have
    been encoded restarts_to_go is R - 1 - (k - 1) mod R and
    next_restart_num is ((k - 1) / R) mod 8: the counter reaches zero,
    and the next MCU is preceded by a restart marker, exactly after
    R, 2R, 3R, ... MCUs, and the marker numbers run 0, 1, ..., 7, 0, ...
    With restart_interval 0 the counters never change. *)
Theorem restart_counters_count_mcus :
  forall mcus c c',
    encode_mcus (start_pass_huff c) mcus = Returned (true, c') ->
    let R := restart_interval (scan c) in
    let k := Z.of_nat (length mcus) in
    scan c' = scan c /\
    (0 < R < 2 ^ 32 -> 1 <= k ->
     restarts_to_go (entropy c') = R - 1 - (k - 1) mod R /\
     next_restart_num (entropy c') = ((k - 1) / R) mod 8 /\
     (restarts_to_go (entropy c') = 0 <-> k mod R = 0)) /\
    (R = 0 ->
     restarts_to_go (entropy c') = 0 /\ next_restart_num (entropy c') = 0).
Proof.
  intros mcus c c' Hrun R k.
  assert (Hscan : scan c' = scan c /\
                  (R = 0 -> restarts_to_go (entropy c') = 0 /\
                            next_restart_num (entropy c') = 0)).
  { clear k. revert Hrun.
    assert (G : forall l d, scan d = scan c ->
              encode_mcus d l = Returned (true, c') ->
              scan c' = scan c /\
              (R = 0 -> restarts_to_go (entropy d) = 0 ->
                        next_restart_num (entropy d) = 0 ->
                        restarts_to_go (entropy c') = 0 /\
                        next_restart_num (entropy c') = 0)).
    { induction l as [|m l IH]; intros d Hd Hr; cbn [encode_mcus] in Hr.
      - apply Returned_inj in Hr. injection Hr as <-. auto.
      - destruct (encode_mcu_huff d m) as [[[|] d1]| |] eqn:E1;
          try discriminate.
        destruct (encode_mcu_huff_counters d m d1 E1) as (Hs & Hg & Hn).
        destruct (IH d1 ltac:(congruence) Hr) as [A B].
        split; [exact A|]. intros R0 G0 N0. apply B; [exact R0| |].
        + rewrite Hg. unfold update_restart_state. rewrite Hd.
          fold R. rewrite R0. exact G0.
        + rewrite Hn. unfold update_restart_state. rewrite Hd.
          fold R. rewrite R0. exact N0. }
    intro Hrun. destruct (G mcus (start_pass_huff c) eq_refl Hrun) as [A B].
    split; [exact A|]. intro R0. apply B; [exact R0| |reflexivity].
    cbn. exact R0. }
  destruct Hscan as [Hs H0]. split; [exact Hs|]. split; [|exact H0].
  intros HR Hk.
  destruct (encode_mcus_counters mcus (start_pass_huff c) c' 0)
    as [_ Inv]; try assumption; try lia.
  { left. cbn. auto. }
  cbn [start_pass_huff scan] in Inv. fold R in Inv.
  rewrite Z.add_0_l in Inv. fold k in Inv.
  destruct Inv as [(E & _)|(_ & Hg & Hn)]; [lia|].
  split; [exact Hg|]. split; [exact Hn|]. rewrite Hg.
  pose proof (Z.div_mod (k - 1) R ltac:(lia)) as D.
  pose proof (Z.mod_pos_bound (k - 1) R ltac:(lia)) as M.
  split; intro H.
  - symmetry. apply Z.mod_unique with (q := (k - 1) / R + 1); nia.
  - pose proof (Z.div_mod k R ltac:(lia)) as D'. rewrite H in D'.
    assert (E : (k - 1) mod R = R - 1).
    { symmetry. apply Z.mod_unique with (q := k / R - 1); nia. }
    lia.
Qed.

Lemma restart_counters_count_mcus_witness :
  scan ex_encoder' = scan ex_encoder /\
  (0 < 2 < 2 ^ 32 -> 1 <= 5 ->
   restarts_to_go (entropy ex_encoder') = 2 - 1 - (5 - 1) mod 2 /\
   next_restart_num (entropy ex_encoder') = ((5 - 1) / 2) mod 8 /\
   (restarts_to_go (entropy ex_encoder') = 0 <-> 5 mod 2 = 0)) /\
  (2 = 0 ->
   restarts_to_go (entropy ex_encoder') = 0 /\
   next_restart_num (entropy ex_encoder') = 0).
Proof.
  apply (restart_counters_count_mcus ex_mcus ex_encoder ex_encoder').
  vm_compute. reflexivity.
Defined.

End restart_counter_properties.
(** ** Finding the next marker (jdmarker.c) *)

Section next_marker_properties.
Import jdmarker.

Lemma next_marker_scan_true : forall inp (in_ff : bool) c c',
  0 <= discarded_bytes c ->
  discarded_bytes c + Z.of_nat (length inp) + (if in_ff then 1 else 0)
    < 2 ^ 32 ->
  next_marker_scan inp in_ff c = (true, c') ->
  discarded_bytes c = 0 /\
  exists k m,
    (in_ff = false -> (1 <= k)%nat) /\
    inp = repeat 0xFF k ++ m :: next_input_byte c' /\
    m <> 0 /\ m <> 0xFF /\
    c' = mk_dinfo (next_input_byte c') m 0 (next_restart_num c)
           (insufficient_data c) (warnings c).
Proof.
  induction inp as [|x rest IH]; intros in_ff c c' H0 Hlen Hrun;
    cbn [next_marker_scan] in Hrun; [discriminate|].
  cbn [length] in Hlen. rewrite Nat2Z.inj_succ in Hlen.
  assert (W : forall n, 0 < n ->
            discarded_bytes c + n < 2 ^ 32 ->
            discarded_bytes (discard_and_sync c n rest)
              = discarded_bytes c + n).
  { intros n Hn Hb. cbn. unfold to_JUINT. apply wrap_u_small. lia. }
  destruct in_ff.
  - destruct (x =? 255) eqn:Ex.
    + apply Z.eqb_eq in Ex. subst x.
      assert (B1 : discarded_bytes c + Z.of_nat (length rest) + 1 < 2 ^ 32)
        by lia.
      destruct (IH true c c' H0 B1 Hrun)
        as (Hd & k & m & _ & Hin & Hm0 & Hm1 & Hc).
      split; [exact Hd|]. exists (S k), m.
      split; [discriminate|]. split; [cbn; rewrite Hin; reflexivity|]. auto.
    + destruct (x =? 0) eqn:Ez; cbn [negb] in Hrun.
      * pose proof (W 2 ltac:(lia) ltac:(lia)) as Hw.
        assert (B0 : 0 <= discarded_bytes (discard_and_sync c 2 rest))
          by (rewrite Hw; lia).
        assert (B1 : discarded_bytes (discard_and_sync c 2 rest)
                     + Z.of_nat (length rest) + 0 < 2 ^ 32)
          by (rewrite Hw; lia).
        destruct (IH false _ c' B0 B1 Hrun) as (Hd & _). lia.
      * unfold next_marker_found in Hrun.
        destruct (discarded_bytes c =? 0) eqn:Ed; cbn [negb] in Hrun;
          [|discriminate].
        injection Hrun as <-. apply Z.eqb_eq in Ed.
        apply Z.eqb_neq in Ex, Ez. split; [exact Ed|].
        exists O, x. cbn [repeat app next_input_byte next_restart_num
                          insufficient_data warnings].
        split; [discriminate|]. split; [reflexivity|].
        split; [exact Ez|]. split; [exact Ex|]. rewrite Ed. reflexivity.
  - destruct (x =? 255) eqn:Ex.
    + apply Z.eqb_eq in Ex. subst x.
      assert (B1 : discarded_bytes c + Z.of_nat (length rest) + 1 < 2 ^ 32)
        by lia.
      destruct (IH true c c' H0 B1 Hrun)
        as (Hd & k & m & _ & Hin & Hm0 & Hm1 & Hc).
      split; [exact Hd|]. exists (S k), m.
      split; [lia|]. split; [cbn; rewrite Hin; reflexivity|]. auto.
    + pose proof (W 1 ltac:(lia) ltac:(lia)) as Hw.
      assert (B0 : 0 <= discarded_bytes (discard_and_sync c 1 rest))
        by (rewrite Hw; lia).
      assert (B1 : discarded_bytes (discard_and_sync c 1 rest)
                   + Z.of_nat (length rest) + 0 < 2 ^ 32)
        by (rewrite Hw; lia).
      destruct (IH false _ c' B0 B1 Hrun) as (Hd & _). lia.
Qed.

Lemma next_marker_scan_false : forall inp in_ff c c',
  next_marker_scan inp in_ff c = (false, c') ->
  unread_marker c' = unread_marker c /\
  next_restart_num c' = next_restart_num c /\
  insufficient_data c' = insufficient_data c /\
  (warnings c' = warnings c \/
   discarded_bytes c' = 0 /\
   exists n m, warnings c' = JWRN_EXTRANEOUS_DATA n m :: warnings c).
Proof.
  induction inp as [|x rest IH]; intros in_ff c c' Hrun;
    cbn [next_marker_scan] in Hrun.
  - injection Hrun as <-. auto.
  - assert (D : forall n, next_marker_scan rest false
                            (discard_and_sync c n rest) = (false, c') ->
                unread_marker c' = unread_marker c /\
                next_restart_num c' = next_restart_num c /\
                insufficient_data c' = insufficient_data c /\
                (warnings c' = warnings c \/
                 discarded_bytes c' = 0 /\
                 exists n m,
                   warnings c' = JWRN_EXTRANEOUS_DATA n m :: warnings c)).
    { intros n Hn. exact (IH false _ c' Hn). }
    destruct in_ff.
    + destruct (x =? 255); [exact (IH true c c' Hrun)|].
      destruct (x =? 0); cbn [negb] in Hrun; [exact (D 2 Hrun)|].
      unfold next_marker_found in Hrun.
      destruct (discarded_bytes c =? 0); cbn [negb] in Hrun; [discriminate|].
      injection Hrun as <-. cbn. repeat split. right. split; [reflexivity|].
      eexists. eexists. reflexivity.
    + destruct (x =? 255); [exact (IH true c c' Hrun)|exact (D 1 Hrun)].
Qed.

(** X12.  [next_marker] returns TRUE only for a marker that stands right
    at the read pointer: with the count of discarded bytes not about to
    wrap, TRUE means that nothing had been discarded, that the input was
    one or more 0xFF bytes followed by a byte m that is neither 0 nor
    0xFF, that m is now the unread marker and the input continues after
    it.  Such an input with nothing discarded does give TRUE.  On FALSE
    the unread marker is as before, and either the input ran out or the
    extraneous-data warning was logged and the count reset to zero. *)
Theorem next_marker_accepts_only_a_marker_at_hand :
  (forall c c',
      0 <= discarded_bytes c ->
      discarded_bytes c + bytes_in_buffer c < 2 ^ 32 ->
      next_marker c = (true, c') ->
      discarded_bytes c = 0 /\
      exists k m,
        next_input_byte c = repeat 0xFF (S k) ++ m :: next_input_byte c' /\
        m <> 0 /\ m <> 0xFF /\ unread_marker c' = m /\
        discarded_bytes c' = 0 /\ warnings c' = warnings c /\
        next_restart_num c' = next_restart_num c) /\
  (forall c k m rest,
      discarded_bytes c = 0 -> m <> 0 -> m <> 0xFF ->
      next_input_byte c = repeat 0xFF (S k) ++ m :: rest ->
      next_marker c
        = (true, mk_dinfo rest m 0 (next_restart_num c)
                   (insufficient_data c) (warnings c))) /\
  (forall c c',
      next_marker c = (false, c') ->
      unread_marker c' = unread_marker c /\
      next_restart_num c' = next_restart_num c /\
      (warnings c' = warnings c \/
       discarded_bytes c' = 0 /\
       exists n m, warnings c' = JWRN_EXTRANEOUS_DATA n m :: warnings c)).
Proof.
  split; [|split].
  - intros c c' H0 Hlen Hrun. unfold next_marker, bytes_in_buffer in *.
    assert (B1 : discarded_bytes c + Z.of_nat (length (next_input_byte c)) + 0
                 < 2 ^ 32) by lia.
    destruct (next_marker_scan_true _ false c c' H0 B1 Hrun)
      as (Hd & k & m & Hk & Hin & Hm0 & Hm1 & Hc).
    split; [exact Hd|]. destruct k as [|k]; [specialize (Hk eq_refl); lia|].
    exists k, m. split; [exact Hin|]. rewrite Hc. cbn.
    repeat split; assumption.
  - intros c k m rest Hd Hm0 Hm1 Hin. unfold next_marker. rewrite Hin.
    cbn [repeat app next_marker_scan]. change (255 =? 255) with true.
    cbv iota. clear Hin. induction k as [|k IH].
    + cbn [repeat app next_marker_scan]. apply Z.eqb_neq in Hm0, Hm1.
      rewrite Hm1, Hm0. cbn [negb]. unfold next_marker_found.
      rewrite Hd. reflexivity.
    + cbn [repeat app next_marker_scan]. change (255 =? 255) with true.
      cbv iota. exact IH.
  - intros c c' Hrun.
    destruct (next_marker_scan_false _ false c c' Hrun) as (A & B & _ & C).
    auto.
Qed.

Lemma next_marker_accepts_only_a_marker_at_hand_witness :
  (discarded_bytes (mk_dinfo [0xFF; 0xFF; 0xD9; 7] 0 0 0 false []) = 0 /\
   exists k m,
     next_input_byte (mk_dinfo [0xFF; 0xFF; 0xD9; 7] 0 0 0 false [])
       = repeat 0xFF (S k) ++ m :: next_input_byte
                                     (mk_dinfo [7] 0xD9 0 0 false []) /\
     m <> 0 /\ m <> 0xFF /\
     unread_marker (mk_dinfo [7] 0xD9 0 0 false []) = m /\
     discarded_bytes (mk_dinfo [7] 0xD9 0 0 false []) = 0 /\
     warnings (mk_dinfo [7] 0xD9 0 0 false [])
       = warnings (mk_dinfo [0xFF; 0xFF; 0xD9; 7] 0 0 0 false []) /\
     next_restart_num (mk_dinfo [7] 0xD9 0 0 false [])
       = next_restart_num (mk_dinfo [0xFF; 0xFF; 0xD9; 7] 0 0 0 false [])) /\
  next_marker (mk_dinfo [0xFF; 0xFF; 0xD9; 7] 0 0 0 false [])
    = (true, mk_dinfo [7] 0xD9 0 0 false []) /\
  (unread_marker (mk_dinfo [0xFF] 0 1 0 false [])
     = unread_marker (mk_dinfo [0x12; 0xFF] 0 0 0 false []) /\
   next_restart_num (mk_dinfo [0xFF] 0 1 0 false [])
     = next_restart_num (mk_dinfo [0x12; 0xFF] 0 0 0 false []) /\
   (warnings (mk_dinfo [0xFF] 0 1 0 false [])
      = warnings (mk_dinfo [0x12; 0xFF] 0 0 0 false []) \/
    discarded_bytes (mk_dinfo [0xFF] 0 1 0 false []) = 0 /\
    exists n m,
      warnings (mk_dinfo [0xFF] 0 1 0 false [])
        = JWRN_EXTRANEOUS_DATA n m
            :: warnings (mk_dinfo [0x12; 0xFF] 0 0 0 false []))).
Proof.
  split; [|split].
  - apply (proj1 next_marker_accepts_only_a_marker_at_hand
             (mk_dinfo [0xFF; 0xFF; 0xD9; 7] 0 0 0 false [])
             (mk_dinfo [7] 0xD9 0 0 false [])).
    + simpl. lia.
    + vm_compute. reflexivity.
    + reflexivity.
  - apply (proj1 (proj2 next_marker_accepts_only_a_marker_at_hand)
             (mk_dinfo [0xFF; 0xFF; 0xD9; 7] 0 0 0 false []) 1%nat 0xD9 [7]).
    + reflexivity.
    + lia.
    + lia.
    + reflexivity.
  - apply (proj2 (proj2 next_marker_accepts_only_a_marker_at_hand)
             (mk_dinfo [0x12; 0xFF] 0 0 0 false [])
             (mk_dinfo [0xFF] 0 1 0 false [])).
    reflexivity.
Defined.

End next_marker_properties.
(** ** Skipping a segment with the memory source (jdatasrc.c, jdmarker.c) *)

Section skip_properties.
Import jdatasrc jdmarker_segments.

Lemma skip_loop_wraps n b :
  0 < b -> 0 < n < 2 ^ 32 ->
  exists k,
    skip_loop n b = Returned k /\ 1 <= k /\ k <= n /\
    (n <= b -> k = n) /\ (b < n -> k <= b) /\ (n - k) mod b = 0.
Proof.
  funelim (skip_loop n b); intros Hb Hn.
  - exists nbytes. split; [reflexivity|].
    rewrite Z.sub_diag, Z.mod_0_l by lia. repeat split; lia.
  - lia.
  - assert (E : to_JSIZE (nbytes - b) = nbytes - b)
      by (unfold to_JSIZE; apply wrap_u_small; lia).
    rewrite E in *.
    destruct (H Hb ltac:(lia)) as (k & Hr & H1 & Hle & Hsmall & Hbig & Hm).
    exists k. split; [exact Hr|]. split; [exact H1|]. split; [lia|].
    split; [lia|]. split.
    + intros _. destruct (Z_le_gt_dec (nbytes - b) b); lia.
    + replace (nbytes - k) with (nbytes - b - k + 1 * b) by lia.
      rewrite Z.mod_add by lia. exact Hm.
Qed.

Lemma skip_loop_empty n : 0 < n -> skip_loop n 0 = Diverged.
Proof.
  intro Hn. funelim (skip_loop n 0); try lia; reflexivity.
Qed.

(** X13.  Skipping with the memory source.  [skip_input_data_std] moves
    the read pointer by num_bytes when that many bytes are left.  When
    fewer are left it does not stop at the end of the input: with an
    empty buffer it never returns, and otherwise it moves by some k in
    1..bytes_in_buffer that differs from num_bytes by a multiple of
    bytes_in_buffer.  So [skip_variable] never returns on a segment
    whose two length bytes, announcing more than themselves, are the
    last bytes of the input; on a complete segment it returns TRUE with
    the read pointer just behind the segment. *)
Theorem skip_past_end_of_input :
  (forall inp n,
      0 < n < 2 ^ 31 -> n <= Z.of_nat (length inp) ->
      skip_input_data_std inp n = Returned (skipn (Z.to_nat n) inp)) /\
  (forall n, 0 < n < 2 ^ 31 -> skip_input_data_std [] n = Diverged) /\
  (forall inp n,
      0 < n < 2 ^ 31 -> inp <> [] -> Z.of_nat (length inp) < n ->
      exists k,
        skip_input_data_std inp n = Returned (skipn (Z.to_nat k) inp) /\
        1 <= k <= Z.of_nat (length inp) /\
        (n - k) mod Z.of_nat (length inp) = 0) /\
  (forall c hi lo,
      is_byte_pair hi lo -> 2 < hi * 256 + lo ->
      next_input_byte c = [hi; lo] ->
      skip_variable c = Diverged) /\
  (forall c hi lo body rest,
      is_byte_pair hi lo ->
      Z.of_nat (length body) = hi * 256 + lo - 2 ->
      next_input_byte c = hi :: lo :: body ++ rest ->
      skip_variable c = Returned (true, INPUT_SYNC c rest)).
Proof.
  assert (J : forall n, 0 < n < 2 ^ 31 -> to_JSIZE n = n).
  { intros n Hn. unfold to_JSIZE. apply wrap_u_small.
    change (2 ^ 32) with (2 * 2 ^ 31). lia. }
  assert (L : forall hi lo, is_byte_pair hi lo ->
            INPUT_2BYTES_value hi lo = hi * 256 + lo).
  { intros hi lo [Hh Hl]. unfold INPUT_2BYTES_value.
    rewrite Z.shiftl_mul_pow2 by lia. change (2 ^ 8) with 256.
    unfold to_JUINT.
    rewrite (wrap_u_small 32 (hi * 256))
      by (change (2 ^ 32) with 4294967296; lia).
    apply wrap_u_small. change (2 ^ 32) with 4294967296. lia. }
  assert (S3 : forall z, -2 <= z < 65536 -> to_INT32 z = z).
  { intros z Hz. unfold to_INT32. apply wrap_s_small; [lia|].
    change (2 ^ (32 - 1)) with 2147483648. lia. }
  assert (S3' : forall z, -2 <= z < 65536 -> to_JLONG z = z) by exact S3.
  split; [|split; [|split; [|split]]].
  - intros inp n Hn Hle. unfold skip_input_data_std.
    replace (n >? 0) with true by lia. rewrite J by exact Hn.
    destruct (Z.eq_dec (Z.of_nat (length inp)) 0) as [E0|N0]; [lia|].
    destruct (skip_loop_wraps n (Z.of_nat (length inp)) ltac:(lia)
                ltac:(change (2 ^ 32) with (2 * 2 ^ 31); lia))
      as (k & Hr & _ & _ & Hsmall & _).
    rewrite Hr. cbn [bind_outcome]. rewrite (Hsmall Hle). reflexivity.
  - intros n Hn. unfold skip_input_data_std.
    replace (n >? 0) with true by lia. rewrite J by exact Hn.
    cbn [length Z.of_nat]. rewrite skip_loop_empty by lia. reflexivity.
  - intros inp n Hn Hne Hlt. unfold skip_input_data_std.
    replace (n >? 0) with true by lia. rewrite J by exact Hn.
    assert (Hpos : 0 < Z.of_nat (length inp))
      by (destruct inp; [congruence|cbn [length]; lia]).
    destruct (skip_loop_wraps n (Z.of_nat (length inp)) Hpos
                ltac:(change (2 ^ 32) with (2 * 2 ^ 31); lia))
      as (k & Hr & H1 & _ & _ & Hbig & Hm).
    exists k. rewrite Hr. cbn [bind_outcome].
    split; [reflexivity|]. split; [lia|exact Hm].
  - intros c hi lo Hb Hlen Hin. unfold skip_variable. rewrite Hin.
    cbn [INPUT_2BYTES]. fold (INPUT_2BYTES_value hi lo). rewrite (L _ _ Hb).
    destruct Hb as [Hh Hl].
    rewrite (S3 (hi * 256 + lo)), (S3 (hi * 256 + lo - 2)),
      (S3' (hi * 256 + lo - 2)) by lia.
    replace (hi * 256 + lo - 2 >? 0) with true by lia.
    unfold skip_input_data_std.
    replace (hi * 256 + lo - 2 >? 0) with true by lia.
    rewrite J by (change (2 ^ 31) with 2147483648; lia).
    cbn [length Z.of_nat]. rewrite skip_loop_empty by lia. reflexivity.
  - intros c hi lo body rest Hb Hlen Hin. unfold skip_variable. rewrite Hin.
    cbn [INPUT_2BYTES]. fold (INPUT_2BYTES_value hi lo). rewrite (L _ _ Hb).
    destruct Hb as [Hh Hl].
    rewrite (S3 (hi * 256 + lo)), (S3 (hi * 256 + lo - 2)),
      (S3' (hi * 256 + lo - 2)) by lia.
    destruct (hi * 256 + lo - 2 >? 0) eqn:E.
    + unfold skip_input_data_std. rewrite E.
      rewrite J by (change (2 ^ 31) with 2147483648; lia).
      destruct (skip_loop_wraps (hi * 256 + lo - 2)
                  (Z.of_nat (length (body ++ rest))))
        as (k & Hr & _ & _ & Hsmall & _).
      { rewrite length_app. lia. }
      { change (2 ^ 32) with 4294967296. lia. }
      rewrite Hr. cbn [bind_outcome].
      rewrite Hsmall by (rewrite length_app; lia).
      rewrite <- Hlen, Nat2Z.id, skipn_app, skipn_all, Nat.sub_diag.
      reflexivity.
    + assert (body = []) by (destruct body; [reflexivity|cbn in Hlen; lia]).
      subst body. reflexivity.
Qed.

Lemma skip_past_end_of_input_witness :
  skip_input_data_std [1; 2; 3] 2 = Returned (skipn (Z.to_nat 2) [1; 2; 3]) /\
  skip_input_data_std [] 5 = Diverged /\
  (exists k,
     skip_input_data_std [1; 2; 3] 5
       = Returned (skipn (Z.to_nat k) [1; 2; 3]) /\
     1 <= k <= Z.of_nat (length [1; 2; 3]) /\
     (5 - k) mod Z.of_nat (length [1; 2; 3]) = 0) /\
  skip_variable (mk_dinfo [0; 16] 0 [] [] [] []) = Diverged /\
  skip_variable (mk_dinfo [0; 4; 9; 9; 7] 0 [] [] [] [])
    = Returned (true, INPUT_SYNC (mk_dinfo [0; 4; 9; 9; 7] 0 [] [] [] []) [7]).
Proof.
  split; [|split; [|split; [|split]]].
  - apply (proj1 skip_past_end_of_input [1; 2; 3] 2); simpl; lia.
  - apply (proj1 (proj2 skip_past_end_of_input) 5). simpl. lia.
  - apply (proj1 (proj2 (proj2 skip_past_end_of_input)) [1; 2; 3] 5).
    + simpl. lia.
    + discriminate.
    + simpl. lia.
  - apply (proj1 (proj2 (proj2 (proj2 skip_past_end_of_input)))
             (mk_dinfo [0; 16] 0 [] [] [] []) 0 16).
    + unfold is_byte_pair. lia.
    + lia.
    + reflexivity.
  - apply (proj2 (proj2 (proj2 (proj2 skip_past_end_of_input)))
             (mk_dinfo [0; 4; 9; 9; 7] 0 [] [] [] []) 0 4 [9; 9] [7]).
    + unfold is_byte_pair. lia.
    + reflexivity.
    + reflexivity.
Defined.

End skip_properties.
(** ** Marker segments written and read back (jcmarker.c, jdmarker.c) *)

Section marker_writer_properties.
Import jcmarker marker_spec.

Lemma writes_refl c : writes c c [].
Proof.
  unfold writes. rewrite app_nil_r. cbn [length Z.of_nat].
  repeat split; try lia. destruct c; reflexivity.
Qed.

Lemma writes_trans c1 c2 c3 B1 B2 :
  writes c1 c2 B1 -> writes c2 c3 B2 -> writes c1 c3 (B1 ++ B2).
Proof.
  intros (W1 & N1 & F1 & L1 & E1) (W2 & N2 & F2 & L2 & E2).
  unfold writes. rewrite length_app, Nat2Z.inj_add.
  split; [rewrite W2, W1, app_assoc; reflexivity|].
  split; [lia|]. split; [lia|]. split; [congruence|].
  rewrite E2. rewrite E1 at 1. reflexivity.
Qed.

Lemma writes_fields c c' B :
  writes c c' B ->
  quant_tbl_ptrs c' = quant_tbl_ptrs c /\
  dc_huff_tbl_ptrs c' = dc_huff_tbl_ptrs c /\
  ac_huff_tbl_ptrs c' = ac_huff_tbl_ptrs c /\
  lim_Se c' = lim_Se c /\ natural_order c' = natural_order c /\
  restart_interval c' = restart_interval c.
Proof.
  intros (_ & _ & _ & _ & E). rewrite E. cbn. repeat split.
Qed.

Lemma marker_writes_bind c r k B1 B2 :
  marker_writes c r B1 ->
  (forall c1, writes c c1 B1 -> props.dest_room (dest c1) ->
              marker_writes c1 (k c1) B2) ->
  marker_writes c (bind_outcome r k) (B1 ++ B2).
Proof.
  intros H1 H2. destruct r as [c1| |]; cbn [bind_outcome marker_writes] in *.
  - destruct H1 as [W1 R1]. specialize (H2 c1 W1 R1).
    destruct (k c1) as [c2| |]; cbn [marker_writes] in *.
    + destruct H2 as [W2 R2]. split; [exact (writes_trans _ _ _ _ _ W1 W2)|].
      exact R2.
    + destruct W1 as (_ & _ & F1 & _). rewrite length_app, Nat2Z.inj_add. lia.
    + exact H2.
  - rewrite length_app, Nat2Z.inj_add. lia.
  - exact H1.
Qed.

Lemma emit_byte_writes c v :
  props.dest_room (dest c) -> marker_writes c (emit_byte c v) [to_JOCTET v].
Proof.
  intros (Hn & Hf & Hlen). unfold emit_byte.
  assert (E : to_JSIZE (jpeglib.free_in_buffer (dest c) - 1)
              = jpeglib.free_in_buffer (dest c) - 1).
  { unfold to_JSIZE. apply wrap_u_small. unfold JSIZE_MAX in Hf.
    change (2 ^ 32) with 4294967296. lia. }
  rewrite E.
  destruct (jpeglib.free_in_buffer (dest c) - 1 =? 0) eqn:E0;
    cbn [marker_writes length Z.of_nat]; [lia|].
  unfold writes, props.dest_written, props.written, props.dest_room,
    props.room, jchuff.store.
  cbn [dest set_dest jpeglib.out_mem jpeglib.next_output_byte
       jpeglib.free_in_buffer length].
  destruct (jpeglib.next_output_byte (dest c) <? 0) eqn:En; [lia|].
  rewrite list_set_length.
  split; [|unfold JSIZE_MAX in *; lia].
  split.
  { replace (Z.to_nat (jpeglib.next_output_byte (dest c) + 1))
      with (S (Z.to_nat (jpeglib.next_output_byte (dest c)))) by lia.
    apply firstn_S_list_set. lia. }
  repeat split; lia.
Qed.

Lemma low_byte v : to_JOCTET (Z.land v 0xFF) = v mod 256.
Proof.
  change 0xFF with (Z.ones 8). rewrite Z.land_ones by lia.
  change (2 ^ 8) with 256. apply to_JOCTET_small.
  apply Z.mod_pos_bound. lia.
Qed.

Lemma high_byte v : to_JOCTET (Z.land (Z.shiftr v 8) 0xFF) = (v / 256) mod 256.
Proof. rewrite low_byte, Z.shiftr_div_pow2 by lia. reflexivity. Qed.

Lemma emit_2bytes_writes c v :
  props.dest_room (dest c) -> marker_writes c (emit_2bytes c v) (two_bytes v).
Proof.
  intro R. unfold emit_2bytes, two_bytes.
  change [(v / 256) mod 256; v mod 256]
    with ([(v / 256) mod 256] ++ [v mod 256]).
  apply marker_writes_bind.
  - rewrite <- high_byte. apply emit_byte_writes. exact R.
  - intros c1 _ R1. rewrite <- low_byte. apply emit_byte_writes. exact R1.
Qed.

Lemma emit_marker_writes c m :
  props.dest_room (dest c) -> 0 <= m < 256 ->
  marker_writes c (emit_marker c m) [0xFF; m].
Proof.
  intros R Hm. unfold emit_marker. change [255; m] with ([255] ++ [m]).
  apply marker_writes_bind.
  - apply (emit_byte_writes c 255 R).
  - intros c1 _ R1.
    rewrite to_JINT_small by (change (2 ^ 31) with 2147483648; lia).
    rewrite <- (to_JOCTET_small m) at 2 by exact Hm.
    apply emit_byte_writes. exact R1.
Qed.

Lemma two_bytes_wrap v : two_bytes (to_JINT v) = two_bytes v.
Proof.
  unfold two_bytes, to_JINT.
  assert (E : forall z, (z / 256) mod 256 = (z mod 2 ^ 16) / 256).
  { intro z. change (2 ^ 16) with (256 * 256).
    rewrite Z.rem_mul_r by lia.
    rewrite (Z.mul_comm 256), Z.div_add by lia.
    rewrite (Z.div_small (z mod 256)) by (apply Z.mod_pos_bound; lia).
    reflexivity. }
  rewrite !E, wrap_s_low_bits by lia.
  replace (wrap_s 32 v mod 256) with (v mod 256); [reflexivity|].
  symmetry. apply (wrap_s_low_bits v 8). lia.
Qed.

Lemma emit_dri_writes c :
  props.dest_room (dest c) ->
  marker_writes c (emit_dri c) (dri_segment (restart_interval c)).
Proof.
  intro R. unfold emit_dri, dri_segment.
  change [255; 221; 0; 4] with ([255; 221] ++ [0; 4]).
  rewrite <- app_assoc.
  apply marker_writes_bind; [apply emit_marker_writes; [exact R|unfold M_DRI; lia]|].
  intros c1 W1 R1.
  apply marker_writes_bind; [apply (emit_2bytes_writes c1 4 R1)|].
  intros c2 W2 R2.
  assert (E : restart_interval c2 = restart_interval c).
  { destruct W1 as (_ & _ & _ & _ & E1). destruct W2 as (_ & _ & _ & _ & E2).
    rewrite E2, E1. reflexivity. }
  rewrite E, <- two_bytes_wrap. apply emit_2bytes_writes. exact R2.
Qed.

Lemma marker_writes_cases c r B :
  marker_writes c r B ->
  (jpeglib.free_in_buffer (dest c) <= Z.of_nat (length B) -> r = Asserted) /\
  (Z.of_nat (length B) < jpeglib.free_in_buffer (dest c) ->
   exists c', r = Returned c' /\ writes c c' B /\ props.dest_room (dest c')).
Proof.
  destruct r as [c'| |]; cbn [marker_writes].
  - intros [W R]. split.
    + intro H. destruct W as (_ & _ & F & _). destruct R as (_ & R & _). lia.
    + intros _. exists c'. auto.
  - intro H. split; [reflexivity|lia].
  - intros [].
Qed.

Lemma two_bytes_value v :
  (v / 256) mod 256 * 256 + v mod 256 = v mod 65536.
Proof.
  change 65536 with (256 * 256). rewrite Z.rem_mul_r by lia. lia.
Qed.

Lemma INPUT_2BYTES_two_bytes v rest :
  jdmarker_segments.INPUT_2BYTES (two_bytes v ++ rest)
    = Some (v mod 65536, rest).
Proof.
  unfold two_bytes. cbn [app jdmarker_segments.INPUT_2BYTES].
  pose proof (Z.mod_pos_bound (v / 256) 256 ltac:(lia)) as Hh.
  pose proof (Z.mod_pos_bound v 256 ltac:(lia)) as Hl.
  rewrite Z.shiftl_mul_pow2 by lia. change (2 ^ 8) with 256.
  unfold to_JUINT.
  rewrite (wrap_u_small 32 ((v / 256) mod 256 * 256))
    by (change (2 ^ 32) with 4294967296; lia).
  rewrite wrap_u_small by (change (2 ^ 32) with 4294967296; lia).
  rewrite two_bytes_value. reflexivity.
Qed.

(** X14.  The restart interval survives its DRI segment.  [emit_dri]
    needs seven free bytes: with six or fewer it stops on the assertion
    of emit_byte, with more it writes 0xFF 0xDD, the length 4 and the
    interval in two bytes and takes six bytes of room.  [get_dri],
    standing behind the marker code, reads the interval back modulo
    65536 and leaves the read pointer behind the segment; a segment
    whose length field is not 4 is refused with the bad-length warning,
    and with fewer than four bytes of input nothing changes. *)
Theorem restart_interval_survives_dri :
  forall c,
    props.dest_room (dest c) ->
    (jpeglib.free_in_buffer (dest c) <= 6 -> emit_dri c = Asserted) /\
    (6 < jpeglib.free_in_buffer (dest c) ->
     exists c',
       emit_dri c = Returned c' /\
       writes c c' (dri_segment (restart_interval c))) /\
    (forall d rest,
        jdmarker_segments.next_input_byte d
          = skipn 2 (dri_segment (restart_interval c)) ++ rest ->
        jdmarker_segments.get_dri d
          = (true,
             jdmarker_segments.INPUT_SYNC
               (jdmarker_segments.set_restart_interval d
                  (restart_interval c mod 65536)) rest)) /\
    (forall d hi lo rest,
        is_byte_pair hi lo -> hi * 256 + lo <> 4 ->
        jdmarker_segments.next_input_byte d = hi :: lo :: rest ->
        jdmarker_segments.get_dri d
          = (false,
             jdmarker_segments.warn d jdmarker_segments.JERR_BAD_LENGTH)) /\
    (forall d,
        (length (jdmarker_segments.next_input_byte d) < 4)%nat ->
        fst (jdmarker_segments.get_dri d) = false /\
        jdmarker_segments.next_input_byte (snd (jdmarker_segments.get_dri d))
          = jdmarker_segments.next_input_byte d /\
        jdmarker_segments.restart_interval
          (snd (jdmarker_segments.get_dri d))
          = jdmarker_segments.restart_interval d).
Proof.
  intros c R.
  destruct (marker_writes_cases _ _ _ (emit_dri_writes c R)) as [Hfull Hroom].
  cbn [dri_segment two_bytes app length Z.of_nat Pos.of_succ_nat] in Hfull,
    Hroom.
  split; [exact Hfull|]. split.
  { intro H. destruct (Hroom H) as (c' & Hr & W & _). exists c'. auto. }
  split; [|split].
  - intros d rest Hin. unfold jdmarker_segments.get_dri. rewrite Hin.
    unfold dri_segment. cbn [app skipn].
    change (0 :: 4 :: two_bytes (restart_interval c) ++ rest)
      with (two_bytes 4 ++ two_bytes (restart_interval c) ++ rest).
    rewrite INPUT_2BYTES_two_bytes. change (4 mod 65536) with 4.
    change (to_INT32 4) with 4. change (negb (4 =? 4)) with false. cbv iota.
    rewrite INPUT_2BYTES_two_bytes. reflexivity.
  - intros d hi lo rest [Hh Hl] Hne Hin.
    unfold jdmarker_segments.get_dri. rewrite Hin.
    cbn [jdmarker_segments.INPUT_2BYTES].
    rewrite Z.shiftl_mul_pow2 by lia. change (2 ^ 8) with 256.
    unfold to_JUINT.
    rewrite (wrap_u_small 32 (hi * 256))
      by (change (2 ^ 32) with 4294967296; lia).
    rewrite wrap_u_small by (change (2 ^ 32) with 4294967296; lia).
    unfold to_INT32.
    rewrite wrap_s_small by (change (2 ^ (32 - 1)) with 2147483648; lia).
    replace (hi * 256 + lo =? 4) with false by lia. reflexivity.
  - intros d Hlen. unfold jdmarker_segments.get_dri.
    destruct (jdmarker_segments.next_input_byte d) as [|b1 [|b2 l]] eqn:E;
      [cbn; auto|cbn; auto|].
    cbn [jdmarker_segments.INPUT_2BYTES].
    destruct (negb _); [cbn; auto|].
    destruct l as [|b3 [|b4 l']]; [cbn; auto|cbn; auto|].
    cbn [length] in Hlen. lia.
Qed.

Lemma restart_interval_survives_dri_witness :
  (jpeglib.free_in_buffer (dest ex_writer) <= 6 ->
   emit_dri ex_writer = Asserted) /\
  (6 < jpeglib.free_in_buffer (dest ex_writer) ->
   exists c',
     emit_dri ex_writer = Returned c' /\
     writes ex_writer c' (dri_segment (restart_interval ex_writer))) /\
  (forall d rest,
      jdmarker_segments.next_input_byte d
        = skipn 2 (dri_segment (restart_interval ex_writer)) ++ rest ->
      jdmarker_segments.get_dri d
        = (true,
           jdmarker_segments.INPUT_SYNC
             (jdmarker_segments.set_restart_interval d
                (restart_interval ex_writer mod 65536)) rest)) /\
  (forall d hi lo rest,
      is_byte_pair hi lo -> hi * 256 + lo <> 4 ->
      jdmarker_segments.next_input_byte d = hi :: lo :: rest ->
      jdmarker_segments.get_dri d
        = (false,
           jdmarker_segments.warn d jdmarker_segments.JERR_BAD_LENGTH)) /\
  (forall d,
      (length (jdmarker_segments.next_input_byte d) < 4)%nat ->
      fst (jdmarker_segments.get_dri d) = false /\
      jdmarker_segments.next_input_byte (snd (jdmarker_segments.get_dri d))
        = jdmarker_segments.next_input_byte d /\
      jdmarker_segments.restart_interval
        (snd (jdmarker_segments.get_dri d))
        = jdmarker_segments.restart_interval d).
Proof.
  apply (restart_interval_survives_dri ex_writer).
  unfold props.dest_room, props.room, JSIZE_MAX. simpl. lia.
Defined.

End marker_writer_properties.
(** ** Quantization tables through the DQT segment *)

(* One pass of the table loop of get_dqt. *)
Lemma dqt_loop_step cinfo inp len :
  jdmarker_segments.dqt_loop cinfo inp len =
  if len >? 0 then
    match jdmarker_segments.dqt_body cinfo inp len with
    | jdmarker_segments.DqtReturn r => r
    | jdmarker_segments.DqtAgain c i l => jdmarker_segments.dqt_loop c i l
    end
  else if len <? 0
       then (false,
             jdmarker_segments.warn cinfo jdmarker_segments.JERR_BAD_LENGTH)
       else (true, jdmarker_segments.INPUT_SYNC cinfo inp).
Proof.
  funelim (jdmarker_segments.dqt_loop cinfo inp len);
    destruct (len >? 0) eqn:E; try lia; try rewrite e; reflexivity.
Qed.

Section dqt_properties.
Import jcmarker marker_spec.

Lemma order_at_range k : (k < 64)%nat -> (order_at k < 64)%nat.
Proof.
  intro H.
  assert (C : forallb (fun i => Nat.ltb (order_at i) 64) (seq 0 64) = true)
    by (vm_compute; reflexivity).
  rewrite forallb_forall in C. apply Nat.ltb_lt. apply C.
  apply in_seq. lia.
Qed.

Lemma order_at_injective i k :
  (i < 64)%nat -> (k < 64)%nat -> order_at i = order_at k -> i = k.
Proof.
  intros Hi Hk E.
  assert (C : forallb (fun a => forallb (fun b =>
                orb (Nat.eqb a b) (negb (Nat.eqb (order_at a) (order_at b))))
                (seq 0 64)) (seq 0 64) = true)
    by (vm_compute; reflexivity).
  rewrite forallb_forall in C.
  specialize (C i ltac:(apply in_seq; lia)).
  rewrite forallb_forall in C.
  specialize (C k ltac:(apply in_seq; lia)).
  apply orb_true_iff in C. destruct C as [C|C].
  - apply Nat.eqb_eq. exact C.
  - rewrite E, Nat.eqb_refl in C. discriminate.
Qed.

Lemma order_at_onto j : (j < 64)%nat -> exists k, (k < 64)%nat /\ order_at k = j.
Proof.
  intro H.
  assert (C : forallb (fun b => existsb (fun a => Nat.eqb (order_at a) b)
                (seq 0 64)) (seq 0 64) = true)
    by (vm_compute; reflexivity).
  rewrite forallb_forall in C.
  specialize (C j ltac:(apply in_seq; lia)).
  apply existsb_exists in C. destruct C as (k & Hk & E).
  apply in_seq in Hk. apply Nat.eqb_eq in E. exists k. split; [lia|exact E].
Qed.

Lemma dqt_precision_low qv n : forall i prec,
  (forall k, (i <= k < i + n)%nat -> nth (order_at k) qv 0 <= 255) ->
  dqt_precision n i jpeg_natural_order qv prec = prec.
Proof.
  induction n as [|n IH]; intros i prec H; cbn [dqt_precision];
    [reflexivity|].
  fold (order_at i).
  replace (nth (order_at i) qv 0 >? 255) with false
    by (specialize (H i ltac:(lia)); lia).
  apply IH. intros k Hk. apply H. lia.
Qed.

Lemma dqt_precision_high qv n : forall i prec,
  prec = 1 \/
  (exists k, (i <= k < i + n)%nat /\ 255 < nth (order_at k) qv 0) ->
  dqt_precision n i jpeg_natural_order qv prec = 1.
Proof.
  induction n as [|n IH]; intros i prec H; cbn [dqt_precision].
  - destruct H as [H|(k & Hk & _)]; [exact H|lia].
  - fold (order_at i). apply IH.
    destruct (nth (order_at i) qv 0 >? 255) eqn:E; [left; reflexivity|].
    destruct H as [H|(k & Hk & Hv)]; [left; exact H|].
    right. exists k. split; [|exact Hv].
    destruct (Nat.eq_dec k i) as [->|Ne]; [lia|lia].
Qed.

Lemma emit_quantvals_writes qv n : forall i c,
  props.dest_room (dest c) ->
  (forall k, (i <= k < i + n)%nat -> 0 <= nth (order_at k) qv 0 <= 255) ->
  marker_writes c (emit_quantvals n i jpeg_natural_order qv 0 c)
    (map (fun k => nth (order_at k) qv 0) (seq i n)).
Proof.
  induction n as [|n IH]; intros i c R H; cbn [emit_quantvals seq map].
  - cbn [marker_writes]. split; [apply writes_refl|exact R].
  - change (negb (0 =? 0)) with false. cbv iota. cbn [bind_outcome].
    fold (order_at i).
    pose proof (H i ltac:(lia)) as Hi.
    change (?x :: ?l) with ([x] ++ l).
    apply marker_writes_bind.
    + assert (E : to_JOCTET (to_JINT (Z.land
                    (to_JUINT (nth (order_at i) qv 0)) 255))
                  = nth (order_at i) qv 0).
      { unfold to_JUINT.
        rewrite wrap_u_small by (change (2 ^ 32) with 4294967296; lia).
        change 255 with (Z.ones 8). rewrite Z.land_ones by lia.
        change (2 ^ 8) with 256. rewrite Z.mod_small by lia.
        rewrite to_JINT_small by (change (2 ^ 31) with 2147483648; lia).
        apply to_JOCTET_small. lia. }
      rewrite <- E at 2. apply emit_byte_writes. exact R.
    + intros c1 _ R1. apply IH; [exact R1|]. intros k Hk. apply H. lia.
Qed.

Lemma read_quantval_stores n : forall i vals rest qv,
  length vals = n -> (i + n <= 64)%nat -> length qv = 64%nat ->
  exists qv',
    jdmarker_segments.read_quantval n i (vals ++ rest) qv = (qv', Some rest) /\
    length qv' = 64%nat /\
    (forall k, (i <= k < i + n)%nat ->
       nth (order_at k) qv' 0 = to_UINT16 (nth (k - i) vals 0)) /\
    (forall j, (forall k, (i <= k < i + n)%nat -> order_at k <> j) ->
       nth j qv' 0 = nth j qv 0).
Proof.
  induction n as [|n IH]; intros i vals rest qv Hlen Hi Hq.
  - destruct vals; [|discriminate]. exists qv. cbn.
    repeat split; auto. intros k Hk. lia.
  - destruct vals as [|v vals]; [discriminate|]. injection Hlen as Hlen.
    cbn [app jdmarker_segments.read_quantval jdmarker_segments.INPUT_BYTE].
    fold (order_at i).
    destruct (IH (S i) vals rest (list_set qv (order_at i) (to_UINT16 v))
                Hlen ltac:(lia) ltac:(rewrite list_set_length; exact Hq))
      as (qv' & Hr & Hl & Hin & Hout).
    exists qv'. split; [exact Hr|]. split; [exact Hl|]. split.
    + intros k Hk. destruct (Nat.eq_dec k i) as [->|Ne].
      * rewrite Nat.sub_diag. cbn [nth]. rewrite Hout.
        -- apply nth_list_set_eq. rewrite Hq. apply order_at_range. lia.
        -- intros k Hk' E. apply order_at_injective in E; lia.
      * rewrite Hin by lia.
        replace (k - i)%nat with (S (k - S i)) by lia. reflexivity.
    + intros j Hj. rewrite Hout by (intros k Hk; apply Hj; lia).
      apply nth_list_set_neq. apply Hj. lia.
Qed.

Lemma zigzag_entries_length qv : length (zigzag_entries qv) = 64%nat.
Proof. unfold zigzag_entries. rewrite length_map, length_seq. reflexivity. Qed.

(* The writer's side for a table of 8-bit entries. *)
Lemma emit_dqt_baseline c index qtbl :
  props.dest_room (dest c) -> 0 <= index < NUM_QUANT_TBLS ->
  nth (Z.to_nat index) (quant_tbl_ptrs c) None = Some qtbl ->
  sent_table qtbl = false ->
  lim_Se c = 63 -> natural_order c = jpeg_natural_order ->
  (forall j, (j < 64)%nat -> 0 <= nth j (quantval qtbl) 0 <= 255) ->
  69 < jpeglib.free_in_buffer (dest c) ->
  exists c1,
    writes c c1 (dqt_segment index (quantval qtbl)) /\
    props.dest_room (dest c1) /\
    emit_dqt c index
      = Returned (0, set_quant_tbl_ptrs c1
                       (list_set (quant_tbl_ptrs c1) (Z.to_nat index)
                          (Some (mkJQUANT_TBL (quantval qtbl) true)))).
Proof.
  intros R Hi Hq Hsent HSe Hord Hlow Hfree.
  unfold NUM_QUANT_TBLS in Hi.
  assert (Hlow' : forall k, (0 <= k < 0 + 64)%nat ->
                    0 <= nth (order_at k) (quantval qtbl) 0 <= 255).
  { intros k Hk. apply Hlow. apply order_at_range. lia. }
  assert (Hprec : dqt_precision 64 0 jpeg_natural_order (quantval qtbl) 0 = 0).
  { apply dqt_precision_low. intros k Hk. apply Hlow'. exact Hk. }
  unfold emit_dqt, JSC_ASSERT.
  replace (0 <=? index) with true by lia.
  replace (index <? NUM_QUANT_TBLS) with true by (unfold NUM_QUANT_TBLS; lia).
  rewrite Hq, Hsent, HSe, Hord. cbn [negb].
  change (Z.to_nat (63 + 1)) with 64%nat. rewrite Hprec.
  change (negb (0 =? 0)) with false. cbv iota.
  change (Z.shiftl 0 4) with 0. rewrite Z.add_0_r.
  rewrite (to_JINT_small index) by (change (2 ^ 31) with 2147483648; lia).
  (* the marker *)
  destruct (marker_writes_cases _ _ _
              (emit_marker_writes c M_DQT R ltac:(unfold M_DQT; lia)))
    as [_ H1].
  destruct (H1 ltac:(cbn; lia)) as (c1 & E1 & W1 & R1). clear H1.
  rewrite E1. cbn [bind_outcome].
  destruct (writes_fields _ _ _ W1) as (_ & _ & _ & S1 & O1 & _).
  rewrite S1, HSe. change (to_JINT (63 + 1 + 1 + 2)) with 67.
  (* the length *)
  destruct (marker_writes_cases _ _ _ (emit_2bytes_writes c1 67 R1))
    as [_ H2].
  assert (F1 : jpeglib.free_in_buffer (dest c1)
               = jpeglib.free_in_buffer (dest c) - 2)
    by (destruct W1 as (_ & _ & F & _); exact F).
  destruct (H2 ltac:(cbn; lia)) as (c2 & E2 & W2 & R2). clear H2.
  rewrite E2. cbn [bind_outcome].
  destruct (writes_fields _ _ _ W2) as (_ & _ & _ & S2 & O2 & _).
  (* the slot *)
  pose proof (emit_byte_writes c2 index R2) as H3.
  rewrite to_JOCTET_small in H3 by lia.
  apply marker_writes_cases in H3. destruct H3 as [_ H3].
  assert (F2 : jpeglib.free_in_buffer (dest c2)
               = jpeglib.free_in_buffer (dest c) - 4)
    by (destruct W2 as (_ & _ & F & _); cbn in F; lia).
  destruct (H3 ltac:(cbn; lia)) as (c3 & E3 & W3 & R3). clear H3.
  rewrite E3. cbn [bind_outcome].
  destruct (writes_fields _ _ _ W3) as (_ & _ & _ & S3 & O3 & _).
  (* the entries *)
  rewrite O3, O2, O1, Hord.
  pose proof (emit_quantvals_writes (quantval qtbl) 64 0 c3 R3 Hlow') as H4.
  apply marker_writes_cases in H4. destruct H4 as [_ H4].
  assert (F3 : jpeglib.free_in_buffer (dest c3)
               = jpeglib.free_in_buffer (dest c) - 5)
    by (destruct W3 as (_ & _ & F & _); cbn in F; lia).
  destruct (H4 ltac:(rewrite length_map, length_seq; lia))
    as (c4 & E4 & W4 & R4). clear H4.
  rewrite E4. cbn [bind_outcome].
  exists c4. split; [|split; [exact R4|reflexivity]].
  unfold dqt_segment.
  change [255; 219; 0; 67; index] with ([255; M_DQT] ++ two_bytes 67 ++ [index]).
  rewrite <- !app_assoc.
  exact (writes_trans _ _ _ _ _ W1
           (writes_trans _ _ _ _ _ W2 (writes_trans _ _ _ _ _ W3 W4))).
Qed.

(* The reader's side for such a segment. *)
Lemma get_dqt_reads_segment d index qv rest :
  0 <= index < NUM_QUANT_TBLS ->
  length qv = 64%nat ->
  (forall j, (j < 64)%nat -> 0 <= nth j qv 0 <= 255) ->
  nth (Z.to_nat index) (jdmarker_segments.quant_tbl_ptrs d) None = None ->
  (Z.to_nat index < length (jdmarker_segments.quant_tbl_ptrs d))%nat ->
  jdmarker_segments.next_input_byte d
    = skipn 2 (dqt_segment index qv) ++ rest ->
  jdmarker_segments.get_dqt d
    = (true,
       jdmarker_segments.INPUT_SYNC
         (jdmarker_segments.set_quant_tbl d index (mkJQUANT_TBL qv false))
         rest).
Proof.
  intros Hi Hlen Hlow Hslot Hslots Hin. unfold NUM_QUANT_TBLS in Hi.
  unfold jdmarker_segments.get_dqt. rewrite Hin.
  unfold dqt_segment. cbn [app skipn].
  change (0 :: 67 :: index :: zigzag_entries qv ++ rest)
    with (two_bytes 67 ++ index :: zigzag_entries qv ++ rest).
  rewrite INPUT_2BYTES_two_bytes. change (67 mod 65536) with 67.
  change (to_INT32 (to_INT32 67 - 2)) with 65.
  rewrite dqt_loop_step. change (65 >? 0) with true. cbv iota.
  unfold jdmarker_segments.dqt_body.
  cbn [jdmarker_segments.INPUT_BYTE]. change (to_INT32 (65 - 1)) with 64.
  assert (En : Z.land index 15 = index).
  { change 15 with (Z.ones 4). rewrite Z.land_ones by lia.
    apply Z.mod_small. change (2 ^ 4) with 16. lia. }
  assert (Ep : Z.shiftr index 4 = 0).
  { rewrite Z.shiftr_div_pow2 by lia. apply Z.div_small.
    change (2 ^ 4) with 16. lia. }
  rewrite En, Ep.
  replace (index >=? NUM_QUANT_TBLS) with false
    by (unfold NUM_QUANT_TBLS; lia).
  rewrite Hslot. change (negb (0 =? 0)) with false. cbv iota.
  change (64 <? DCTSIZE2) with false. cbv iota.
  change (Z.to_nat DCTSIZE2) with 64%nat.
  destruct (read_quantval_stores 64 0 (zigzag_entries qv) rest
              (quantval fresh_quant_table) (zigzag_entries_length qv)
              ltac:(lia) eq_refl)
    as (qv' & Hr & Hl & Hst & _).
  rewrite Hr.
  assert (Eq : qv' = qv).
  { apply nth_ext with (d := 0) (d' := 0); [congruence|].
    intros j Hj. rewrite Hl in Hj.
    destruct (order_at_onto j Hj) as (k & Hk & <-).
    rewrite Hst by lia. rewrite Nat.sub_0_r.
    unfold zigzag_entries.
    rewrite (nth_indep _ 0 ((fun i => nth (order_at i) qv 0) 0%nat))
      by (rewrite length_map, length_seq; exact Hk).
    rewrite (map_nth (fun i => nth (order_at i) qv 0)).
    rewrite seq_nth by exact Hk. cbn [Nat.add].
    unfold to_UINT16. apply wrap_u_small.
    pose proof (Hlow (order_at k) (order_at_range k Hk)).
    change (2 ^ 16) with 65536. lia. }
  rewrite Eq. change (to_INT32 (64 - DCTSIZE2)) with 0.
  rewrite dqt_loop_step. change (0 >? 0) with false.
  change (0 <? 0) with false. cbv iota.
  f_equal. unfold jdmarker_segments.INPUT_SYNC,
    jdmarker_segments.set_quant_tbl.
  cbn [jdmarker_segments.quant_tbl_ptrs jdmarker_segments.next_input_byte
       jdmarker_segments.restart_interval jdmarker_segments.dc_huff_tbl_ptrs
       jdmarker_segments.ac_huff_tbl_ptrs jdmarker_segments.warnings
       sent_table fresh_quant_table].
  f_equal. clear. revert index.
  generalize (jdmarker_segments.quant_tbl_ptrs d). intros l index.
  generalize (Z.to_nat index). clear. intro n. revert n.
  induction l as [|x l IH]; intros [|n]; cbn; try reflexivity.
  rewrite IH. reflexivity.
Qed.

(** X15.  A baseline quantization table survives its DQT segment.  For
    a table in slot [index] whose 64 entries lie in 0..255 and that has
    not been sent, [emit_dqt] with 70 or more free bytes returns
    precision 0, writes 0xFF 0xDB, the length 67, the slot number and the
    entries in zig-zag order, and marks the table sent, so that a second
    call writes nothing.  [get_dqt], standing behind the marker code with
    that slot still empty, returns TRUE with exactly the table's entries
    in natural order in the slot and the read pointer behind the
    segment.  For a table with an entry above 255 [emit_dqt] can only
    return precision 1, and a segment that announces a nonzero
    precision is refused by [get_dqt] with the slot left allocated. *)
Theorem quant_table_survives_dqt :
  forall c index qtbl,
    props.dest_room (dest c) -> 0 <= index < NUM_QUANT_TBLS ->
    (Z.to_nat index < length (quant_tbl_ptrs c))%nat ->
    nth (Z.to_nat index) (quant_tbl_ptrs c) None = Some qtbl ->
    sent_table qtbl = false -> length (quantval qtbl) = 64%nat ->
    lim_Se c = 63 -> natural_order c = jpeg_natural_order ->
    ((forall j, (j < 64)%nat -> 0 <= nth j (quantval qtbl) 0 <= 255) ->
     69 < jpeglib.free_in_buffer (dest c) ->
     exists c',
       emit_dqt c index = Returned (0, c') /\
       props.dest_written (dest c')
         = props.dest_written (dest c) ++ dqt_segment index (quantval qtbl) /\
       nth (Z.to_nat index) (quant_tbl_ptrs c') None
         = Some (mkJQUANT_TBL (quantval qtbl) true) /\
       emit_dqt c' index = Returned (0, c') /\
       forall d rest,
         nth (Z.to_nat index) (jdmarker_segments.quant_tbl_ptrs d) None
           = None ->
         (Z.to_nat index
            < length (jdmarker_segments.quant_tbl_ptrs d))%nat ->
         jdmarker_segments.next_input_byte d
           = skipn 2 (dqt_segment index (quantval qtbl)) ++ rest ->
         exists d',
           jdmarker_segments.get_dqt d = (true, d') /\
           jdmarker_segments.next_input_byte d' = rest /\
           nth (Z.to_nat index) (jdmarker_segments.quant_tbl_ptrs d') None
             = Some (mkJQUANT_TBL (quantval qtbl) false) /\
           jdmarker_segments.warnings d' = jdmarker_segments.warnings d) /\
    ((exists j, (j < 64)%nat /\ 255 < nth j (quantval qtbl) 0) ->
     forall prec c', emit_dqt c index = Returned (prec, c') -> prec = 1) /\
    (forall d hi lo p rest,
        is_byte_pair hi lo -> 2 < hi * 256 + lo -> 1 <= p <= 15 ->
        nth (Z.to_nat index) (jdmarker_segments.quant_tbl_ptrs d) None
          = None ->
        jdmarker_segments.next_input_byte d
          = hi :: lo :: (index + 16 * p) :: rest ->
        jdmarker_segments.get_dqt d
          = (false,
             jdmarker_segments.warn
               (jdmarker_segments.set_quant_tbl d index fresh_quant_table)
               jdmarker_segments.JERR_JSC_NOSUPPORT)).
Proof.
  intros c index qtbl R Hi Hslots Hq Hsent Hlen HSe Hord.
  split; [|split].
  - intros Hlow Hfree.
    destruct (emit_dqt_baseline c index qtbl R Hi Hq Hsent HSe Hord Hlow Hfree)
      as (c1 & W & R1 & Hrun).
    destruct (writes_fields _ _ _ W) as (Q1 & _ & _ & S1 & O1 & _).
    eexists. split; [exact Hrun|].
    cbn [dest set_quant_tbl_ptrs quant_tbl_ptrs].
    split; [apply W|].
    assert (Hn : nth (Z.to_nat index)
                   (list_set (quant_tbl_ptrs c1) (Z.to_nat index)
                      (Some (mkJQUANT_TBL (quantval qtbl) true))) None
                 = Some (mkJQUANT_TBL (quantval qtbl) true)).
    { apply nth_list_set_eq. rewrite Q1. exact Hslots. }
    split; [exact Hn|]. split.
    + unfold emit_dqt, JSC_ASSERT.
      replace (0 <=? index) with true by lia.
      replace (index <? NUM_QUANT_TBLS) with true
        by (unfold NUM_QUANT_TBLS in *; lia).
      cbn [quant_tbl_ptrs set_quant_tbl_ptrs lim_Se natural_order].
      rewrite Hn. cbn [sent_table negb quantval].
      rewrite S1, HSe, O1, Hord. change (Z.to_nat (63 + 1)) with 64%nat.
      rewrite dqt_precision_low; [reflexivity|].
      intros k Hk. apply Hlow. apply order_at_range. lia.
    + intros d rest Hd Hds Hin.
      rewrite (get_dqt_reads_segment d index (quantval qtbl) rest Hi Hlen Hlow
                 Hd Hds Hin).
      eexists. split; [reflexivity|].
      cbn [jdmarker_segments.INPUT_SYNC jdmarker_segments.set_quant_tbl
           jdmarker_segments.next_input_byte jdmarker_segments.quant_tbl_ptrs
           jdmarker_segments.warnings].
      split; [reflexivity|]. split; [|reflexivity].
      apply nth_list_set_eq. exact Hds.
  - intros (j & Hj & Hbig) prec c' Hrun.
    destruct (order_at_onto j Hj) as (k & Hk & Ek).
    assert (Hp : dqt_precision 64 0 jpeg_natural_order (quantval qtbl) 0 = 1).
    { apply dqt_precision_high. right. exists k. rewrite Ek.
      split; [lia|exact Hbig]. }
    unfold emit_dqt, JSC_ASSERT in Hrun.
    replace (0 <=? index) with true in Hrun by lia.
    replace (index <? NUM_QUANT_TBLS) with true in Hrun
      by (unfold NUM_QUANT_TBLS in *; lia).
    rewrite Hq, Hsent, HSe, Hord in Hrun. cbn [negb] in Hrun.
    change (Z.to_nat (63 + 1)) with 64%nat in Hrun. rewrite Hp in Hrun.
    destruct (emit_marker c M_DQT) as [c1| |]; try discriminate.
    cbn [bind_outcome] in Hrun.
    destruct (emit_2bytes c1 _) as [c2| |]; try discriminate.
    cbn [bind_outcome] in Hrun.
    destruct (emit_byte c2 _) as [c3| |]; try discriminate.
    cbn [bind_outcome] in Hrun.
    destruct (emit_quantvals _ _ _ _ _ _) as [c4| |]; try discriminate.
    cbn [bind_outcome] in Hrun. apply Returned_inj in Hrun.
    injection Hrun as <- _. reflexivity.
  - intros d hi lo p rest [Hh Hl] Hlen2 Hp Hd Hin. unfold NUM_QUANT_TBLS in *.
    unfold jdmarker_segments.get_dqt. rewrite Hin.
    cbn [jdmarker_segments.INPUT_2BYTES].
    rewrite Z.shiftl_mul_pow2 by lia. change (2 ^ 8) with 256.
    unfold to_JUINT.
    rewrite (wrap_u_small 32 (hi * 256))
      by (change (2 ^ 32) with 4294967296; lia).
    rewrite wrap_u_small by (change (2 ^ 32) with 4294967296; lia).
    assert (S3 : forall z, -2 <= z < 65536 -> to_INT32 z = z).
    { intros z Hz. unfold to_INT32. apply wrap_s_small; [lia|].
      change (2 ^ (32 - 1)) with 2147483648. lia. }
    rewrite (S3 (hi * 256 + lo)), S3 by lia.
    rewrite dqt_loop_step.
    replace (hi * 256 + lo - 2 >? 0) with true by lia.
    unfold jdmarker_segments.dqt_body.
    cbn [jdmarker_segments.INPUT_BYTE].
    assert (En : Z.land (index + 16 * p) 15 = index).
    { change 15 with (Z.ones 4). rewrite Z.land_ones by lia.
      change (2 ^ 4) with 16.
      replace (index + 16 * p) with (index + p * 16) by lia.
      rewrite Z.mod_add by lia. apply Z.mod_small. lia. }
    assert (Ep : Z.shiftr (index + 16 * p) 4 = p).
    { rewrite Z.shiftr_div_pow2 by lia. change (2 ^ 4) with 16.
      replace (index + 16 * p) with (index + p * 16) by lia.
      rewrite Z.div_add by lia.
      rewrite (Z.div_small index) by lia. lia. }
    rewrite En, Ep.
    replace (index >=? NUM_QUANT_TBLS) with false
      by (unfold NUM_QUANT_TBLS; lia).
    rewrite Hd. replace (p =? 0) with false by lia. reflexivity.
Qed.

Lemma quant_table_survives_dqt_witness :
  exists c',
    emit_dqt ex_writer 0 = Returned (0, c') /\
    props.dest_written (dest c')
      = props.dest_written (dest ex_writer)
        ++ dqt_segment 0 std_luminance_quant_tbl /\
    nth 0 (quant_tbl_ptrs c') None
      = Some (mkJQUANT_TBL std_luminance_quant_tbl true) /\
    emit_dqt c' 0 = Returned (0, c') /\
    forall d rest,
      nth 0 (jdmarker_segments.quant_tbl_ptrs d) None = None ->
      (0 < length (jdmarker_segments.quant_tbl_ptrs d))%nat ->
      jdmarker_segments.next_input_byte d
        = skipn 2 (dqt_segment 0 std_luminance_quant_tbl) ++ rest ->
      exists d',
        jdmarker_segments.get_dqt d = (true, d') /\
        jdmarker_segments.next_input_byte d' = rest /\
        nth 0 (jdmarker_segments.quant_tbl_ptrs d') None
          = Some (mkJQUANT_TBL std_luminance_quant_tbl false) /\
        jdmarker_segments.warnings d' = jdmarker_segments.warnings d.
Proof.
  assert (R : props.dest_room (dest ex_writer))
    by (unfold props.dest_room, props.room, JSIZE_MAX; simpl; lia).
  apply (proj1 (quant_table_survives_dqt ex_writer 0
                  (mkJQUANT_TBL std_luminance_quant_tbl false) R
                  ltac:(unfold NUM_QUANT_TBLS; lia) ltac:(simpl; lia)
                  eq_refl eq_refl eq_refl eq_refl eq_refl)).
  - intros j Hj. cbn [quantval].
    destruct (std_quant_tbl_entries j) as [Hl _].
    rewrite (nth_indep _ 0 1) by (simpl; lia). lia.
  - simpl. lia.
Defined.

End dqt_properties.
(** ** Huffman tables through the DHT segment *)

(* One pass of the table loop of get_dht. *)
Lemma dht_loop_step cinfo inp len :
  jdmarker_segments.dht_loop cinfo inp len =
  if len >? 16 then
    match jdmarker_segments.dht_body cinfo inp len with
    | jdmarker_segments.DhtReturn r => r
    | jdmarker_segments.DhtAgain c i l => jdmarker_segments.dht_loop c i l
    end
  else if negb (len =? 0)
       then (false,
             jdmarker_segments.warn cinfo jdmarker_segments.JERR_BAD_LENGTH)
       else (true, jdmarker_segments.INPUT_SYNC cinfo inp).
Proof.
  funelim (jdmarker_segments.dht_loop cinfo inp len);
    destruct (len >? 16) eqn:E; try lia; try rewrite e; reflexivity.
Qed.

Section dht_properties.
Import jcmarker marker_spec.

Definition all_bytes (l : list Z) : Prop := Forall (fun b => 0 <= b < 256) l.

Lemma sum_nonneg l : all_bytes l -> 0 <= fold_right Z.add 0 l.
Proof. induction 1; cbn; lia. Qed.

Lemma slice_as_map {A} (d : A) n : forall i l,
  (i + n <= length l)%nat ->
  firstn n (skipn i l) = map (fun k => nth k l d) (seq i n).
Proof.
  induction n as [|n IH]; intros i l H; [reflexivity|].
  cbn [seq map]. rewrite <- IH by lia.
  replace (skipn (S i) l) with (tl (skipn i l))
    by (clear; revert l; induction i; intros [|x l]; cbn; auto;
        rewrite <- IHi; reflexivity).
  assert (Hs : (i < length l)%nat) by lia.
  revert Hs. clear. revert l.
  induction i as [|i IHi]; intros [|x l] Hs; cbn in *; try lia.
  - reflexivity.
  - apply IHi. lia.
Qed.

Lemma dht_length_sum bits n : forall i acc,
  all_bytes (map (fun k => nth k bits 0) (seq i n)) ->
  0 <= acc ->
  acc + fold_right Z.add 0 (map (fun k => nth k bits 0) (seq i n)) < 2 ^ 31 ->
  dht_length n i bits acc
    = acc + fold_right Z.add 0 (map (fun k => nth k bits 0) (seq i n)).
Proof.
  induction n as [|n IH]; intros i acc Hb H0 Hs; cbn [dht_length seq map
    fold_right] in *; [lia|].
  inversion Hb as [|x l Hx Hl]; subst.
  pose proof (sum_nonneg _ Hl).
  rewrite to_JINT_small by lia. rewrite IH; [lia|exact Hl|lia|lia].
Qed.

Lemma dht_count_sum l : forall acc,
  all_bytes l -> 0 <= acc -> acc + fold_right Z.add 0 l < 2 ^ 31 ->
  jdmarker_segments.dht_count l acc = acc + fold_right Z.add 0 l.
Proof.
  induction l as [|b l IH]; intros acc Hb H0 Hs;
    cbn [jdmarker_segments.dht_count fold_right] in *; [lia|].
  inversion Hb as [|x l' Hx Hl]; subst.
  pose proof (sum_nonneg _ Hl).
  rewrite to_JINT_small by lia. rewrite IH; [lia|exact Hl|lia|lia].
Qed.

Lemma emit_array_writes a n : forall i c,
  props.dest_room (dest c) ->
  all_bytes (map (fun k => nth k a 0) (seq i n)) ->
  marker_writes c (emit_array n i a c) (map (fun k => nth k a 0) (seq i n)).
Proof.
  induction n as [|n IH]; intros i c R Hb; cbn [emit_array seq map] in *.
  - cbn [marker_writes]. split; [apply writes_refl|exact R].
  - inversion Hb as [|x l Hx Hl]; subst.
    change (?x :: ?l) with ([x] ++ l).
    apply marker_writes_bind.
    + rewrite <- (to_JOCTET_small (nth i a 0)) at 2 by exact Hx.
      apply emit_byte_writes. exact R.
    + intros c1 _ R1. apply IH; assumption.
Qed.

Lemma read_bytes_all vals rest :
  jdmarker_segments.read_bytes (length vals) (vals ++ rest)
    = (vals, Some rest).
Proof.
  induction vals as [|v vals IH]; cbn; [reflexivity|].
  rewrite IH. reflexivity.
Qed.

Lemma dc_values_ok_low l :
  Forall (fun v => v <= 15) l -> jdmarker_segments.dc_values_ok l = true.
Proof.
  induction 1 as [|v l Hv _ IH]; cbn; [reflexivity|].
  replace (v >? 15) with false by lia. exact IH.
Qed.

Lemma dc_values_ok_high l :
  Exists (fun v => 15 < v) l -> jdmarker_segments.dc_values_ok l = false.
Proof.
  induction 1 as [v l Hv|v l _ IH]; cbn.
  - replace (v >? 15) with true by lia. reflexivity.
  - destruct (v >? 15); [reflexivity|exact IH].
Qed.

(* The sixteen counts of a table and their sum. *)
Lemma counts_as_map bits :
  length bits = 17%nat ->
  firstn 16 (skipn 1 bits) = map (fun k => nth k bits 0) (seq 1 16).
Proof. intro H. apply slice_as_map. lia. Qed.

Lemma symbols_as_map huffval n :
  (n <= length huffval)%nat ->
  firstn n huffval = map (fun k => nth k huffval 0) (seq 0 n).
Proof. intro H. apply (slice_as_map 0 n 0%nat huffval). lia. Qed.

Lemma emit_dht_unsent c index (is_ac : bool) htbl :
  let counts := firstn 16 (skipn 1 (jpeglib_tables.bits htbl)) in
  let count := fold_right Z.add 0 counts in
  props.dest_room (dest c) -> 0 <= index < NUM_HUFF_TBLS ->
  nth (Z.to_nat index)
      (if is_ac then ac_huff_tbl_ptrs c else dc_huff_tbl_ptrs c) None
    = Some htbl ->
  jpeglib_tables.sent_table htbl = false ->
  length (jpeglib_tables.bits htbl) = 17%nat ->
  all_bytes counts -> count <= 256 ->
  (Z.to_nat count <= length (jpeglib_tables.huffval htbl))%nat ->
  all_bytes (firstn (Z.to_nat count) (jpeglib_tables.huffval htbl)) ->
  21 + count < jpeglib.free_in_buffer (dest c) ->
  exists c1,
    writes c c1 (dht_segment is_ac index (jpeglib_tables.bits htbl)
                   (jpeglib_tables.huffval htbl)) /\
    props.dest_room (dest c1) /\
    emit_dht c index is_ac
      = Returned
          (let sent :=
             Some (jpeglib_tables.mk_JHUFF_TBL (jpeglib_tables.bits htbl)
                     (jpeglib_tables.huffval htbl) true) in
           if is_ac
           then set_ac_huff_tbl_ptrs c1
                  (list_set (ac_huff_tbl_ptrs c1) (Z.to_nat index) sent)
           else set_dc_huff_tbl_ptrs c1
                  (list_set (dc_huff_tbl_ptrs c1) (Z.to_nat index) sent)).
Proof.
  intros counts count R Hi Hslot Hsent Hlen Hcb Hcount Hvl Hvb Hfree.
  unfold NUM_HUFF_TBLS in Hi.
  pose proof (sum_nonneg _ Hcb) as Hc0. fold count in Hc0.
  assert (Ecounts : counts = map (fun k => nth k (jpeglib_tables.bits htbl) 0)
                               (seq 1 16))
    by (apply counts_as_map; exact Hlen).
  assert (Elen : dht_length 16 1 (jpeglib_tables.bits htbl) 0 = count).
  { rewrite dht_length_sum; rewrite <- ?Ecounts; fold count;
      try assumption; change (2 ^ 31) with 2147483648; lia. }
  assert (Lcounts : length counts = 16%nat)
    by (rewrite Ecounts, length_map, length_seq; reflexivity).
  assert (Lsyms : length (firstn (Z.to_nat count) (jpeglib_tables.huffval htbl))
                  = Z.to_nat count)
    by (rewrite length_firstn; lia).
  unfold emit_dht.
  assert (Hslot' :
    (if is_ac then nth (Z.to_nat index) (ac_huff_tbl_ptrs c) None
     else nth (Z.to_nat index) (dc_huff_tbl_ptrs c) None) = Some htbl)
    by (destruct is_ac; exact Hslot).
  rewrite Hslot', Hsent. cbn [negb]. rewrite Elen.
  (* the marker *)
  destruct (marker_writes_cases _ _ _
              (emit_marker_writes c M_DHT R ltac:(unfold M_DHT; lia)))
    as [_ H1].
  destruct (H1 ltac:(cbn; lia)) as (c1 & E1 & W1 & R1). clear H1.
  rewrite E1. cbn [bind_outcome].
  assert (F1 : jpeglib.free_in_buffer (dest c1)
               = jpeglib.free_in_buffer (dest c) - 2)
    by (destruct W1 as (_ & _ & F & _); exact F).
  (* the length *)
  rewrite (to_JINT_small (count + 2 + 1 + 16))
    by (change (2 ^ 31) with 2147483648; lia).
  destruct (marker_writes_cases _ _ _
              (emit_2bytes_writes c1 (count + 2 + 1 + 16) R1)) as [_ H2].
  destruct (H2 ltac:(cbn; lia)) as (c2 & E2 & W2 & R2). clear H2.
  rewrite E2. cbn [bind_outcome].
  assert (F2 : jpeglib.free_in_buffer (dest c2)
               = jpeglib.free_in_buffer (dest c) - 4)
    by (destruct W2 as (_ & _ & F & _); cbn in F; lia).
  (* class and slot *)
  set (ix := if is_ac then index + 16 else index).
  assert (Eix : (if is_ac then to_JINT (index + 16) else index) = ix).
  { unfold ix. destruct is_ac; [|reflexivity].
    apply to_JINT_small. change (2 ^ 31) with 2147483648. lia. }
  rewrite Eix.
  pose proof (emit_byte_writes c2 ix R2) as H3.
  rewrite to_JOCTET_small in H3 by (unfold ix; destruct is_ac; lia).
  apply marker_writes_cases in H3. destruct H3 as [_ H3].
  destruct (H3 ltac:(cbn; lia)) as (c3 & E3 & W3 & R3). clear H3.
  rewrite E3. cbn [bind_outcome].
  assert (F3 : jpeglib.free_in_buffer (dest c3)
               = jpeglib.free_in_buffer (dest c) - 5)
    by (destruct W3 as (_ & _ & F & _); cbn in F; lia).
  (* the counts *)
  pose proof (emit_array_writes (jpeglib_tables.bits htbl) 16 1 c3 R3) as H4.
  rewrite <- Ecounts in H4. specialize (H4 Hcb).
  apply marker_writes_cases in H4. destruct H4 as [_ H4].
  destruct (H4 ltac:(lia)) as (c4 & E4 & W4 & R4). clear H4.
  rewrite E4. cbn [bind_outcome].
  assert (F4 : jpeglib.free_in_buffer (dest c4)
               = jpeglib.free_in_buffer (dest c) - 21)
    by (destruct W4 as (_ & _ & F & _); lia).
  (* the symbols *)
  pose proof (emit_array_writes (jpeglib_tables.huffval htbl)
                (Z.to_nat count) 0 c4 R4) as H5.
  rewrite <- symbols_as_map in H5 by exact Hvl. specialize (H5 Hvb).
  apply marker_writes_cases in H5. destruct H5 as [_ H5].
  destruct (H5 ltac:(lia)) as (c5 & E5 & W5 & R5). clear H5.
  rewrite E5. cbn [bind_outcome].
  exists c5. split; [|split; [exact R5|reflexivity]].
  unfold dht_segment. fold counts. fold count. fold ix.
  replace (count + 19) with (count + 2 + 1 + 16) by lia.
  change [255; 196] with [255; M_DHT].
  exact (writes_trans _ _ _ _ _ W1
           (writes_trans _ _ _ _ _ W2
              (writes_trans _ _ _ _ _ W3 (writes_trans _ _ _ _ _ W4 W5)))).
Qed.

(* What get_dht does with the segment of one table: a DC table with a
   symbol above 15 is refused; otherwise the slot gets the counts behind
   bits[0] = 0 and the symbols, copied over the front of what it held. *)
Lemma get_dht_reads_segment d (is_ac : bool) index bits huffval rest :
  let counts := firstn 16 (skipn 1 bits) in
  let count := fold_right Z.add 0 counts in
  let syms := firstn (Z.to_nat count) huffval in
  let slots := if is_ac then jdmarker_segments.ac_huff_tbl_ptrs d
               else jdmarker_segments.dc_huff_tbl_ptrs d in
  let old := match nth (Z.to_nat index) slots None with
             | Some t => t
             | None => jdmarker_segments.fresh_huff_table
             end in
  let tbl := jdhuff.mk_JHUFF_TBL (0 :: counts)
               (syms ++ skipn (Z.to_nat count) (jdhuff.huffval old)) in
  0 <= index < NUM_HUFF_TBLS -> length bits = 17%nat ->
  all_bytes counts -> count <= 256 ->
  (Z.to_nat count <= length huffval)%nat ->
  jdmarker_segments.next_input_byte d
    = skipn 2 (dht_segment is_ac index bits huffval) ++ rest ->
  jdmarker_segments.get_dht d
    = if (negb is_ac && negb (jdmarker_segments.dc_values_ok syms))%bool
      then (false,
            jdmarker_segments.warn d jdmarker_segments.JERR_JSC_BAD_HUFFVALS)
      else (true,
            jdmarker_segments.INPUT_SYNC
              (if is_ac then jdmarker_segments.set_ac_huff_tbl d index tbl
               else jdmarker_segments.set_dc_huff_tbl d index tbl) rest).
Proof.
  intros counts count syms slots old tbl Hi Hlen Hcb Hcount Hvl Hin.
  unfold NUM_HUFF_TBLS in Hi.
  pose proof (sum_nonneg _ Hcb) as Hc0. fold count in Hc0.
  assert (Lcounts : length counts = 16%nat)
    by (unfold counts; rewrite counts_as_map, length_map, length_seq;
        [reflexivity|exact Hlen]).
  assert (Lsyms : length syms = Z.to_nat count)
    by (unfold syms; rewrite length_firstn; lia).
  assert (S3 : forall z, -2 <= z < 65536 -> to_INT32 z = z).
  { intros z Hz. unfold to_INT32. apply wrap_s_small; [lia|].
    change (2 ^ (32 - 1)) with 2147483648. lia. }
  unfold jdmarker_segments.get_dht. rewrite Hin.
  unfold dht_segment. fold counts. fold count. fold syms.
  cbn [app skipn]. rewrite <- app_assoc.
  rewrite INPUT_2BYTES_two_bytes. rewrite Z.mod_small by lia.
  rewrite (S3 (count + 19)), S3 by lia.
  rewrite dht_loop_step. replace (count + 19 - 2 >? 16) with true by lia.
  cbv iota. unfold jdmarker_segments.dht_body.
  cbn [app jdmarker_segments.INPUT_BYTE].
  rewrite <- !app_assoc.
  rewrite <- Lcounts at 1. rewrite read_bytes_all.
  rewrite dht_count_sum by (try assumption; fold count;
    change (2 ^ 31) with 2147483648; lia).
  fold count. rewrite Z.add_0_l.
  replace (count + 19 - 2 - (1 + 16)) with count by lia.
  rewrite !(S3 count) by lia.
  replace (count >? 256) with false by lia.
  replace (count >? count) with false by lia. cbn [orb].
  rewrite <- Lsyms at 1. rewrite read_bytes_all.
  rewrite Z.sub_diag. change (to_INT32 0) with 0.
  set (ix := if is_ac then index + 16 else index).
  assert (Eac : negb (Z.land ix 16 =? 0) = is_ac).
  { unfold ix. destruct is_ac.
    - assert (index = 0 \/ index = 1) as [-> | ->] by lia; reflexivity.
    - assert (index = 0 \/ index = 1) as [-> | ->] by lia; reflexivity. }
  rewrite Eac.
  assert (Eix : (if is_ac then to_JINT (ix - 16) else ix) = index).
  { unfold ix. destruct is_ac; [|reflexivity].
    replace (index + 16 - 16) with index by lia.
    apply to_JINT_small. change (2 ^ 31) with 2147483648. lia. }
  rewrite Eix.
  destruct (negb is_ac && negb (jdmarker_segments.dc_values_ok syms))%bool;
    [reflexivity|].
  replace (index <? 0) with false by lia.
  replace (index >=? NUM_HUFF_TBLS) with false
    by (unfold NUM_HUFF_TBLS; lia).
  cbn [orb]. cbv iota.
  rewrite dht_loop_step. change (0 >? 16) with false.
  change (negb (0 =? 0)) with false. cbv iota.
  rewrite Lsyms. fold slots. fold old. fold tbl. reflexivity.
Qed.

(** X16.  A Huffman table survives its DHT segment.  For a table of
    either class in slot [index] that has not been sent, whose sixteen
    counts are bytes summing to [count] <= 256 and whose first [count]
    symbols are bytes, [emit_dht] with more than [21 + count] free
    bytes writes 0xFF 0xC4, the length [count + 19], the class and slot
    byte, the counts and the symbols, and marks the table sent, so that
    a second call writes nothing.  [get_dht], standing behind the marker
    code, returns TRUE with the counts behind a zero in [bits] and those
    symbols at the front of [huffval] of the same slot, the read pointer
    behind the segment and no warning; but when the table is a DC table
    with a symbol above 15 it returns FALSE with JERR_JSC_BAD_HUFFVALS
    and the slot as it was. *)
Theorem huffman_table_survives_dht :
  forall c index (is_ac : bool) htbl,
    let bits := jpeglib_tables.bits htbl in
    let huffval := jpeglib_tables.huffval htbl in
    let counts := firstn 16 (skipn 1 bits) in
    let count := fold_right Z.add 0 counts in
    let syms := firstn (Z.to_nat count) huffval in
    let slots := fun c =>
      if is_ac then ac_huff_tbl_ptrs c else dc_huff_tbl_ptrs c in
    let dslots := fun d =>
      if is_ac then jdmarker_segments.ac_huff_tbl_ptrs d
      else jdmarker_segments.dc_huff_tbl_ptrs d in
    props.dest_room (dest c) -> 0 <= index < NUM_HUFF_TBLS ->
    (Z.to_nat index < length (slots c))%nat ->
    nth (Z.to_nat index) (slots c) None = Some htbl ->
    jpeglib_tables.sent_table htbl = false ->
    length bits = 17%nat -> all_bytes counts -> count <= 256 ->
    (Z.to_nat count <= length huffval)%nat -> all_bytes syms ->
    21 + count < jpeglib.free_in_buffer (dest c) ->
    exists c',
      emit_dht c index is_ac = Returned c' /\
      props.dest_written (dest c')
        = props.dest_written (dest c)
          ++ dht_segment is_ac index bits huffval /\
      nth (Z.to_nat index) (slots c') None
        = Some (jpeglib_tables.mk_JHUFF_TBL bits huffval true) /\
      emit_dht c' index is_ac = Returned c' /\
      forall d rest,
        (Z.to_nat index < length (dslots d))%nat ->
        jdmarker_segments.next_input_byte d
          = skipn 2 (dht_segment is_ac index bits huffval) ++ rest ->
        (is_ac = true \/ Forall (fun v => v <= 15) syms ->
         exists d' t,
           jdmarker_segments.get_dht d = (true, d') /\
           jdmarker_segments.next_input_byte d' = rest /\
           nth (Z.to_nat index) (dslots d') None = Some t /\
           jdhuff.bits t = 0 :: counts /\
           firstn (Z.to_nat count) (jdhuff.huffval t) = syms /\
           jdmarker_segments.warnings d' = jdmarker_segments.warnings d) /\
        (is_ac = false -> Exists (fun v => 15 < v) syms ->
         jdmarker_segments.get_dht d
           = (false,
              jdmarker_segments.warn d
                jdmarker_segments.JERR_JSC_BAD_HUFFVALS)).
Proof.
  intros c index is_ac htbl bits huffval counts count syms slots dslots
    R Hi Hslots Hslot Hsent Hlen Hcb Hcount Hvl Hvb Hfree.
  destruct (emit_dht_unsent c index is_ac htbl R Hi Hslot Hsent Hlen Hcb
              Hcount Hvl Hvb Hfree) as (c1 & W & R1 & Hrun).
  destruct (writes_fields _ _ _ W) as (_ & D1 & A1 & _).
  cbv zeta in Hrun.
  set (sent := jpeglib_tables.mk_JHUFF_TBL bits huffval true).
  fold bits huffval in Hrun. fold sent in Hrun.
  assert (Lsyms : length syms = Z.to_nat count)
    by (unfold syms; rewrite length_firstn; lia).
  eexists. split; [exact Hrun|].
  assert (Hn : nth (Z.to_nat index)
                 (slots (if is_ac
                         then set_ac_huff_tbl_ptrs c1
                                (list_set (ac_huff_tbl_ptrs c1)
                                   (Z.to_nat index) (Some sent))
                         else set_dc_huff_tbl_ptrs c1
                                (list_set (dc_huff_tbl_ptrs c1)
                                   (Z.to_nat index) (Some sent)))) None
               = Some sent).
  { unfold slots in *. destruct is_ac;
      cbn [set_ac_huff_tbl_ptrs set_dc_huff_tbl_ptrs ac_huff_tbl_ptrs
           dc_huff_tbl_ptrs];
      apply nth_list_set_eq; rewrite ?A1, ?D1; exact Hslots. }
  split; [|split; [exact Hn|split]].
  - destruct is_ac; cbn [dest set_ac_huff_tbl_ptrs set_dc_huff_tbl_ptrs];
      apply W.
  - unfold emit_dht. unfold slots in Hn.
    destruct is_ac; rewrite Hn; reflexivity.
  - intros d rest Hds Hin.
    pose proof (get_dht_reads_segment d is_ac index bits huffval rest Hi Hlen
                  Hcb Hcount Hvl Hin) as Hrd.
    cbv zeta in Hrd. fold counts count syms in Hrd. split.
    + intro Hok.
      assert (Edc : (negb is_ac
                     && negb (jdmarker_segments.dc_values_ok syms))%bool
                    = false).
      { destruct Hok as [-> | Hok]; [reflexivity|].
        rewrite (dc_values_ok_low _ Hok). apply andb_false_r. }
      rewrite Edc in Hrd. rewrite Hrd.
      match type of Hrd with
      | _ = (true, ?d1) =>
          match d1 with
          | context [jdmarker_segments.set_dc_huff_tbl _ _ ?t] =>
              exists d1, t
          end
      end.
      split; [reflexivity|].
      split; [reflexivity|]. unfold dslots in *.
      split; [|split; [|split]].
      * destruct is_ac;
          cbn [jdmarker_segments.INPUT_SYNC jdmarker_segments.set_ac_huff_tbl
               jdmarker_segments.set_dc_huff_tbl
               jdmarker_segments.ac_huff_tbl_ptrs
               jdmarker_segments.dc_huff_tbl_ptrs];
          apply nth_list_set_eq; exact Hds.
      * reflexivity.
      * cbn [jdhuff.huffval]. rewrite <- Lsyms.
        rewrite firstn_app, Nat.sub_diag, firstn_all. cbn [firstn].
        apply app_nil_r.
      * destruct is_ac; reflexivity.
    + intros -> Hbad. rewrite (dc_values_ok_high _ Hbad) in Hrd.
      exact Hrd.
Qed.

Lemma huffman_table_survives_dht_witness :
  exists c',
    emit_dht ex_writer 0 false = Returned c' /\
    props.dest_written (dest c')
      = dht_segment false 0 (jpeglib_tables.bits ex_dc_table)
          (jpeglib_tables.huffval ex_dc_table) /\
    forall rest, exists d',
      jdmarker_segments.get_dht
        (ex_segment_reader
           (skipn 2 (dht_segment false 0 (jpeglib_tables.bits ex_dc_table)
                       (jpeglib_tables.huffval ex_dc_table)) ++ rest))
        = (true, d') /\
      jdmarker_segments.next_input_byte d' = rest.
Proof.
  assert (R : props.dest_room (dest ex_writer))
    by (unfold props.dest_room, props.room, JSIZE_MAX; simpl; lia).
  assert (Hc : all_bytes
                 (firstn 16 (skipn 1 (jpeglib_tables.bits ex_dc_table))))
    by (unfold all_bytes; cbn; repeat (constructor; [lia|]); constructor).
  assert (Hs : all_bytes
                 (firstn 12 (jpeglib_tables.huffval ex_dc_table)))
    by (unfold all_bytes; cbn; repeat (constructor; [lia|]); constructor).
  assert (Hlow : Forall (fun v => v <= 15)
                   (firstn 12 (jpeglib_tables.huffval ex_dc_table)))
    by (cbn; repeat (constructor; [lia|]); constructor).
  destruct (huffman_table_survives_dht ex_writer 0 false ex_dc_table R
              ltac:(unfold NUM_HUFF_TBLS; lia) ltac:(simpl; lia)
              eq_refl eq_refl eq_refl Hc ltac:(simpl; lia)
              ltac:(simpl; lia) Hs ltac:(simpl; lia))
    as (c' & E & W & _ & _ & Hrd).
  exists c'. split; [exact E|]. split; [exact W|].
  intro rest.
  destruct (Hrd (ex_segment_reader
                   (skipn 2 (dht_segment false 0
                               (jpeglib_tables.bits ex_dc_table)
                               (jpeglib_tables.huffval ex_dc_table)) ++ rest))
              rest ltac:(simpl; lia) eq_refl) as [Hok _].
  destruct (Hok (or_intror Hlow)) as (d' & t & E1 & E2 & _).
  exists d'. split; [exact E1|exact E2].
Defined.

End dht_properties.
(** ** The Huffman codes of a table (Figures C.1 to C.3, F.15) *)

Lemma generate_codes_step rest code si hc :
  jdhuff.generate_codes rest code si hc =
  match jdhuff.codes_body rest code si hc with
  | jdhuff.CodesDone hc' => Returned hc'
  | jdhuff.CodesAsserted => Asserted
  | jdhuff.CodesNext rest' code' si' hc' =>
      jdhuff.generate_codes rest' code' si' hc'
  end.
Proof.
  funelim (jdhuff.generate_codes rest code si hc); rewrite e; reflexivity.
Qed.

Section huffman_code_properties.
Import jdhuff huffman_spec.

Lemma run_sizes_length n : forall k bits,
  counts_ok bits k n ->
  Z.of_nat (length (run_sizes n k bits)) = index_after bits k n.
Proof.
  induction n as [|n IH]; intros k bits H; cbn [run_sizes index_after].
  - reflexivity.
  - rewrite length_app, repeat_length, Nat2Z.inj_add.
    rewrite IH by (intros j Hj; apply H; lia).
    pose proof (H k ltac:(lia)). lia.
Qed.

Lemma run_codes_length n : forall k bits code,
  length (run_codes n k bits code) = length (run_sizes n k bits).
Proof.
  induction n as [|n IH]; intros k bits code; cbn [run_sizes run_codes].
  - reflexivity.
  - rewrite !length_app, length_map, length_seq, repeat_length, IH.
    reflexivity.
Qed.

Lemma run_sizes_range n : forall k bits,
  Forall (fun s => Z.of_nat k <= s < Z.of_nat (k + n)) (run_sizes n k bits).
Proof.
  induction n as [|n IH]; intros k bits; cbn [run_sizes].
  - constructor.
  - apply Forall_app. split.
    + apply Forall_forall. intros x Hx. apply repeat_spec in Hx. lia.
    + eapply Forall_impl; [|apply IH]. cbn. intros a Ha. lia.
Qed.

(* Figure C.1 *)
Lemma make_huffsize_runs n : forall k htbl acc hs,
  make_huffsize n (Z.of_nat k) htbl acc = Returned hs ->
  (length acc <= 256)%nat ->
  hs = acc ++ run_sizes n k (bits htbl) /\
  counts_ok (bits htbl) k n /\ (length hs <= 256)%nat.
Proof.
  induction n as [|n IH]; intros k htbl acc hs H Hacc; cbn [make_huffsize] in H.
  - apply Returned_inj in H. subst hs. cbn [run_sizes].
    rewrite app_nil_r. split; [reflexivity|]. split; [|exact Hacc].
    intros j Hj. lia.
  - apply JSC_ASSERT_Returned in H. destruct H as [H0 H].
    apply JSC_ASSERT_Returned in H. destruct H as [H1 H].
    rewrite Nat2Z.id in *.
    replace (Z.of_nat k + 1) with (Z.of_nat (S k)) in H by lia.
    apply IH in H.
    2:{ rewrite length_app, repeat_length. lia. }
    destruct H as (E & C & L). cbn [run_sizes].
    split; [rewrite E, <- app_assoc; reflexivity|]. split; [|exact L].
    intros j Hj. destruct (Nat.eq_dec j k) as [->|Hne].
    + unfold codes_of_length. lia.
    + apply C. lia.
Qed.

Lemma run_codes_nil n : forall k bits code,
  run_sizes n k bits = [] -> run_codes n k bits code = [].
Proof.
  intros k bits code H. apply length_zero_iff_nil.
  rewrite run_codes_length, H. reflexivity.
Qed.

Lemma runs_fit_nil n : forall k bits code,
  counts_ok bits k n -> run_sizes n k bits = [] -> runs_fit n k bits code.
Proof.
  induction n as [|n IH]; intros k bits code C H; cbn [runs_fit run_sizes] in *.
  - exact I.
  - apply app_eq_nil in H. destruct H as [H1 H2].
    assert (Z.to_nat (codes_of_length bits k) = 0%nat)
      by (apply (f_equal (@length Z)) in H1;
          rewrite repeat_length in H1; exact H1).
    split; [lia|]. apply IH; [|exact H2]. intros j Hj. apply C. lia.
Qed.

(* The inner loop of Figure C.2 on a run of [k] equal sizes. *)
Lemma assign_run_repeat si tail : forall k code hc,
  match tail with [] => True | t :: _ => t <> si end ->
  0 <= code -> code + Z.of_nat k < 2 ^ 32 ->
  assign_run (repeat si k ++ tail) code si hc
    = (tail, code + Z.of_nat k,
       hc ++ map (fun i => code + Z.of_nat i) (seq 0 k)).
Proof.
  induction k as [|k IH]; intros code hc Ht H0 Hk.
  - cbn [repeat app seq map]. rewrite app_nil_r, Z.add_0_r.
    destruct tail as [|t tail']; [reflexivity|].
    cbn [assign_run]. replace (t =? si) with false by lia. reflexivity.
  - cbn [repeat app assign_run]. rewrite Z.eqb_refl.
    unfold to_JUINT. rewrite wrap_u_small by lia.
    rewrite IH by (try assumption; lia).
    f_equal; [f_equal; lia|].
    rewrite <- app_assoc. f_equal. cbn [seq map app].
    rewrite Z.add_0_r. f_equal.
    rewrite <- seq_shift, map_map. apply map_ext. intro i. lia.
Qed.

(* Figure C.2 from the state in which [si] is the length [k] and [code]
   the first code of that length. *)
Lemma generate_codes_runs bits : forall n k code hc out,
  (k + n = 17)%nat -> (1 <= k)%nat -> 0 <= code < 2 ^ Z.of_nat k ->
  counts_ok bits k n -> (length (run_sizes n k bits) <= 256)%nat ->
  generate_codes (run_sizes n k bits ++ [0]) code (Z.of_nat k) hc
    = Returned out ->
  out = hc ++ run_codes n k bits code /\ runs_fit n k bits code.
Proof.
  induction n as [|n IH]; intros k code hc out Hkn Hk Hc C L H.
  - cbn [run_sizes run_codes runs_fit app] in *.
    rewrite generate_codes_step in H. cbn in H.
    apply Returned_inj in H. rewrite app_nil_r. auto.
  - destruct (run_sizes (S n) k bits) as [|s rest0] eqn:Ers.
    + rewrite generate_codes_step in H. cbn in H.
      apply Returned_inj in H.
      rewrite (run_codes_nil _ _ _ _ Ers), app_nil_r.
      split; [auto|]. apply runs_fit_nil; assumption.
    + pose proof (run_sizes_range (S n) k bits) as Hr. rewrite Ers in Hr.
      inversion Hr as [|x l Hs _]; subst x l. clear Hr.
      assert (P16 : 2 ^ Z.of_nat k <= 2 ^ 16)
        by (apply Z.pow_le_mono_r; lia).
      change (2 ^ 16) with 65536 in P16.
      pose proof (C k ltac:(lia)) as Hb.
      assert (Lb : Z.of_nat (Z.to_nat (codes_of_length bits k)) <= 256).
      { rewrite <- Ers in L. cbn [run_sizes] in L.
        rewrite length_app, repeat_length in L. lia. }
      assert (E : s :: rest0 ++ [0]
                  = repeat (Z.of_nat k) (Z.to_nat (codes_of_length bits k))
                    ++ (run_sizes n (S k) bits ++ [0])).
      { change (s :: rest0 ++ [0]) with ((s :: rest0) ++ [0]).
        rewrite <- Ers. cbn [run_sizes]. rewrite <- app_assoc. reflexivity. }
      rewrite generate_codes_step in H. unfold codes_body in H.
      cbn [app] in H.
      replace (s =? 0) with false in H by lia.
      replace (s <? Z.of_nat k) with false in H by lia.
      rewrite E in H. rewrite assign_run_repeat in H.
      2:{ pose proof (run_sizes_range n (S k) bits) as Hr.
          destruct (run_sizes n (S k) bits) as [|t r]; cbn [app]; [lia|].
          inversion Hr; subst. lia. }
      2:{ lia. }
      2:{ change (2 ^ 32) with 4294967296. lia. }
      rewrite Z2Nat.id in H by exact Hb.
      set (b := codes_of_length bits k) in *.
      assert (E1 : to_INT32 (code + b) = code + b).
      { unfold to_INT32. apply wrap_s_small; [lia|].
        change (2 ^ (32 - 1)) with 2147483648. lia. }
      assert (E2 : to_INT32 (Z.shiftl 1 (Z.of_nat k)) = 2 ^ Z.of_nat k).
      { rewrite Z.shiftl_mul_pow2, Z.mul_1_l by lia.
        unfold to_INT32. apply wrap_s_small; [lia|].
        change (2 ^ (32 - 1)) with 2147483648. lia. }
      rewrite E1, E2 in H.
      destruct (code + b >=? 2 ^ Z.of_nat k) eqn:Ecmp; [discriminate|].
      assert (E3 : to_JUINT (Z.shiftl (code + b) 1) = 2 * (code + b)).
      { rewrite Z.shiftl_mul_pow2 by lia. change (2 ^ 1) with 2.
        unfold to_JUINT. rewrite wrap_u_small; [lia|].
        change (2 ^ 32) with 4294967296. lia. }
      rewrite E3 in H.
      replace (Z.of_nat k + 1) with (Z.of_nat (S k)) in H by lia.
      assert (P : 2 ^ Z.of_nat (S k) = 2 * 2 ^ Z.of_nat k).
      { rewrite Nat2Z.inj_succ. apply Z.pow_succ_r. lia. }
      apply IH in H; try lia.
      * destruct H as [Hout Hfit]. cbn [run_codes runs_fit]. fold b.
        split; [rewrite Hout, <- app_assoc; reflexivity|].
        split; [lia|exact Hfit].
      * intros j Hj. apply C. lia.
      * rewrite <- Ers in L. cbn [run_sizes] in L.
        rewrite length_app in L. lia.
Qed.

(* The passes of the outer loop before the first length in use: the
   code stays 0. *)
Lemma generate_codes_skip s rest hc : forall (d : nat) si,
  1 <= si -> s = si + Z.of_nat d -> s <= 16 ->
  generate_codes (s :: rest) 0 si hc = generate_codes (s :: rest) 0 s hc.
Proof.
  induction d as [|d IH]; intros si H1 Hs H16.
  - replace s with si by lia. reflexivity.
  - rewrite generate_codes_step. unfold codes_body.
    replace (s =? 0) with false by lia.
    replace (s <? si) with false by lia.
    cbn [assign_run]. replace (s =? si) with false by lia.
    assert (E2 : to_INT32 (Z.shiftl 1 si) = 2 ^ si).
    { assert (2 ^ si <= 2 ^ 16) by (apply Z.pow_le_mono_r; lia).
      change (2 ^ 16) with 65536 in *.
      pose proof (pow2_pos si ltac:(lia)).
      rewrite Z.shiftl_mul_pow2, Z.mul_1_l by lia.
      unfold to_INT32. apply wrap_s_small; [lia|].
      change (2 ^ (32 - 1)) with 2147483648. lia. }
    rewrite E2. change (to_INT32 0) with 0.
    pose proof (pow2_pos si ltac:(lia)).
    replace (0 >=? 2 ^ si) with false by lia.
    change (to_JUINT (Z.shiftl 0 1)) with 0.
    apply IH; lia.
Qed.

(* Figures C.1 and C.2 together, as both derived-table routines run
   them. *)
Lemma codes_of_table htbl hs hc :
  make_huffsize 16 1 htbl [] = Returned hs ->
  generate_codes (hs ++ [0]) 0 (nth 0 (hs ++ [0]) 0) [] = Returned hc ->
  hs = run_sizes 16 1 (bits htbl) /\ hc = run_codes 16 1 (bits htbl) 0 /\
  runs_fit 16 1 (bits htbl) 0 /\ counts_ok (bits htbl) 1 16 /\
  (length hs <= 256)%nat.
Proof.
  intros Hs Hc.
  apply (make_huffsize_runs 16 1 htbl [] hs) in Hs; [|cbn; lia].
  destruct Hs as (E & C & L). cbn [app] in E.
  split; [exact E|].
  assert (G : generate_codes (hs ++ [0]) 0 1 [] = Returned hc).
  { destruct hs as [|s rest] eqn:Ehs.
    - cbn [app nth] in Hc. rewrite generate_codes_step in Hc.
      rewrite generate_codes_step. exact Hc.
    - cbn [app nth] in Hc |- *.
      pose proof (run_sizes_range 16 1 (bits htbl)) as Hr.
      rewrite <- E in Hr. inversion Hr as [|x l Hx _]; subst x l.
      rewrite (generate_codes_skip s (rest ++ [0]) [] (Z.to_nat (s - 1)) 1);
        [exact Hc|lia|lia|lia]. }
  rewrite E in G, L.
  apply (generate_codes_runs (bits htbl) 16 1 0 [] hc) in G;
    [|lia|lia|cbn; lia|exact C|exact L].
  destruct G as [G1 G2]. rewrite E. auto.
Qed.

(* Where the symbols with codes of length k+d stand, and their codes. *)
Lemma run_nth bits : forall d n k code i,
  (d < n)%nat -> 0 <= i < codes_of_length bits (k + d) ->
  counts_ok bits k d ->
  nth (Z.to_nat (index_after bits k d + i)) (run_sizes n k bits) 0
    = Z.of_nat (k + d) /\
  nth (Z.to_nat (index_after bits k d + i)) (run_codes n k bits code) 0
    = code_after bits k code d + i.
Proof.
  induction d as [|d IH]; intros n k code i Hd Hi C;
    (destruct n as [|n]; [lia|]);
    cbn [index_after code_after run_sizes run_codes].
  - rewrite Nat.add_0_r in *. rewrite Z.add_0_l. split.
    + rewrite app_nth1 by (rewrite repeat_length; lia).
      apply nth_repeat_lt. lia.
    + rewrite app_nth1 by (rewrite length_map, length_seq; lia).
      rewrite (nth_indep _ 0 (code + Z.of_nat 0))
        by (rewrite length_map, length_seq; lia).
      rewrite (map_nth (fun i => code + Z.of_nat i)).
      rewrite seq_nth by lia. lia.
  - pose proof (C k ltac:(lia)) as Hb.
    assert (C' : counts_ok bits (S k) d) by (intros j Hj; apply C; lia).
    assert (I0 : 0 <= index_after bits (S k) d)
      by (rewrite <- run_sizes_length by exact C'; lia).
    replace (k + S d)%nat with (S k + d)%nat in * by lia.
    destruct (IH n (S k) (2 * (code + codes_of_length bits k)) i
                ltac:(lia) Hi C') as [A B].
    replace (Z.to_nat (codes_of_length bits k + index_after bits (S k) d + i))
      with (Z.to_nat (codes_of_length bits k)
            + Z.to_nat (index_after bits (S k) d + i))%nat by lia.
    split.
    + rewrite app_nth2 by (rewrite repeat_length; lia).
      rewrite repeat_length.
      replace (_ + _ - _)%nat
        with (Z.to_nat (index_after bits (S k) d + i)) by lia.
      exact A.
    + rewrite app_nth2 by (rewrite length_map, length_seq; lia).
      rewrite length_map, length_seq.
      replace (_ + _ - _)%nat
        with (Z.to_nat (index_after bits (S k) d + i)) by lia.
      exact B.
Qed.

(* Every position is one of those. *)
Lemma index_decompose bits : forall n k p,
  counts_ok bits k n -> 0 <= p < index_after bits k n ->
  exists d i, (d < n)%nat /\ 0 <= i < codes_of_length bits (k + d) /\
              p = index_after bits k d + i.
Proof.
  induction n as [|n IH]; intros k p C Hp; cbn [index_after] in Hp; [lia|].
  destruct (Z_lt_ge_dec p (codes_of_length bits k)) as [Hlt|Hge].
  - exists 0%nat, p. rewrite Nat.add_0_r. cbn [index_after].
    split; [lia|]. split; lia.
  - destruct (IH (S k) (p - codes_of_length bits k)
                ltac:(intros j Hj; apply C; lia) ltac:(lia))
      as (d & i & Hd & Hi & E).
    exists (S d), i. replace (k + S d)%nat with (S k + d)%nat by lia.
    cbn [index_after]. split; [lia|]. split; [exact Hi|lia].
Qed.

Lemma index_after_mono bits : forall d k e,
  counts_ok bits k (d + e) ->
  index_after bits k (d + e)
    = index_after bits k d + index_after bits (k + d) e.
Proof.
  induction d as [|d IH]; intros k e C; cbn [index_after Nat.add].
  - rewrite Nat.add_0_r. lia.
  - rewrite IH by (intros j Hj; apply C; lia).
    replace (S k + d)%nat with (k + S d)%nat by lia. lia.
Qed.

Lemma index_after_nonneg bits : forall d k,
  counts_ok bits k d -> 0 <= index_after bits k d.
Proof.
  intros d k C. rewrite <- (run_sizes_length d k bits C). lia.
Qed.

(* A later first code is at least the earlier one shifted up. *)
Lemma code_after_grows bits : forall d k code,
  counts_ok bits k d -> 0 <= code ->
  2 ^ Z.of_nat d * code <= code_after bits k code d.
Proof.
  induction d as [|d IH]; intros k code C H0; cbn [code_after].
  - rewrite Z.pow_0_r. lia.
  - pose proof (C k ltac:(lia)) as Hb.
    specialize (IH (S k) (2 * (code + codes_of_length bits k))
                  ltac:(intros j Hj; apply C; lia) ltac:(lia)).
    rewrite Nat2Z.inj_succ, Z.pow_succ_r by lia.
    pose proof (pow2_pos (Z.of_nat d) ltac:(lia)). nia.
Qed.

Lemma code_after_split bits : forall d k code e,
  code_after bits k code (d + e)
    = code_after bits (k + d) (code_after bits k code d) e.
Proof.
  induction d as [|d IH]; intros k code e; cbn [code_after Nat.add].
  - rewrite Nat.add_0_r. reflexivity.
  - rewrite IH. replace (S k + d)%nat with (k + S d)%nat by lia. reflexivity.
Qed.

(* The first code of a longer length lies above every code of a shorter
   one, shifted up to the longer length. *)
Lemma code_after_above bits d k code e :
  counts_ok bits k (d + S e) -> 0 <= code ->
  2 ^ Z.of_nat (S e)
    * (code_after bits k code d + codes_of_length bits (k + d))
  <= code_after bits k code (d + S e).
Proof.
  intros C H0. rewrite code_after_split. cbn [code_after].
  assert (Hd : 0 <= code_after bits k code d).
  { pose proof (code_after_grows bits d k code
                  ltac:(intros j Hj; apply C; lia) H0).
    pose proof (pow2_pos (Z.of_nat d) ltac:(lia)). nia. }
  pose proof (C (k + d)%nat ltac:(lia)) as Hb.
  pose proof (code_after_grows bits e (S (k + d))
                (2 * (code_after bits k code d
                      + codes_of_length bits (k + d)))
                ltac:(intros j Hj; apply C; lia) ltac:(lia)) as G.
  rewrite Nat2Z.inj_succ, Z.pow_succ_r by lia.
  pose proof (pow2_pos (Z.of_nat e) ltac:(lia)). nia.
Qed.

(* What the assertion of Figure C.2 says about a length in use. *)
Lemma runs_fit_at bits : forall d n k code,
  (d < n)%nat -> runs_fit n k bits code ->
  0 < codes_of_length bits (k + d) ->
  code_after bits k code d + codes_of_length bits (k + d)
    < 2 ^ Z.of_nat (k + d).
Proof.
  induction d as [|d IH]; intros n k code Hd F Hb;
    (destruct n as [|n]; [lia|]); cbn [runs_fit code_after] in *.
  - rewrite Nat.add_0_r in *. apply F. exact Hb.
  - replace (k + S d)%nat with (S k + d)%nat in * by lia.
    apply (IH n); [lia|apply F|exact Hb].
Qed.

Lemma symbol_count_index bits : forall n k,
  fold_right Z.add 0 (firstn n (skipn k bits)) = index_after bits k n.
Proof.
  induction n as [|n IH]; intro k; cbn [index_after firstn]; [reflexivity|].
  destruct (skipn k bits) as [|b r] eqn:E.
  - cbn [fold_right].
    assert (Hlen : (length bits <= k)%nat).
    { apply (f_equal (@length Z)) in E. rewrite length_skipn in E.
      cbn in E. lia. }
    unfold codes_of_length at 1. rewrite nth_overflow by exact Hlen.
    rewrite <- IH. rewrite skipn_all2 by lia.
    rewrite firstn_nil. reflexivity.
  - cbn [fold_right].
    assert (Er : skipn (S k) bits = r).
    { replace (S k) with (1 + k)%nat by lia.
      rewrite <- skipn_skipn, E. reflexivity. }
    rewrite <- IH, Er. f_equal.
    unfold codes_of_length.
    rewrite <- (firstn_skipn k bits) at 1.
    assert (Hk : (k < length bits)%nat).
    { destruct (Nat.lt_ge_cases k (length bits)) as [Hlt|Hge]; [exact Hlt|].
      rewrite skipn_all2 in E by exact Hge. discriminate. }
    rewrite app_nth2 by (rewrite length_firstn; lia).
    rewrite length_firstn, E.
    replace (k - Nat.min k (length bits))%nat with 0%nat by lia.
    reflexivity.
Qed.

(* Figure C.3 *)
Lemma encoding_tables_spec htbl hs hc ms : forall n p co si co' si',
  jchuff_tables.encoding_tables n p htbl hs hc ms co si
    = Returned (co', si') ->
  length co = 256%nat -> length si = 256%nat -> ms <= 255 ->
  (forall q, (p <= q < p + n)%nat -> nth q hs 0 <> 0) ->
  (forall q, (p <= q < p + n)%nat ->
     let s := nth q (huffval htbl) 0 in
     0 <= s <= ms /\ nth (Z.to_nat s) si 0 = 0 /\
     nth (Z.to_nat s) si' 0 = nth q hs 0 /\
     nth (Z.to_nat s) co' 0 = nth q hc 0) /\
  (forall q q', (p <= q < q')%nat -> (q' < p + n)%nat ->
     nth q (huffval htbl) 0 <> nth q' (huffval htbl) 0) /\
  (forall s : nat,
     (forall q, (p <= q < p + n)%nat ->
        nth q (huffval htbl) 0 <> Z.of_nat s) ->
     nth s si' 0 = nth s si 0 /\ nth s co' 0 = nth s co 0).
Proof.
  induction n as [|n IH]; intros p co si co' si' H Lco Lsi Hms Hhs;
    cbn [jchuff_tables.encoding_tables] in H.
  - apply Returned_inj in H. injection H as <- <-.
    split; [intros q Hq; lia|]. split; [intros q q' Hq Hq'; lia|].
    intros s _. auto.
  - apply JSC_ASSERT_Returned in H. destruct H as [A1 H].
    apply JSC_ASSERT_Returned in H. destruct H as [A2 H].
    apply JSC_ASSERT_Returned in H. destruct H as [A3 H].
    set (i := nth p (huffval htbl) 0) in *.
    assert (Hi : (Z.to_nat i < 256)%nat) by lia.
    apply IH in H;
      [|rewrite list_set_length; assumption
       |rewrite list_set_length; assumption|exact Hms
       |intros q Hq; apply Hhs; lia].
    destruct H as (A & B & C).
    assert (Hlater : forall q, (S p <= q < S p + n)%nat ->
                       nth q (huffval htbl) 0 <> i).
    { intros q Hq E. destruct (A q Hq) as (_ & Z0 & _).
      cbv zeta in Z0. rewrite E in Z0.
      rewrite nth_list_set_eq in Z0 by (rewrite Lsi; exact Hi).
      apply (Hhs p ltac:(lia)). exact Z0. }
    split; [|split].
    + intros q Hq. cbv zeta.
      destruct (Nat.eq_dec q p) as [->|Hne].
      * fold i. split; [lia|]. split; [lia|].
        destruct (C (Z.to_nat i)) as [C1 C2].
        { intros q Hq'. rewrite Z2Nat.id by lia. apply Hlater. exact Hq'. }
        rewrite C1, C2.
        rewrite !nth_list_set_eq by (rewrite ?Lsi, ?Lco; exact Hi). auto.
      * destruct (A q ltac:(lia)) as (R1 & Z0 & S1 & S2). cbv zeta in *.
        split; [exact R1|]. split; [|auto].
        rewrite nth_list_set_neq in Z0; [exact Z0|].
        pose proof (Hlater q ltac:(lia)). lia.
    + intros q q' Hq Hq'. destruct (Nat.eq_dec q p) as [->|Hne].
      * fold i. intro E. apply (Hlater q' ltac:(lia)). symmetry. exact E.
      * apply B; lia.
    + intros s Hs. destruct (C s) as [C1 C2].
      { intros q Hq. apply Hs. lia. }
      rewrite C1, C2.
      pose proof (Hs p ltac:(lia)) as Hp. fold i in Hp.
      rewrite !nth_list_set_neq by lia. auto.
Qed.

(* The encoding table of a Huffman table that jpeg_make_c_derived_tbl
   accepts, length by length. *)
Lemma c_table_entries htbl isDC tblno old ctbl :
  length (jchuff.ehufco old) = 256%nat ->
  jchuff_tables.jpeg_make_c_derived_tbl htbl isDC tblno old = Returned ctbl ->
  counts_ok (bits htbl) 1 16 /\ runs_fit 16 1 (bits htbl) 0 /\
  index_after (bits htbl) 1 16 <= 256 /\
  (forall d i, (d < 16)%nat -> 0 <= i < codes_of_length (bits htbl) (1 + d) ->
     let s := nth (Z.to_nat (index_after (bits htbl) 1 d + i))
                (huffval htbl) 0 in
     0 <= s <= (if isDC then 15 else 255) /\
     jchuff.ehufsi_at ctbl s = Z.of_nat (1 + d) /\
     jchuff.ehufco_at ctbl s = code_after (bits htbl) 1 0 d + i) /\
  (forall q q' : nat, (q < q')%nat ->
     Z.of_nat q' < index_after (bits htbl) 1 16 ->
     nth q (huffval htbl) 0 <> nth q' (huffval htbl) 0) /\
  (forall s : nat,
     (forall q : nat, Z.of_nat q < index_after (bits htbl) 1 16 ->
        nth q (huffval htbl) 0 <> Z.of_nat s) ->
     jchuff.ehufsi_at ctbl (Z.of_nat s) = 0).
Proof.
  intros Lold H. unfold jchuff_tables.jpeg_make_c_derived_tbl in H.
  apply JSC_ASSERT_Returned in H. destruct H as [_ H].
  apply JSC_ASSERT_Returned in H. destruct H as [_ H].
  apply bind_outcome_Returned in H. destruct H as (hs & Hs & H).
  apply bind_outcome_Returned in H. destruct H as (hc & Hc & H).
  apply bind_outcome_Returned in H. destruct H as ([co si] & He & H).
  apply Returned_inj in H. subst ctbl.
  destruct (codes_of_table htbl hs hc Hs Hc) as (Ehs & Ehc & F & C & L).
  pose proof (run_sizes_length 16 1 (bits htbl) C) as Llen.
  rewrite <- Ehs in Llen.
  assert (Hnz : forall q, (0 <= q < 0 + length hs)%nat ->
                  nth q (hs ++ [0]) 0 <> 0).
  { intros q Hq. rewrite app_nth1 by lia.
    pose proof (run_sizes_range 16 1 (bits htbl)) as Hr. rewrite <- Ehs in Hr.
    rewrite Forall_forall in Hr.
    assert (Hq' : (q < length hs)%nat) by lia.
    specialize (Hr (nth q hs 0) (nth_In hs 0 Hq')). lia. }
  apply encoding_tables_spec in He;
    [|exact Lold|apply repeat_length|destruct isDC; lia|exact Hnz].
  destruct He as (A & B & U).
  split; [exact C|]. split; [exact F|]. split; [lia|].
  split; [|split].
  - intros d i Hd Hi. cbv zeta.
    assert (Cd : counts_ok (bits htbl) 1 d) by (intros j Hj; apply C; lia).
    destruct (run_nth (bits htbl) d 16 1 0 i Hd Hi Cd) as [N1 N2].
    rewrite <- Ehs in N1. rewrite <- Ehc in N2.
    pose proof (index_after_nonneg (bits htbl) d 1 Cd) as I0.
    assert (Hlt : index_after (bits htbl) 1 d + i
                  < index_after (bits htbl) 1 16).
    { replace 16%nat with (d + S (15 - d))%nat by lia.
      rewrite index_after_mono
        by (intros j Hj; apply C; lia).
      cbn [index_after].
      pose proof (index_after_nonneg (bits htbl) (15 - d) (S (1 + d))
                    ltac:(intros j Hj; apply C; lia)).
      lia. }
    destruct (A (Z.to_nat (index_after (bits htbl) 1 d + i)) ltac:(lia))
      as (R1 & _ & S1 & S2).
    cbv zeta in *. split; [exact R1|].
    unfold jchuff.ehufsi_at, jchuff.ehufco_at. cbn [jchuff.ehufsi jchuff.ehufco].
    rewrite S1, S2. rewrite app_nth1 by lia. auto.
  - intros q q' Hq Hq'. apply B; lia.
  - intros s Hun. unfold jchuff.ehufsi_at. cbn [jchuff.ehufsi].
    rewrite Nat2Z.id. destruct (U s) as [U1 _].
    { intros q Hq. apply Hun. lia. }
    rewrite U1. destruct (Nat.lt_ge_cases s 256) as [Hlt|Hge].
    + apply nth_repeat_lt. exact Hlt.
    + apply nth_overflow. rewrite repeat_length. exact Hge.
Qed.

(* The symbols of a longer length stand behind those of a shorter one. *)
Lemma index_step bits d d' :
  counts_ok bits 1 16 -> (d < d')%nat -> (d' <= 16)%nat ->
  index_after bits 1 d + codes_of_length bits (1 + d)
    <= index_after bits 1 d'.
Proof.
  intros C Hd Hd'.
  replace d' with (d + S (d' - d - 1))%nat at 1 by lia.
  rewrite index_after_mono by (intros j Hj; apply C; lia).
  cbn [index_after].
  pose proof (index_after_nonneg bits (d' - d - 1) (S (1 + d))
                ltac:(intros j Hj; apply C; lia)).
  lia.
Qed.

Lemma index_order bits d i d' i' :
  counts_ok bits 1 16 -> (d < 16)%nat -> (d' < 16)%nat ->
  0 <= i < codes_of_length bits (1 + d) ->
  0 <= i' < codes_of_length bits (1 + d') ->
  index_after bits 1 d + i < index_after bits 1 d' + i' ->
  (d < d')%nat \/ (d = d' /\ i < i').
Proof.
  intros C Hd Hd' Hi Hi' Hlt.
  destruct (Nat.lt_trichotomy d d') as [Hc|[Hc|Hc]]; [auto|subst; right; lia|].
  pose proof (index_step bits d' d C Hc ltac:(lia)). lia.
Qed.

(** X17.  The encoding table is a prefix code.  When
    [jpeg_make_c_derived_tbl] accepts a Huffman table, the table has at
    most 256 symbols; every listed symbol is in range (0..15 for a DC
    table), has a code length in 1..16 and a code that fits in that
    length and is not all ones; listed symbols are distinct, their
    lengths do not decrease along huffval[], and no symbol's code
    stands at the front of another's; exactly the positions
    first_index(l) .. first_index(l) + bits[l] - 1 have length l; and
    every symbol that is not listed has length 0. *)
Theorem encoding_table_is_prefix_code :
  forall htbl isDC tblno old ctbl,
    length (jchuff.ehufco old) = 256%nat ->
    jchuff_tables.jpeg_make_c_derived_tbl htbl isDC tblno old
      = Returned ctbl ->
    let count := symbol_count (bits htbl) in
    let sym := fun p : nat => nth p (huffval htbl) 0 in
    let size := fun p : nat => jchuff.ehufsi_at ctbl (sym p) in
    let code := fun p : nat => jchuff.ehufco_at ctbl (sym p) in
    0 <= count <= 256 /\
    (forall p, Z.of_nat p < count ->
       0 <= sym p <= (if isDC then 15 else 255) /\
       1 <= size p <= 16 /\ 0 <= code p < 2 ^ size p - 1) /\
    (forall p q, (p < q)%nat -> Z.of_nat q < count ->
       sym p <> sym q /\ size p <= size q /\
       ~ is_prefix (code p) (size p) (code q) (size q) /\
       ~ is_prefix (code q) (size q) (code p) (size p)) /\
    (forall (l p : nat), (1 <= l <= 16)%nat -> Z.of_nat p < count ->
       size p = Z.of_nat l <->
       first_index (bits htbl) l <= Z.of_nat p
         < first_index (bits htbl) l + codes_of_length (bits htbl) l) /\
    (forall s : nat,
       (forall p, Z.of_nat p < count -> sym p <> Z.of_nat s) ->
       jchuff.ehufsi_at ctbl (Z.of_nat s) = 0).
Proof.
  intros htbl isDC tblno old ctbl Lold H count sym size code.
  destruct (c_table_entries htbl isDC tblno old ctbl Lold H)
    as (C & F & L & E & Dist & Un).
  assert (Ecount : count = index_after (bits htbl) 1 16)
    by apply symbol_count_index.
  pose proof (index_after_nonneg (bits htbl) 16 1 C) as I0.
  (* every position as a length and a rank among the codes of it *)
  assert (Pos : forall p, Z.of_nat p < count ->
            exists d i, (d < 16)%nat /\
              0 <= i < codes_of_length (bits htbl) (1 + d) /\
              Z.of_nat p = index_after (bits htbl) 1 d + i /\
              0 <= sym p <= (if isDC then 15 else 255) /\
              size p = Z.of_nat (1 + d) /\
              code p = code_after (bits htbl) 1 0 d + i).
  { intros p Hp.
    destruct (index_decompose (bits htbl) 16 1 (Z.of_nat p) C ltac:(lia))
      as (d & i & Hd & Hi & Ep).
    exists d, i. split; [exact Hd|]. split; [exact Hi|]. split; [exact Ep|].
    pose proof (E d i Hd Hi) as Ed. cbv zeta in Ed.
    rewrite <- Ep, Nat2Z.id in Ed. exact Ed. }
  assert (Code0 : forall d, (d < 16)%nat ->
            0 <= code_after (bits htbl) 1 0 d).
  { intros d Hd.
    pose proof (code_after_grows (bits htbl) d 1 0
                  ltac:(intros j Hj; apply C; lia) ltac:(lia)). lia. }
  split; [lia|]. split; [|split; [|split]].
  - intros p Hp. destruct (Pos p Hp) as (d & i & Hd & Hi & _ & R & Sz & Co).
    split; [exact R|]. rewrite Sz, Co. split; [lia|].
    pose proof (runs_fit_at (bits htbl) d 16 1 0 Hd F ltac:(lia)).
    pose proof (Code0 d Hd). lia.
  - intros p q Hpq Hq.
    destruct (Pos p ltac:(lia)) as (d & i & Hd & Hi & Ep & _ & Sp & Cp).
    destruct (Pos q Hq) as (d' & i' & Hd' & Hi' & Eq & _ & Sq & Cq).
    split; [apply Dist; [exact Hpq|lia]|].
    rewrite Sp, Sq, Cp, Cq. unfold is_prefix.
    destruct (index_order (bits htbl) d i d' i' C Hd Hd' Hi Hi' ltac:(lia))
      as [Hlt|[-> Hlt]].
    + split; [lia|]. split; [|lia]. intros [_ Hpre].
      pose proof (code_after_above (bits htbl) d 1 0 (d' - d - 1)
                    ltac:(intros j Hj; apply C; lia) ltac:(lia)) as Hab.
      replace (d + S (d' - d - 1))%nat with d' in Hab by lia.
      replace (Z.of_nat (1 + d') - Z.of_nat (1 + d))
        with (Z.of_nat (S (d' - d - 1))) in Hpre by lia.
      pose proof (pow2_pos (Z.of_nat (S (d' - d - 1))) ltac:(lia)) as P.
      assert (code_after (bits htbl) 1 0 d + codes_of_length (bits htbl) (1 + d)
              <= (code_after (bits htbl) 1 0 d' + i')
                 / 2 ^ Z.of_nat (S (d' - d - 1))).
      { apply Z.div_le_lower_bound; [exact P|]. lia. }
      lia.
    + rewrite Z.sub_diag, Z.pow_0_r, !Z.div_1_r.
      split; [lia|]. split; intros [_ Hpre]; lia.
  - intros l p Hl Hp.
    destruct (Pos p Hp) as (d & i & Hd & Hi & Ep & _ & Sp & _).
    rewrite Sp. unfold first_index. split.
    + intro El. assert (d = (l - 1)%nat) by lia. subst d.
      replace (1 + (l - 1))%nat with l in Hi by lia. lia.
    + intros Hr.
      destruct (Nat.lt_trichotomy d (l - 1)) as [Hc|[Hc|Hc]]; [|lia|].
      * pose proof (index_step (bits htbl) d (l - 1) C Hc ltac:(lia)). lia.
      * pose proof (index_step (bits htbl) (l - 1) d C Hc ltac:(lia)) as X.
        replace (1 + (l - 1))%nat with l in X by lia. lia.
  - intros s Hs. apply Un. intros q Hq. apply Hs. lia.
Qed.

Lemma encoding_table_is_prefix_code_witness :
  (forall p, Z.of_nat p < symbol_count (bits decode_spec.std_dc_luminance) ->
     1 <= jchuff.ehufsi_at ex_ctbl
            (nth p (huffval decode_spec.std_dc_luminance) 0) <= 16) /\
  (forall p q, (p < q)%nat ->
     Z.of_nat q < symbol_count (bits decode_spec.std_dc_luminance) ->
     ~ is_prefix
         (jchuff.ehufco_at ex_ctbl
            (nth p (huffval decode_spec.std_dc_luminance) 0))
         (jchuff.ehufsi_at ex_ctbl
            (nth p (huffval decode_spec.std_dc_luminance) 0))
         (jchuff.ehufco_at ex_ctbl
            (nth q (huffval decode_spec.std_dc_luminance) 0))
         (jchuff.ehufsi_at ex_ctbl
            (nth q (huffval decode_spec.std_dc_luminance) 0))).
Proof.
  assert (Hrun : jchuff_tables.jpeg_make_c_derived_tbl
                   decode_spec.std_dc_luminance true 0 blank_c_derived_tbl
                 = Returned ex_ctbl) by (vm_compute; reflexivity).
  destruct (encoding_table_is_prefix_code decode_spec.std_dc_luminance true 0
              blank_c_derived_tbl ex_ctbl eq_refl Hrun)
    as (_ & A & B & _).
  split.
  - intros p Hp. apply (A p Hp).
  - intros p q Hpq Hq. apply (B p q Hpq Hq).
Defined.

End huffman_code_properties.
(** ** Decoding a Huffman code (jdhuff.c) *)

Lemma lengthen_loop_step state gb bl htbl code l :
  jdhuff.lengthen_loop state gb bl htbl code l =
  match jdhuff.lengthen_body state gb bl htbl code l with
  | jdhuff.CodeComplete => jdhuff.Lengthened state gb bl code l
  | jdhuff.OutsideTable => jdhuff.LengthenOutside
  | jdhuff.MustSuspend => jdhuff.LengthenSuspended
  | jdhuff.OneMoreBit state' gb' bl' code' =>
      jdhuff.lengthen_loop state' gb' bl' htbl code' (l + 1)
  end.
Proof. exact (lengthen_loop_unfold state gb bl htbl code l). Qed.

Section huffman_decode_properties.
Import jdhuff huffman_spec bitstream_spec.

(* Figure F.15 *)
Lemma decoding_tables_spec htbl hc : forall n k p mc vo mc' vo',
  decoding_tables n (Z.of_nat k) p htbl hc mc vo = (mc', vo') ->
  (k + n <= length mc)%nat -> (k + n <= length vo)%nat ->
  length mc' = length mc /\
  (forall t, (t < k)%nat ->
     nth t mc' 0 = nth t mc 0 /\ nth t vo' 0 = nth t vo 0) /\
  (forall d, (d < n)%nat ->
     let b := codes_of_length (bits htbl) (k + d) in
     let pj := p + index_after (bits htbl) k d in
     (b <> 0 ->
      nth (k + d) mc' 0 = to_INT32 (nth (Z.to_nat (pj + b - 1)) hc 0) /\
      nth (k + d) vo' 0 = to_INT32 (pj - to_INT32 (nth (Z.to_nat pj) hc 0))) /\
     (b = 0 -> nth (k + d) mc' 0 = -1)).
Proof.
  induction n as [|n IH]; intros k p mc vo mc' vo' H Lm Lv;
    cbn [decoding_tables] in H.
  - injection H as <- <-. split; [reflexivity|]. split; [auto|].
    intros d Hd. lia.
  - rewrite Nat2Z.id in H.
    replace (Z.of_nat k + 1) with (Z.of_nat (S k)) in H by lia.
    fold (codes_of_length (bits htbl) k) in H.
    set (b := codes_of_length (bits htbl) k) in *.
    destruct (b =? 0) eqn:Eb; cbn [negb] in H.
    + apply IH in H; rewrite ?list_set_length; try lia.
      destruct H as (L & P & A). rewrite list_set_length in L.
      split; [exact L|]. split.
      * intros t Ht. destruct (P t ltac:(lia)) as [P1 P2].
        rewrite P1, P2. rewrite nth_list_set_neq by lia. auto.
      * intros d Hd. cbv zeta. destruct d as [|d].
        -- rewrite Nat.add_0_r. fold b. split; [lia|]. intros _.
           destruct (P k ltac:(lia)) as [P1 _]. rewrite P1.
           apply nth_list_set_eq. lia.
        -- replace (k + S d)%nat with (S k + d)%nat by lia.
           cbn [index_after]. fold b.
           replace (p + (b + index_after (bits htbl) (S k) d))
             with (p + index_after (bits htbl) (S k) d) by lia.
           apply (A d). lia.
    + apply IH in H; rewrite ?list_set_length; try lia.
      destruct H as (L & P & A). rewrite list_set_length in L.
      split; [exact L|]. split.
      * intros t Ht. destruct (P t ltac:(lia)) as [P1 P2].
        rewrite P1, P2. rewrite !nth_list_set_neq by lia. auto.
      * intros d Hd. cbv zeta. destruct d as [|d].
        -- rewrite Nat.add_0_r. fold b. cbn [index_after].
           rewrite Z.add_0_r. split; [|lia]. intros _.
           destruct (P k ltac:(lia)) as [P1 P2]. rewrite P1, P2.
           rewrite !nth_list_set_eq by lia. auto.
        -- replace (k + S d)%nat with (S k + d)%nat by lia.
           cbn [index_after]. fold b.
           replace (p + (b + index_after (bits htbl) (S k) d))
             with (p + b + index_after (bits htbl) (S k) d) by lia.
           apply (A d). lia.
Qed.

Lemma code_after_nonneg bits d :
  counts_ok bits 1 16 -> (d <= 16)%nat -> 0 <= code_after bits 1 0 d.
Proof.
  intros C Hd.
  pose proof (code_after_grows bits d 1 0
                ltac:(intros j Hj; apply C; lia) ltac:(lia)). lia.
Qed.

(* The decoding tables of a Huffman table that jpeg_make_d_derived_tbl
   accepts, length by length. *)
Lemma d_table_entries htbl isDC tblno old dtbl :
  length (maxcode old) = 18%nat -> length (valoffset old) = 17%nat ->
  jpeg_make_d_derived_tbl htbl isDC tblno old = Returned dtbl ->
  counts_ok (bits htbl) 1 16 /\ runs_fit 16 1 (bits htbl) 0 /\
  index_after (bits htbl) 1 16 <= 256 /\ pub dtbl = htbl /\
  (forall d, (d < 16)%nat ->
     let b := codes_of_length (bits htbl) (1 + d) in
     (0 < b ->
      maxcode_at dtbl (Z.of_nat (1 + d))
        = Some (code_after (bits htbl) 1 0 d + b - 1) /\
      nth (1 + d) (valoffset dtbl) 0
        = index_after (bits htbl) 1 d - code_after (bits htbl) 1 0 d) /\
     (b = 0 -> maxcode_at dtbl (Z.of_nat (1 + d)) = Some (-1))) /\
  (look_nbits dtbl, look_sym dtbl)
    = lookahead_tables 8 1 0 htbl (run_codes 16 1 (bits htbl) 0)
        (repeat 0 256) (look_sym old).
Proof.
  intros Lm Lv H. unfold jpeg_make_d_derived_tbl in H.
  apply JSC_ASSERT_Returned in H. destruct H as [_ H].
  apply JSC_ASSERT_Returned in H. destruct H as [_ H].
  apply bind_outcome_Returned in H. destruct H as (hs & Hs & H).
  apply bind_outcome_Returned in H. destruct H as (hc & Hc & H).
  destruct (codes_of_table htbl hs hc Hs Hc) as (Ehs & Ehc & F & C & L).
  pose proof (run_sizes_length 16 1 (bits htbl) C) as Llen.
  rewrite <- Ehs in Llen.
  destruct (decoding_tables 16 1 0 htbl hc (maxcode old) (valoffset old))
    as [mc vo] eqn:Edt.
  destruct (lookahead_tables 8 1 0 htbl hc (repeat 0 256) (look_sym old))
    as [nb sy] eqn:Elt.
  apply JSC_ASSERT_Returned in H. destruct H as [_ H].
  apply Returned_inj in H. subst dtbl. cbn [pub look_nbits look_sym].
  change 1 with (Z.of_nat 1) in Edt.
  apply decoding_tables_spec in Edt; [|rewrite Lm; lia|rewrite Lv; lia].
  destruct Edt as (Lmc & _ & A).
  split; [exact C|]. split; [exact F|]. split; [lia|].
  split; [reflexivity|]. split; [|rewrite <- Ehc, Elt; reflexivity].
  intros d Hd. cbv zeta.
  assert (Cd : counts_ok (bits htbl) 1 d) by (intros j Hj; apply C; lia).
  pose proof (index_after_nonneg (bits htbl) d 1 Cd) as I0.
  pose proof (code_after_nonneg (bits htbl) d C ltac:(lia)) as C0.
  pose proof (C (1 + d)%nat ltac:(lia)) as Hb.
  destruct (A d Hd) as [A1 A2]. cbv zeta in A1, A2.
  rewrite Z.add_0_l in A1.
  assert (Emc : forall v,
            nth (1 + d) mc 0 = v ->
            maxcode_at (mk_d_derived_tbl (list_set mc 17 1048575) vo htbl nb sy)
              (Z.of_nat (1 + d)) = Some v).
  { intros v Ev. unfold maxcode_at. cbn [maxcode].
    destruct (Z.ltb_spec (Z.of_nat (1 + d)) 0) as [Hneg|_]; [lia|].
    rewrite Nat2Z.id.
    rewrite (nth_error_nth' _ 0)
      by (rewrite list_set_length, Lmc, Lm; lia).
    rewrite nth_list_set_neq by lia. rewrite Ev. reflexivity. }
  split.
  - intro Hpos. destruct (A1 ltac:(lia)) as [M V].
    set (b := codes_of_length (bits htbl) (1 + d)) in *.
    destruct (run_nth (bits htbl) d 16 1 0 (b - 1) Hd ltac:(lia) Cd)
      as [_ N1].
    destruct (run_nth (bits htbl) d 16 1 0 0 Hd ltac:(lia) Cd) as [_ N0].
    rewrite <- Ehc in N1, N0. rewrite !Z.add_0_r in N0.
    replace (index_after (bits htbl) 1 d + (b - 1))
      with (index_after (bits htbl) 1 d + b - 1) in N1 by lia.
    rewrite N1 in M. rewrite N0 in V.
    pose proof (runs_fit_at (bits htbl) d 16 1 0 Hd F Hpos) as Fit.
    fold b in Fit.
    assert (P16 : 2 ^ Z.of_nat (1 + d) <= 2 ^ 16)
      by (apply Z.pow_le_mono_r; lia).
    change (2 ^ 16) with 65536 in P16.
    assert (S3 : forall z, -65536 <= z < 65536 -> to_INT32 z = z).
    { intros z Hz. unfold to_INT32. apply wrap_s_small; [lia|].
      change (2 ^ (32 - 1)) with 2147483648. lia. }
    assert (I1 : index_after (bits htbl) 1 d <= 256).
    { pose proof (index_step (bits htbl) d 16 C Hd ltac:(lia)). lia. }
    rewrite S3 in M by lia. rewrite (S3 (code_after _ _ _ _)) in V by lia.
    rewrite S3 in V by lia.
    split; [apply Emc; rewrite M; lia|].
    cbn [valoffset]. exact V.
  - intro Hz. apply Emc. apply A2. exact Hz.
Qed.

(* The first k+1 bits of a number are twice its first k bits plus the
   next bit. *)
Lemma next_bit_arith U k :
  0 <= k -> U / 2 ^ k = 2 * (U / 2 ^ (k + 1)) + (U mod 2 ^ (k + 1)) / 2 ^ k.
Proof.
  intro Hk. pose proof (pow2_pos k Hk) as P.
  assert (E : 2 ^ (k + 1) = 2 ^ k * 2)
    by (rewrite pow2_split by lia; reflexivity).
  rewrite (Z.div_mod U (2 ^ (k + 1))) at 1 by lia.
  rewrite E at 1.
  replace (2 ^ k * 2 * (U / 2 ^ (k + 1)))
    with ((2 * (U / 2 ^ (k + 1))) * 2 ^ k) by lia.
  rewrite Z.div_add_l by lia. reflexivity.
Qed.

Lemma front_bits U L s l :
  0 <= l <= s -> s <= L -> U / 2 ^ (L - l) = (U / 2 ^ (L - s)) / 2 ^ (s - l).
Proof.
  intros Hl Hs.
  pose proof (pow2_pos (L - s) ltac:(lia)).
  pose proof (pow2_pos (s - l) ltac:(lia)).
  rewrite Z.div_div by lia.
  rewrite <- pow2_split by lia. f_equal. f_equal. lia.
Qed.

Lemma unread_bits_range gb bl D :
  Forall is_byte D -> 0 <= bl ->
  0 <= unread_bits gb bl D < 2 ^ unread_length bl D.
Proof.
  intros HD Hbl. unfold unread_bits, unread_length.
  pose proof (bytes_value_bound D HD) as HB.
  pose proof (Z.mod_pos_bound gb (2 ^ bl) (pow2_pos bl Hbl)) as Hg.
  rewrite pow256 by lia.
  pose proof (pow2_pos (8 * Z.of_nat (length D)) ltac:(lia)) as P.
  rewrite pow2_split by lia. nia.
Qed.

(* The loop of jpeg_huff_decode on a code of the table: it takes one
   bit after the other until the code is complete. *)
Lemma lengthen_loop_exact dtbl c s m rest U L :
  (forall l, 1 <= l < s ->
     exists mx, maxcode_at dtbl l = Some mx /\ mx < c / 2 ^ (s - l)) ->
  (exists mx, maxcode_at dtbl s = Some mx /\ c <= mx) ->
  m <> 0 -> m <> 0xFF -> s <= L -> s <= 16 -> 0 <= c < 2 ^ 16 ->
  U / 2 ^ (L - s) = c ->
  forall (n : nat) l state gb bl D code,
    l + Z.of_nat n = s -> 1 <= l ->
    segment_view state D m rest -> Forall is_byte D -> 0 <= bl <= 32 ->
    unread_length bl D = L - l ->
    unread_bits gb bl D = U mod 2 ^ (L - l) ->
    code = U / 2 ^ (L - l) ->
    exists state' gb' bl' D',
      lengthen_loop state gb bl dtbl code l
        = Lengthened state' gb' bl' c s /\
      segment_view state' D' m rest /\ Forall is_byte D' /\
      0 <= bl' <= 32 /\
      unread_length bl' D' = L - s /\
      unread_bits gb' bl' D' = U mod 2 ^ (L - s) /\
      same_reader_state (cinfo state) (cinfo state').
Proof.
  intros Hshort Hfull Hm0 Hm1 HsL Hs16 Hc HU.
  induction n as [|n IH]; intros l state gb bl D code Hl H1 V HD Hbl HL HUn Hcode.
  - assert (l = s) by lia. subst l.
    rewrite lengthen_loop_step. unfold lengthen_body.
    destruct Hfull as (mx & Emx & Hmx). rewrite Emx.
    rewrite Hcode, HU. replace (c >? mx) with false by lia.
    exists state, gb, bl, D. repeat split; auto; lia.
  - assert (Hls : 1 <= l < s) by lia.
    destruct (Hshort l Hls) as (mx & Emx & Hmx).
    assert (Ecode : code = c / 2 ^ (s - l)).
    { rewrite Hcode, <- HU. apply front_bits; lia. }
    pose proof (pow2_pos (s - l) ltac:(lia)) as Ps.
    assert (Hcr : 0 <= code <= c).
    { rewrite Ecode. split; [apply Z.div_pos; lia|].
      apply Z.div_le_upper_bound; [lia|]. nia. }
    destruct (fetch_bits_exact state gb bl 1 D m rest V HD Hm0 Hm1 Hbl
                ltac:(lia) ltac:(lia))
      as (st1 & gb1 & bl1 & D1 & Hf & V1 & HD1 & Hbl1 & HL1 & HU1 & R1).
    rewrite lengthen_loop_step. unfold lengthen_body. rewrite Emx.
    replace (code >? mx) with true by lia.
    unfold jdhuff_mcu.fetch_bits in Hf.
    destruct (CHECK_BIT_BUFFER state gb bl 1) as [[[st1' gb1'] bl1']|];
      [|discriminate].
    destruct (GET_BITS gb1' bl1' 1) as [r bl2].
    injection Hf as Er -> -> ->.
    assert (E2 : to_INT32 (Z.shiftl code 1) = 2 * code).
    { rewrite Z.shiftl_mul_pow2 by lia. change (2 ^ 1) with 2.
      unfold to_INT32. rewrite wrap_s_small; [lia|lia|].
      change (2 ^ (32 - 1)) with 2147483648.
      change (2 ^ 16) with 65536 in Hc. lia. }
    rewrite E2.
    pose proof (unread_bits_range gb bl D HD ltac:(lia)) as HUr.
    assert (Hr : 0 <= r < 2).
    { rewrite Er. rewrite HL in *.
      pose proof (pow2_pos (L - l - 1) ltac:(lia)) as P.
      split; [apply Z.div_pos; lia|].
      apply Z.div_lt_upper_bound; [lia|].
      replace (2 ^ (L - l - 1) * 2) with (2 ^ (L - l))
        by (replace (L - l) with ((L - l - 1) + 1) at 1 by lia;
            rewrite pow2_split by lia; reflexivity).
      lia. }
    rewrite lor_even_bit by lia.
    destruct (IH (l + 1) st1 gb1 bl1 D1 (2 * code + r))
      as (st2 & gb2 & bl2' & D2 & Hrun & V2 & HD2 & Hbl2 & HL2 & HU2 & R2);
      try assumption; try lia.
    + rewrite HU1, HUn, HL.
      rewrite mod_pow2_le by lia. f_equal. f_equal. lia.
    + rewrite Er, HUn, HL, Hcode.
      replace (L - (l + 1)) with (L - l - 1) by lia.
      rewrite (next_bit_arith U (L - l - 1)) by lia.
      replace (L - l - 1 + 1) with (L - l) by lia. reflexivity.
    + exists st2, gb2, bl2', D2. rewrite Hrun.
      repeat split; try assumption; try lia;
        try (eapply same_reader_state_trans; eassumption).
      all: destruct R1 as (A1 & B1 & C1 & D1'); destruct R2 as (A2 & B2 & C2 & D2');
        congruence.
Qed.

(* jpeg_huff_decode on the code of length 1+d and rank i, told to start
   with min_bits bits. *)
Lemma huff_decode_exact htbl isDC tblno old dtbl d i :
  length (maxcode old) = 18%nat -> length (valoffset old) = 17%nat ->
  jpeg_make_d_derived_tbl htbl isDC tblno old = Returned dtbl ->
  (d < 16)%nat -> 0 <= i < codes_of_length (bits htbl) (1 + d) ->
  forall state gb bl D m rest min_bits,
    segment_view state D m rest -> Forall is_byte D ->
    m <> 0 -> m <> 0xFF -> 0 <= bl <= 32 ->
    1 <= min_bits <= Z.of_nat (1 + d) -> min_bits <= 15 ->
    Z.of_nat (1 + d) <= unread_length bl D ->
    unread_bits gb bl D / 2 ^ (unread_length bl D - Z.of_nat (1 + d))
      = code_after (bits htbl) 1 0 d + i ->
    exists state' D',
      jpeg_huff_decode state gb bl dtbl min_bits
        = Symbol (nth (Z.to_nat (index_after (bits htbl) 1 d + i))
                    (huffval htbl) 0) state' /\
      segment_view state' D' m rest /\ Forall is_byte D' /\
      0 <= bits_left state' <= 32 /\
      unread_length (bits_left state') D'
        = unread_length bl D - Z.of_nat (1 + d) /\
      unread_bits (get_buffer state') (bits_left state') D'
        = unread_bits gb bl D
          mod 2 ^ (unread_length bl D - Z.of_nat (1 + d)) /\
      same_reader_state (cinfo state) (cinfo state').
Proof.
  intros Lm Lv Hd_tbl Hd Hi state gb bl D m rest min_bits V HD Hm0 Hm1 Hbl
    Hmin Hmin15 Hlen Hfront.
  destruct (d_table_entries htbl isDC tblno old dtbl Lm Lv Hd_tbl)
    as (C & F & Lcount & Epub & Ent & _).
  set (s := Z.of_nat (1 + d)) in *.
  set (c := code_after (bits htbl) 1 0 d + i) in *.
  set (U := unread_bits gb bl D) in *.
  set (L := unread_length bl D) in *.
  pose proof (code_after_nonneg (bits htbl) d C ltac:(lia)) as C0.
  pose proof (runs_fit_at (bits htbl) d 16 1 0 Hd F ltac:(lia)) as Fit.
  fold s in Fit.
  assert (P16 : 2 ^ s <= 2 ^ 16) by (apply Z.pow_le_mono_r; lia).
  destruct (Ent d Hd) as [Efull _]. cbv zeta in Efull.
  destruct (Efull ltac:(lia)) as [Emax Eval]. fold s in Emax.
  (* the shorter lengths *)
  assert (Hshort : forall l, 1 <= l < s ->
            exists mx, maxcode_at dtbl l = Some mx /\ mx < c / 2 ^ (s - l)).
  { intros l Hl.
    set (e := Z.to_nat (l - 1)).
    assert (He : (e < d)%nat) by lia.
    assert (El : l = Z.of_nat (1 + e)) by lia.
    pose proof (pow2_pos (s - l) ltac:(lia)) as P.
    destruct (Ent e ltac:(lia)) as [E1 E0]. cbv zeta in E1, E0.
    rewrite <- El in E1, E0.
    pose proof (C (1 + e)%nat ltac:(lia)) as Hb.
    destruct (Z.eq_dec (codes_of_length (bits htbl) (1 + e)) 0) as [Hz|Hnz].
    - exists (-1). split; [apply E0; exact Hz|].
      assert (0 <= c / 2 ^ (s - l)) by (apply Z.div_pos; lia). lia.
    - destruct (E1 ltac:(lia)) as [E1' _]. eexists. split; [exact E1'|].
      pose proof (code_after_above (bits htbl) e 1 0 (d - e - 1)
                    ltac:(intros j Hj; apply C; lia) ltac:(lia)) as Hab.
      replace (e + S (d - e - 1))%nat with d in Hab by lia.
      replace (Z.of_nat (S (d - e - 1))) with (s - l) in Hab by lia.
      assert (code_after (bits htbl) 1 0 e
              + codes_of_length (bits htbl) (1 + e) <= c / 2 ^ (s - l)).
      { apply Z.div_le_lower_bound; [exact P|]. unfold c. lia. }
      lia. }
  assert (Hfull : exists mx, maxcode_at dtbl s = Some mx /\ c <= mx).
  { eexists. split; [exact Emax|]. unfold c. lia. }
  (* the first min_bits bits *)
  destruct (fetch_bits_exact state gb bl min_bits D m rest V HD Hm0 Hm1 Hbl
              ltac:(lia) ltac:(fold L; lia))
    as (st1 & gb1 & bl1 & D1 & Hf & V1 & HD1 & Hbl1 & HL1 & HU1 & R1).
  fold U L in Hf, HL1, HU1.
  unfold jdhuff_mcu.fetch_bits in Hf.
  unfold jpeg_huff_decode.
  destruct (CHECK_BIT_BUFFER state gb bl min_bits) as [[[st1' gb1'] bl1']|];
    [|discriminate].
  destruct (GET_BITS gb1' bl1' min_bits) as [r bl2].
  injection Hf as Er -> -> ->.
  destruct (lengthen_loop_exact dtbl c s m rest U L Hshort Hfull Hm0 Hm1
              ltac:(lia) ltac:(lia) ltac:(unfold c; lia) Hfront
              (Z.to_nat (s - min_bits)) min_bits st1 gb1 bl1 D1 r
              ltac:(lia) ltac:(lia) V1 HD1 Hbl1 HL1 HU1 Er)
    as (st2 & gb2 & bl2 & D2 & Hrun & V2 & HD2 & Hbl2 & HL2 & HU2 & R2).
  rewrite Hrun. replace (s >? 16) with false by lia.
  rewrite Epub.
  replace (Z.to_nat s) with (1 + d)%nat by lia. rewrite Eval.
  pose proof (index_after_nonneg (bits htbl) d 1
                ltac:(intros j Hj; apply C; lia)) as I0.
  assert (I1 : index_after (bits htbl) 1 d
               + codes_of_length (bits htbl) (1 + d) <= 256).
  { pose proof (index_step (bits htbl) d 16 C Hd ltac:(lia)). lia. }
  rewrite to_JINT_small
    by (change (2 ^ 31) with 2147483648; unfold c; lia).
  replace (c + (index_after (bits htbl) 1 d - code_after (bits htbl) 1 0 d))
    with (index_after (bits htbl) 1 d + i) by (unfold c; lia).
  eexists. exists D2. split; [reflexivity|].
  cbn [bits_left get_buffer cinfo next_input_byte].
  split.
  { destruct V2 as [[V2a V2b]|[V2a [V2b V2c]]]; [left|right];
      cbn [cinfo next_input_byte]; auto. }
  split; [exact HD2|]. split; [exact Hbl2|]. split; [exact HL2|].
  split; [exact HU2|].
  eapply same_reader_state_trans; eassumption.
Qed.

(** X18.  Huffman decoding inverts the encoding table.  Let the encoder
    and the decoder derive their tables from the same Huffman table.
    When the bits that the decoder has not yet fetched (in its bit
    buffer and in the stuffed data before the next marker) begin with
    the encoder's code of a listed symbol, [jpeg_huff_decode] returns
    that symbol, whatever min_bits in 1..15 not above the code's length
    it is told to start with; it takes exactly the bits of the code and
    leaves the rest of the data and the marker reader's state as they
    were. *)
Theorem huff_decode_inverts_encoding_table :
  forall htbl isDC tblno oldc oldd ctbl dtbl,
    length (jchuff.ehufco oldc) = 256%nat ->
    length (maxcode oldd) = 18%nat -> length (valoffset oldd) = 17%nat ->
    jchuff_tables.jpeg_make_c_derived_tbl htbl isDC tblno oldc
      = Returned ctbl ->
    jpeg_make_d_derived_tbl htbl isDC tblno oldd = Returned dtbl ->
    forall (p : nat) state gb bl D m rest min_bits,
      Z.of_nat p < symbol_count (bits htbl) ->
      let sym := nth p (huffval htbl) 0 in
      let code := jchuff.ehufco_at ctbl sym in
      let size := jchuff.ehufsi_at ctbl sym in
      segment_view state D m rest -> Forall is_byte D ->
      m <> 0 -> m <> 0xFF -> 0 <= bl <= 32 ->
      1 <= min_bits <= size -> min_bits <= 15 ->
      size <= unread_length bl D ->
      unread_bits gb bl D / 2 ^ (unread_length bl D - size) = code ->
      exists state' D',
        jpeg_huff_decode state gb bl dtbl min_bits = Symbol sym state' /\
        segment_view state' D' m rest /\ Forall is_byte D' /\
        0 <= bits_left state' <= 32 /\
        unread_length (bits_left state') D' = unread_length bl D - size /\
        unread_bits (get_buffer state') (bits_left state') D'
          = unread_bits gb bl D mod 2 ^ (unread_length bl D - size) /\
        same_reader_state (cinfo state) (cinfo state').
Proof.
  intros htbl isDC tblno oldc oldd ctbl dtbl Lc Lm Lv Hc Hd p state gb bl D m
    rest min_bits Hp sym code size V HD Hm0 Hm1 Hbl Hmin Hmin15 Hlen Hfront.
  destruct (c_table_entries htbl isDC tblno oldc ctbl Lc Hc)
    as (C & _ & _ & E & _ & _).
  unfold symbol_count in Hp. rewrite symbol_count_index in Hp.
  destruct (index_decompose (bits htbl) 16 1 (Z.of_nat p) C ltac:(lia))
    as (d & i & Hd16 & Hi & Ep).
  pose proof (E d i Hd16 Hi) as Ed. cbv zeta in Ed.
  rewrite <- Ep, Nat2Z.id in Ed. fold sym in Ed.
  destruct Ed as (_ & Esize & Ecode). fold size in Esize. fold code in Ecode.
  rewrite Esize in *. rewrite Ecode in Hfront.
  destruct (huff_decode_exact htbl isDC tblno oldd dtbl d i Lm Lv Hd Hd16 Hi
              state gb bl D m rest min_bits V HD Hm0 Hm1 Hbl Hmin Hmin15 Hlen
              Hfront) as (state' & D' & Hrun & Rest).
  exists state', D'. split; [|exact Rest].
  rewrite Hrun. rewrite <- Ep, Nat2Z.id. reflexivity.
Qed.

Lemma huff_decode_inverts_encoding_table_witness :
  exists state' D',
    jpeg_huff_decode ex_code_reader 0 0 decode_spec.ex_dtbl 1
      = Symbol 3 state' /\
    segment_view state' D' 0xD9 [] /\
    unread_length (bits_left state') D' = 5.
Proof.
  assert (Hc : jchuff_tables.jpeg_make_c_derived_tbl
                 decode_spec.std_dc_luminance true 0 blank_c_derived_tbl
               = Returned ex_ctbl) by (vm_compute; reflexivity).
  assert (Hd : jpeg_make_d_derived_tbl decode_spec.std_dc_luminance true 0
                 blank_d_derived_tbl
               = Returned decode_spec.ex_dtbl) by (vm_compute; reflexivity).
  assert (V : segment_view ex_code_reader [0x80] 0xD9 [])
    by (left; split; reflexivity).
  assert (HD : Forall is_byte [0x80])
    by (repeat constructor; unfold is_byte; lia).
  destruct (huff_decode_inverts_encoding_table decode_spec.std_dc_luminance
              true 0 blank_c_derived_tbl blank_d_derived_tbl ex_ctbl
              decode_spec.ex_dtbl eq_refl eq_refl eq_refl Hc Hd
              3%nat ex_code_reader 0 0 [0x80] 0xD9 [] 1
              ltac:(vm_compute; reflexivity) V HD ltac:(lia) ltac:(lia)
              ltac:(lia) ltac:(vm_compute; split; discriminate) ltac:(lia)
              ltac:(vm_compute; discriminate) ltac:(vm_compute; reflexivity))
    as (state' & D' & Hrun & V' & _ & _ & HL & _).
  exists state', D'. split; [exact Hrun|]. split; [exact V'|exact HL].
Defined.

End huffman_decode_properties.
(** ** The look-ahead tables and HUFF_DECODE (jdhuff.c) *)

Section lookahead_properties.
Import jdhuff huffman_spec bitstream_spec jdhuff_block.

Lemma fill_lookahead_spec l sym : forall ctr lb nb sy nb' sy',
  fill_lookahead ctr lb l sym nb sy = (nb', sy') ->
  0 <= lb -> (Z.to_nat lb + ctr <= length nb)%nat ->
  length sy = length nb ->
  length nb' = length nb /\ length sy' = length sy /\
  forall x : nat,
    (lb <= Z.of_nat x < lb + Z.of_nat ctr ->
     nth x nb' 0 = l /\ nth x sy' 0 = sym) /\
    (~ lb <= Z.of_nat x < lb + Z.of_nat ctr ->
     nth x nb' 0 = nth x nb 0 /\ nth x sy' 0 = nth x sy 0).
Proof.
  induction ctr as [|ctr IH]; intros lb nb sy nb' sy' H H0 Hlen Hsy;
    cbn [fill_lookahead] in H.
  - injection H as <- <-. split; [reflexivity|]. split; [reflexivity|].
    intro x. split; [lia|auto].
  - apply IH in H; rewrite ?list_set_length; try lia.
    destruct H as (L1 & L2 & A). rewrite list_set_length in L1, L2.
    split; [exact L1|]. split; [exact L2|].
    intro x. destruct (A x) as [A1 A2]. split.
    + intro Hx. destruct (Z.eq_dec (Z.of_nat x) lb) as [E|N].
      * destruct A2 as [B1 B2]; [lia|]. rewrite B1, B2.
        replace x with (Z.to_nat lb) by lia.
        rewrite !nth_list_set_eq by lia. auto.
      * apply A1. lia.
    + intro Hx. destruct A2 as [B1 B2]; [lia|]. rewrite B1, B2.
      rewrite !nth_list_set_neq by lia. auto.
Qed.

(* The entries that the codes of one length fill in. *)
Lemma lookahead_codes_spec htbl hc (l : Z) idx F :
  1 <= l <= 8 -> 0 <= idx ->
  forall n i0 nb sy p' nb' sy',
    lookahead_codes n (idx + i0) l htbl hc nb sy = (p', nb', sy') ->
    0 <= i0 -> 0 <= F -> F + i0 + Z.of_nat n <= 2 ^ l ->
    (forall i, i0 <= i < i0 + Z.of_nat n ->
       nth (Z.to_nat (idx + i)) hc 0 = F + i) ->
    length nb = 256%nat -> length sy = 256%nat ->
    p' = idx + i0 + Z.of_nat n /\
    length nb' = 256%nat /\ length sy' = 256%nat /\
    forall x : nat, (x < 256)%nat ->
      (forall i, i0 <= i < i0 + Z.of_nat n ->
         Z.of_nat x / 2 ^ (8 - l) = F + i ->
         nth x nb' 0 = l /\
         nth x sy' 0 = nth (Z.to_nat (idx + i)) (huffval htbl) 0) /\
      ((forall i, i0 <= i < i0 + Z.of_nat n ->
          Z.of_nat x / 2 ^ (8 - l) <> F + i) ->
       nth x nb' 0 = nth x nb 0 /\ nth x sy' 0 = nth x sy 0).
Proof.
  intros Hl Hidx.
  pose proof (pow2_pos (8 - l) ltac:(lia)) as P.
  assert (P8 : 2 ^ l * 2 ^ (8 - l) = 256).
  { rewrite <- pow2_split by lia. replace (l + (8 - l)) with 8 by lia.
    reflexivity. }
  induction n as [|n IH]; intros i0 nb sy p' nb' sy' H Hi0 HF Hfit Hhc Lnb Lsy;
    cbn [lookahead_codes] in H.
  - injection H as <- <- <-. split; [lia|]. split; [exact Lnb|].
    split; [exact Lsy|]. intros x Hx. split; [intros i Hi; lia|auto].
  - unfold HUFF_LOOKAHEAD in H.
    rewrite (Hhc i0 ltac:(lia)) in H.
    assert (Elb : to_JINT (Z.shiftl (F + i0) (8 - l)) = (F + i0) * 2 ^ (8 - l)).
    { rewrite Z.shiftl_mul_pow2 by lia. apply to_JINT_small.
      change (2 ^ 31) with 2147483648. nia. }
    assert (Ectr : Z.shiftl 1 (8 - l) = 2 ^ (8 - l))
      by (rewrite Z.shiftl_mul_pow2 by lia; lia).
    rewrite Elb, Ectr in H.
    destruct (fill_lookahead _ _ _ _ nb sy) as [nb1 sy1] eqn:Ef.
    apply fill_lookahead_spec in Ef; [|nia|nia|congruence].
    destruct Ef as (L1 & L2 & A).
    replace (idx + i0 + 1) with (idx + (i0 + 1)) in H by lia.
    apply IH in H; try lia; try congruence.
    2:{ intros i Hi. apply Hhc. lia. }
    destruct H as (Ep & L1' & L2' & B).
    split; [lia|]. split; [exact L1'|]. split; [exact L2'|].
    intros x Hx. destruct (B x Hx) as [B1 B2]. destruct (A x) as [A1 A2].
    rewrite Z2Nat.id in A1, A2 by lia.
    assert (Hrange : (F + i0) * 2 ^ (8 - l) <= Z.of_nat x
                       < (F + i0) * 2 ^ (8 - l) + 2 ^ (8 - l)
                     <-> Z.of_nat x / 2 ^ (8 - l) = F + i0).
    { split.
      - intro Hr. symmetry. apply Z.div_unique with
          (r := Z.of_nat x - (F + i0) * 2 ^ (8 - l)); lia.
      - intro E. pose proof (Z.div_mod (Z.of_nat x) (2 ^ (8 - l)) ltac:(lia)).
        pose proof (Z.mod_pos_bound (Z.of_nat x) (2 ^ (8 - l)) P).
        rewrite E in *. lia. }
    split.
    + intros i Hi Ex. destruct (Z.eq_dec i i0) as [->|Hne].
      * destruct B2 as [C1 C2]; [intros j Hj; lia|].
        rewrite C1, C2. apply A1. apply Hrange. exact Ex.
      * apply B1; [lia|exact Ex].
    + intros Hno. destruct B2 as [C1 C2]; [intros j Hj; apply Hno; lia|].
      rewrite C1, C2. apply A2. intro Hr. apply Hrange in Hr.
      apply (Hno i0 ltac:(lia)). exact Hr.
Qed.

(* A code of a longer length never has a code of a shorter length at its
   front. *)
Lemma no_shorter_prefix bits d i d' v :
  counts_ok bits 1 16 -> (d < d')%nat -> (d' < 16)%nat ->
  0 <= i < codes_of_length bits (1 + d) ->
  code_after bits 1 0 d' <= v ->
  v / 2 ^ Z.of_nat (d' - d) <> code_after bits 1 0 d + i.
Proof.
  intros C Hd Hd' Hi Hv E.
  pose proof (code_after_above bits d 1 0 (d' - d - 1)
                ltac:(intros j Hj; apply C; lia) ltac:(lia)) as Hab.
  replace (d + S (d' - d - 1))%nat with d' in Hab by lia.
  replace (S (d' - d - 1)) with (d' - d)%nat in Hab by lia.
  pose proof (pow2_pos (Z.of_nat (d' - d)) ltac:(lia)) as P.
  assert (code_after bits 1 0 d + codes_of_length bits (1 + d)
          <= v / 2 ^ Z.of_nat (d' - d)).
  { apply Z.div_le_lower_bound; [exact P|]. lia. }
  lia.
Qed.

(* The first code of a length fits in that length, used or not. *)
Lemma code_after_bound bits : forall d n k code,
  (d <= n)%nat -> runs_fit n k bits code -> counts_ok bits k d ->
  code <= 2 ^ Z.of_nat k ->
  code_after bits k code d <= 2 ^ Z.of_nat (k + d).
Proof.
  induction d as [|d IH]; intros n k code Hd F C Hc; cbn [code_after].
  - rewrite Nat.add_0_r. exact Hc.
  - destruct n as [|n]; [lia|]. cbn [runs_fit] in F. destruct F as [F1 F2].
    pose proof (C k ltac:(lia)) as Hb.
    replace (k + S d)%nat with (S k + d)%nat by lia.
    apply (IH n); [lia|exact F2|intros j Hj; apply C; lia|].
    rewrite Nat2Z.inj_succ, Z.pow_succ_r by lia.
    destruct (Z.eq_dec (codes_of_length bits k) 0) as [Ez|Enz].
    + rewrite Ez. lia.
    + specialize (F1 ltac:(lia)). lia.
Qed.

Lemma lookahead_tables_spec htbl :
  counts_ok (bits htbl) 1 16 -> runs_fit 16 1 (bits htbl) 0 ->
  forall n k nb sy nb' sy',
    (1 <= k)%nat -> (k + n = 9)%nat ->
    lookahead_tables n (Z.of_nat k) (index_after (bits htbl) 1 (k - 1)) htbl
      (run_codes 16 1 (bits htbl) 0) nb sy = (nb', sy') ->
    length nb = 256%nat -> length sy = 256%nat ->
    forall x : nat, (x < 256)%nat ->
      (forall d i, (k <= 1 + d)%nat -> (d < 8)%nat ->
         0 <= i < codes_of_length (bits htbl) (1 + d) ->
         Z.of_nat x / 2 ^ (7 - Z.of_nat d)
           = code_after (bits htbl) 1 0 d + i ->
         nth x nb' 0 = Z.of_nat (1 + d) /\
         nth x sy' 0
           = nth (Z.to_nat (index_after (bits htbl) 1 d + i))
               (huffval htbl) 0) /\
      ((forall d i, (k <= 1 + d)%nat -> (d < 8)%nat ->
          0 <= i < codes_of_length (bits htbl) (1 + d) ->
          Z.of_nat x / 2 ^ (7 - Z.of_nat d)
            <> code_after (bits htbl) 1 0 d + i) ->
       nth x nb' 0 = nth x nb 0 /\ nth x sy' 0 = nth x sy 0).
Proof.
  intros C F.
  induction n as [|n IH]; intros k nb sy nb' sy' Hk Hkn H Lnb Lsy x Hx;
    cbn [lookahead_tables] in H.
  - injection H as <- <-. split; [intros d i Hd Hd8; lia|auto].
  - rewrite Nat2Z.id in H.
    fold (codes_of_length (bits htbl) k) in H.
    set (d0 := (k - 1)%nat) in *.
    assert (Ek : k = (1 + d0)%nat) by lia.
    pose proof (C k ltac:(lia)) as Hb.
    assert (Cd : counts_ok (bits htbl) 1 d0)
      by (intros j Hj; apply C; lia).
    pose proof (index_after_nonneg (bits htbl) d0 1 Cd) as I0.
    pose proof (code_after_nonneg (bits htbl) d0 C ltac:(lia)) as C0.
    assert (Hfit : code_after (bits htbl) 1 0 d0 + 0
                   + Z.of_nat (Z.to_nat (codes_of_length (bits htbl) k))
                   <= 2 ^ Z.of_nat k).
    { rewrite Z2Nat.id by lia.
      destruct (Z.eq_dec (codes_of_length (bits htbl) k) 0) as [Ez|Enz].
      - rewrite Ez.
        pose proof (code_after_bound (bits htbl) d0 16 1 0 ltac:(lia) F Cd
                      ltac:(cbn; lia)) as Hbd.
        rewrite <- Ek in Hbd. lia.
      - pose proof (runs_fit_at (bits htbl) d0 16 1 0 ltac:(lia) F
                      ltac:(rewrite <- Ek; lia)) as Hft.
        rewrite <- Ek in Hft. lia. }
    assert (Hhc : forall i,
              0 <= i < 0 + Z.of_nat (Z.to_nat (codes_of_length (bits htbl) k)) ->
              nth (Z.to_nat (index_after (bits htbl) 1 d0 + i))
                (run_codes 16 1 (bits htbl) 0) 0
              = code_after (bits htbl) 1 0 d0 + i).
    { intros i Hi. rewrite Z2Nat.id in Hi by lia.
      assert (Hi' : 0 <= i < codes_of_length (bits htbl) (1 + d0))
        by (rewrite <- Ek; lia).
      destruct (run_nth (bits htbl) d0 16 1 0 i ltac:(lia) Hi' Cd) as [_ N].
      exact N. }
    destruct (lookahead_codes _ _ _ _ _ nb sy) as [[p1 nb1] sy1] eqn:Ec.
    replace (index_after (bits htbl) 1 d0)
      with (index_after (bits htbl) 1 d0 + 0) in Ec by lia.
    apply (lookahead_codes_spec htbl _ (Z.of_nat k) _
             (code_after (bits htbl) 1 0 d0) ltac:(lia) I0) in Ec;
      [|lia|exact C0|exact Hfit|exact Hhc|exact Lnb|exact Lsy].
    destruct Ec as (Ep & L1 & L2 & A).
    rewrite Z2Nat.id in Ep, A by lia.
    replace (Z.of_nat k + 1) with (Z.of_nat (S k)) in H by lia.
    assert (Ep1 : p1 = index_after (bits htbl) 1 (S k - 1)).
    { rewrite Ep. replace (S k - 1)%nat with (d0 + 1)%nat by lia.
      rewrite index_after_mono by (intros j Hj; apply C; lia).
      cbn [index_after]. rewrite <- Ek. lia. }
    rewrite Ep1 in H.
    destruct (IH (S k) nb1 sy1 nb' sy' ltac:(lia) ltac:(lia) H L1 L2 x Hx)
      as [B1 B2].
    destruct (A x Hx) as [A1 A2].
    replace (8 - Z.of_nat k) with (7 - Z.of_nat d0) in A1, A2 by lia.
    split.
    + intros d i Hd Hd8 Hi Ex.
      destruct (Nat.eq_dec d d0) as [->|Hne].
      * destruct B2 as [E1 E2].
        { intros d' i' Hd' Hd8' Hi' Ex'.
          assert (Hlt : (d0 < d')%nat) by lia.
          pose proof (code_after_nonneg (bits htbl) d' C ltac:(lia)).
          apply (no_shorter_prefix (bits htbl) d0 i d'
                   (code_after (bits htbl) 1 0 d' + i') C Hlt ltac:(lia) Hi
                   ltac:(lia)).
          rewrite <- Ex, <- Ex'.
          pose proof (pow2_pos (7 - Z.of_nat d') ltac:(lia)).
          pose proof (pow2_pos (Z.of_nat (d' - d0)) ltac:(lia)).
          rewrite Z.div_div by lia.
          rewrite <- pow2_split by lia. f_equal. f_equal. lia. }
        rewrite E1, E2. rewrite <- Ek. apply A1; [rewrite Ek; lia|exact Ex].
      * apply B1; try assumption. lia.
    + intros Hno. destruct B2 as [E1 E2].
      { intros d i Hd Hd8 Hi. apply Hno; try assumption. lia. }
      rewrite E1, E2. apply A2. intros i Hi.
      apply Hno; [lia|lia|rewrite <- Ek; lia].
Qed.

(* The look-ahead tables of a derived table: an entry whose index has a
   code of at most 8 bits at its front holds that code's length and
   symbol, every other entry holds length 0. *)
Lemma look_entries htbl isDC tblno old dtbl :
  length (maxcode old) = 18%nat -> length (valoffset old) = 17%nat ->
  length (look_sym old) = 256%nat ->
  jpeg_make_d_derived_tbl htbl isDC tblno old = Returned dtbl ->
  forall x : nat, (x < 256)%nat ->
    (forall d i, (d < 8)%nat ->
       0 <= i < codes_of_length (bits htbl) (1 + d) ->
       Z.of_nat x / 2 ^ (7 - Z.of_nat d) = code_after (bits htbl) 1 0 d + i ->
       nth x (look_nbits dtbl) 0 = Z.of_nat (1 + d) /\
       nth x (look_sym dtbl) 0
         = nth (Z.to_nat (index_after (bits htbl) 1 d + i)) (huffval htbl) 0) /\
    ((forall d i, (d < 8)%nat ->
        0 <= i < codes_of_length (bits htbl) (1 + d) ->
        Z.of_nat x / 2 ^ (7 - Z.of_nat d)
          <> code_after (bits htbl) 1 0 d + i) ->
     nth x (look_nbits dtbl) 0 = 0).
Proof.
  intros Lm Lv Ls H x Hx.
  destruct (d_table_entries htbl isDC tblno old dtbl Lm Lv H)
    as (C & F & _ & _ & _ & Elook).
  symmetry in Elook.
  change 1 with (Z.of_nat 1) in Elook.
  change 0 with (index_after (bits htbl) 1 (1 - 1)) in Elook at 1.
  destruct (lookahead_tables_spec htbl C F 8 1 _ _ _ _ ltac:(lia) ltac:(lia)
              Elook (repeat_length 0 256) Ls x Hx) as [A B].
  split.
  - intros d i Hd Hi Ex. apply A; try assumption. lia.
  - intro Hno. destruct B as [B1 _].
    { intros d i _ Hd Hi. apply Hno; assumption. }
    rewrite B1. apply nth_repeat_lt. exact Hx.
Qed.

(* jpeg_fill_bit_buffer asked for no bits in particular, as HUFF_DECODE
   calls it. *)
Lemma fill_bit_buffer_view state gb bl D m rest :
  segment_view state D m rest -> Forall is_byte D ->
  m <> 0 -> m <> 0xFF -> 0 <= bl <= 32 ->
  exists state1 D1,
    jpeg_fill_bit_buffer state gb bl 0 = (true, state1) /\
    segment_view state1 D1 m rest /\ Forall is_byte D1 /\
    0 <= bits_left state1 <= 32 /\
    unread_length (bits_left state1) D1 = unread_length bl D /\
    unread_bits (get_buffer state1) (bits_left state1) D1
      = unread_bits gb bl D /\
    same_reader_state (cinfo state) (cinfo state1) /\
    (bits_left state1 < MIN_GET_BITS -> D1 = []).
Proof.
  intros V HD Hm0 Hm1 Hbl. unfold jpeg_fill_bit_buffer.
  destruct V as [[Hu Hin]|[Hu [-> Hin]]].
  - rewrite Hu. change (0 =? 0) with true. cbv iota. rewrite Hin.
    pose proof (fill_loop_view m rest D gb bl HD Hm0 Hm1 ltac:(lia)) as F.
    destruct (fill_loop _ _ _) as [|inp gb1 bl1|c inp gb1 bl1].
    + destruct F.
    + destruct F as (D2 & Ei & F2 & Hmin & Hmax & Hle & Hl & Hv).
      exists (mk_bitread inp gb1 bl1 (cinfo state)), D2.
      cbn [bits_left get_buffer cinfo].
      split; [reflexivity|]. split; [left; split; [exact Hu|exact Ei]|].
      split; [exact F2|]. split; [lia|]. split; [exact Hl|].
      split; [apply Hv; lia|]. split; [|lia].
      unfold same_reader_state. repeat split.
    + destruct F as (-> & -> & Hlt & Hle & Hl & Hv).
      unfold no_more_bytes. replace (0 >? bl1) with false by lia.
      exists (mk_bitread rest gb1 bl1
                (jdmarker.set_unread_marker (cinfo state) m)), [].
      cbn [bits_left get_buffer cinfo].
      unfold MIN_GET_BITS, BIT_BUF_SIZE in Hlt.
      split; [reflexivity|]. split; [right; cbn; auto|].
      split; [constructor|]. split; [lia|]. split; [exact Hl|].
      split; [exact Hv|]. split; [|reflexivity].
      unfold same_reader_state. cbn. repeat split.
  - replace (jdmarker.unread_marker (cinfo state) =? 0) with false by lia.
    unfold no_more_bytes. replace (0 >? bl) with false by lia.
    exists (mk_bitread (next_input_byte state) gb bl (cinfo state)), [].
    cbn [bits_left get_buffer cinfo].
    split; [reflexivity|]. split; [right; cbn; auto|].
    split; [constructor|]. split; [lia|]. split; [reflexivity|].
    split; [reflexivity|]. split; [|reflexivity].
    unfold same_reader_state. repeat split.
Qed.

(* The bits at the front of the register are the bits at the front of
   what is unread; dropping them leaves the rest. *)
Lemma buffer_front gb bl D s :
  Forall is_byte D -> 0 <= s <= bl ->
  unread_bits gb bl D / 2 ^ (unread_length bl D - s)
    = (gb mod 2 ^ bl) / 2 ^ (bl - s).
Proof.
  intros HD Hs. unfold unread_length, unread_bits.
  set (n := Z.of_nat (length D)).
  assert (Hn : 0 <= n) by (unfold n; lia).
  pose proof (bytes_value_bound D HD) as HB. fold n in HB.
  rewrite pow256 by lia.
  pose proof (pow2_pos (8 * n) ltac:(lia)) as Pn.
  pose proof (pow2_pos (bl - s) ltac:(lia)) as Pb.
  replace (bl + 8 * n - s) with ((bl - s) + 8 * n) by lia.
  rewrite pow2_split by lia.
  rewrite (Z.mul_comm (2 ^ (bl - s))), <- Z.div_div by lia.
  rewrite Z.div_add_l, (Z.div_small (bytes_value D)) by lia.
  f_equal. lia.
Qed.

Lemma buffer_rest gb bl D s :
  Forall is_byte D -> 0 <= s <= bl ->
  unread_bits gb (bl - s) D
    = unread_bits gb bl D mod 2 ^ (unread_length bl D - s).
Proof.
  intros HD Hs. unfold unread_length, unread_bits.
  set (n := Z.of_nat (length D)).
  assert (Hn : 0 <= n) by (unfold n; lia).
  pose proof (bytes_value_bound D HD) as HB. fold n in HB.
  rewrite pow256 by lia.
  pose proof (pow2_pos (8 * n) ltac:(lia)) as Pn.
  pose proof (pow2_pos (bl - s) ltac:(lia)) as Pb.
  replace (bl + 8 * n - s) with ((bl - s) + 8 * n) by lia.
  rewrite pow2_split by lia.
  pose proof (Z.mod_pos_bound gb (2 ^ bl) (pow2_pos bl ltac:(lia))) as Hx.
  rewrite Z.add_mul_mod_distr_r by lia.
  rewrite mod_pow2_le by lia. reflexivity.
Qed.

Lemma PEEK_BITS_value gb bl s :
  0 <= s <= 15 -> s <= bl <= 32 ->
  PEEK_BITS gb bl s = (gb mod 2 ^ bl) / 2 ^ (bl - s) /\
  DROP_BITS bl s = bl - s.
Proof.
  intros Hs Hb. pose proof (GET_BITS_value gb bl s Hs Hb) as G.
  unfold GET_BITS in G. injection G as G1 G2.
  split; [exact G1|exact G2].
Qed.

(* The slow path of HUFF_DECODE on a code of the table. *)
Lemma huff_slow_exact htbl isDC tblno old dtbl d i :
  length (maxcode old) = 18%nat -> length (valoffset old) = 17%nat ->
  jpeg_make_d_derived_tbl htbl isDC tblno old = Returned dtbl ->
  (d < 16)%nat -> 0 <= i < codes_of_length (bits htbl) (1 + d) ->
  0 <= nth (Z.to_nat (index_after (bits htbl) 1 d + i)) (huffval htbl) 0 ->
  forall state gb bl D m rest min_bits,
    segment_view state D m rest -> Forall is_byte D ->
    m <> 0 -> m <> 0xFF -> 0 <= bl <= 32 ->
    1 <= min_bits <= Z.of_nat (1 + d) -> min_bits <= 15 ->
    Z.of_nat (1 + d) <= unread_length bl D ->
    unread_bits gb bl D / 2 ^ (unread_length bl D - Z.of_nat (1 + d))
      = code_after (bits htbl) 1 0 d + i ->
    exists state' gb' bl' D',
      huff_slow state gb bl dtbl min_bits
        = HuffSymbol (nth (Z.to_nat (index_after (bits htbl) 1 d + i))
                        (huffval htbl) 0) state' gb' bl' /\
      segment_view state' D' m rest /\ Forall is_byte D' /\
      0 <= bl' <= 32 /\
      unread_length bl' D' = unread_length bl D - Z.of_nat (1 + d) /\
      unread_bits gb' bl' D'
        = unread_bits gb bl D
          mod 2 ^ (unread_length bl D - Z.of_nat (1 + d)) /\
      same_reader_state (cinfo state) (cinfo state').
Proof.
  intros Lm Lv Ht Hd Hi Hsym state gb bl D m rest min_bits V HD Hm0 Hm1 Hbl
    Hmin Hmin15 Hlen Hfront.
  destruct (huff_decode_exact htbl isDC tblno old dtbl d i Lm Lv Ht Hd Hi
              state gb bl D m rest min_bits V HD Hm0 Hm1 Hbl Hmin Hmin15 Hlen
              Hfront) as (st & D' & Hrun & Rest).
  unfold huff_slow. rewrite Hrun.
  replace (_ <? 0) with false by lia.
  exists st, (get_buffer st), (bits_left st), D'.
  split; [reflexivity|exact Rest].
Qed.

(* The code of HUFF_DECODE from the look-ahead on. *)
Lemma huff_look_exact htbl isDC tblno old dtbl d i :
  length (maxcode old) = 18%nat -> length (valoffset old) = 17%nat ->
  length (look_sym old) = 256%nat ->
  jpeg_make_d_derived_tbl htbl isDC tblno old = Returned dtbl ->
  (d < 16)%nat -> 0 <= i < codes_of_length (bits htbl) (1 + d) ->
  0 <= nth (Z.to_nat (index_after (bits htbl) 1 d + i)) (huffval htbl) 0
    < 256 ->
  forall state gb bl D m rest,
    segment_view state D m rest -> Forall is_byte D ->
    m <> 0 -> m <> 0xFF -> 8 <= bl <= 32 ->
    Z.of_nat (1 + d) <= unread_length bl D ->
    unread_bits gb bl D / 2 ^ (unread_length bl D - Z.of_nat (1 + d))
      = code_after (bits htbl) 1 0 d + i ->
    exists state' gb' bl' D',
      huff_look state gb bl dtbl
        = HuffSymbol (nth (Z.to_nat (index_after (bits htbl) 1 d + i))
                        (huffval htbl) 0) state' gb' bl' /\
      segment_view state' D' m rest /\ Forall is_byte D' /\
      0 <= bl' <= 32 /\
      unread_length bl' D' = unread_length bl D - Z.of_nat (1 + d) /\
      unread_bits gb' bl' D'
        = unread_bits gb bl D
          mod 2 ^ (unread_length bl D - Z.of_nat (1 + d)) /\
      same_reader_state (cinfo state) (cinfo state').
Proof.
  intros Lm Lv Ls Ht Hd Hi Hsym state gb bl D m rest V HD Hm0 Hm1 Hbl
    Hlen Hfront.
  destruct (d_table_entries htbl isDC tblno old dtbl Lm Lv Ht)
    as (C & F & _ & _ & _ & _).
  set (U := unread_bits gb bl D) in *.
  set (L := unread_length bl D) in *.
  assert (HL : 8 <= L) by (unfold L, unread_length; lia).
  unfold huff_look, HUFF_LOOKAHEAD.
  destruct (PEEK_BITS_value gb bl 8 ltac:(lia) ltac:(lia)) as [Epeek _].
  rewrite Epeek.
  rewrite <- (buffer_front gb bl D 8 HD ltac:(lia)). fold U L.
  pose proof (unread_bits_range gb bl D HD ltac:(lia)) as HU. fold U L in HU.
  set (look := U / 2 ^ (L - 8)).
  assert (Hlook : 0 <= look < 256).
  { unfold look. pose proof (pow2_pos (L - 8) ltac:(lia)) as P.
    split; [apply Z.div_pos; lia|].
    apply Z.div_lt_upper_bound; [lia|].
    replace (2 ^ (L - 8) * 256) with (2 ^ L); [lia|].
    replace L with ((L - 8) + 8) at 1 by lia.
    rewrite pow2_split by lia. reflexivity. }
  assert (Hx : (Z.to_nat look < 256)%nat) by lia.
  destruct (look_entries htbl isDC tblno old dtbl Lm Lv Ls Ht
              (Z.to_nat look) Hx) as [Short Long].
  rewrite Z2Nat.id in Short, Long by lia.
  destruct (Nat.lt_ge_cases d 8) as [Hd8|Hd8].
  - (* the code is in the look-ahead table *)
    destruct (Short d i Hd8 Hi) as [En Es].
    { unfold look. rewrite <- Hfront.
      replace (7 - Z.of_nat d) with (8 - Z.of_nat (1 + d)) by lia.
      symmetry. apply front_bits; lia. }
    rewrite En, Es.
    rewrite (proj2 (Z.eqb_neq (Z.of_nat (1 + d)) 0)) by lia. cbn [negb].
    unfold DROP_BITS.
    rewrite to_JINT_small by (change (2 ^ 31) with 2147483648; lia).
    rewrite to_JOCTET_small by lia.
    exists state, gb, (bl - Z.of_nat (1 + d)), D.
    split; [reflexivity|]. split; [exact V|]. split; [exact HD|].
    split; [lia|]. split; [unfold L, unread_length; lia|].
    split; [apply buffer_rest; [exact HD|lia]|].
    unfold same_reader_state. repeat split.
  - (* the code is longer than the look-ahead *)
    rewrite Long.
    2:{ intros d' i' Hd' Hi' Ex.
        pose proof (code_after_nonneg (bits htbl) d C ltac:(lia)).
        apply (no_shorter_prefix (bits htbl) d' i' d
                 (code_after (bits htbl) 1 0 d + i) C ltac:(lia) Hd Hi'
                 ltac:(lia)).
        rewrite <- Ex, <- Hfront. unfold look.
        replace (7 - Z.of_nat d') with (8 - Z.of_nat (1 + d')) by lia.
        replace (Z.of_nat (d - d'))
          with (Z.of_nat (1 + d) - Z.of_nat (1 + d')) by lia.
        rewrite <- !front_bits by lia. reflexivity. }
    change (negb (0 =? 0)) with false. cbv iota.
    apply (huff_slow_exact htbl isDC tblno old dtbl d i Lm Lv Ht Hd Hi
             ltac:(lia) state gb bl D m rest (8 + 1) V HD Hm0 Hm1
             ltac:(lia) ltac:(lia) ltac:(lia) Hlen Hfront).
Qed.

(* A code of at most eight bits with eight bits or more in the bit
   buffer: the look-ahead table answers and nothing is read. *)
Lemma huff_look_short htbl isDC tblno old dtbl d i :
  length (maxcode old) = 18%nat -> length (valoffset old) = 17%nat ->
  length (look_sym old) = 256%nat ->
  jpeg_make_d_derived_tbl htbl isDC tblno old = Returned dtbl ->
  (d < 8)%nat -> 0 <= i < codes_of_length (bits htbl) (1 + d) ->
  0 <= nth (Z.to_nat (index_after (bits htbl) 1 d + i)) (huffval htbl) 0
    < 256 ->
  forall state gb bl D,
    Forall is_byte D -> 8 <= bl <= 32 ->
    unread_bits gb bl D / 2 ^ (unread_length bl D - Z.of_nat (1 + d))
      = code_after (bits htbl) 1 0 d + i ->
    huff_look state gb bl dtbl
      = HuffSymbol (nth (Z.to_nat (index_after (bits htbl) 1 d + i))
                      (huffval htbl) 0) state gb (bl - Z.of_nat (1 + d)).
Proof.
  intros Lm Lv Ls Ht Hd Hi Hsym state gb bl D HD Hbl Hfront.
  set (U := unread_bits gb bl D) in *.
  set (L := unread_length bl D) in *.
  assert (HL : 8 <= L) by (unfold L, unread_length; lia).
  unfold huff_look, HUFF_LOOKAHEAD.
  destruct (PEEK_BITS_value gb bl 8 ltac:(lia) ltac:(lia)) as [Epeek _].
  rewrite Epeek.
  rewrite <- (buffer_front gb bl D 8 HD ltac:(lia)). fold U L.
  pose proof (unread_bits_range gb bl D HD ltac:(lia)) as HU. fold U L in HU.
  set (look := U / 2 ^ (L - 8)).
  assert (Hlook : 0 <= look < 256).
  { unfold look. pose proof (pow2_pos (L - 8) ltac:(lia)) as P.
    split; [apply Z.div_pos; lia|].
    apply Z.div_lt_upper_bound; [lia|].
    replace (2 ^ (L - 8) * 256) with (2 ^ L); [lia|].
    replace L with ((L - 8) + 8) at 1 by lia.
    rewrite pow2_split by lia. reflexivity. }
  assert (Hx : (Z.to_nat look < 256)%nat) by lia.
  destruct (look_entries htbl isDC tblno old dtbl Lm Lv Ls Ht
              (Z.to_nat look) Hx) as [Short _].
  rewrite Z2Nat.id in Short by lia.
  destruct (Short d i Hd Hi) as [En Es].
  { unfold look. rewrite <- Hfront.
    replace (7 - Z.of_nat d) with (8 - Z.of_nat (1 + d)) by lia.
    symmetry. apply front_bits; lia. }
  rewrite En, Es.
  rewrite (proj2 (Z.eqb_neq (Z.of_nat (1 + d)) 0)) by lia. cbn [negb].
  unfold DROP_BITS.
  rewrite to_JINT_small by (change (2 ^ 31) with 2147483648; lia).
  rewrite to_JOCTET_small by lia. reflexivity.
Qed.

(* HUFF_DECODE on a code of the table. *)
Lemma HUFF_DECODE_exact htbl isDC tblno old dtbl d i :
  length (maxcode old) = 18%nat -> length (valoffset old) = 17%nat ->
  length (look_sym old) = 256%nat ->
  jpeg_make_d_derived_tbl htbl isDC tblno old = Returned dtbl ->
  (d < 16)%nat -> 0 <= i < codes_of_length (bits htbl) (1 + d) ->
  0 <= nth (Z.to_nat (index_after (bits htbl) 1 d + i)) (huffval htbl) 0
    < 256 ->
  forall state gb bl D m rest,
    segment_view state D m rest -> Forall is_byte D ->
    m <> 0 -> m <> 0xFF -> 0 <= bl <= 32 ->
    Z.of_nat (1 + d) <= unread_length bl D ->
    unread_bits gb bl D / 2 ^ (unread_length bl D - Z.of_nat (1 + d))
      = code_after (bits htbl) 1 0 d + i ->
    exists state' gb' bl' D',
      HUFF_DECODE state gb bl dtbl
        = HuffSymbol (nth (Z.to_nat (index_after (bits htbl) 1 d + i))
                        (huffval htbl) 0) state' gb' bl' /\
      segment_view state' D' m rest /\ Forall is_byte D' /\
      0 <= bl' <= 32 /\
      unread_length bl' D' = unread_length bl D - Z.of_nat (1 + d) /\
      unread_bits gb' bl' D'
        = unread_bits gb bl D
          mod 2 ^ (unread_length bl D - Z.of_nat (1 + d)) /\
      same_reader_state (cinfo state) (cinfo state').
Proof.
  intros Lm Lv Ls Ht Hd Hi Hsym state gb bl D m rest V HD Hm0 Hm1 Hbl
    Hlen Hfront.
  unfold HUFF_DECODE, HUFF_LOOKAHEAD.
  destruct (bl <? 8) eqn:Ebl.
  - destruct (fill_bit_buffer_view state gb bl D m rest V HD Hm0 Hm1 Hbl)
      as (st1 & D1 & Hfill & V1 & HD1 & Hbl1 & HL1 & HU1 & R1 & Hshort).
    rewrite Hfill. cbv zeta. rewrite <- HL1, <- HU1 in *.
    destruct (bits_left st1 <? 8) eqn:Ebl1.
    + destruct (huff_slow_exact htbl isDC tblno old dtbl d i Lm Lv Ht Hd Hi
                  ltac:(lia) st1 (get_buffer st1) (bits_left st1) D1 m rest 1
                  V1 HD1 Hm0 Hm1 Hbl1 ltac:(lia) ltac:(lia) Hlen Hfront)
        as (st2 & gb2 & bl2 & D2 & Hrun & V2 & HD2 & Hbl2 & HL2 & HU2 & R2).
      exists st2, gb2, bl2, D2. split; [exact Hrun|].
      repeat (split; [assumption|]).
      eapply same_reader_state_trans; eassumption.
    + destruct (huff_look_exact htbl isDC tblno old dtbl d i Lm Lv Ls Ht Hd Hi
                  Hsym st1 (get_buffer st1) (bits_left st1) D1 m rest
                  V1 HD1 Hm0 Hm1 ltac:(lia) Hlen Hfront)
        as (st2 & gb2 & bl2 & D2 & Hrun & V2 & HD2 & Hbl2 & HL2 & HU2 & R2).
      exists st2, gb2, bl2, D2. split; [exact Hrun|].
      repeat (split; [assumption|]).
      eapply same_reader_state_trans; eassumption.
  - apply (huff_look_exact htbl isDC tblno old dtbl d i Lm Lv Ls Ht Hd Hi
             Hsym state gb bl D m rest V HD Hm0 Hm1 ltac:(lia) Hlen Hfront).
Qed.

End lookahead_properties.
(** ** Decoding the symbols of the encoder (jchuff.c, jdhuff.c) *)

Section symbol_roundtrip_properties.
Import jdhuff huffman_spec bitstream_spec jdhuff_block roundtrip_spec.

Lemma codes_value_bound cs :
  Forall (fun c => 0 <= snd c) cs ->
  0 <= codes_length cs /\ 0 <= codes_value cs < 2 ^ codes_length cs.
Proof.
  induction 1 as [|[c s] cs Hs _ [L0 IH]]; cbn [codes_length codes_value].
  - simpl. lia.
  - cbn [snd] in Hs. split; [lia|].
    pose proof (Z.mod_pos_bound c (2 ^ s) (pow2_pos s ltac:(lia))) as Hc.
    pose proof (pow2_pos (codes_length cs) L0) as P.
    rewrite pow2_split by lia. nia.
Qed.

(* The first code of what is unread, and what is unread behind it. *)
Lemma reads_head m rest pad tail state gb bl c s cs D :
  closes m pad tail ->
  0 <= s -> Forall (fun c => 0 <= snd c) cs ->
  unread_length bl D = codes_length ((c, s) :: cs) + pad ->
  unread_bits gb bl D = codes_value ((c, s) :: cs) * 2 ^ pad + tail ->
  segment_view state D m rest ->
  s <= unread_length bl D /\
  unread_bits gb bl D / 2 ^ (unread_length bl D - s) = c mod 2 ^ s /\
  unread_length bl D - s = codes_length cs + pad /\
  unread_bits gb bl D mod 2 ^ (unread_length bl D - s)
    = codes_value cs * 2 ^ pad + tail.
Proof.
  intros (Hm0 & Hm1 & Hpad & Htail) Hs Hcs Hlen Hval _.
  cbn [codes_length codes_value] in Hlen, Hval.
  destruct (codes_value_bound cs Hcs) as [L0 HV].
  pose proof (Z.mod_pos_bound c (2 ^ s) (pow2_pos s ltac:(lia))) as Hc.
  pose proof (pow2_pos (codes_length cs) L0) as P1.
  pose proof (pow2_pos pad Hpad) as P2.
  pose proof (pow2_pos (codes_length cs + pad) ltac:(lia)) as P3.
  assert (Hlo : 0 <= codes_value cs * 2 ^ pad + tail
                  < 2 ^ (codes_length cs + pad))
    by (rewrite pow2_split by lia; nia).
  assert (Hu : unread_bits gb bl D
               = c mod 2 ^ s * 2 ^ (codes_length cs + pad)
                 + (codes_value cs * 2 ^ pad + tail))
    by (rewrite Hval, pow2_split by lia; ring).
  replace (unread_length bl D - s) with (codes_length cs + pad) by lia.
  rewrite Hu. split; [lia|]. split.
  - rewrite Z.div_add_l, Z.div_small, Z.add_0_r by lia. reflexivity.
  - split; [reflexivity|].
    rewrite Z.add_comm, Z.mod_add, Z.mod_small by lia. reflexivity.
Qed.

(* Value bits: CHECK_BIT_BUFFER and GET_BITS take the next code. *)
Lemma reads_fetch m rest pad tail state gb bl c s cs :
  closes m pad tail ->
  1 <= s <= 15 -> Forall (fun c => 0 <= snd c) cs ->
  reads m rest state gb bl ((c, s) :: cs) pad tail ->
  exists state' gb' bl',
    jdhuff_mcu.fetch_bits state gb bl s = Some (c mod 2 ^ s, state', gb', bl') /\
    reads m rest state' gb' bl' cs pad tail /\
    same_reader_state (cinfo state) (cinfo state').
Proof.
  intros Hcl Hs Hcs (D & V & HD & Hbl & Hlen & Hval).
  assert (Hs0 : 0 <= s) by lia.
  destruct (reads_head m rest pad tail state gb bl c s cs D Hcl Hs0 Hcs Hlen
              Hval V) as (Hle & Hfront & Hlen' & Hrest).
  destruct Hcl as (Hm0 & Hm1 & Hpad & Htail).
  destruct (fetch_bits_exact state gb bl s D m rest V HD Hm0 Hm1 Hbl
              ltac:(lia) Hle)
    as (st1 & gb1 & bl1 & D1 & Hf & V1 & HD1 & Hbl1 & HL1 & HU1 & R1).
  exists st1, gb1, bl1. rewrite Hf, Hfront.
  split; [reflexivity|]. split; [|exact R1].
  exists D1. rewrite HL1, HU1, Hrest, Hlen'. auto.
Qed.

Lemma bounded_search (f : nat -> Z) (v : Z) (n : nat) :
  (exists q, (q < n)%nat /\ f q = v) \/ (forall q, (q < n)%nat -> f q <> v).
Proof.
  induction n as [|n [(q & Hq & E)|No]].
  - right. intros q Hq. lia.
  - left. exists q. split; [lia|exact E].
  - destruct (Z.eq_dec (f n) v) as [E|N].
    + left. exists n. split; [lia|exact E].
    + right. intros q Hq. destruct (Nat.eq_dec q n) as [->|Hne]; [exact N|].
      apply No. lia.
Qed.

(* A symbol to which the encoding table gives a code is listed in the
   Huffman table. *)
Lemma symbol_listed htbl isDC tblno old ctbl sym :
  length (jchuff.ehufco old) = 256%nat ->
  jchuff_tables.jpeg_make_c_derived_tbl htbl isDC tblno old = Returned ctbl ->
  0 <= sym -> jchuff.ehufsi_at ctbl sym <> 0 ->
  exists d i, (d < 16)%nat /\
    0 <= i < codes_of_length (bits htbl) (1 + d) /\
    sym = nth (Z.to_nat (index_after (bits htbl) 1 d + i)) (huffval htbl) 0 /\
    0 <= sym < 256 /\
    jchuff.ehufsi_at ctbl sym = Z.of_nat (1 + d) /\
    jchuff.ehufco_at ctbl sym = code_after (bits htbl) 1 0 d + i.
Proof.
  intros Lold H Hsym Hsize.
  destruct (c_table_entries htbl isDC tblno old ctbl Lold H)
    as (C & F & L & E & _ & Un).
  pose proof (index_after_nonneg (bits htbl) 16 1 C) as I0.
  destruct (bounded_search (fun q => nth q (huffval htbl) 0) sym
              (Z.to_nat (index_after (bits htbl) 1 16)))
    as [(q & Hq & Eq)|No].
  - destruct (index_decompose (bits htbl) 16 1 (Z.of_nat q) C ltac:(lia))
      as (d & i & Hd & Hi & Ep).
    exists d, i. pose proof (E d i Hd Hi) as Ed. cbv zeta in Ed.
    rewrite <- Ep, Nat2Z.id, Eq in Ed. destruct Ed as (R & Es & Ec).
    split; [exact Hd|]. split; [exact Hi|].
    split; [rewrite <- Ep, Nat2Z.id; symmetry; exact Eq|].
    split; [destruct isDC; lia|]. auto.
  - exfalso. apply Hsize.
    rewrite <- (Z2Nat.id sym) by exact Hsym. apply Un.
    intros q Hq. rewrite Z2Nat.id by exact Hsym. apply No. lia.
Qed.

(* HUFF_DECODE takes the code of a symbol and delivers the symbol. *)
Lemma reads_symbol m rest pad tail isDC t sym state gb bl cs :
  closes m pad tail ->
  derived isDC t -> 0 <= sym ->
  jchuff.ehufsi_at (pair_ctbl t) sym <> 0 ->
  Forall (fun c => 0 <= snd c) cs ->
  reads m rest state gb bl
    ((jchuff.ehufco_at (pair_ctbl t) sym, jchuff.ehufsi_at (pair_ctbl t) sym)
       :: cs) pad tail ->
  exists state' gb' bl',
    HUFF_DECODE state gb bl (pair_dtbl t) = HuffSymbol sym state' gb' bl' /\
    reads m rest state' gb' bl' cs pad tail /\
    same_reader_state (cinfo state) (cinfo state').
Proof.
  intros Hcl (tblno & oldc & oldd & Lc & Lm & Lv & Ls & Hc & Hd) Hsym Hsize
    Hcs (D & V & HD & Hbl & Hlen & Hval).
  destruct (symbol_listed _ _ _ _ _ sym Lc Hc Hsym Hsize)
    as (d & i & Hd16 & Hi & Esym & Hbyte & Es & Ec).
  destruct (c_table_entries _ _ _ _ _ Lc Hc) as (C & F & _).
  pose proof (code_after_nonneg _ d C ltac:(lia)) as C0.
  pose proof (runs_fit_at _ d 16 1 0 Hd16 F ltac:(lia)) as Fit.
  rewrite Es, Ec in *.
  assert (Hs0 : 0 <= Z.of_nat (1 + d)) by lia.
  destruct (reads_head m rest pad tail state gb bl _ _ cs D Hcl Hs0 Hcs Hlen
              Hval V) as (Hle & Hfront & Hlen' & Hrest).
  destruct Hcl as (Hm0 & Hm1 & Hpad & Htail).
  rewrite Z.mod_small in Hfront by lia.
  assert (Hbyte' : 0 <= nth (Z.to_nat (index_after (bits (pair_htbl t)) 1 d
                                       + i)) (huffval (pair_htbl t)) 0 < 256)
    by (rewrite <- Esym; exact Hbyte).
  destruct (HUFF_DECODE_exact _ isDC tblno oldd _ d i Lm Lv Ls Hd Hd16 Hi
              Hbyte' state gb bl D m rest V HD Hm0 Hm1 Hbl Hle Hfront)
    as (st1 & gb1 & bl1 & D1 & Hrun & V1 & HD1 & Hbl1 & HL1 & HU1 & R1).
  exists st1, gb1, bl1. rewrite Hrun, <- Esym.
  split; [reflexivity|]. split; [|exact R1].
  exists D1. rewrite HL1, HU1, Hrest, Hlen'. auto.
Qed.

(** X19.  HUFF_DECODE gives back the symbol that the encoder wrote.
    Let the encoder and the decoder derive their tables from the same
    Huffman table, and let [sym] be a symbol with a code in the
    encoder's table.  When the bits that the decoder has not fetched
    yet begin with that code, the macro [HUFF_DECODE] delivers [sym],
    through the look-ahead table or through [jpeg_huff_decode]; it
    takes exactly the bits of the code, and the data behind them and
    the marker reader's state stay as they were.  When the code has at
    most eight bits and eight or more bits wait in the bit buffer,
    nothing is read from the input: the working state and get_buffer
    are unchanged and bits_left drops by the length of the code. *)
Theorem HUFF_DECODE_inverts_encoding_table :
  forall htbl isDC tblno oldc oldd ctbl dtbl,
    length (jchuff.ehufco oldc) = 256%nat ->
    length (maxcode oldd) = 18%nat -> length (valoffset oldd) = 17%nat ->
    length (look_sym oldd) = 256%nat ->
    jchuff_tables.jpeg_make_c_derived_tbl htbl isDC tblno oldc
      = Returned ctbl ->
    jpeg_make_d_derived_tbl htbl isDC tblno oldd = Returned dtbl ->
    forall sym state gb bl D m rest,
      let code := jchuff.ehufco_at ctbl sym in
      let size := jchuff.ehufsi_at ctbl sym in
      0 <= sym -> size <> 0 ->
      segment_view state D m rest -> Forall is_byte D ->
      m <> 0 -> m <> 0xFF -> 0 <= bl <= 32 ->
      size <= unread_length bl D ->
      unread_bits gb bl D / 2 ^ (unread_length bl D - size) = code ->
      (exists state' gb' bl' D',
         HUFF_DECODE state gb bl dtbl = HuffSymbol sym state' gb' bl' /\
         segment_view state' D' m rest /\ Forall is_byte D' /\
         0 <= bl' <= 32 /\
         unread_length bl' D' = unread_length bl D - size /\
         unread_bits gb' bl' D'
           = unread_bits gb bl D mod 2 ^ (unread_length bl D - size) /\
         same_reader_state (cinfo state) (cinfo state')) /\
      (8 <= bl -> size <= 8 ->
       HUFF_DECODE state gb bl dtbl = HuffSymbol sym state gb (bl - size)).
Proof.
  intros htbl isDC tblno oldc oldd ctbl dtbl Lc Lm Lv Ls Hc Hd sym state gb bl
    D m rest code size Hsym Hsize V HD Hm0 Hm1 Hbl Hlen Hfront.
  destruct (symbol_listed htbl isDC tblno oldc ctbl sym Lc Hc Hsym Hsize)
    as (d & i & Hd16 & Hi & Es & Hr & Esize & Ecode).
  fold size in Esize. fold code in Ecode.
  rewrite Esize in Hlen, Hfront |- *. rewrite Ecode in Hfront.
  rewrite Es in Hr.
  split.
  - rewrite Es.
    apply (HUFF_DECODE_exact htbl isDC tblno oldd dtbl d i Lm Lv Ls Hd Hd16 Hi
             Hr state gb bl D m rest V HD Hm0 Hm1 Hbl Hlen Hfront).
  - intros Hbl8 Hs8. unfold HUFF_DECODE, HUFF_LOOKAHEAD.
    destruct (Z.ltb_spec bl 8) as [Lt|_]; [lia|].
    assert (Hd8 : (d < 8)%nat) by lia.
    assert (Hbl' : 8 <= bl <= 32) by lia.
    rewrite Es at 1.
    apply (huff_look_short htbl isDC tblno oldd dtbl d i Lm Lv Ls Hd Hd8 Hi
             Hr state gb bl D HD Hbl' Hfront).
Qed.

Lemma HUFF_DECODE_inverts_encoding_table_witness :
  (exists state' gb' bl' D',
     HUFF_DECODE ex_code_reader 0x80 8 decode_spec.ex_dtbl
       = HuffSymbol 3 state' gb' bl' /\
     segment_view state' D' 0xD9 [] /\
     unread_length bl' D' = 13) /\
  HUFF_DECODE ex_code_reader 0x80 8 decode_spec.ex_dtbl
    = HuffSymbol 3 ex_code_reader 0x80 5.
Proof.
  assert (Hc : jchuff_tables.jpeg_make_c_derived_tbl
                 decode_spec.std_dc_luminance true 0 blank_c_derived_tbl
               = Returned ex_ctbl) by (vm_compute; reflexivity).
  assert (Hd : jpeg_make_d_derived_tbl decode_spec.std_dc_luminance true 0
                 blank_d_derived_tbl
               = Returned decode_spec.ex_dtbl) by (vm_compute; reflexivity).
  assert (V : segment_view ex_code_reader [0x80] 0xD9 [])
    by (left; split; reflexivity).
  assert (HD : Forall is_byte [0x80])
    by (repeat constructor; unfold is_byte; lia).
  assert (H3 : 0 <= 3) by lia.
  assert (Hs : jchuff.ehufsi_at ex_ctbl 3 <> 0)
    by (vm_compute; discriminate).
  assert (Hm0 : 0xD9 <> 0) by lia.
  assert (Hm1 : 0xD9 <> 0xFF) by lia.
  assert (Hbl : 0 <= 8 <= 32) by lia.
  assert (Hlen : jchuff.ehufsi_at ex_ctbl 3 <= unread_length 8 [0x80])
    by (vm_compute; discriminate).
  assert (Hfront : unread_bits 0x80 8 [0x80]
                     / 2 ^ (unread_length 8 [0x80] - jchuff.ehufsi_at ex_ctbl 3)
                   = jchuff.ehufco_at ex_ctbl 3)
    by (vm_compute; reflexivity).
  destruct (HUFF_DECODE_inverts_encoding_table decode_spec.std_dc_luminance
              true 0 blank_c_derived_tbl blank_d_derived_tbl ex_ctbl
              decode_spec.ex_dtbl eq_refl eq_refl eq_refl eq_refl Hc Hd
              3 ex_code_reader 0x80 8 [0x80] 0xD9 [] H3 Hs V HD Hm0 Hm1 Hbl
              Hlen Hfront)
    as [(state' & gb' & bl' & D' & Hrun & V' & _ & _ & HL & _) Hfast].
  split.
  - exists state', gb', bl', D'. split; [exact Hrun|]. split; [exact V'|].
    rewrite HL. vm_compute. reflexivity.
  - apply Hfast; [lia|vm_compute; discriminate].
Defined.

End symbol_roundtrip_properties.
(** ** Decoding a block that the encoder wrote (jchuff.c, jdhuff.c) *)

Lemma coef_loop_step pass advances k limit block state gb bl htbl :
  jdhuff_block.coef_loop pass advances k limit block state gb bl htbl =
  if k <? limit then
    match pass k block state gb bl htbl with
    | jdhuff_block.CoefNext k' block' state' gb' bl' =>
        jdhuff_block.coef_loop pass advances k' limit block' state' gb' bl'
          htbl
    | jdhuff_block.CoefEnd block' state' gb' bl' =>
        jdhuff_block.LoopEnd block' state' gb' bl'
    | jdhuff_block.CoefFail => jdhuff_block.LoopFail
    | jdhuff_block.CoefOutside => jdhuff_block.LoopOutside
    end
  else jdhuff_block.LoopExit k block state gb bl.
Proof.
  funelim (jdhuff_block.coef_loop pass advances k limit block state gb bl htbl);
    destruct (k <? limit) eqn:E; try lia; try rewrite e; reflexivity.
Qed.

Section block_roundtrip_properties.
Import jdhuff huffman_spec bitstream_spec jdhuff_block roundtrip_spec.
Import jchuff props block_spec.

Lemma emitted_codes_app a b :
  emitted_codes (a ++ b) = emitted_codes a ++ emitted_codes b.
Proof.
  induction a as [|[c s|n] a IH]; cbn [app emitted_codes]; [reflexivity| |];
    rewrite IH; reflexivity.
Qed.

(* The value bits give the coefficient back. *)
Lemma extend_magnitude v :
  v <> 0 -> Z.abs v < 2 ^ 15 ->
  1 <= nbits_of v <= 15 /\
  jdhuff_mcu.HUFF_EXTEND (magnitude v mod 2 ^ nbits_of v) (nbits_of v) = v.
Proof.
  intros Hv Hr.
  assert (Ha : 1 <= Z.abs v) by lia.
  pose proof (log2_bounds _ Ha) as [Lo Hi].
  pose proof (Z.log2_nonneg (Z.abs v)) as L0.
  assert (L15 : Z.log2 (Z.abs v) < 15) by (apply Z.log2_lt_pow2; lia).
  unfold nbits_of. replace (v =? 0) with false by lia.
  set (s := Z.log2 (Z.abs v) + 1) in *.
  replace (Z.log2 (Z.abs v)) with (s - 1) in Lo by lia.
  assert (Hs : 1 <= s <= 15) by lia.
  assert (P : 0 < 2 ^ s) by (apply Z.pow_pos_nonneg; lia).
  assert (E2 : 2 ^ s = 2 * 2 ^ (s - 1)).
  { rewrite <- Z.pow_succ_r by lia. f_equal. lia. }
  split; [exact Hs|].
  rewrite HUFF_EXTEND_cases by (try apply Z.mod_pos_bound; lia).
  unfold magnitude. destruct (v <? 0) eqn:E.
  - assert (M : (v - 1) mod 2 ^ s = v - 1 + 2 ^ s).
    { symmetry. apply Z.mod_unique with (q := -1); lia. }
    rewrite M. replace (v - 1 + 2 ^ s <? 2 ^ (s - 1)) with true by lia. lia.
  - rewrite Z.mod_small by lia.
    replace (v <? 2 ^ (s - 1)) with false by lia. reflexivity.
Qed.

(* The length that an encoding table gives a symbol is never
   negative. *)
Lemma ehufsi_nonneg isDC t sym :
  derived isDC t -> 0 <= ehufsi_at (pair_ctbl t) sym.
Proof.
  intros (tblno & oldc & oldd & Lc & _ & _ & _ & Hc & _).
  destruct (Z.eq_dec (ehufsi_at (pair_ctbl t) sym) 0) as [E|N]; [lia|].
  assert (E' : ehufsi_at (pair_ctbl t) sym
               = ehufsi_at (pair_ctbl t) (Z.of_nat (Z.to_nat sym)))
    by (unfold ehufsi_at; rewrite Nat2Z.id; reflexivity).
  rewrite E' in *.
  assert (H0 : 0 <= Z.of_nat (Z.to_nat sym)) by lia.
  destruct (symbol_listed _ _ _ _ _ _ Lc Hc H0 N)
    as (d & i & _ & _ & _ & _ & Es & _).
  rewrite Es. lia.
Qed.

Lemma store_loop_step k limit block state gb bl htbl :
  store_loop k limit block state gb bl htbl =
  if k <? limit then
    match store_pass k block state gb bl htbl with
    | CoefNext k' block' state' gb' bl' =>
        store_loop k' limit block' state' gb' bl' htbl
    | CoefEnd block' state' gb' bl' => LoopEnd block' state' gb' bl'
    | CoefFail => LoopFail
    | CoefOutside => LoopOutside
    end
  else LoopExit k block state gb bl.
Proof. unfold store_loop. apply coef_loop_step. Qed.

Lemma discard_to_end_at_end block state gb bl htbl s :
  discard_to_end 64 block state gb bl htbl s = BlockDone block s state gb bl.
Proof.
  unfold discard_to_end, discard_loop. rewrite coef_loop_step. reflexivity.
Qed.

(* A run-and-size symbol taken apart. *)
Lemma run_size_split a n :
  0 <= a -> 0 <= n < 16 ->
  Z.shiftr (Z.lor (Z.shiftl a 4) n) 4 = a /\
  Z.land (Z.lor (Z.shiftl a 4) n) 15 = n /\
  Z.lor (Z.shiftl a 4) n = 16 * a + n.
Proof.
  intros Ha Hn. rewrite <- shiftl_4_add_lor by lia.
  rewrite Z.shiftl_mul_pow2 by lia. change (2 ^ 4) with 16.
  rewrite Z.shiftr_div_pow2 by lia. change (2 ^ 4) with 16.
  change 15 with (Z.ones 4). rewrite Z.land_ones by lia.
  change (2 ^ 4) with 16.
  split; [|split; [|lia]].
  - rewrite Z.div_add_l by lia. rewrite (Z.div_small n) by lia. lia.
  - rewrite Z.add_comm, Z.mod_add by lia. apply Z.mod_small. lia.
Qed.

Lemma sizes_to_codes es :
  Forall (fun e => match e with
                   | EmitBits _ size => 0 <= size
                   | EmitRestart _ => True
                   end) es ->
  Forall (fun c => 0 <= snd c) (emitted_codes es).
Proof.
  induction 1 as [|[c s|n] es He _ IH]; cbn [emitted_codes];
    [constructor|constructor; [exact He|exact IH]|exact IH].
Qed.

Lemma nbits_of_nonneg v : 0 <= nbits_of v.
Proof.
  unfold nbits_of. destruct (v =? 0); [lia|].
  pose proof (Z.log2_nonneg (Z.abs v)). lia.
Qed.

Lemma ac_codes_nonneg t coefs : forall r,
  derived false t ->
  Forall (fun c => 0 <= snd c)
    (emitted_codes (ac_symbols (pair_ctbl t) coefs r)).
Proof.
  intros r Ht. apply sizes_to_codes. revert r.
  induction coefs as [|c coefs IH]; intro r; cbn [ac_symbols].
  - destruct (r >? 0); [|constructor].
    constructor; [|constructor]. apply (ehufsi_nonneg false t _ Ht).
  - destruct (c =? 0); [apply IH|].
    apply Forall_app. split.
    + apply Forall_forall. intros e He. apply repeat_spec in He. subst e.
      apply (ehufsi_nonneg false t _ Ht).
    + constructor; [apply (ehufsi_nonneg false t _ Ht)|].
      constructor; [apply nbits_of_nonneg|apply IH].
Qed.

(* The ZRL symbols before a coefficient: each moves k on by 16. *)
Lemma zrl_decode m rest pad tail t :
  closes m pad tail -> derived false t ->
  forall (n : nat) k acc state gb bl cs,
    sizes_nonzero (repeat (huffman_code (pair_ctbl t) ZRL) n) ->
    k + 16 * Z.of_nat n <= 63 ->
    Forall (fun c => 0 <= snd c) cs ->
    reads m rest state gb bl
      (emitted_codes (repeat (huffman_code (pair_ctbl t) ZRL) n) ++ cs)
      pad tail ->
    exists state' gb' bl',
      store_loop k 64 acc state gb bl (pair_dtbl t)
        = store_loop (k + 16 * Z.of_nat n) 64 acc state' gb' bl' (pair_dtbl t)
      /\ reads m rest state' gb' bl' cs pad tail
      /\ same_reader_state (jdhuff.cinfo state) (jdhuff.cinfo state').
Proof.
  intros Hcl Ht.
  induction n as [|n IH]; intros k acc state gb bl cs Hnz Hk Hcs Hrd.
  - exists state, gb, bl. cbn [repeat emitted_codes app] in Hrd.
    rewrite Z.mul_0_r, Z.add_0_r.
    split; [reflexivity|]. split; [exact Hrd|].
    unfold same_reader_state. repeat split.
  - cbn [repeat emitted_codes app huffman_code] in Hrd, Hnz.
    inversion Hnz as [|e es Hz Hnz']; subst.
    assert (Hcs' : Forall (fun c => 0 <= snd c)
                     (emitted_codes (repeat (huffman_code (pair_ctbl t) ZRL) n)
                      ++ cs)).
    { apply Forall_app. split; [|exact Hcs].
      apply sizes_to_codes. apply Forall_forall. intros e He.
      apply repeat_spec in He. subst e.
      apply (ehufsi_nonneg false t _ Ht). }
    destruct (reads_symbol m rest pad tail false t ZRL state gb bl _ Hcl Ht
                ltac:(unfold ZRL; lia) Hz Hcs' Hrd)
      as (st1 & gb1 & bl1 & Hdec & Hrd1 & R1).
    destruct (IH (k + 16) acc st1 gb1 bl1 cs Hnz' ltac:(lia) Hcs Hrd1)
      as (st2 & gb2 & bl2 & Hrun & Hrd2 & R2).
    exists st2, gb2, bl2.
    split; [|split; [exact Hrd2|eapply same_reader_state_trans; eassumption]].
    rewrite store_loop_step. replace (k <? 64) with true by lia.
    unfold store_pass. rewrite Hdec. unfold ZRL.
    change (Z.shiftr 240 4) with 15. change (Z.land 240 15) with 0.
    change (negb (0 =? 0)) with false. change (negb (15 =? 15)) with false.
    cbv iota zeta.
    replace (k + 15 + 1) with (k + 16) by lia. rewrite Hrun.
    f_equal. lia.
Qed.

Lemma ac_symbols_nonzero tbl c coefs r :
  c <> 0 ->
  ac_symbols tbl (c :: coefs) r
    = repeat (huffman_code tbl ZRL) (Z.to_nat (r / 16))
      ++ huffman_code tbl (Z.lor (Z.shiftl (r mod 16) 4) (nbits_of c))
      :: bits_of (nbits_of c) (magnitude c) :: ac_symbols tbl coefs 0.
Proof.
  intro H. cbn [ac_symbols]. apply Z.eqb_neq in H. rewrite H. reflexivity.
Qed.

Lemma emitted_codes_symbol tbl sym es :
  emitted_codes (huffman_code tbl sym :: es)
    = (ehufco_at tbl sym, ehufsi_at tbl sym) :: emitted_codes es.
Proof. reflexivity. Qed.

Lemma emitted_codes_bits n v es :
  emitted_codes (bits_of n v :: es) = (v mod 2 ^ n, n) :: emitted_codes es.
Proof. reflexivity. Qed.

Lemma sizes_nonzero_symbol tbl sym es :
  sizes_nonzero (huffman_code tbl sym :: es) ->
  ehufsi_at tbl sym <> 0 /\ sizes_nonzero es.
Proof.
  intro H. split; [exact (Forall_inv H)|exact (Forall_inv_tail H)].
Qed.

(* The AC part of a block: the decoder at k = j - r, the encoder at the
   coefficient j with a run of r zeros behind it. *)
Lemma ac_decode m rest pad tail t :
  closes m pad tail -> derived false t ->
  forall coefs (j : nat) r acc state gb bl cs s,
    (j + length coefs = 64)%nat -> (1 <= j)%nat ->
    0 <= r <= Z.of_nat j - 1 ->
    Forall (fun c => Z.abs c < 2 ^ 15) coefs ->
    sizes_nonzero (ac_symbols (pair_ctbl t) coefs r) ->
    Forall (fun c => 0 <= snd c) cs ->
    reads m rest state gb bl
      (emitted_codes (ac_symbols (pair_ctbl t) coefs r) ++ cs) pad tail ->
    exists state' gb' bl',
      end_of_block
        (store_loop (Z.of_nat j - r) 64 acc state gb bl (pair_dtbl t))
        (pair_dtbl t) s
        = BlockDone (fill_from coefs j acc) s state' gb' bl' /\
      reads m rest state' gb' bl' cs pad tail /\
      same_reader_state (jdhuff.cinfo state) (jdhuff.cinfo state').
Proof.
  intros Hcl Ht.
  induction coefs as [|c coefs IH];
    intros j r acc state gb bl cs s Hj H1 Hr Hrange Hnz Hcs Hrd.
  - cbn [length] in Hj. cbn [ac_symbols] in Hnz, Hrd. cbn [fill_from].
    destruct (r >? 0) eqn:Er.
    + rewrite emitted_codes_symbol in Hrd. cbn [emitted_codes app] in Hrd.
      apply sizes_nonzero_symbol in Hnz. destruct Hnz as [Hz _].
      assert (H0 : 0 <= EOB) by (unfold EOB; lia).
      destruct (reads_symbol m rest pad tail false t EOB state gb bl cs Hcl Ht
                  H0 Hz Hcs Hrd)
        as (st1 & gb1 & bl1 & Hdec & Hrd1 & R1).
      exists st1, gb1, bl1. split; [|auto].
      rewrite store_loop_step.
      replace (Z.of_nat j - r <? 64) with true by lia.
      unfold store_pass. rewrite Hdec. reflexivity.
    + exists state, gb, bl. cbn [emitted_codes app] in Hrd.
      split; [|split; [exact Hrd|unfold same_reader_state; repeat split]].
      rewrite store_loop_step.
      replace (Z.of_nat j - r <? 64) with false by lia.
      replace (Z.of_nat j - r) with 64 by lia.
      cbn [end_of_block]. apply discard_to_end_at_end.
  - cbn [length] in Hj.
    pose proof (Forall_inv Hrange) as Hc. cbv beta in Hc.
    pose proof (Forall_inv_tail Hrange) as Hrange'.
    destruct (Z.eq_dec c 0) as [->|Ec].
    + cbn [ac_symbols fill_from] in *. change (0 =? 0) with true in *.
      cbv iota in *.
      replace (Z.of_nat j - r) with (Z.of_nat (S j) - (r + 1)) by lia.
      apply IH; try assumption; lia.
    + rewrite (ac_symbols_nonzero _ c coefs r Ec) in Hnz, Hrd.
      cbn [fill_from]. rewrite (proj2 (Z.eqb_neq c 0) Ec).
      rewrite emitted_codes_app, emitted_codes_symbol, emitted_codes_bits
        in Hrd.
      rewrite <- app_assoc in Hrd. cbn [app] in Hrd.
      apply Forall_app in Hnz. destruct Hnz as [Hnz_zrl Hnz].
      apply sizes_nonzero_symbol in Hnz. destruct Hnz as [Hz1 Hnz1].
      pose proof (Forall_inv_tail Hnz1) as Hnz2. clear Hnz1.
      destruct (extend_magnitude c Ec Hc) as [Hn15 Hext].
      set (n := nbits_of c) in *.
      set (a := r mod 16) in *.
      assert (Ha : 0 <= a < 16) by (apply Z.mod_pos_bound; lia).
      assert (Ha0 : 0 <= a) by lia.
      assert (Hn16 : 0 <= n < 16) by lia.
      destruct (run_size_split a n Ha0 Hn16) as (Eshr & Eland & Esym).
      set (sym := Z.lor (Z.shiftl a 4) n) in *.
      set (tl := emitted_codes (ac_symbols (pair_ctbl t) coefs 0) ++ cs) in *.
      assert (Htl : Forall (fun c => 0 <= snd c) tl).
      { apply Forall_app. split; [apply ac_codes_nonneg; exact Ht|exact Hcs]. }
      set (vb := (magnitude c mod 2 ^ n, n)) in *.
      set (sc := (ehufco_at (pair_ctbl t) sym, ehufsi_at (pair_ctbl t) sym))
        in *.
      assert (Hvtl : Forall (fun c => 0 <= snd c) (vb :: tl)).
      { constructor; [unfold vb; cbn [snd]; lia|exact Htl]. }
      assert (Hstl : Forall (fun c => 0 <= snd c) (sc :: vb :: tl)).
      { constructor; [|exact Hvtl]. unfold sc. cbn [snd].
        apply (ehufsi_nonneg false t _ Ht). }
      (* the ZRL symbols *)
      assert (Hq : 0 <= r / 16) by (apply Z.div_pos; lia).
      pose proof (Z.div_mod r 16 ltac:(lia)) as Hdm. fold a in Hdm.
      assert (Hk : Z.of_nat j - r + 16 * Z.of_nat (Z.to_nat (r / 16)) <= 63)
        by lia.
      destruct (zrl_decode m rest pad tail t Hcl Ht (Z.to_nat (r / 16))
                  (Z.of_nat j - r) acc state gb bl (sc :: vb :: tl)
                  Hnz_zrl Hk Hstl Hrd)
        as (st1 & gb1 & bl1 & Hzrl & Hrd1 & R1).
      rewrite Z2Nat.id in Hzrl by lia.
      replace (Z.of_nat j - r + 16 * (r / 16)) with (Z.of_nat j - a)
        in Hzrl by lia.
      (* the run-and-size symbol *)
      assert (Hsym0 : 0 <= sym) by lia.
      destruct (reads_symbol m rest pad tail false t sym st1 gb1 bl1
                  (vb :: tl) Hcl Ht Hsym0 Hz1 Hvtl Hrd1)
        as (st2 & gb2 & bl2 & Hdec & Hrd2 & R2).
      (* the value bits *)
      destruct (reads_fetch m rest pad tail st2 gb2 bl2
                  (magnitude c mod 2 ^ n) n tl Hcl Hn15 Htl Hrd2)
        as (st3 & gb3 & bl3 & Hfetch & Hrd3 & R3).
      rewrite Z.mod_mod in Hfetch by (apply Z.pow_nonzero; lia).
      (* the coefficients behind *)
      assert (Hj' : (S j + length coefs = 64)%nat) by lia.
      assert (H1' : (1 <= S j)%nat) by lia.
      assert (Hr' : 0 <= 0 <= Z.of_nat (S j) - 1) by lia.
      destruct (IH (S j) 0
                  (list_set acc (Z.to_nat (nth j jpeg_natural_order 0))
                     (to_JCOEF c))
                  st3 gb3 bl3 cs s Hj' H1' Hr' Hrange' Hnz2 Hcs Hrd3)
        as (st4 & gb4 & bl4 & Hrun & Hrd4 & R4).
      exists st4, gb4, bl4.
      split; [|split; [exact Hrd4|]].
      2:{ eapply same_reader_state_trans; [exact R1|].
          eapply same_reader_state_trans; [exact R2|].
          eapply same_reader_state_trans; [exact R3|exact R4]. }
      rewrite Hzrl. rewrite store_loop_step.
      replace (Z.of_nat j - a <? 64) with true by lia.
      unfold store_pass. rewrite Hdec. cbv zeta. rewrite Eshr, Eland.
      rewrite (proj2 (Z.eqb_neq n 0)) by lia. cbn [negb].
      rewrite Hfetch. rewrite Hext.
      replace (Z.of_nat j - a + a) with (Z.of_nat j) by lia.
      rewrite Nat2Z.id.
      replace (Z.of_nat j + 1) with (Z.of_nat (S j) - 0) by lia.
      exact Hrun.
Qed.

End block_roundtrip_properties.
(** ** decode_mcu's block against encode_one_block's symbols *)

Section block_decode_properties.
Import jdhuff huffman_spec bitstream_spec jdhuff_block roundtrip_spec.
Import jchuff props block_spec.

Lemma to_JCOEF_small z : - 2 ^ 15 <= z < 2 ^ 15 -> to_JCOEF z = z.
Proof. intro H. apply wrap_s_small; simpl; lia. Qed.

Lemma nbits_of_zero v : nbits_of v = 0 -> v = 0.
Proof.
  unfold nbits_of. destruct (v =? 0) eqn:E; [lia|].
  pose proof (Z.log2_nonneg (Z.abs v)). lia.
Qed.

(* The symbols of a block, whatever the coefficients are called, taken
   by the decoder with a full coefficient limit. *)
Lemma symbols_decode m rest pad tail dct act diff coefs last_dc blk state gb
    bl cs :
  closes m pad tail -> derived true dct -> derived false act ->
  length coefs = 63%nat ->
  Z.abs diff < 2 ^ 15 ->
  Forall (fun c => Z.abs c < 2 ^ 15) coefs ->
  sizes_nonzero (dc_symbols (pair_ctbl dct) diff
                 ++ ac_symbols (pair_ctbl act) coefs 0) ->
  Forall (fun c => 0 <= snd c) cs ->
  reads m rest state gb bl
    (emitted_codes (dc_symbols (pair_ctbl dct) diff
                    ++ ac_symbols (pair_ctbl act) coefs 0) ++ cs) pad tail ->
  exists state' gb' bl',
    decode_block state gb bl (pair_dtbl dct) (pair_dtbl act) 64 last_dc blk
      = BlockDone
          (fill_from coefs 1
             (list_set blk 0 (to_JCOEF (to_JINT (diff + last_dc)))))
          (to_JINT (diff + last_dc)) state' gb' bl' /\
    reads m rest state' gb' bl' cs pad tail /\
    same_reader_state (jdhuff.cinfo state) (jdhuff.cinfo state').
Proof.
  intros Hcl Hdt Hat Hlen Hdiff Hrange Hnz Hcs Hrd.
  rewrite emitted_codes_app, <- app_assoc in Hrd.
  apply Forall_app in Hnz. destruct Hnz as [Hnzd Hnza].
  set (tl := emitted_codes (ac_symbols (pair_ctbl act) coefs 0) ++ cs) in *.
  assert (Htl : Forall (fun c => 0 <= snd c) tl).
  { apply Forall_app. split; [apply ac_codes_nonneg; exact Hat|exact Hcs]. }
  assert (Hj : (1 + length coefs = 64)%nat) by lia.
  assert (H11 : (1 <= 1)%nat) by lia.
  assert (Hr0 : 0 <= 0 <= Z.of_nat 1 - 1) by lia.
  pose proof (nbits_of_nonneg diff) as Hn0.
  unfold dc_symbols in Hrd, Hnzd. cbv zeta in Hrd, Hnzd.
  apply sizes_nonzero_symbol in Hnzd. destruct Hnzd as [Hz _].
  rewrite emitted_codes_symbol in Hrd.
  unfold decode_block. change (negb (64 =? 0)) with true. cbv iota.
  destruct (nbits_of diff =? 0) eqn:En.
  - apply Z.eqb_eq in En. pose proof (nbits_of_zero _ En) as Ed.
    cbn [emitted_codes app] in Hrd.
    destruct (reads_symbol m rest pad tail true dct (nbits_of diff) state gb
                bl tl Hcl Hdt Hn0 Hz Htl Hrd)
      as (st1 & gb1 & bl1 & Hdec & Hrd1 & R1).
    rewrite Hdec, En. change (negb (0 =? 0)) with false. cbv iota zeta.
    rewrite Ed.
    destruct (ac_decode m rest pad tail act Hcl Hat coefs 1%nat 0
                (list_set blk 0 (to_JCOEF (to_JINT (0 + last_dc))))
                st1 gb1 bl1 cs (to_JINT (0 + last_dc))
                Hj H11 Hr0 Hrange Hnza Hcs Hrd1)
      as (st2 & gb2 & bl2 & Hrun & Hrd2 & R2).
    change (Z.of_nat 1 - 0) with 1 in Hrun.
    exists st2, gb2, bl2. split; [exact Hrun|].
    split; [exact Hrd2|eapply same_reader_state_trans; eassumption].
  - apply Z.eqb_neq in En.
    assert (Ed : diff <> 0) by (intros ->; apply En; reflexivity).
    destruct (extend_magnitude diff Ed Hdiff) as [Hn15 Hext].
    rewrite emitted_codes_bits in Hrd.
    cbn [emitted_codes app] in Hrd.
    set (vb := (magnitude diff mod 2 ^ nbits_of diff, nbits_of diff)) in *.
    assert (Hvtl : Forall (fun c => 0 <= snd c) (vb :: tl)).
    { constructor; [unfold vb; cbn [snd]; lia|exact Htl]. }
    destruct (reads_symbol m rest pad tail true dct (nbits_of diff) state gb
                bl (vb :: tl) Hcl Hdt Hn0 Hz Hvtl Hrd)
      as (st1 & gb1 & bl1 & Hdec & Hrd1 & R1).
    destruct (reads_fetch m rest pad tail st1 gb1 bl1
                (magnitude diff mod 2 ^ nbits_of diff) (nbits_of diff) tl
                Hcl Hn15 Htl Hrd1)
      as (st2 & gb2 & bl2 & Hfetch & Hrd2 & R2).
    rewrite Z.mod_mod in Hfetch by (apply Z.pow_nonzero; lia).
    rewrite Hdec. rewrite (proj2 (Z.eqb_neq _ 0) En). cbn [negb].
    rewrite Hfetch, Hext. cbv iota zeta.
    destruct (ac_decode m rest pad tail act Hcl Hat coefs 1%nat 0
                (list_set blk 0 (to_JCOEF (to_JINT (diff + last_dc))))
                st2 gb2 bl2 cs (to_JINT (diff + last_dc))
                Hj H11 Hr0 Hrange Hnza Hcs Hrd2)
      as (st3 & gb3 & bl3 & Hrun & Hrd3 & R3).
    change (Z.of_nat 1 - 0) with 1 in Hrun.
    exists st3, gb3, bl3. split; [exact Hrun|].
    split; [exact Hrd3|].
    eapply same_reader_state_trans; [exact R1|].
    eapply same_reader_state_trans; eassumption.
Qed.

(* Storing the nonzero coefficients of a block at their natural
   positions, into a block that already agrees with it before zig-zag
   position j and is clear from there on, gives the block. *)
Lemma fill_from_block block :
  length block = 64%nat ->
  Forall (fun c => Z.abs c < 2 ^ 15) block ->
  forall (n j : nat) acc,
    (j + n = 64)%nat -> length acc = 64%nat ->
    (forall k, (k < j)%nat ->
       nth (marker_spec.order_at k) acc 0
         = nth (marker_spec.order_at k) block 0) ->
    (forall k, (j <= k < 64)%nat -> nth (marker_spec.order_at k) acc 0 = 0) ->
    fill_from
      (map (fun k => block_at block (nth k jpeg_natural_order 0)) (seq j n))
      j acc = block.
Proof.
  intros Hlen Hrange.
  induction n as [|n IH]; intros j acc Hj Hacc Hlow Hhigh.
  - cbn [seq map fill_from].
    apply nth_ext with (d := 0) (d' := 0); [lia|].
    intros i Hi. rewrite Hacc in Hi.
    destruct (order_at_onto i Hi) as (k & Hk & <-).
    apply Hlow. lia.
  - cbn [seq map fill_from].
    change (block_at block (nth j jpeg_natural_order 0))
      with (nth (marker_spec.order_at j) block 0).
    fold (marker_spec.order_at j).
    assert (Hjr : (marker_spec.order_at j < 64)%nat)
      by (apply order_at_range; lia).
    destruct (nth (marker_spec.order_at j) block 0 =? 0) eqn:E.
    + apply Z.eqb_eq in E. apply IH; [lia|exact Hacc| |].
      * intros k Hk. destruct (Nat.eq_dec k j) as [->|Ne].
        -- rewrite E. apply Hhigh. lia.
        -- apply Hlow. lia.
      * intros k Hk. apply Hhigh. lia.
    + assert (Hin : In (nth (marker_spec.order_at j) block 0) block)
        by (apply nth_In; lia).
      pose proof (proj1 (Forall_forall _ _) Hrange _ Hin) as Hc.
      cbv beta in Hc.
      rewrite to_JCOEF_small by lia.
      apply IH; [lia|rewrite list_set_length; exact Hacc| |].
      * intros k Hk. destruct (Nat.eq_dec k j) as [->|Ne].
        -- apply nth_list_set_eq. lia.
        -- rewrite nth_list_set_neq; [apply Hlow; lia|].
           intro Eo. apply order_at_injective in Eo; lia.
      * intros k Hk. rewrite nth_list_set_neq; [apply Hhigh; lia|].
        intro Eo. apply order_at_injective in Eo; lia.
Qed.

(* The DC coefficient stored into a cleared block, then the AC
   coefficients in zig-zag order: the block is there again. *)
Lemma cleared_block_filled block :
  length block = 64%nat ->
  Forall (fun c => Z.abs c < 2 ^ 15) block ->
  fill_from (zigzag block) 1 (list_set (repeat 0 64) 0 (block_at block 0))
    = block.
Proof.
  intros Hlen Hrange. unfold zigzag.
  assert (O0 : marker_spec.order_at 0 = 0%nat) by reflexivity.
  apply fill_from_block; try assumption; try lia.
  - rewrite list_set_length. apply repeat_length.
  - intros k Hk. assert (k = 0%nat) by lia. subst k. rewrite O0.
    rewrite nth_list_set_eq by (rewrite repeat_length; lia). reflexivity.
  - intros k Hk. rewrite nth_list_set_neq.
    + apply nth_repeat.
    + intro E. rewrite <- O0 in E. apply order_at_injective in E; lia.
Qed.

(* One pass of the discarding loop moves k and the bit reader as the
   storing pass does, and leaves the block alone. *)
Lemma discard_pass_as_store k blk blk' state gb bl htbl :
  discard_pass k blk' state gb bl htbl
    = match store_pass k blk state gb bl htbl with
      | CoefNext k1 _ st1 gb1 bl1 => CoefNext k1 blk' st1 gb1 bl1
      | CoefEnd _ st1 gb1 bl1 => CoefEnd blk' st1 gb1 bl1
      | CoefFail => CoefFail
      | CoefOutside => CoefOutside
      end.
Proof.
  unfold discard_pass, store_pass.
  destruct (HUFF_DECODE state gb bl htbl) as [s st1 gb1 bl1| |];
    try reflexivity.
  cbv zeta. destruct (negb (Z.land s 15 =? 0)).
  - unfold jdhuff_mcu.fetch_bits.
    destruct (CHECK_BIT_BUFFER st1 gb1 bl1 (Z.land s 15))
      as [[[st2 gb2] bl2]|]; reflexivity.
  - destruct (negb (Z.shiftr s 4 =? 15)); reflexivity.
Qed.

Lemma discard_loop_step k limit block state gb bl htbl :
  discard_loop k limit block state gb bl htbl =
  if k <? limit then
    match discard_pass k block state gb bl htbl with
    | CoefNext k' block' state' gb' bl' =>
        discard_loop k' limit block' state' gb' bl' htbl
    | CoefEnd block' state' gb' bl' => LoopEnd block' state' gb' bl'
    | CoefFail => LoopFail
    | CoefOutside => LoopOutside
    end
  else LoopExit k block state gb bl.
Proof. unfold discard_loop. apply coef_loop_step. Qed.

Lemma discard_loop_as_store limit htbl blk' : forall (n : nat) k blk state gb bl,
  (Z.to_nat (limit - k) <= n)%nat ->
  discard_loop k limit blk' state gb bl htbl
    = match store_loop k limit blk state gb bl htbl with
      | LoopExit k1 _ st1 gb1 bl1 => LoopExit k1 blk' st1 gb1 bl1
      | LoopEnd _ st1 gb1 bl1 => LoopEnd blk' st1 gb1 bl1
      | LoopFail => LoopFail
      | LoopOutside => LoopOutside
      end.
Proof.
  induction n as [|n IH]; intros k blk state gb bl Hn;
    rewrite discard_loop_step, store_loop_step;
    destruct (k <? limit) eqn:E; try reflexivity; try lia.
  rewrite (discard_pass_as_store k blk blk').
  destruct (store_pass k blk state gb bl htbl)
    as [k1 b1 st1 gb1 bl1|b1 st1 gb1 bl1| |] eqn:Ep; try reflexivity.
  apply store_pass_advances in Ep. apply IH. lia.
Qed.

(* A coefficient loop left because its condition failed has reached
   its limit. *)
Lemma store_loop_exit limit htbl : forall (n : nat) k blk state gb bl k1 blk1
    st1 gb1 bl1,
  (Z.to_nat (limit - k) <= n)%nat ->
  store_loop k limit blk state gb bl htbl = LoopExit k1 blk1 st1 gb1 bl1 ->
  limit <= k1.
Proof.
  induction n as [|n IH]; intros k blk state gb bl k1 blk1 st1 gb1 bl1 Hn;
    rewrite store_loop_step; destruct (k <? limit) eqn:E; try lia;
    try (intro H; injection H as <- _ _ _ _; lia).
  destruct (store_pass k blk state gb bl htbl)
    as [k2 b2 st2 gb2 bl2|b2 st2 gb2 bl2| |] eqn:Ep; try discriminate.
  apply store_pass_advances in Ep. apply IH. lia.
Qed.

(* The second loop takes the same bits whatever block it is given. *)
Lemma discard_to_end_any_block k blk blk' state gb bl htbl s s' :
  discard_to_end k blk' state gb bl htbl s'
    = match discard_to_end k blk state gb bl htbl s with
      | BlockDone _ _ st1 gb1 bl1 => BlockDone blk' s' st1 gb1 bl1
      | BlockFail => BlockFail
      | BlockOutside => BlockOutside
      end.
Proof.
  unfold discard_to_end.
  rewrite (discard_loop_as_store DCTSIZE2 htbl blk'
             (Z.to_nat (DCTSIZE2 - k)) k blk state gb bl (Nat.le_refl _)).
  rewrite (discard_loop_as_store DCTSIZE2 htbl blk
             (Z.to_nat (DCTSIZE2 - k)) k blk state gb bl (Nat.le_refl _)).
  destruct (store_loop k DCTSIZE2 blk state gb bl htbl); reflexivity.
Qed.

(* Both loops of a block against the second loop alone. *)
Lemma loops_take_the_same_bits limit htbl blk' s s' :
  limit <= 64 ->
  forall (n : nat) k blk state gb bl,
    (Z.to_nat (64 - k) <= n)%nat ->
    discard_to_end k blk' state gb bl htbl s'
      = match end_of_block (store_loop k limit blk state gb bl htbl) htbl s
        with
        | BlockDone _ _ st1 gb1 bl1 => BlockDone blk' s' st1 gb1 bl1
        | BlockFail => BlockFail
        | BlockOutside => BlockOutside
        end.
Proof.
  intro Hlimit.
  induction n as [|n IH]; intros k blk state gb bl Hn;
    rewrite store_loop_step; destruct (k <? limit) eqn:E; try lia;
    try (cbn [end_of_block]; apply discard_to_end_any_block).
  unfold discard_to_end at 1. rewrite discard_loop_step.
  change DCTSIZE2 with 64. replace (k <? 64) with true by lia.
  rewrite (discard_pass_as_store k blk blk').
  destruct (store_pass k blk state gb bl htbl)
    as [k1 b1 st1 gb1 bl1|b1 st1 gb1 bl1| |] eqn:Ep; try reflexivity.
  apply store_pass_advances in Ep.
  apply (IH k1 b1 st1 gb1 bl1). lia.
Qed.

(** X20.  A block comes back from its symbols.  Let the DC and the AC
    table each be derived on both sides from one Huffman table, and let
    a block of 64 coefficients below 2^15 in magnitude, with a DC
    difference below 2^15, have only symbols with a code in those
    tables.  When the bits that the decoder has not fetched yet begin
    with the codes that [encode_one_block] emits for the block (the DC
    symbols, then the AC symbols in zig-zag order with their zero runs,
    ZRL and EOB), the block body of [decode_mcu], run with the full
    coefficient limit on a cleared block and the same DC prediction,
    stores exactly that block and leaves the block's DC coefficient as
    the new prediction; it takes exactly those bits, so that the codes
    behind them are what is unread next, and it leaves the marker
    reader's state as it was. *)
Theorem decode_block_inverts_block_symbols :
  forall m rest pad tail dct act block last_dc state gb bl cs,
    closes m pad tail -> derived true dct -> derived false act ->
    length block = 64%nat ->
    Forall (fun c => Z.abs c < 2 ^ 15) block ->
    Z.abs (block_at block 0 - last_dc) < 2 ^ 15 ->
    sizes_nonzero
      (block_symbols (pair_ctbl dct) (pair_ctbl act) block last_dc) ->
    Forall (fun c => 0 <= snd c) cs ->
    reads m rest state gb bl
      (emitted_codes
         (block_symbols (pair_ctbl dct) (pair_ctbl act) block last_dc) ++ cs)
      pad tail ->
    exists state' gb' bl',
      decode_block state gb bl (pair_dtbl dct) (pair_dtbl act) DCTSIZE2
        last_dc (repeat 0 64)
        = BlockDone block (block_at block 0) state' gb' bl' /\
      reads m rest state' gb' bl' cs pad tail /\
      same_reader_state (jdhuff.cinfo state) (jdhuff.cinfo state').
Proof.
  intros m rest pad tail dct act block last_dc state gb bl cs Hcl Hdt Hat Hlen
    Hrange Hdiff Hnz Hcs Hrd.
  assert (Hz : length (zigzag block) = 63%nat)
    by (unfold zigzag; rewrite length_map, length_seq; reflexivity).
  assert (Hzr : Forall (fun c => Z.abs c < 2 ^ 15) (zigzag block)).
  { unfold zigzag. apply Forall_forall. intros c Hin.
    apply in_map_iff in Hin. destruct Hin as (k & <- & Hk).
    apply in_seq in Hk.
    pose proof (order_at_range k ltac:(lia)) as Hr.
    apply (proj1 (Forall_forall _ _) Hrange).
    unfold block_at. apply nth_In. unfold marker_spec.order_at in Hr. lia. }
  unfold block_symbols in Hnz, Hrd.
  destruct (symbols_decode m rest pad tail dct act (block_at block 0 - last_dc)
              (zigzag block) last_dc (repeat 0 64) state gb bl cs Hcl Hdt Hat
              Hz Hdiff Hzr Hnz Hcs Hrd)
    as (st1 & gb1 & bl1 & Hrun & Hrd1 & R1).
  exists st1, gb1, bl1. split; [|split; assumption].
  change DCTSIZE2 with 64. rewrite Hrun.
  replace (block_at block 0 - last_dc + last_dc) with (block_at block 0)
    by lia.
  assert (H0 : Z.abs (block_at block 0) < 2 ^ 15).
  { apply (proj1 (Forall_forall _ _) Hrange). unfold block_at.
    apply nth_In. lia. }
  change (2 ^ 15) with 32768 in H0.
  rewrite to_JINT_small by (change (2 ^ 31) with 2147483648; lia).
  rewrite to_JCOEF_small by (change (2 ^ 15) with 32768; lia).
  rewrite (cleared_block_filled block Hlen Hrange). reflexivity.
Qed.

Lemma decode_block_inverts_block_symbols_witness :
  exists state' gb' bl',
    decode_block ex_block_reader 0 0 (pair_dtbl ex_dc_pair)
      (pair_dtbl ex_ac_pair) DCTSIZE2 0 (repeat 0 64)
      = BlockDone ex_small_block 5 state' gb' bl' /\
    reads 0xD9 [] state' gb' bl' [] 4 15.
Proof.
  assert (Hcl : closes 0xD9 4 15) by (unfold closes; simpl; lia).
  assert (Hdt : derived true ex_dc_pair).
  { exists 0, blank_c_derived_tbl, jdhuff.blank_d_derived_tbl.
    repeat split; vm_compute; reflexivity. }
  assert (Hat : derived false ex_ac_pair).
  { exists 0, blank_c_derived_tbl, jdhuff.blank_d_derived_tbl.
    repeat split; vm_compute; reflexivity. }
  assert (Hrange : Forall (fun c => Z.abs c < 2 ^ 15) ex_small_block).
  { apply Forall_forall. intros c Hin. unfold ex_small_block in Hin.
    destruct Hin as [<-|[<-|Hin]]; [simpl; lia|simpl; lia|].
    apply repeat_spec in Hin. subst c. simpl. lia. }
  assert (Hdiff : Z.abs (block_at ex_small_block 0 - 0) < 2 ^ 15)
    by (vm_compute; reflexivity).
  assert (Hnz : sizes_nonzero
                  (block_symbols (pair_ctbl ex_dc_pair) (pair_ctbl ex_ac_pair)
                     ex_small_block 0)).
  { unfold sizes_nonzero. vm_compute.
    repeat (constructor; [discriminate|]). constructor. }
  assert (Hrd : reads 0xD9 [] ex_block_reader 0 0
                  (emitted_codes
                     (block_symbols (pair_ctbl ex_dc_pair)
                        (pair_ctbl ex_ac_pair) ex_small_block 0) ++ [])
                  4 15).
  { exists [0x95; 0x8F]. split; [left; split; reflexivity|].
    split; [repeat constructor; unfold is_byte; lia|].
    split; [lia|]. split; vm_compute; reflexivity. }
  destruct (decode_block_inverts_block_symbols 0xD9 [] 4 15 ex_dc_pair
              ex_ac_pair ex_small_block 0 ex_block_reader 0 0 []
              Hcl Hdt Hat eq_refl Hrange Hdiff Hnz (Forall_nil _) Hrd)
    as (state' & gb' & bl' & Hrun & Hrd' & _).
  exists state', gb', bl'. split; [exact Hrun|exact Hrd'].
Defined.

(** X21.  The coefficient limit never changes the bits a block takes.
    Whatever the input, the tables and the block handed in, the block
    body of [decode_mcu] with a coefficient limit of 0 (a component that
    is not needed) fails exactly when it fails with any other limit up
    to 64, and otherwise ends with the same working state, get_buffer
    and bits_left; but it leaves the block and the DC prediction as
    they were. *)
Theorem coef_limit_never_changes_bits_taken :
  forall coef_limit state gb bl dctbl actbl last_dc blk blk',
    coef_limit <= DCTSIZE2 ->
    decode_block state gb bl dctbl actbl 0 last_dc blk'
      = match decode_block state gb bl dctbl actbl coef_limit last_dc blk
        with
        | BlockDone _ _ st1 gb1 bl1 => BlockDone blk' last_dc st1 gb1 bl1
        | BlockFail => BlockFail
        | BlockOutside => BlockOutside
        end.
Proof.
  intros coef_limit state gb bl dctbl actbl last_dc blk blk' Hlimit.
  change DCTSIZE2 with 64 in Hlimit.
  unfold decode_block.
  destruct (HUFF_DECODE state gb bl dctbl) as [s st1 gb1 bl1| |];
    try reflexivity.
  change (negb (0 =? 0)) with false. cbv iota.
  destruct (negb (coef_limit =? 0)) eqn:El.
  - destruct (negb (s =? 0)).
    + unfold jdhuff_mcu.fetch_bits.
      destruct (CHECK_BIT_BUFFER st1 gb1 bl1 s) as [[[st2 gb2] bl2]|];
        [|reflexivity].
      cbn [GET_BITS]. unfold GET_BITS. cbv zeta. unfold DROP_BITS.
      apply (loops_take_the_same_bits coef_limit actbl blk' _ last_dc Hlimit
               63%nat 1). simpl. lia.
    + apply (loops_take_the_same_bits coef_limit actbl blk' _ last_dc Hlimit
               63%nat 1). simpl. lia.
  - destruct (negb (s =? 0)).
    + destruct (CHECK_BIT_BUFFER st1 gb1 bl1 s) as [[[st2 gb2] bl2]|];
        [|reflexivity].
      apply discard_to_end_any_block.
    + apply discard_to_end_any_block.
Qed.

Lemma coef_limit_never_changes_bits_taken_witness :
  decode_block ex_block_reader 0 0 (pair_dtbl ex_dc_pair)
    (pair_dtbl ex_ac_pair) 0 7 ex_small_block
    = match decode_block ex_block_reader 0 0 (pair_dtbl ex_dc_pair)
              (pair_dtbl ex_ac_pair) 64 7 (repeat 0 64) with
      | BlockDone _ _ st1 gb1 bl1 => BlockDone ex_small_block 7 st1 gb1 bl1
      | BlockFail => BlockFail
      | BlockOutside => BlockOutside
      end.
Proof.
  apply coef_limit_never_changes_bits_taken. unfold DCTSIZE2. lia.
Defined.

End block_decode_properties.
(** ** decode_mcu against the symbols of an MCU (jdhuff.c, jchuff.c) *)

Section mcu_decode_properties.
Import jdhuff huffman_spec bitstream_spec jdhuff_block roundtrip_spec.
Import jchuff props block_spec scan_spec.

Lemma firstn_S_nth {A} (l : list A) k d :
  (k < length l)%nat -> firstn (S k) l = firstn k l ++ [nth k l d].
Proof.
  revert k. induction l as [|h t IH]; intros [|k] H; simpl in *; try lia; auto.
  f_equal. apply IH. lia.
Qed.

Lemma block_ok_range block :
  block_ok block -> Forall (fun c => Z.abs c < 2 ^ 15) block.
Proof.
  intros (Hlen & Hdc & Hac). apply Forall_forall. intros c Hin.
  destruct (In_nth _ _ 0 Hin) as (i & Hi & <-).
  rewrite Hlen in Hi.
  destruct (order_at_onto i Hi) as (k & Hk & <-).
  change (2 ^ 15) with 32768. change (2 ^ 10) with 1024 in *.
  destruct k as [|k].
  - change (marker_spec.order_at 0) with 0%nat.
    unfold block_at in Hdc. change (Z.to_nat 0) with 0%nat in Hdc. lia.
  - assert (Hz : In (nth (marker_spec.order_at (S k)) block 0) (zigzag block)).
    { unfold zigzag. apply in_map_iff. exists (S k). split.
      - reflexivity.
      - apply in_seq. lia. }
    pose proof (proj1 (Forall_forall _ _) Hac _ Hz) as Hc. cbv beta in Hc.
    lia.
Qed.

(* One block of the range of 8-bit data, decoded in full from its
   symbols into a cleared block. *)
Lemma block_decode_ok m rest pad tail dct act block last_dc state gb bl cs :
  closes m pad tail -> derived true dct -> derived false act ->
  block_ok block -> - 2 ^ 10 <= last_dc < 2 ^ 10 ->
  sizes_nonzero
    (block_symbols (pair_ctbl dct) (pair_ctbl act) block last_dc) ->
  Forall (fun c => 0 <= snd c) cs ->
  reads m rest state gb bl
    (emitted_codes
       (block_symbols (pair_ctbl dct) (pair_ctbl act) block last_dc) ++ cs)
    pad tail ->
  exists state' gb' bl',
    decode_block state gb bl (pair_dtbl dct) (pair_dtbl act) DCTSIZE2
      last_dc (repeat 0 64)
      = BlockDone block (block_at block 0) state' gb' bl' /\
    reads m rest state' gb' bl' cs pad tail /\
    same_reader_state (jdhuff.cinfo state) (jdhuff.cinfo state').
Proof.
  intros Hcl Hdt Hat Hok Hlast Hnz Hcs Hrd.
  pose proof (block_ok_range block Hok) as Hrange.
  destruct Hok as (Hlen & Hdc & Hac).
  change (2 ^ 10) with 1024 in *.
  assert (Hz : length (zigzag block) = 63%nat)
    by (unfold zigzag; rewrite length_map, length_seq; reflexivity).
  assert (Hzr : Forall (fun c => Z.abs c < 2 ^ 15) (zigzag block)).
  { eapply Forall_impl; [|exact Hac]. cbv beta. intros a Ha.
    change (2 ^ 15) with 32768. lia. }
  assert (Hdiff : Z.abs (block_at block 0 - last_dc) < 2 ^ 15)
    by (change (2 ^ 15) with 32768; lia).
  unfold block_symbols in Hnz, Hrd.
  destruct (symbols_decode m rest pad tail dct act (block_at block 0 - last_dc)
              (zigzag block) last_dc (repeat 0 64) state gb bl cs Hcl Hdt Hat
              Hz Hdiff Hzr Hnz Hcs Hrd)
    as (st1 & gb1 & bl1 & Hrun & Hrd1 & R1).
  exists st1, gb1, bl1. split; [|split; assumption].
  change DCTSIZE2 with 64. rewrite Hrun.
  replace (block_at block 0 - last_dc + last_dc) with (block_at block 0)
    by lia.
  rewrite to_JINT_small by (change (2 ^ 31) with 2147483648; lia).
  rewrite to_JCOEF_small by (change (2 ^ 15) with 32768; lia).
  rewrite (cleared_block_filled block Hlen Hrange). reflexivity.
Qed.

Lemma predictions_agree_set n le ld ci v :
  predictions_agree n le ld -> - 2 ^ 10 <= v < 2 ^ 10 ->
  predictions_agree n (list_set le ci v) (list_set ld ci v).
Proof.
  intros [Hlen Hag] Hv. split; [rewrite !list_set_length; exact Hlen|].
  intros i Hi. destruct (Hag i Hi) as [He Hr].
  destruct (Nat.eq_dec i ci) as [->|Ne].
  - destruct (Nat.lt_ge_cases ci (length le)) as [Lt|Ge].
    + rewrite !nth_list_set_eq by lia. split; [reflexivity|exact Hv].
    + rewrite !nth_overflow by (rewrite list_set_length; lia).
      split; [reflexivity|]. change (2 ^ 10) with 1024. lia.
  - rewrite !nth_list_set_neq by lia. split; assumption.
Qed.

Lemma block_codes_nonneg dct act block last_dc :
  derived true dct -> derived false act ->
  Forall (fun c => 0 <= snd c)
    (emitted_codes
       (block_symbols (pair_ctbl dct) (pair_ctbl act) block last_dc)).
Proof.
  intros Hdt Hat. unfold block_symbols. rewrite emitted_codes_app.
  apply Forall_app. split; [|apply ac_codes_nonneg; exact Hat].
  unfold dc_symbols. cbv zeta. rewrite emitted_codes_symbol.
  constructor; [cbn [snd]; apply (ehufsi_nonneg true dct _ Hdt)|].
  destruct (nbits_of (block_at block 0 - last_dc) =? 0);
    [constructor|].
  rewrite emitted_codes_bits. constructor; [|constructor].
  cbn [snd]. apply nbits_of_nonneg.
Qed.

Lemma mcu_codes_nonneg sp ent tabs :
  scans_agree sp ent tabs ->
  forall (n blkn : nat) le MCU_data,
    (blkn + n <= Z.to_nat (blocks_in_MCU sp))%nat ->
    Forall (fun c => 0 <= snd c)
      (emitted_codes (mcu_symbols n blkn sp ent le MCU_data)).
Proof.
  intros [_ Hag]. induction n as [|n IH]; intros blkn le MCU_data Hn;
    cbn [mcu_symbols emitted_codes]; [constructor|].
  destruct (Hag blkn ltac:(lia))
    as (_ & _ & _ & (dct & Hdt & Edc & _) & (act & Hat & Eac & _)).
  rewrite emitted_codes_app. apply Forall_app. split.
  - rewrite <- Edc, <- Eac. apply block_codes_nonneg; assumption.
  - apply IH. lia.
Qed.

(* The blocks of an MCU, from block blkn on. *)
Lemma decode_blocks_exact m rest pad tail sp ent tabs MCU_data :
  closes m pad tail -> scans_agree sp ent tabs -> mcu_ok sp MCU_data ->
  forall (n blkn : nat) le ld buf state gb bl cs,
    (blkn + n = Z.to_nat (blocks_in_MCU sp))%nat ->
    predictions_agree (Z.to_nat (comps_in_scan sp)) le ld ->
    length buf = Z.to_nat (blocks_in_MCU sp) ->
    firstn blkn buf = firstn blkn MCU_data ->
    (forall j, (blkn <= j < Z.to_nat (blocks_in_MCU sp))%nat ->
       nth j buf [] = repeat 0 64) ->
    sizes_nonzero (mcu_symbols n blkn sp ent le MCU_data) ->
    Forall (fun c => 0 <= snd c) cs ->
    reads m rest state gb bl
      (emitted_codes (mcu_symbols n blkn sp ent le MCU_data) ++ cs) pad tail ->
    exists ld' state' gb' bl',
      jdhuff_decode.decode_blocks n blkn tabs buf ld state gb bl
        = jdhuff_decode.BlocksDone MCU_data ld' state' gb' bl' /\
      predictions_agree (Z.to_nat (comps_in_scan sp))
        (mcu_last_dc n blkn sp le MCU_data) ld' /\
      reads m rest state' gb' bl' cs pad tail /\
      same_reader_state (jdhuff.cinfo state) (jdhuff.cinfo state').
Proof.
  intros Hcl [Hnb Hag] [Hlen Hblocks].
  induction n as [|n IH];
    intros blkn le ld buf state gb bl cs Hn Hpred Hbuf Hdone Hclear Hnz Hcs
      Hrd.
  - exists ld, state, gb, bl. cbn [jdhuff_decode.decode_blocks mcu_last_dc].
    cbn [mcu_symbols emitted_codes app] in Hrd.
    split; [|split; [exact Hpred|split; [exact Hrd|]]].
    + f_equal. rewrite <- (firstn_all buf), <- (firstn_all MCU_data).
      rewrite Hbuf, Hlen. replace (Z.to_nat (blocks_in_MCU sp)) with blkn
        by lia. exact Hdone.
    + unfold same_reader_state. repeat split.
  - assert (Hb : (blkn < Z.to_nat (blocks_in_MCU sp))%nat) by lia.
    destruct (Hag blkn Hb)
      as (Hmem & Hci & Hlim & (dct & Hdt & Edc & Edd) & (act & Hat & Eac & Ead)).
    set (block := nth blkn MCU_data []) in *.
    assert (Hok : block_ok block).
    { apply (proj1 (Forall_forall _ _) Hblocks). apply nth_In. lia. }
    cbn [mcu_symbols] in Hnz, Hrd. fold block in Hnz, Hrd.
    rewrite <- Edc, <- Eac in Hnz, Hrd.
    apply Forall_app in Hnz. destruct Hnz as [Hnz1 Hnz2].
    rewrite emitted_codes_app, <- app_assoc in Hrd.
    assert (Hcin : (block_ci sp blkn < Z.to_nat (comps_in_scan sp))%nat)
      by (unfold block_ci; lia).
    destruct Hpred as [Hpl Hpa].
    destruct (Hpa _ Hcin) as [Hpe Hpr].
    assert (Hpred : predictions_agree (Z.to_nat (comps_in_scan sp)) le ld)
      by (split; assumption).
    set (le1 := list_set le (block_ci sp blkn) (block_at block 0)) in *.
    set (tl := emitted_codes (mcu_symbols n (S blkn) sp ent le1 MCU_data)
               ++ cs) in *.
    assert (Htl : Forall (fun c => 0 <= snd c) tl).
    { apply Forall_app. split; [|exact Hcs].
      apply (mcu_codes_nonneg sp ent tabs (conj Hnb Hag)). lia. }
    destruct (block_decode_ok m rest pad tail dct act block
                (nth (block_ci sp blkn) le 0) state gb bl tl Hcl Hdt Hat Hok
                Hpr Hnz1 Htl Hrd)
      as (st1 & gb1 & bl1 & Hrun & Hrd1 & R1).
    destruct Hok as (_ & Hdc & _).
    destruct (IH (S blkn) le1
                (list_set ld (block_ci sp blkn) (block_at block 0))
                (list_set buf blkn block) st1 gb1 bl1 cs)
      as (ld' & st2 & gb2 & bl2 & Hrest & Hpred' & Hrd2 & R2);
      try assumption.
    + lia.
    + apply predictions_agree_set; assumption.
    + rewrite list_set_length. exact Hbuf.
    + rewrite firstn_S_list_set by lia.
      rewrite (firstn_S_nth MCU_data blkn []) by lia.
      rewrite Hdone. reflexivity.
    + intros j Hj. rewrite nth_list_set_neq by lia. apply Hclear. lia.
    + exists ld', st2, gb2, bl2.
      split; [|split; [exact Hpred'|split; [exact Hrd2|]]].
      * cbn [jdhuff_decode.decode_blocks].
        rewrite Hlim, Hmem, (Hclear blkn (conj (Nat.le_refl _) Hb)), <- Edd, <- Ead.
        fold (block_ci sp blkn). rewrite Hpe, Hrun.
        change (DCTSIZE2 =? 0) with false. cbv iota. exact Hrest.
      * eapply same_reader_state_trans; eassumption.
Qed.

Lemma nth_cleared_mcu n j :
  (j < Z.to_nat n)%nat -> nth j (cleared_mcu n) [] = repeat 0 64.
Proof.
  intro H. unfold cleared_mcu.
  rewrite (nth_indep _ [] (repeat 0 64)) by (rewrite repeat_length; exact H).
  apply nth_repeat.
Qed.

(* decode_mcu on the symbols of an MCU, when no restart is due. *)
Lemma decode_mcu_exact m rest pad tail sp ent tabs mcu le d cs :
  closes m pad tail -> scans_agree sp ent tabs -> mcu_ok sp mcu ->
  jdhuff_mcu.restart_interval d = 0 \/
    jdhuff_mcu.restarts_to_go (jdhuff_mcu.entropy d) <> 0 ->
  jdmarker.insufficient_data (jdhuff_mcu.reader d) = false ->
  predictions_agree (Z.to_nat (comps_in_scan sp)) le
    (jdhuff_mcu.last_dc_val (jdhuff_mcu.entropy d)) ->
  sizes_nonzero
    (mcu_symbols (Z.to_nat (blocks_in_MCU sp)) 0 sp ent le mcu) ->
  Forall (fun c => 0 <= snd c) cs ->
  reads m rest (load_state d) (jdhuff_mcu.get_buffer (jdhuff_mcu.entropy d))
    (jdhuff_mcu.bits_left (jdhuff_mcu.entropy d))
    (emitted_codes
       (mcu_symbols (Z.to_nat (blocks_in_MCU sp)) 0 sp ent le mcu) ++ cs)
    pad tail ->
  exists d',
    jdhuff_decode.decode_mcu tabs d
      (cleared_mcu (jdhuff_decode.blocks_in_MCU tabs))
      = Returned (jdhuff_decode.McuDone d' mcu) /\
    reads m rest (load_state d')
      (jdhuff_mcu.get_buffer (jdhuff_mcu.entropy d'))
      (jdhuff_mcu.bits_left (jdhuff_mcu.entropy d')) cs pad tail /\
    same_reader_state (jdhuff_mcu.reader d) (jdhuff_mcu.reader d') /\
    predictions_agree (Z.to_nat (comps_in_scan sp))
      (mcu_last_dc (Z.to_nat (blocks_in_MCU sp)) 0 sp le mcu)
      (jdhuff_mcu.last_dc_val (jdhuff_mcu.entropy d')) /\
    jdhuff_mcu.restart_interval d' = jdhuff_mcu.restart_interval d /\
    jdhuff_mcu.comps_in_scan d' = jdhuff_mcu.comps_in_scan d /\
    jdhuff_mcu.restarts_to_go (jdhuff_mcu.entropy d')
      = (if jdhuff_mcu.restart_interval d =? 0
         then jdhuff_mcu.restarts_to_go (jdhuff_mcu.entropy d)
         else to_JUINT (jdhuff_mcu.restarts_to_go (jdhuff_mcu.entropy d) - 1)).
Proof.
  intros Hcl Hag Hok Hno Hins Hpred Hnz Hcs Hrd.
  pose proof (proj1 Hag) as Hnb.
  destruct (decode_blocks_exact m rest pad tail sp ent tabs mcu Hcl Hag Hok
              (Z.to_nat (blocks_in_MCU sp)) 0 le
              (jdhuff_mcu.last_dc_val (jdhuff_mcu.entropy d))
              (cleared_mcu (jdhuff_decode.blocks_in_MCU tabs)) (load_state d)
              (jdhuff_mcu.get_buffer (jdhuff_mcu.entropy d))
              (jdhuff_mcu.bits_left (jdhuff_mcu.entropy d)) cs)
    as (ld' & st1 & gb1 & bl1 & Hrun & Hpred' & Hrd1 & R1);
    try assumption.
  - lia.
  - unfold cleared_mcu. rewrite repeat_length, Hnb. reflexivity.
  - reflexivity.
  - intros j Hj. apply nth_cleared_mcu. rewrite Hnb. lia.
  - unfold jdhuff_decode.decode_mcu.
    assert (Ec : (negb (jdhuff_mcu.restart_interval d =? 0)
                  && (jdhuff_mcu.restarts_to_go (jdhuff_mcu.entropy d) =? 0))
                 = false).
    { destruct Hno as [E|N].
      - rewrite E. reflexivity.
      - apply Z.eqb_neq in N. rewrite N. apply andb_false_r. }
    rewrite Ec. cbn [bind_outcome negb]. rewrite Hins. cbn [negb].
    unfold jdhuff_decode.decode_mcu_blocks. fold (load_state d).
    rewrite Hnb in Hrun |- *. rewrite Hrun.
    unfold jdhuff_decode.count_mcu.
    cbn [jdhuff_mcu.restart_interval].
    destruct (jdhuff_mcu.restart_interval d =? 0) eqn:ER; cbn [negb];
      (eexists; split; [reflexivity|]);
      cbn [jdhuff_mcu.reader jdhuff_mcu.entropy jdhuff_mcu.get_buffer
           jdhuff_mcu.bits_left jdhuff_mcu.last_dc_val
           jdhuff_mcu.restarts_to_go jdhuff_mcu.restart_interval
           jdhuff_mcu.comps_in_scan].
    all: (split; [|split; [exact R1|split; [exact Hpred'|auto]]]).
    all: destruct Hrd1 as (D & V & Rest); exists D; split; [|exact Rest].
    all: exact V.
Qed.

Lemma run_codes_nonneg sp ent tabs :
  scans_agree sp ent tabs ->
  forall mcus le,
    Forall (fun c => 0 <= snd c) (emitted_codes (run_symbols sp ent le mcus)).
Proof.
  intros Hag. induction mcus as [|mcu mcus IH]; intro le;
    cbn [run_symbols emitted_codes]; [constructor|].
  cbv zeta. rewrite emitted_codes_app. apply Forall_app. split.
  - apply (mcu_codes_nonneg sp ent tabs Hag). lia.
  - apply IH.
Qed.

(* A run of MCUs with no restart due between them. *)
Lemma run_decode m rest pad tail sp ent tabs :
  closes m pad tail -> scans_agree sp ent tabs ->
  forall mcus le d cs,
    Forall (mcu_ok sp) mcus ->
    jdhuff_mcu.restart_interval d = 0 \/
      Z.of_nat (length mcus)
        <= jdhuff_mcu.restarts_to_go (jdhuff_mcu.entropy d) < 2 ^ 32 ->
    jdmarker.insufficient_data (jdhuff_mcu.reader d) = false ->
    predictions_agree (Z.to_nat (comps_in_scan sp)) le
      (jdhuff_mcu.last_dc_val (jdhuff_mcu.entropy d)) ->
    sizes_nonzero (run_symbols sp ent le mcus) ->
    Forall (fun c => 0 <= snd c) cs ->
    reads m rest (load_state d)
      (jdhuff_mcu.get_buffer (jdhuff_mcu.entropy d))
      (jdhuff_mcu.bits_left (jdhuff_mcu.entropy d))
      (emitted_codes (run_symbols sp ent le mcus) ++ cs) pad tail ->
    exists d',
      decode_mcus (length mcus) tabs d = Returned (McusDone d' mcus) /\
      reads m rest (load_state d')
        (jdhuff_mcu.get_buffer (jdhuff_mcu.entropy d'))
        (jdhuff_mcu.bits_left (jdhuff_mcu.entropy d')) cs pad tail /\
      same_reader_state (jdhuff_mcu.reader d) (jdhuff_mcu.reader d') /\
      predictions_agree (Z.to_nat (comps_in_scan sp))
        (run_last_dc sp le mcus)
        (jdhuff_mcu.last_dc_val (jdhuff_mcu.entropy d')) /\
      jdhuff_mcu.restart_interval d' = jdhuff_mcu.restart_interval d /\
      jdhuff_mcu.comps_in_scan d' = jdhuff_mcu.comps_in_scan d /\
      jdhuff_mcu.restarts_to_go (jdhuff_mcu.entropy d')
        = (if jdhuff_mcu.restart_interval d =? 0
           then jdhuff_mcu.restarts_to_go (jdhuff_mcu.entropy d)
           else jdhuff_mcu.restarts_to_go (jdhuff_mcu.entropy d)
                - Z.of_nat (length mcus)).
Proof.
  intros Hcl Hag.
  induction mcus as [|mcu mcus IH];
    intros le d cs Hok Hno Hins Hpred Hnz Hcs Hrd.
  - exists d. cbn [length decode_mcus run_symbols emitted_codes app
                   run_last_dc] in *.
    split; [reflexivity|]. split; [exact Hrd|].
    split; [unfold same_reader_state; repeat split|].
    split; [exact Hpred|]. split; [reflexivity|]. split; [reflexivity|].
    destruct (_ =? 0); lia.
  - cbn [run_symbols run_last_dc] in *. cbv zeta in Hnz, Hrd.
    apply Forall_app in Hnz. destruct Hnz as [Hnz1 Hnz2].
    rewrite emitted_codes_app, <- app_assoc in Hrd.
    pose proof (Forall_inv Hok) as Hok1.
    pose proof (Forall_inv_tail Hok) as Hok2.
    set (le1 := mcu_last_dc (Z.to_nat (blocks_in_MCU sp)) 0 sp le mcu) in *.
    assert (Htl : Forall (fun c => 0 <= snd c)
                    (emitted_codes (run_symbols sp ent le1 mcus) ++ cs)).
    { apply Forall_app. split; [|exact Hcs].
      apply (run_codes_nonneg sp ent tabs Hag). }
    assert (Hno1 : jdhuff_mcu.restart_interval d = 0 \/
                   jdhuff_mcu.restarts_to_go (jdhuff_mcu.entropy d) <> 0).
    { destruct Hno as [E|N]; [left; exact E|right].
      cbn [length] in N. lia. }
    destruct (decode_mcu_exact m rest pad tail sp ent tabs mcu le d _ Hcl Hag
                Hok1 Hno1 Hins Hpred Hnz1 Htl Hrd)
      as (d1 & Hrun & Hrd1 & R1 & Hpred1 & ER1 & EC1 & ET1).
    assert (Hins1 : jdmarker.insufficient_data (jdhuff_mcu.reader d1) = false).
    { destruct R1 as (_ & Ei & _). rewrite Ei. exact Hins. }
    assert (Hno2 : jdhuff_mcu.restart_interval d1 = 0 \/
                   Z.of_nat (length mcus)
                     <= jdhuff_mcu.restarts_to_go (jdhuff_mcu.entropy d1)
                     < 2 ^ 32).
    { rewrite ER1, ET1. destruct Hno as [E|N]; [left; exact E|].
      destruct (jdhuff_mcu.restart_interval d =? 0) eqn:E0;
        [left; lia|right].
      cbn [length] in N.
      unfold to_JUINT. rewrite wrap_u_small by lia. lia. }
    destruct (IH le1 d1 cs Hok2 Hno2 Hins1 Hpred1 Hnz2 Hcs Hrd1)
      as (d2 & Hrest & Hrd2 & R2 & Hpred2 & ER2 & EC2 & ET2).
    exists d2. cbn [length decode_mcus]. rewrite Hrun. cbn [bind_outcome].
    rewrite Hrest. cbn [bind_outcome].
    split; [reflexivity|]. split; [exact Hrd2|].
    split; [eapply same_reader_state_trans; eassumption|].
    split; [exact Hpred2|]. split; [congruence|]. split; [congruence|].
    rewrite ET2, ER1, ET1.
    destruct (jdhuff_mcu.restart_interval d =? 0) eqn:E0; [reflexivity|].
    destruct Hno as [E|N]; [lia|]. cbn [length] in N.
    unfold to_JUINT. rewrite wrap_u_small by lia. lia.
Qed.

End mcu_decode_properties.
(** ** What a run of MCUs writes (jchuff.c) *)

Section scan_encoder_properties.
Import jchuff props block_spec bitstream_spec roundtrip_spec scan_spec.

Lemma codes_length_app cs1 cs2 :
  codes_length (cs1 ++ cs2) = codes_length cs1 + codes_length cs2.
Proof.
  induction cs1 as [|[c s] cs1 IH]; cbn [app codes_length]; [reflexivity|].
  rewrite IH. lia.
Qed.

Lemma codes_length_pos cs :
  Forall (fun c => 0 <= snd c) cs -> 0 <= codes_length cs.
Proof.
  induction 1 as [|[c s] cs Hs _ IH]; cbn [codes_length snd] in *; lia.
Qed.

Lemma codes_value_app cs1 cs2 :
  Forall (fun c => 0 <= snd c) cs1 -> Forall (fun c => 0 <= snd c) cs2 ->
  codes_value (cs1 ++ cs2)
    = codes_value cs1 * 2 ^ codes_length cs2 + codes_value cs2.
Proof.
  intros H1 H2. pose proof (codes_length_pos cs2 H2) as L2.
  induction H1 as [|[c s] cs1 Hs H1 IH]; cbn [app codes_value codes_length];
    [lia|].
  cbn [snd] in Hs. rewrite IH, codes_length_app.
  pose proof (codes_length_pos cs1 H1) as L1.
  rewrite pow2_split by lia. ring.
Qed.

Lemma wrote_refl st :
  ws_room st -> bit_buffer_ok (cur st) -> wrote st st [].
Proof.
  intros R Ok. exists []. cbn [stuff length codes_length codes_value
                              bytes_value].
  split; [apply grows_refl|]. split; [constructor|].
  split; [exact R|]. split; [exact Ok|]. split; lia.
Qed.

Lemma wrote_trans st st1 st2 cs1 cs2 :
  Forall (fun c => 0 <= snd c) cs1 -> Forall (fun c => 0 <= snd c) cs2 ->
  wrote st st1 cs1 -> wrote st1 st2 cs2 -> wrote st st2 (cs1 ++ cs2).
Proof.
  intros H1 H2 (D1 & G1 & F1 & R1 & Ok1 & L1 & V1)
    (D2 & G2 & F2 & R2 & Ok2 & L2 & V2).
  exists (D1 ++ D2). rewrite stuff_app.
  split; [exact (grows_trans _ _ _ _ _ G1 G2)|].
  split; [apply Forall_app; split; assumption|].
  split; [exact R2|]. split; [exact Ok2|].
  rewrite length_app, Nat2Z.inj_add, codes_length_app.
  split; [lia|].
  rewrite bytes_value_app, codes_value_app by assumption.
  pose proof (codes_length_pos cs1 H1) as P1.
  pose proof (codes_length_pos cs2 H2) as P2.
  destruct Ok1 as [[Q1 _] _]. destruct Ok2 as [[Q2 _] _].
  rewrite pow256 by lia.
  rewrite (pow2_split (codes_length cs1) (codes_length cs2)) by lia.
  assert (E : 2 ^ (8 * Z.of_nat (length D2)) * 2 ^ put_bits (cur st2)
              = 2 ^ put_bits (cur st1) * 2 ^ codes_length cs2).
  { rewrite <- !pow2_split by lia. f_equal. lia. }
  set (a := 2 ^ (8 * Z.of_nat (length D2))) in *.
  set (b := 2 ^ put_bits (cur st2)) in *.
  set (c := 2 ^ put_bits (cur st1)) in *.
  set (e := 2 ^ codes_length cs2) in *.
  set (f := 2 ^ codes_length cs1) in *.
  transitivity ((bytes_value D1 * c + pending (cur st1)) * e
                + codes_value cs2).
  - transitivity (bytes_value D1 * (a * b)
                  + (bytes_value D2 * b + pending (cur st2))); [ring|].
    rewrite E, V2. ring.
  - rewrite V1. ring.
Qed.

Lemma wrote_from_set_last_dc st ci v st' cs :
  wrote (set_last_dc st ci v) st' cs -> wrote st st' cs.
Proof.
  intros (D & G & Rest). exists D. split; [|exact Rest].
  unfold set_last_dc in G. apply grows_from_set_cur in G. exact G.
Qed.

Lemma emit_codes_sizes cs : forall st st',
  emit_codes st cs = Returned (Done st') ->
  Forall (fun c => snd c <> 0) cs.
Proof.
  induction cs as [|[c s] cs IH]; intros st st' H; [constructor|].
  cbn [emit_codes] in H.
  destruct (emit_bits_s st c s) as [[st1|?]| |] eqn:E; try discriminate.
  cbn [and_then] in H. constructor; [|exact (IH _ _ H)].
  cbn [snd]. intros ->. unfold emit_bits_s, JSC_ASSERT in E.
  change (negb (0 =? 0)) with false in E. discriminate.
Qed.

Lemma emit_codes_wrote cs st st' :
  ws_room st -> bit_buffer_ok (cur st) ->
  Forall (fun c => 0 <= snd c <= 16) cs ->
  emit_codes st cs = Returned (Done st') ->
  wrote st st' cs /\ Forall (fun c => snd c <> 0) cs /\
  last_dc_val (cur st') = last_dc_val (cur st).
Proof.
  intros R Ok Hs Hrun.
  pose proof (emit_codes_sizes cs st st' Hrun) as Hnz.
  assert (Hs' : Forall (fun c => 1 <= snd c <= 16) cs).
  { apply Forall_forall. intros c Hin.
    pose proof (proj1 (Forall_forall _ _) Hs c Hin).
    pose proof (proj1 (Forall_forall _ _) Hnz c Hin). cbv beta in *. lia. }
  destruct (emit_codes_exact cs st st' R Ok Hs' Hrun)
    as (D & G & F & R' & Ok' & L & V & Dc).
  split; [|split; [exact Hnz|exact Dc]].
  exists D. auto 10.
Qed.

Lemma emit_all_as_codes es : forall st,
  (forall e, In e es -> exists c s, e = EmitBits c s) ->
  emit_all st es = emit_codes st (emitted_codes es).
Proof.
  induction es as [|e es IH]; intros st Hb; [reflexivity|].
  destruct (Hb e (or_introl eq_refl)) as (c & s & ->).
  cbn [emit_all emit emitted_codes emit_codes].
  destruct (emit_bits_s st c s) as [[st1|?]| |]; try reflexivity.
  cbn [and_then]. apply IH. intros e He. apply Hb. right. exact He.
Qed.

Lemma ac_symbols_bits tbl coefs : forall r e,
  In e (ac_symbols tbl coefs r) -> exists c s, e = EmitBits c s.
Proof.
  induction coefs as [|c coefs IH]; intros r e; cbn [ac_symbols].
  - destruct (r >? 0); [|intros []].
    intros [<-|[]]. eexists; eexists; reflexivity.
  - destruct (c =? 0); [apply IH|].
    intro H. apply in_app_or in H. destruct H as [H|[<-|[<-|H]]].
    + apply repeat_spec in H. subst e. eexists; eexists; reflexivity.
    + eexists; eexists; reflexivity.
    + eexists; eexists; reflexivity.
    + exact (IH _ _ H).
Qed.

Lemma block_symbols_bits dctbl actbl block last_dc e :
  In e (block_symbols dctbl actbl block last_dc) ->
  exists c s, e = EmitBits c s.
Proof.
  unfold block_symbols, dc_symbols. cbv zeta. intro H.
  apply in_app_or in H. destruct H as [[<-|H]|H].
  - eexists; eexists; reflexivity.
  - destruct (_ =? 0); [destruct H|].
    destruct H as [<-|[]]. eexists; eexists; reflexivity.
  - exact (ac_symbols_bits _ _ _ _ H).
Qed.

Lemma ehufsi_range isDC t sym :
  derived isDC t -> 0 <= ehufsi_at (pair_ctbl t) sym <= 16.
Proof.
  intros (tblno & oldc & oldd & Lc & _ & _ & _ & Hc & _).
  destruct (Z.eq_dec (ehufsi_at (pair_ctbl t) sym) 0) as [E|N]; [lia|].
  assert (E' : ehufsi_at (pair_ctbl t) sym
               = ehufsi_at (pair_ctbl t) (Z.of_nat (Z.to_nat sym)))
    by (unfold ehufsi_at; rewrite Nat2Z.id; reflexivity).
  rewrite E' in *.
  assert (H0 : 0 <= Z.of_nat (Z.to_nat sym)) by lia.
  destruct (symbol_listed _ _ _ _ _ _ Lc Hc H0 N)
    as (d & i & Hd & _ & _ & _ & Es & _).
  rewrite Es. lia.
Qed.

Lemma ac_codes_sizes t coefs : forall r,
  derived false t ->
  Forall (fun c => Z.abs c < 2 ^ 10) coefs ->
  Forall (fun c => 0 <= snd c <= 16)
    (emitted_codes (ac_symbols (pair_ctbl t) coefs r)).
Proof.
  intros r Ht Hr. revert r.
  induction Hr as [|c coefs Hc Hr IH]; intro r; cbn [ac_symbols].
  - destruct (r >? 0); [|constructor].
    rewrite emitted_codes_symbol. constructor; [|constructor].
    apply (ehufsi_range false t _ Ht).
  - destruct (c =? 0); [apply IH|].
    rewrite emitted_codes_app. apply Forall_app. split.
    + induction (Z.to_nat (r / 16)) as [|k IHk]; cbn [repeat];
        [constructor|].
      rewrite emitted_codes_symbol. constructor; [|exact IHk].
      apply (ehufsi_range false t _ Ht).
    + rewrite emitted_codes_symbol, emitted_codes_bits.
      constructor; [apply (ehufsi_range false t _ Ht)|].
      constructor; [|apply IH]. cbn [snd].
      pose proof (nbits_of_bound c 10 ltac:(lia) Hc). lia.
Qed.

Lemma block_codes_sizes dct act block last_dc :
  derived true dct -> derived false act ->
  Z.abs (block_at block 0 - last_dc) < 2 ^ 11 ->
  Forall (fun c => Z.abs c < 2 ^ 10) (zigzag block) ->
  Forall (fun c => 0 <= snd c <= 16)
    (emitted_codes
       (block_symbols (pair_ctbl dct) (pair_ctbl act) block last_dc)).
Proof.
  intros Hdt Hat Hdiff Hac. unfold block_symbols.
  rewrite emitted_codes_app. apply Forall_app.
  split; [|apply ac_codes_sizes; assumption].
  unfold dc_symbols. cbv zeta. rewrite emitted_codes_symbol.
  constructor; [apply (ehufsi_range true dct _ Hdt)|].
  destruct (_ =? 0); [constructor|].
  rewrite emitted_codes_bits. constructor; [|constructor]. cbn [snd].
  pose proof (nbits_of_bound _ 11 ltac:(lia) Hdiff). lia.
Qed.

Lemma sizes_nonzero_codes es :
  (forall e, In e es -> exists c s, e = EmitBits c s) ->
  Forall (fun c => snd c <> 0) (emitted_codes es) -> sizes_nonzero es.
Proof.
  unfold sizes_nonzero. induction es as [|e es IH]; intros Hb H;
    [constructor|].
  destruct (Hb e (or_introl eq_refl)) as (c & s & ->).
  cbn [emitted_codes] in H.
  constructor; [exact (Forall_inv H)|].
  apply IH; [|exact (Forall_inv_tail H)].
  intros e He. apply Hb. right. exact He.
Qed.

(* One block of the range of 8-bit data, encoded. *)
Lemma encode_one_block_wrote st st' block last_dc dct act :
  ws_room st -> bit_buffer_ok (cur st) ->
  lim_Se (cinfo st) = 63 -> natural_order (cinfo st) = jpeg_natural_order ->
  derived true dct -> derived false act ->
  block_ok block -> - 2 ^ 10 <= last_dc < 2 ^ 10 ->
  encode_one_block st block last_dc (pair_ctbl dct) (pair_ctbl act)
    = Returned (Done st') ->
  wrote st st'
    (emitted_codes
       (block_symbols (pair_ctbl dct) (pair_ctbl act) block last_dc)) /\
  sizes_nonzero
    (block_symbols (pair_ctbl dct) (pair_ctbl act) block last_dc) /\
  last_dc_val (cur st') = last_dc_val (cur st).
Proof.
  intros R Ok HSe Hno Hdt Hat (Hlen & Hdc & Hac) Hlast Hrun.
  assert (Hdiff : Z.abs (block_at block 0 - last_dc) < 2 ^ 11).
  { change (2 ^ 10) with 1024 in *. change (2 ^ 11) with 2048. lia. }
  assert (Hz : zigzag block
               = map (fun j => block_at block
                                 (nth j (natural_order (cinfo st)) 0))
                   (seq 1 (Z.to_nat (lim_Se (cinfo st)))))
    by (rewrite HSe, Hno; reflexivity).
  rewrite encode_one_block_any_Se in Hrun.
  2: exact Hdiff.
  2:{ rewrite <- Hz. intros c Hin.
      exact (proj1 (Forall_forall _ _) Hac c Hin). }
  rewrite <- Hz in Hrun. fold (block_symbols (pair_ctbl dct) (pair_ctbl act)
                                 block last_dc) in Hrun.
  rewrite emit_all_as_codes in Hrun by (apply block_symbols_bits).
  destruct (emit_codes_wrote _ st st' R Ok
              (block_codes_sizes dct act block last_dc Hdt Hat Hdiff Hac)
              Hrun) as (W & Hnz & Dc).
  split; [exact W|]. split; [|exact Dc].
  apply sizes_nonzero_codes; [apply block_symbols_bits|exact Hnz].
Qed.

Lemma predictions_agree_self n le ld :
  predictions_agree n le ld -> predictions_agree n le le.
Proof.
  intros [_ H]. split; [reflexivity|].
  intros i Hi. split; [reflexivity|apply (H i Hi)].
Qed.

(* The blocks of an MCU from block blkn on, encoded. *)
Lemma encode_blocks_wrote sp ent tabs MCU_data :
  scans_agree sp ent tabs -> mcu_ok sp MCU_data ->
  lim_Se sp = 63 -> natural_order sp = jpeg_natural_order ->
  forall (n blkn : nat) st st',
    (blkn + n = Z.to_nat (blocks_in_MCU sp))%nat ->
    cinfo st = sp -> ws_room st -> bit_buffer_ok (cur st) ->
    predictions_agree (Z.to_nat (comps_in_scan sp)) (last_dc_val (cur st))
      (last_dc_val (cur st)) ->
    encode_blocks n blkn st ent MCU_data = Returned (Done st') ->
    wrote st st'
      (emitted_codes
         (mcu_symbols n blkn sp ent (last_dc_val (cur st)) MCU_data)) /\
    sizes_nonzero (mcu_symbols n blkn sp ent (last_dc_val (cur st)) MCU_data)
    /\ last_dc_val (cur st')
       = mcu_last_dc n blkn sp (last_dc_val (cur st)) MCU_data /\
    cinfo st' = sp.
Proof.
  intros Hag [Hlen Hblocks] HSe Hno.
  induction n as [|n IH]; intros blkn st st' Hn Hci R Ok Hpred Hrun.
  - cbn [encode_blocks] in Hrun. apply Returned_inj in Hrun.
    injection Hrun as <-. cbn [mcu_symbols mcu_last_dc emitted_codes].
    split; [apply wrote_refl; assumption|].
    split; [constructor|]. split; [reflexivity|exact Hci].
  - assert (Hb : (blkn < Z.to_nat (blocks_in_MCU sp))%nat) by lia.
    destruct (proj2 Hag blkn Hb)
      as (_ & Hmem & _ & (dct & Hdt & Edc & _) & (act & Hat & Eac & _)).
    cbn [encode_blocks mcu_symbols mcu_last_dc] in *. cbv zeta in Hrun.
    rewrite Hci in Hrun.
    fold (block_ci sp blkn) in Hrun.
    fold (block_dctbl sp ent blkn) in Hrun.
    fold (block_actbl sp ent blkn) in Hrun.
    set (block := nth blkn MCU_data []) in *.
    assert (Hok : block_ok block).
    { apply (proj1 (Forall_forall _ _) Hblocks). apply nth_In. lia. }
    assert (Hcin : (block_ci sp blkn < Z.to_nat (comps_in_scan sp))%nat)
      by (unfold block_ci; lia).
    destruct (proj2 Hpred _ Hcin) as [_ Hpr].
    rewrite <- Edc, <- Eac in *.
    destruct (encode_one_block st block
                (nth (block_ci sp blkn) (last_dc_val (cur st)) 0)
                (pair_ctbl dct) (pair_ctbl act)) as [[st1|?]| |] eqn:E1;
      try discriminate.
    cbn [and_then] in Hrun.
    destruct (encode_one_block_wrote st st1 block _ dct act R Ok
                ltac:(rewrite Hci; exact HSe) ltac:(rewrite Hci; exact Hno)
                Hdt Hat Hok Hpr E1) as (W1 & Hnz1 & Dc1).
    pose proof W1 as (D1 & G1 & _ & R1 & Ok1 & _).
    assert (Hci1 : cinfo st1 = sp).
    { destruct G1 as (_ & _ & _ & _ & C). congruence. }
    set (st1' := set_last_dc st1 (nth blkn (MCU_membership sp) 0)
                   (block_at block 0)) in *.
    assert (Edc1 : last_dc_val (cur st1')
                   = list_set (last_dc_val (cur st)) (block_ci sp blkn)
                       (block_at block 0)).
    { unfold st1', set_last_dc, block_ci.
      cbn [cur set_cur last_dc_val]. rewrite Dc1. reflexivity. }
    destruct (IH (S blkn) st1' st') as (W2 & Hnz2 & Dc2 & Hci2).
    + lia.
    + unfold st1', set_last_dc. destruct st1. exact Hci1.
    + apply ws_room_set_last_dc. exact R1.
    + unfold st1', set_last_dc. destruct st1 as [? ? ? [? ? ?] ?].
      exact Ok1.
    + rewrite Edc1. apply predictions_agree_set; [exact Hpred|].
      apply Hok.
    + exact Hrun.
    + rewrite Edc1 in W2, Hnz2, Dc2.
      split; [|split; [|split; [exact Dc2|exact Hci2]]].
      * rewrite emitted_codes_app. apply (wrote_trans st st1 st').
        -- apply block_codes_nonneg; assumption.
        -- apply (mcu_codes_nonneg sp ent tabs Hag). lia.
        -- exact W1.
        -- apply (wrote_from_set_last_dc st1 _ _ _ _ W2).
      * apply Forall_app. split; assumption.
Qed.

Lemma encode_blocks_ext ent ent' MCU_data :
  dc_derived_tbls ent = dc_derived_tbls ent' ->
  ac_derived_tbls ent = ac_derived_tbls ent' ->
  forall (n blkn : nat) st,
    encode_blocks n blkn st ent MCU_data
      = encode_blocks n blkn st ent' MCU_data.
Proof.
  intros Edc Eac. induction n as [|n IH]; intros blkn st; [reflexivity|].
  cbn [encode_blocks]. rewrite Edc, Eac.
  destruct (encode_one_block _ _ _ _ _) as [[st1|?]| |]; try reflexivity.
  cbn [and_then]. apply IH.
Qed.

Lemma mcu_start_back st sp :
  cinfo st = sp ->
  mk_working (out_mem st) (next_output_byte st) (free_in_buffer st) (cur st) sp
    = st.
Proof. intros <-. destruct st. reflexivity. Qed.

(* encode_mcu_huff when no restart marker is due. *)
Lemma encode_mcu_huff_wrote sp ent0 tabs c c' mcu :
  scans_agree sp ent0 tabs -> mcu_ok sp mcu ->
  lim_Se sp = 63 -> natural_order sp = jpeg_natural_order ->
  encoder_at sp ent0 c ->
  predictions_agree (Z.to_nat (comps_in_scan sp))
    (last_dc_val (saved (entropy c))) (last_dc_val (saved (entropy c))) ->
  restart_interval sp = 0 \/ restarts_to_go (entropy c) <> 0 ->
  encode_mcu_huff c mcu = Returned (true, c') ->
  wrote (mcu_start c) (mcu_start c')
    (emitted_codes
       (mcu_symbols (Z.to_nat (blocks_in_MCU sp)) 0 sp ent0
          (last_dc_val (saved (entropy c))) mcu)) /\
  sizes_nonzero
    (mcu_symbols (Z.to_nat (blocks_in_MCU sp)) 0 sp ent0
       (last_dc_val (saved (entropy c))) mcu) /\
  last_dc_val (saved (entropy c'))
    = mcu_last_dc (Z.to_nat (blocks_in_MCU sp)) 0 sp
        (last_dc_val (saved (entropy c))) mcu /\
  encoder_at sp ent0 c' /\
  next_restart_num (entropy c') = next_restart_num (entropy c) /\
  restarts_to_go (entropy c')
    = (if restart_interval sp =? 0 then restarts_to_go (entropy c)
       else to_JUINT (restarts_to_go (entropy c) - 1)).
Proof.
  intros Hag Hok HSe Hno (Hsc & Tdc & Tac & R & Ok & Hnum) Hpred Hdue Hrun.
  unfold encode_mcu_huff in Hrun. fold (mcu_start c) in Hrun.
  rewrite Hsc in Hrun.
  assert (Ec : (negb (restart_interval sp =? 0)
                && (restarts_to_go (entropy c) =? 0)) = false).
  { destruct Hdue as [E|N].
    - rewrite E. reflexivity.
    - apply Z.eqb_neq in N. rewrite N. apply andb_false_r. }
  rewrite Ec in Hrun. cbn [and_then] in Hrun.
  rewrite (encode_blocks_ext (entropy c) ent0 mcu Tdc Tac) in Hrun.
  destruct (encode_blocks _ _ _ _ _) as [[st|?]| |] eqn:Eb; try discriminate.
  destruct (encode_blocks_wrote sp ent0 tabs mcu Hag Hok HSe Hno
              (Z.to_nat (blocks_in_MCU sp)) 0 (mcu_start c) st)
    as (W & Hnz & Dc & Hci); try assumption.
  { lia. }
  pose proof W as (D & G & _ & R' & Ok' & _).
  assert (Eu : update_restart_state c
               = (if restart_interval sp =? 0 then restarts_to_go (entropy c)
                  else to_JUINT (restarts_to_go (entropy c) - 1),
                  next_restart_num (entropy c))).
  { unfold update_restart_state. rewrite Hsc.
    destruct (restart_interval sp =? 0) eqn:E0; [reflexivity|].
    cbn [negb]. destruct Hdue as [E|N]; [lia|].
    apply Z.eqb_neq in N. rewrite N. reflexivity. }
  rewrite Eu in Hrun. apply Returned_inj in Hrun. injection Hrun as <-.
  cbn [entropy saved scan dest restarts_to_go next_restart_num
       dc_derived_tbls ac_derived_tbls].
  unfold mcu_start at 2.
  cbn [entropy saved scan dest jpeglib.out_mem jpeglib.next_output_byte
       jpeglib.free_in_buffer].
  rewrite (mcu_start_back st sp Hci).
  split; [exact W|]. split; [exact Hnz|]. split; [exact Dc|].
  split; [|split; reflexivity].
  unfold encoder_at.
  cbn [entropy saved scan dest restarts_to_go next_restart_num
       dc_derived_tbls ac_derived_tbls].
  split; [reflexivity|]. split; [exact Tdc|]. split; [exact Tac|].
  split; [exact R'|]. split; [exact Ok'|exact Hnum].
Qed.

Lemma mcu_predictions sp ent tabs mcu :
  scans_agree sp ent tabs -> mcu_ok sp mcu ->
  forall (n blkn : nat) le ld,
    (blkn + n = Z.to_nat (blocks_in_MCU sp))%nat ->
    predictions_agree (Z.to_nat (comps_in_scan sp)) le ld ->
    predictions_agree (Z.to_nat (comps_in_scan sp))
      (mcu_last_dc n blkn sp le mcu) (mcu_last_dc n blkn sp ld mcu).
Proof.
  intros Hag [Hlen Hblocks].
  induction n as [|n IH]; intros blkn le ld Hn Hpred; [exact Hpred|].
  cbn [mcu_last_dc]. apply IH; [lia|].
  apply predictions_agree_set; [exact Hpred|].
  assert (Hok : block_ok (nth blkn mcu [])).
  { apply (proj1 (Forall_forall _ _) Hblocks). apply nth_In. lia. }
  apply Hok.
Qed.

(* A run of MCUs with no restart marker due between them. *)
Lemma encode_run_wrote sp ent0 tabs :
  scans_agree sp ent0 tabs ->
  lim_Se sp = 63 -> natural_order sp = jpeg_natural_order ->
  forall mcus c c',
    Forall (mcu_ok sp) mcus ->
    encoder_at sp ent0 c ->
    predictions_agree (Z.to_nat (comps_in_scan sp))
      (last_dc_val (saved (entropy c))) (last_dc_val (saved (entropy c))) ->
    restart_interval sp = 0 \/
      Z.of_nat (length mcus) <= restarts_to_go (entropy c) < 2 ^ 32 ->
    encode_mcus c mcus = Returned (true, c') ->
    wrote (mcu_start c) (mcu_start c')
      (emitted_codes
         (run_symbols sp ent0 (last_dc_val (saved (entropy c))) mcus)) /\
    sizes_nonzero
      (run_symbols sp ent0 (last_dc_val (saved (entropy c))) mcus) /\
    last_dc_val (saved (entropy c'))
      = run_last_dc sp (last_dc_val (saved (entropy c))) mcus /\
    predictions_agree (Z.to_nat (comps_in_scan sp))
      (last_dc_val (saved (entropy c'))) (last_dc_val (saved (entropy c'))) /\
    encoder_at sp ent0 c' /\
    next_restart_num (entropy c') = next_restart_num (entropy c) /\
    restarts_to_go (entropy c')
      = (if restart_interval sp =? 0 then restarts_to_go (entropy c)
         else restarts_to_go (entropy c) - Z.of_nat (length mcus)).
Proof.
  intros Hag HSe Hno.
  induction mcus as [|mcu mcus IH]; intros c c' Hok Hc Hpred Hdue Hrun.
  - cbn [encode_mcus] in Hrun. apply Returned_inj in Hrun.
    injection Hrun as <-.
    cbn [run_symbols run_last_dc emitted_codes length].
    split; [apply wrote_refl; apply Hc|]. split; [constructor|].
    split; [reflexivity|]. split; [exact Hpred|]. split; [exact Hc|].
    split; [reflexivity|]. destruct (_ =? 0); lia.
  - cbn [encode_mcus] in Hrun.
    destruct (encode_mcu_huff c mcu) as [[[|] c1]| |] eqn:E1;
      try discriminate.
    pose proof (Forall_inv Hok) as Hok1.
    pose proof (Forall_inv_tail Hok) as Hok2.
    assert (Hdue1 : restart_interval sp = 0 \/ restarts_to_go (entropy c) <> 0).
    { destruct Hdue as [E|N]; [left; exact E|right].
      cbn [length] in N. lia. }
    destruct (encode_mcu_huff_wrote sp ent0 tabs c c1 mcu Hag Hok1 HSe Hno
                Hc Hpred Hdue1 E1)
      as (W1 & Hnz1 & Dc1 & Hc1 & Hn1 & Ht1).
    assert (Hpred1 : predictions_agree (Z.to_nat (comps_in_scan sp))
                       (last_dc_val (saved (entropy c1)))
                       (last_dc_val (saved (entropy c1)))).
    { rewrite Dc1.
      apply (mcu_predictions sp ent0 tabs mcu Hag Hok1); [lia|exact Hpred]. }
    assert (Hdue2 : restart_interval sp = 0 \/
                    Z.of_nat (length mcus) <= restarts_to_go (entropy c1)
                      < 2 ^ 32).
    { rewrite Ht1. destruct Hdue as [E|N]; [left; exact E|].
      destruct (restart_interval sp =? 0) eqn:E0; [left; lia|right].
      cbn [length] in N. unfold to_JUINT. rewrite wrap_u_small by lia. lia. }
    destruct (IH c1 c' Hok2 Hc1 Hpred1 Hdue2 Hrun)
      as (W2 & Hnz2 & Dc2 & Hpred2 & Hc2 & Hn2 & Ht2).
    rewrite Dc1 in W2, Hnz2, Dc2.
    cbn [run_symbols run_last_dc]. cbv zeta.
    split; [|split; [apply Forall_app; split; assumption|]].
    { rewrite emitted_codes_app. apply (wrote_trans _ (mcu_start c1)).
      - apply (mcu_codes_nonneg sp ent0 tabs Hag). lia.
      - apply (run_codes_nonneg sp ent0 tabs Hag).
      - exact W1.
      - exact W2. }
    split; [exact Dc2|]. split; [exact Hpred2|]. split; [exact Hc2|].
    split; [congruence|].
    rewrite Ht2, Ht1.
    destruct (restart_interval sp =? 0) eqn:E0; [reflexivity|].
    destruct Hdue as [E|N]; [lia|]. cbn [length] in N |- *.
    unfold to_JUINT. rewrite wrap_u_small by lia. lia.
Qed.

End scan_encoder_properties.
(** ** A scan written by the encoder and fetched by the decoder *)

Section scan_roundtrip_properties.
Import jchuff props block_spec bitstream_spec roundtrip_spec scan_spec.

(* An MCU that opens with a restart marker is encoded as the marker,
   and then the MCU as if no restart were due. *)
Lemma encode_mcu_huff_restart sp ent0 c c' mcu :
  encoder_at sp ent0 c ->
  restart_interval sp <> 0 -> restarts_to_go (entropy c) = 0 ->
  encode_mcu_huff c mcu = Returned (true, c') ->
  exists st,
    emit_restart_s (mcu_start c) (next_restart_num (entropy c))
      = Returned (Done st) /\
    encode_mcu_huff (after_restart c st) mcu = Returned (true, c').
Proof.
  intros (Hsc & Tdc & Tac & R & Ok & Hnum) HR Ht Hrun.
  pose proof (proj2 (Z.eqb_neq _ 0) HR) as ER.
  unfold encode_mcu_huff in Hrun. fold (mcu_start c) in Hrun.
  rewrite Hsc, Ht, ER in Hrun. change (0 =? 0) with true in Hrun.
  cbn [negb andb] in Hrun.
  destruct (emit_restart_s (mcu_start c) (next_restart_num (entropy c)))
    as [[st|?]| |] eqn:Er; try discriminate.
  exists st. split; [reflexivity|].
  destruct (emit_restart_s_exact (mcu_start c) _ st Hnum R Ok Er)
    as (D & G & _).
  assert (Hci : cinfo st = sp).
  { destruct G as (_ & _ & _ & _ & C). rewrite C. exact Hsc. }
  cbn [and_then] in Hrun.
  unfold encode_mcu_huff, after_restart.
  cbn [entropy saved scan dest restarts_to_go next_restart_num
       dc_derived_tbls ac_derived_tbls jpeglib.out_mem
       jpeglib.next_output_byte jpeglib.free_in_buffer].
  rewrite Hsc, ER. cbn [negb andb and_then].
  rewrite (mcu_start_back st sp Hci).
  erewrite encode_blocks_ext with (ent' := entropy c);
    [|reflexivity|reflexivity].
  destruct (encode_blocks _ _ _ _ _) as [[st1|?]| |]; try discriminate.
  assert (Eu : update_restart_state c
               = (to_JUINT (restart_interval sp - 1),
                  Z.land (to_JINT (next_restart_num (entropy c) + 1)) 7)).
  { unfold update_restart_state. rewrite Hsc, ER, Ht. reflexivity. }
  rewrite Eu in Hrun. rewrite <- Hrun.
  unfold update_restart_state.
  cbn [entropy saved scan dest restarts_to_go next_restart_num
       dc_derived_tbls ac_derived_tbls].
  rewrite ER. cbn [negb]. reflexivity.
Qed.

(* On the decoder's side the same. *)
Lemma decode_mcu_restart tabs d d' buf :
  jdhuff_mcu.restart_interval d <> 0 ->
  jdhuff_mcu.restarts_to_go (jdhuff_mcu.entropy d) = 0 ->
  jdhuff_mcu.process_restart d = Returned (true, d') ->
  jdhuff_mcu.restarts_to_go (jdhuff_mcu.entropy d') <> 0 ->
  jdhuff_decode.decode_mcu tabs d buf = jdhuff_decode.decode_mcu tabs d' buf.
Proof.
  intros HR Ht Hp Ht'. unfold jdhuff_decode.decode_mcu.
  rewrite (proj2 (Z.eqb_neq _ 0) HR), Ht, Hp.
  rewrite (proj2 (Z.eqb_neq _ 0) Ht'), andb_false_r. reflexivity.
Qed.

Lemma reset_last_dc_length n : forall ci dc,
  length (reset_last_dc n ci dc) = length dc.
Proof.
  induction n as [|n IH]; intros ci dc; cbn [reset_last_dc]; [reflexivity|].
  rewrite IH. apply list_set_length.
Qed.

Lemma predictions_agree_reset n le ld :
  length le = length ld ->
  predictions_agree n (reset_last_dc n 0 le) (reset_last_dc n 0 ld).
Proof.
  intro Hlen. split; [rewrite !reset_last_dc_length; exact Hlen|].
  intros i Hi. rewrite !reset_last_dc_nth.
  replace (Nat.leb 0 i && Nat.ltb i (0 + n))%bool with true.
  - split; [reflexivity|]. change (2 ^ 10) with 1024. lia.
  - symmetry. apply andb_true_iff. split; [reflexivity|].
    apply Nat.ltb_lt. lia.
Qed.

(* The restart marker that the encoder wrote, taken by
   process_restart. *)
Lemma process_restart_reads d n rest1 pad tail :
  0 <= n <= 7 ->
  jdmarker.next_restart_num (jdhuff_mcu.reader d) = n ->
  jdmarker.discarded_bytes (jdhuff_mcu.reader d) = 0 ->
  0 <= pad < 8 ->
  reads (0xD0 + n) rest1 (load_state d)
    (jdhuff_mcu.get_buffer (jdhuff_mcu.entropy d))
    (jdhuff_mcu.bits_left (jdhuff_mcu.entropy d)) [] pad tail ->
  exists d',
    jdhuff_mcu.process_restart d = Returned (true, d') /\
    decoder_at (jdhuff_mcu.restart_interval d) (jdhuff_mcu.comps_in_scan d)
      ((n + 1) mod 8) rest1 d' /\
    jdmarker.warnings (jdhuff_mcu.reader d')
      = jdmarker.warnings (jdhuff_mcu.reader d) /\
    jdhuff_mcu.last_dc_val (jdhuff_mcu.entropy d')
      = reset_last_dc (Z.to_nat (jdhuff_mcu.comps_in_scan d)) 0
          (jdhuff_mcu.last_dc_val (jdhuff_mcu.entropy d)).
Proof.
  destruct d as [[inp um db nrn ins ws] cs ri [gb bl dc togo]].
  unfold load_state.
  cbn [jdhuff_mcu.reader jdhuff_mcu.entropy jdmarker.next_restart_num
       jdmarker.discarded_bytes jdmarker.next_input_byte
       jdhuff_mcu.get_buffer jdhuff_mcu.bits_left jdhuff_mcu.last_dc_val
       jdhuff_mcu.restart_interval jdhuff_mcu.comps_in_scan
       jdmarker.warnings].
  intros Hn -> -> Hpad (D & V & _ & Hbl & Hlen & _).
  cbn [codes_length] in Hlen. unfold unread_length in Hlen.
  assert (ED : D = []) by (destruct D; [reflexivity|cbn [length] in Hlen; lia]).
  subst D. cbn [length] in Hlen.
  assert (Hin : (um = 0 /\ inp = 0xFF :: (0xD0 + n) :: rest1) \/
                (um = 0xD0 + n /\ inp = rest1)).
  { unfold segment_view in V.
    cbn [jdhuff.cinfo jdhuff.next_input_byte jdmarker.unread_marker stuff app]
      in V.
    destruct V as [[A B]|[A [_ B]]]; [left|right]; split; assumption. }
  assert (Eq : cdiv bl 8 = 0) by (unfold cdiv; apply Z.quot_small; lia).
  unfold jdhuff_mcu.process_restart, jdhuff_mcu.finish_pass_huff.
  cbn [jdhuff_mcu.reader jdhuff_mcu.entropy jdhuff_mcu.comps_in_scan
       jdhuff_mcu.restart_interval jdhuff_mcu.bits_left
       jdhuff_mcu.get_buffer jdhuff_mcu.last_dc_val
       jdhuff_mcu.restarts_to_go jdmarker.discarded_bytes].
  rewrite Eq. change (to_JUINT (0 + 0)) with 0.
  unfold jdhuff_mcu.set_discarded_bytes.
  cbn [jdmarker.next_input_byte jdmarker.unread_marker
       jdmarker.next_restart_num jdmarker.insufficient_data
       jdmarker.warnings jdmarker.discarded_bytes].
  rewrite (read_restart_marker_expected inp um n ins ws rest1 Hn Hin).
  cbn [bind_outcome negb jdmarker.unread_marker].
  change (0 =? 0) with true. cbv iota.
  eexists. split; [reflexivity|].
  unfold decoder_at.
  cbn [jdhuff_mcu.reader jdhuff_mcu.entropy jdhuff_mcu.set_insufficient_data
       jdmarker.next_input_byte jdmarker.unread_marker
       jdmarker.next_restart_num jdmarker.insufficient_data
       jdmarker.warnings jdmarker.discarded_bytes jdhuff_mcu.bits_left
       jdhuff_mcu.restarts_to_go jdhuff_mcu.last_dc_val
       jdhuff_mcu.comps_in_scan jdhuff_mcu.restart_interval].
  repeat split.
Qed.

(* The data of an interval, from an empty bit buffer to the flush that
   closes it, as the decoder meets it. *)
Lemma segment_reads st_a st_b cs D2 :
  wrote st_a st_b cs -> put_bits (cur st_a) = 0 ->
  bit_buffer_ok (cur st_a) ->
  Forall (fun c => 0 <= snd c) cs ->
  Forall is_byte D2 ->
  8 * Z.of_nat (length D2)
    = put_bits (cur st_b) + pad_bits (put_bits (cur st_b)) ->
  bytes_value D2
    = pending (cur st_b) * 2 ^ pad_bits (put_bits (cur st_b))
      + (2 ^ pad_bits (put_bits (cur st_b)) - 1) ->
  exists D1,
    grows st_a st_b (stuff D1) /\
    forall state gb m rest,
      jdmarker.unread_marker (jdhuff.cinfo state) = 0 ->
      jdhuff.next_input_byte state = stuff (D1 ++ D2) ++ 0xFF :: m :: rest ->
      m <> 0 -> m <> 0xFF ->
      reads m rest state gb 0 cs (pad_bits (put_bits (cur st_b)))
        (2 ^ pad_bits (put_bits (cur st_b)) - 1).
Proof.
  intros (D1 & G & F1 & R & Ok & L & V) P0 Ok0 Hcs F2 L2 V2.
  exists D1. split; [exact G|].
  intros state gb m rest Hu Hin Hm0 Hm1.
  pose proof (pending_range _ Ok0) as V0. rewrite P0 in *.
  change (2 ^ 0) with 1 in V0.
  set (P1 := put_bits (cur st_b)) in *.
  assert (HP1 : 0 <= P1 < 8) by apply Ok.
  assert (Hpad : 0 <= pad_bits P1 < 8)
    by (unfold pad_bits; apply Z.mod_pos_bound; lia).
  exists (D1 ++ D2).
  split; [left; split; assumption|].
  split; [apply Forall_app; split; assumption|].
  split; [lia|].
  split.
  - unfold unread_length. rewrite length_app, Nat2Z.inj_add. lia.
  - unfold unread_bits. rewrite Z.pow_0_r, Z.mod_1_r, Z.mul_0_l, Z.add_0_l.
    rewrite bytes_value_app, V2, pow256 by lia.
    replace (8 * Z.of_nat (length D2)) with (P1 + pad_bits P1) by lia.
    rewrite pow2_split by lia.
    replace (codes_value cs)
      with (bytes_value D1 * 2 ^ P1 + pending (cur st_b)) by lia.
    ring.
Qed.

Lemma decode_mcus_app tabs : forall (a b : nat) d d1 d2 l1 l2,
  decode_mcus a tabs d = Returned (McusDone d1 l1) ->
  decode_mcus b tabs d1 = Returned (McusDone d2 l2) ->
  decode_mcus (a + b) tabs d = Returned (McusDone d2 (l1 ++ l2)).
Proof.
  induction a as [|a IH]; intros b d d1 d2 l1 l2 Ha Hb.
  - cbn [decode_mcus] in Ha. apply Returned_inj in Ha.
    injection Ha as <- <-. exact Hb.
  - cbn [Nat.add decode_mcus] in *.
    destruct (jdhuff_decode.decode_mcu tabs d _) as [[dd mcu| |]| |];
      try discriminate.
    cbn [bind_outcome] in *.
    destruct (decode_mcus a tabs dd) as [[da la| |]| |] eqn:Ea;
      try discriminate.
    cbn [bind_outcome] in Ha. apply Returned_inj in Ha.
    injection Ha as <- <-.
    rewrite (IH b dd da d2 la l2 Ea Hb). reflexivity.
Qed.

Lemma finish_pass_huff_flushes c c2 :
  finish_pass_huff c = Returned c2 ->
  exists st2,
    flush_bits_s (mcu_start c) = Returned (Done st2) /\
    dest_written (dest c2) = ws_written st2.
Proof.
  unfold finish_pass_huff. fold (mcu_start c). intro H.
  destruct (flush_bits_s (mcu_start c)) as [[st2|?]| |]; try discriminate.
  apply Returned_inj in H. subst c2. exists st2. split; reflexivity.
Qed.

(* The last interval of a scan: a run of MCUs, then the flush of
   finish_pass_huff. *)
Lemma last_interval sp ent0 tabs m rest :
  scans_agree sp ent0 tabs ->
  lim_Se sp = 63 -> natural_order sp = jpeg_natural_order ->
  m <> 0 -> m <> 0xFF ->
  forall mcus c c1 c2,
    Forall (mcu_ok sp) mcus ->
    encoder_at sp ent0 c -> put_bits (saved (entropy c)) = 0 ->
    predictions_agree (Z.to_nat (comps_in_scan sp))
      (last_dc_val (saved (entropy c))) (last_dc_val (saved (entropy c))) ->
    restarts_to_go (entropy c) = restart_interval sp ->
    restart_interval sp = 0 \/
      Z.of_nat (length mcus) <= restart_interval sp < 2 ^ 32 ->
    encode_mcus c mcus = Returned (true, c1) ->
    finish_pass_huff c1 = Returned c2 ->
    exists B,
      dest_written (dest c2) = dest_written (dest c) ++ B /\
      forall d,
        decoder_at (restart_interval sp) (comps_in_scan sp)
          (next_restart_num (entropy c)) (B ++ 0xFF :: m :: rest) d ->
        predictions_agree (Z.to_nat (comps_in_scan sp))
          (last_dc_val (saved (entropy c)))
          (jdhuff_mcu.last_dc_val (jdhuff_mcu.entropy d)) ->
        exists d' pad,
          decode_mcus (length mcus) tabs d = Returned (McusDone d' mcus) /\
          0 <= pad < 8 /\
          reads m rest (load_state d')
            (jdhuff_mcu.get_buffer (jdhuff_mcu.entropy d'))
            (jdhuff_mcu.bits_left (jdhuff_mcu.entropy d')) [] pad
            (2 ^ pad - 1) /\
          jdmarker.warnings (jdhuff_mcu.reader d')
            = jdmarker.warnings (jdhuff_mcu.reader d) /\
          jdmarker.insufficient_data (jdhuff_mcu.reader d') = false.
Proof.
  intros Hag HSe Hno Hm0 Hm1 mcus c c1 c2 Hok Hc P0 Hpred Ht Hdue Hrun Hfin.
  assert (Hdue' : restart_interval sp = 0 \/
                  Z.of_nat (length mcus) <= restarts_to_go (entropy c)
                    < 2 ^ 32) by (rewrite Ht; exact Hdue).
  destruct (encode_run_wrote sp ent0 tabs Hag HSe Hno mcus c c1 Hok Hc Hpred
              Hdue' Hrun) as (W & Hnz & _ & _ & Hc1 & _ & _).
  destruct (finish_pass_huff_flushes c1 c2 Hfin) as (st2 & Hflush & Ew).
  destruct Hc1 as (_ & _ & _ & R1 & Ok1 & _).
  destruct (flush_bits_s_exact (mcu_start c1) st2 R1 Ok1 Hflush)
    as (D2 & G2 & F2 & _ & _ & _ & _ & L2 & V2).
  pose proof (run_codes_nonneg sp ent0 tabs Hag mcus
                (last_dc_val (saved (entropy c)))) as Hcs.
  destruct Hc as (_ & _ & _ & _ & Ok0 & _).
  destruct (segment_reads (mcu_start c) (mcu_start c1) _ D2 W P0 Ok0 Hcs F2 L2
              V2) as (D1 & G1 & Hreads).
  set (P1 := put_bits (cur (mcu_start c1))) in *.
  assert (Hpad : 0 <= pad_bits P1 < 8)
    by (unfold pad_bits; apply Z.mod_pos_bound; lia).
  exists (stuff (D1 ++ D2)). split.
  { rewrite Ew. destruct G2 as (E2 & _). destruct G1 as (E1 & _).
    rewrite E2, E1, stuff_app, app_assoc. reflexivity. }
  intros d (ER & EC & Hin & Hu & Hdb & Hnum & Hins & Hbl & Htg) Hpd.
  assert (Hcl : closes m (pad_bits P1) (2 ^ pad_bits P1 - 1)).
  { unfold closes. pose proof (pow2_pos (pad_bits P1) ltac:(lia)). lia. }
  assert (Hrd : reads m rest (load_state d)
                  (jdhuff_mcu.get_buffer (jdhuff_mcu.entropy d))
                  (jdhuff_mcu.bits_left (jdhuff_mcu.entropy d))
                  (emitted_codes
                     (run_symbols sp ent0 (last_dc_val (saved (entropy c)))
                        mcus) ++ [])
                  (pad_bits P1) (2 ^ pad_bits P1 - 1)).
  { rewrite app_nil_r, Hbl. apply Hreads; assumption. }
  assert (Hdd : jdhuff_mcu.restart_interval d = 0 \/
                Z.of_nat (length mcus)
                  <= jdhuff_mcu.restarts_to_go (jdhuff_mcu.entropy d)
                  < 2 ^ 32) by (rewrite ER, Htg; exact Hdue).
  destruct (run_decode m rest _ _ sp ent0 tabs Hcl Hag mcus _ d [] Hok Hdd
              Hins Hpd Hnz (Forall_nil _) Hrd)
    as (d' & Hdec & Hrd' & Rs & _).
  exists d', (pad_bits P1).
  split; [exact Hdec|]. split; [exact Hpad|]. split; [exact Hrd'|].
  destruct Rs as (Ew' & Ei' & _). split; [exact Ew'|].
  rewrite Ei'. exact Hins.
Qed.

(* A scan from the start of an interval on: the intervals one after
   the other, each but the last closed by its restart marker. *)
Lemma scan_run sp ent0 tabs m rest :
  scans_agree sp ent0 tabs ->
  lim_Se sp = 63 -> natural_order sp = jpeg_natural_order ->
  0 <= restart_interval sp < 2 ^ 32 ->
  m <> 0 -> m <> 0xFF ->
  forall (k : nat) mcus c c1 c2,
    (length mcus <= k)%nat ->
    Forall (mcu_ok sp) mcus ->
    encoder_at sp ent0 c -> put_bits (saved (entropy c)) = 0 ->
    predictions_agree (Z.to_nat (comps_in_scan sp))
      (last_dc_val (saved (entropy c))) (last_dc_val (saved (entropy c))) ->
    restarts_to_go (entropy c) = restart_interval sp ->
    encode_mcus c mcus = Returned (true, c1) ->
    finish_pass_huff c1 = Returned c2 ->
    exists B,
      dest_written (dest c2) = dest_written (dest c) ++ B /\
      forall d,
        decoder_at (restart_interval sp) (comps_in_scan sp)
          (next_restart_num (entropy c)) (B ++ 0xFF :: m :: rest) d ->
        predictions_agree (Z.to_nat (comps_in_scan sp))
          (last_dc_val (saved (entropy c)))
          (jdhuff_mcu.last_dc_val (jdhuff_mcu.entropy d)) ->
        exists d' pad,
          decode_mcus (length mcus) tabs d = Returned (McusDone d' mcus) /\
          0 <= pad < 8 /\
          reads m rest (load_state d')
            (jdhuff_mcu.get_buffer (jdhuff_mcu.entropy d'))
            (jdhuff_mcu.bits_left (jdhuff_mcu.entropy d')) [] pad
            (2 ^ pad - 1) /\
          jdmarker.warnings (jdhuff_mcu.reader d')
            = jdmarker.warnings (jdhuff_mcu.reader d) /\
          jdmarker.insufficient_data (jdhuff_mcu.reader d') = false.
Proof.
  intros Hag HSe Hno HR Hm0 Hm1.
  induction k as [|k IH];
    intros mcus c c1 c2 Hk Hok Hc P0 Hpred Ht Hrun Hfin.
  { apply (last_interval sp ent0 tabs m rest Hag HSe Hno Hm0 Hm1 mcus c c1 c2);
      try assumption.
    right. lia. }
  destruct (Z.eq_dec (restart_interval sp) 0) as [E0|N0].
  { apply (last_interval sp ent0 tabs m rest Hag HSe Hno Hm0 Hm1 mcus c c1 c2);
      try assumption.
    left. exact E0. }
  destruct (Z_le_gt_dec (Z.of_nat (length mcus)) (restart_interval sp))
    as [Short|Long].
  { apply (last_interval sp ent0 tabs m rest Hag HSe Hno Hm0 Hm1 mcus c c1 c2);
      try assumption.
    right. lia. }
  (* an interval of restart_interval MCUs, a restart marker, the rest *)
  set (n := Z.to_nat (restart_interval sp)) in *.
  pose proof (firstn_skipn n mcus) as Emcus.
  assert (Hlseg : length (firstn n mcus) = n)
    by (apply firstn_length_le; lia).
  assert (Hlmore : length (skipn n mcus) = (length mcus - n)%nat)
    by apply length_skipn.
  destruct (skipn n mcus) as [|mcu more] eqn:Esk;
    [cbn [length] in Hlmore; lia|].
  clear Esk. set (seg := firstn n mcus) in *. clearbody seg. subst mcus.
  rewrite length_app in Hk, Long. cbn [length] in Hk, Hlmore.
  apply Forall_app in Hok. destruct Hok as [Hokseg Hokmore].
  rewrite encode_mcus_app in Hrun.
  destruct (encode_mcus c seg) as [[[|] ck]| |] eqn:Eseg; try discriminate.
  cbn [encode_mcus] in Hrun.
  destruct (encode_mcu_huff ck mcu) as [[[|] ck1]| |] eqn:Emcu;
    try discriminate.
  assert (Hdue : restart_interval sp = 0 \/
                 Z.of_nat (length seg) <= restarts_to_go (entropy c) < 2 ^ 32)
    by (right; rewrite Ht; lia).
  destruct (encode_run_wrote sp ent0 tabs Hag HSe Hno seg c ck Hokseg Hc Hpred
              Hdue Eseg) as (W & Hnz & Dc & Hpredk & Hck & Hnumk & Htk).
  rewrite (proj2 (Z.eqb_neq _ 0) N0) in Htk.
  assert (Htk0 : restarts_to_go (entropy ck) = 0) by lia.
  destruct (encode_mcu_huff_restart sp ent0 ck ck1 mcu Hck N0 Htk0 Emcu)
    as (st_r & Er & Emcu').
  pose proof Hck as (Hsck & Tdc & Tac & Rk & Okk & Hnk).
  destruct (emit_restart_s_exact (mcu_start ck) _ st_r Hnk Rk Okk Er)
    as (D2 & G2 & F2 & Rr & Pb & Pv & Dcr & L2 & V2).
  pose proof (run_codes_nonneg sp ent0 tabs Hag seg
                (last_dc_val (saved (entropy c)))) as Hcs.
  pose proof Hc as (_ & _ & _ & _ & Ok0 & _).
  destruct (segment_reads (mcu_start c) (mcu_start ck) _ D2 W P0 Ok0 Hcs F2 L2
              V2) as (D1 & G1 & Hreads).
  set (P1 := put_bits (cur (mcu_start ck))) in *.
  assert (Hpad : 0 <= pad_bits P1 < 8)
    by (unfold pad_bits; apply Z.mod_pos_bound; lia).
  set (num := next_restart_num (entropy c)) in *.
  assert (Hnum07 : 0 <= num <= 7) by (rewrite <- Hnumk; exact Hnk).
  assert (Enum : Z.land (to_JINT (next_restart_num (entropy ck) + 1)) 7
                 = (num + 1) mod 8).
  { rewrite Hnumk.
    rewrite to_JINT_small by (change (2 ^ 31) with 2147483648; lia).
    apply land_7_mod. }
  (* the encoder behind the restart marker *)
  set (cr := after_restart ck st_r).
  assert (Hcr : encoder_at sp ent0 cr).
  { unfold encoder_at, cr, after_restart.
    cbn [entropy saved scan dest restarts_to_go next_restart_num
         dc_derived_tbls ac_derived_tbls].
    split; [exact Hsck|]. split; [exact Tdc|]. split; [exact Tac|].
    split; [exact Rr|].
    split; [|apply land_7_range].
    unfold bit_buffer_ok. rewrite Pb, Pv. split; [lia|reflexivity]. }
  assert (P0r : put_bits (saved (entropy cr)) = 0) by exact Pb.
  assert (Edr : last_dc_val (saved (entropy cr))
                = reset_last_dc (Z.to_nat (comps_in_scan sp)) 0
                    (last_dc_val (saved (entropy ck)))).
  { unfold cr, after_restart. cbn [entropy saved]. rewrite Dcr.
    unfold mcu_start. cbn [cinfo cur]. rewrite Hsck. reflexivity. }
  assert (Hpredr : predictions_agree (Z.to_nat (comps_in_scan sp))
                     (last_dc_val (saved (entropy cr)))
                     (last_dc_val (saved (entropy cr)))).
  { rewrite Edr. apply predictions_agree_reset. reflexivity. }
  assert (Htr : restarts_to_go (entropy cr) = restart_interval sp).
  { unfold cr, after_restart. cbn [entropy restarts_to_go]. rewrite Hsck.
    reflexivity. }
  assert (Hrunr : encode_mcus cr (mcu :: more) = Returned (true, c1)).
  { cbn [encode_mcus]. unfold cr. rewrite Emcu'. exact Hrun. }
  assert (Hkr : (length (mcu :: more) <= k)%nat) by (cbn [length]; lia).
  destruct (IH (mcu :: more) cr c1 c2 Hkr Hokmore Hcr P0r Hpredr Htr Hrunr
              Hfin) as (Brest & Ewr & Hdecr).
  exists (stuff (D1 ++ D2) ++ [0xFF; 0xD0 + num] ++ Brest). split.
  { rewrite Ewr. unfold cr, after_restart. cbn [dest].
    change (dest_written
              (jpeglib.mk_dest (out_mem st_r) (next_output_byte st_r)
                 (free_in_buffer st_r))) with (ws_written st_r).
    destruct G2 as (E2 & _). destruct G1 as (E1 & _).
    rewrite E2, E1, Hnumk.
    change (ws_written (mcu_start c)) with (dest_written (dest c)).
    rewrite stuff_app, <- !app_assoc. reflexivity. }
  intros d (ER & EC & Hin & Hu & Hdb & Hdnum & Hins & Hbl & Htg) Hpd.
  set (rest1 := Brest ++ 0xFF :: m :: rest) in *.
  assert (Hin' : jdhuff.next_input_byte (load_state d)
                 = stuff (D1 ++ D2) ++ 0xFF :: (0xD0 + num) :: rest1).
  { unfold load_state. cbn [jdhuff.next_input_byte]. rewrite Hin.
    unfold rest1. rewrite <- !app_assoc. reflexivity. }
  assert (Hmn0 : 0xD0 + num <> 0) by lia.
  assert (Hmn1 : 0xD0 + num <> 0xFF) by lia.
  assert (Hcl : closes (0xD0 + num) (pad_bits P1) (2 ^ pad_bits P1 - 1)).
  { unfold closes. pose proof (pow2_pos (pad_bits P1) ltac:(lia)). lia. }
  assert (Hrd : reads (0xD0 + num) rest1 (load_state d)
                  (jdhuff_mcu.get_buffer (jdhuff_mcu.entropy d))
                  (jdhuff_mcu.bits_left (jdhuff_mcu.entropy d))
                  (emitted_codes
                     (run_symbols sp ent0 (last_dc_val (saved (entropy c)))
                        seg) ++ [])
                  (pad_bits P1) (2 ^ pad_bits P1 - 1)).
  { rewrite app_nil_r, Hbl. apply Hreads; assumption. }
  assert (Hdd : jdhuff_mcu.restart_interval d = 0 \/
                Z.of_nat (length seg)
                  <= jdhuff_mcu.restarts_to_go (jdhuff_mcu.entropy d)
                  < 2 ^ 32) by (right; rewrite Htg; lia).
  destruct (run_decode (0xD0 + num) rest1 _ _ sp ent0 tabs Hcl Hag seg _ d []
              Hokseg Hdd Hins Hpd Hnz (Forall_nil _) Hrd)
    as (dk & Hdeck & Hrdk & Rs & Hpdk & ERk & ECk & ETk).
  rewrite ER, (proj2 (Z.eqb_neq _ 0) N0), Htg in ETk.
  pose proof Rs as (Ewk & Eik & Edk & Enk).
  destruct (process_restart_reads dk num rest1 (pad_bits P1)
              (2 ^ pad_bits P1 - 1) Hnum07)
    as (dr & Hp & Hat & Ewdr & Edcdr); try assumption.
  { rewrite Enk. exact Hdnum. }
  { rewrite Edk. exact Hdb. }
  rewrite ERk, ECk, ER, EC in Hat.
  assert (Hatr : decoder_at (restart_interval sp) (comps_in_scan sp)
                   (next_restart_num (entropy cr)) rest1 dr).
  { unfold cr, after_restart. cbn [entropy next_restart_num].
    rewrite Enum. exact Hat. }
  assert (Hpdr : predictions_agree (Z.to_nat (comps_in_scan sp))
                   (last_dc_val (saved (entropy cr)))
                   (jdhuff_mcu.last_dc_val (jdhuff_mcu.entropy dr))).
  { rewrite Edr, Edcdr, ECk, EC. apply predictions_agree_reset.
    rewrite Dc. apply Hpdk. }
  destruct (Hdecr dr Hatr Hpdr) as (d' & pad & Hdec' & Hpad' & Hrd' & Ew' & Ei').
  exists d', pad.
  split; [|split; [exact Hpad'|split; [exact Hrd'|split; [|exact Ei']]]].
  - rewrite length_app.
    apply (decode_mcus_app tabs (length seg) (length (mcu :: more)) d dk d'
             seg (mcu :: more) Hdeck).
    cbn [length decode_mcus] in Hdec' |- *.
    rewrite (decode_mcu_restart tabs dk dr); [exact Hdec'| | |exact Hp|].
    + rewrite ERk, ER. exact N0.
    + lia.
    + destruct Hat as (_ & _ & _ & _ & _ & _ & _ & _ & Etr). rewrite Etr.
      exact N0.
  - rewrite Ew', Ewdr, Ewk. reflexivity.
Qed.

(** X22.  A scan comes back from its bytes.  Let [encode_mcu_huff],
    started by [start_pass_huff], encode a list of MCUs of blocks in
    the range of 8-bit data, and let [finish_pass_huff] flush the bit
    buffer; let B be the bytes written.  Let the decoder have blocks,
    components and tables that agree with the encoder's, stand at B
    followed by a marker, with an empty bit buffer, a full restart
    counter, RST0 expected and the DC predictions of the encoder.  Then
    [decode_mcu], called once for each MCU on a cleared buffer, returns
    TRUE each time and delivers exactly the MCUs that were encoded,
    whatever the restart interval: each restart marker is taken by
    process_restart where the encoder put it.  At the end fewer than
    eight bits are left in the bit buffer, the marker behind B is the
    next thing in the input or already in unread_marker, no warning has
    been logged and insufficient_data is clear. *)
Theorem scan_round_trip :
  forall c0 tabs mcus c1 c2,
    scans_agree (scan c0) (entropy c0) tabs ->
    lim_Se (scan c0) = 63 ->
    natural_order (scan c0) = jpeg_natural_order ->
    0 <= restart_interval (scan c0) < 2 ^ 32 ->
    dest_room (dest c0) ->
    Forall (mcu_ok (scan c0)) mcus ->
    encode_mcus (start_pass_huff c0) mcus = Returned (true, c1) ->
    finish_pass_huff c1 = Returned c2 ->
    exists B,
      dest_written (dest c2) = dest_written (dest c0) ++ B /\
      forall d m rest,
        m <> 0 -> m <> 0xFF ->
        decoder_at (restart_interval (scan c0)) (comps_in_scan (scan c0)) 0
          (B ++ 0xFF :: m :: rest) d ->
        predictions_agree (Z.to_nat (comps_in_scan (scan c0)))
          (last_dc_val (saved (entropy (start_pass_huff c0))))
          (jdhuff_mcu.last_dc_val (jdhuff_mcu.entropy d)) ->
        exists d',
          decode_mcus (length mcus) tabs d = Returned (McusDone d' mcus) /\
          0 <= jdhuff_mcu.bits_left (jdhuff_mcu.entropy d') < 8 /\
          ((jdmarker.unread_marker (jdhuff_mcu.reader d') = 0 /\
            jdmarker.next_input_byte (jdhuff_mcu.reader d')
              = 0xFF :: m :: rest) \/
           (jdmarker.unread_marker (jdhuff_mcu.reader d') = m /\
            jdmarker.next_input_byte (jdhuff_mcu.reader d') = rest)) /\
          jdmarker.warnings (jdhuff_mcu.reader d')
            = jdmarker.warnings (jdhuff_mcu.reader d) /\
          jdmarker.insufficient_data (jdhuff_mcu.reader d') = false.
Proof.
  intros c0 tabs mcus c1 c2 Hag HSe Hno HR Hroom Hok Hrun Hfin.
  set (sp := scan c0) in *.
  assert (Hc : encoder_at sp (entropy c0) (start_pass_huff c0)).
  { unfold encoder_at, start_pass_huff.
    cbn [entropy saved scan dest restarts_to_go next_restart_num
         dc_derived_tbls ac_derived_tbls].
    split; [reflexivity|]. split; [reflexivity|]. split; [reflexivity|].
    split; [exact Hroom|]. split; [|lia].
    unfold bit_buffer_ok. cbn [put_bits put_buffer].
    split; [lia|reflexivity]. }
  assert (Hpred : predictions_agree (Z.to_nat (comps_in_scan sp))
                    (last_dc_val (saved (entropy (start_pass_huff c0))))
                    (last_dc_val (saved (entropy (start_pass_huff c0))))).
  { unfold start_pass_huff. cbn [entropy saved last_dc_val].
    apply predictions_agree_reset. reflexivity. }
  assert (Hex : forall m rest, m <> 0 -> m <> 0xFF ->
    exists B,
      dest_written (dest c2) = dest_written (dest c0) ++ B /\
      forall d,
        decoder_at (restart_interval sp) (comps_in_scan sp) 0
          (B ++ 0xFF :: m :: rest) d ->
        predictions_agree (Z.to_nat (comps_in_scan sp))
          (last_dc_val (saved (entropy (start_pass_huff c0))))
          (jdhuff_mcu.last_dc_val (jdhuff_mcu.entropy d)) ->
        exists d' pad,
          decode_mcus (length mcus) tabs d = Returned (McusDone d' mcus) /\
          0 <= pad < 8 /\
          reads m rest (load_state d')
            (jdhuff_mcu.get_buffer (jdhuff_mcu.entropy d'))
            (jdhuff_mcu.bits_left (jdhuff_mcu.entropy d')) [] pad
            (2 ^ pad - 1) /\
          jdmarker.warnings (jdhuff_mcu.reader d')
            = jdmarker.warnings (jdhuff_mcu.reader d) /\
          jdmarker.insufficient_data (jdhuff_mcu.reader d') = false).
  { intros m rest Hm0 Hm1.
    apply (scan_run sp (entropy c0) tabs m rest Hag HSe Hno HR Hm0 Hm1
             (length mcus) mcus (start_pass_huff c0) c1 c2); try assumption.
    - apply Nat.le_refl.
    - reflexivity.
    - reflexivity. }
  destruct (Hex 1 [] ltac:(lia) ltac:(lia)) as (B & EB & _).
  exists B. split; [exact EB|].
  intros d m rest Hm0 Hm1 Hat Hpd.
  destruct (Hex m rest Hm0 Hm1) as (B' & EB' & Hdec).
  assert (B' = B) by (rewrite EB in EB'; apply app_inv_head in EB'; auto).
  subst B'.
  destruct (Hdec d Hat Hpd)
    as (d' & pad & Hrun' & Hpad & (D & V & _ & Hbl & Hlen & _) & Ew & Ei).
  exists d'. split; [exact Hrun'|].
  cbn [codes_length] in Hlen. unfold unread_length in Hlen.
  assert (ED : D = []) by (destruct D; [reflexivity|cbn [length] in Hlen; lia]).
  subst D. cbn [length] in Hlen.
  split; [lia|]. split; [|split; assumption].
  unfold segment_view, load_state in V.
  cbn [jdhuff.cinfo jdhuff.next_input_byte stuff app] in V.
  destruct V as [[A C]|[A [_ C]]]; [left|right]; split; assumption.
Qed.

Lemma scan_round_trip_witness :
  exists d',
    decode_mcus 2 ex_scan_tables ex_scan_decoder
      = Returned (McusDone d' ex_scan_mcus) /\
    0 <= jdhuff_mcu.bits_left (jdhuff_mcu.entropy d') < 8 /\
    ((jdmarker.unread_marker (jdhuff_mcu.reader d') = 0 /\
      jdmarker.next_input_byte (jdhuff_mcu.reader d') = [0xFF; 0xD9]) \/
     (jdmarker.unread_marker (jdhuff_mcu.reader d') = 0xD9 /\
      jdmarker.next_input_byte (jdhuff_mcu.reader d') = [])) /\
    jdmarker.warnings (jdhuff_mcu.reader d') = [] /\
    jdmarker.insufficient_data (jdhuff_mcu.reader d') = false.
Proof.
  assert (Hag : scans_agree (scan ex_scan_encoder) (entropy ex_scan_encoder)
                  ex_scan_tables).
  { split; [reflexivity|]. intros blkn Hb.
    assert (blkn = 0%nat) by (cbn in Hb; lia). subst blkn.
    split; [reflexivity|]. split; [cbn; lia|]. split; [reflexivity|].
    split.
    - exists ex_dc_pair. split; [|split; reflexivity].
      exists 0, huffman_spec.blank_c_derived_tbl, jdhuff.blank_d_derived_tbl.
      repeat split; vm_compute; reflexivity.
    - exists ex_ac_pair. split; [|split; reflexivity].
      exists 0, huffman_spec.blank_c_derived_tbl, jdhuff.blank_d_derived_tbl.
      repeat split; vm_compute; reflexivity. }
  assert (HR : 0 <= restart_interval (scan ex_scan_encoder) < 2 ^ 32)
    by (cbn; lia).
  assert (Hroom : dest_room (dest ex_scan_encoder))
    by (unfold dest_room, room; cbn; unfold JSIZE_MAX; lia).
  assert (Hblock : block_ok ex_small_block).
  { split; [reflexivity|]. split; [cbn; lia|].
    apply Forall_forall. intros c Hin.
    assert (Hc : c = 2 \/ c = 0).
    { revert Hin. vm_compute. intuition. }
    destruct Hc as [-> | ->]; cbn; lia. }
  assert (Hok : Forall (mcu_ok (scan ex_scan_encoder)) ex_scan_mcus).
  { assert (Hmcu : mcu_ok (scan ex_scan_encoder) [ex_small_block])
      by (split; [reflexivity|constructor; [exact Hblock|constructor]]).
    constructor; [exact Hmcu|constructor; [exact Hmcu|constructor]]. }
  destruct (scan_round_trip ex_scan_encoder ex_scan_tables ex_scan_mcus
              ex_scan_encoded ex_scan_finished Hag eq_refl eq_refl HR Hroom
              Hok ltac:(vm_compute; reflexivity)
              ltac:(vm_compute; reflexivity)) as (B & EB & Hdec).
  assert (EB' : B = [0x95; 0x8F; 0xFF; 0xD0; 0x95; 0x8F]).
  { vm_compute in EB. symmetry. exact EB. }
  subst B.
  destruct (Hdec ex_scan_decoder 0xD9 [] ltac:(lia) ltac:(lia))
    as (d' & Hrun & Hbl & Hnext & Hw & Hi).
  - unfold decoder_at. repeat split.
  - split; [reflexivity|]. intros i Hi.
    change (Z.to_nat (comps_in_scan (scan ex_scan_encoder))) with 1%nat
      in Hi.
    assert (i = 0%nat) by lia. subst i.
    split; [reflexivity|]. vm_compute. split; [discriminate|reflexivity].
  - exists d'. repeat split; try assumption; try apply Hbl.
Defined.

End scan_roundtrip_properties.
